(* ===== verification/_CoqProject ===== *)
-Q . S2P
Prelude.v
GoParse.v
Sha256.v
HashId.v
Objfmt.v
Encode.v
TnWire.v
Cache.v
Generational.v
Registry.v
TxWire.v
TxBuild.v
Submit.v
Handlers.v
FirstPull.v
Announce.v
Health.v
Slab.v
Lanes.v
UpTunnel.v
Retrieval.v
TnAsset.v
Reverse.v
EndToEnd.v
System.v
Routes.v
TnBench.v
Metrics.v
Startup.v
Shutdown.v
ClusterState.v
Json.v
HealthHttp.v
Drain.v
Freshness.v
AnnouncePull.v
Failover.v
Instruments.v
JobPool.v
PropLoad.v
LogStats.v
Tracing.v
CommandLine.v
Serving.v
ObjectLanes.v
TnFeed.v
Members.v
