(* ===== verification/Prelude.v ===== *)
(** * teranode-bridge: a verification library

    The bridge (Go, under [src/]) stands between an object fabric and a
    Teranode cluster. Downwards, delivery lanes receive transactions, subtree
    frames (BRC-143) and block frames (BRC-144); transactions are batched and
    submitted to the cluster, objects are cached and announced, and the cluster
    pulls them back over HTTP. Upwards, the reverse path hears what the cluster
    produced, fetches it, builds push frames and sends them into the fabric.
    Two registries remember what crossed the bridge and what was announced, so
    that nothing is published back to where it came from.

    ** Files

    - [Prelude]: Go values and outcomes shared by every file: machine integers
      ([u64], [i64], [+i], [*i]), byte strings and their integer encodings,
      32-byte hashes, the outcome type [res] (value, error, panic) with its
      monad, slice expressions that panic out of range, counted loops; the
      tactics [rstep], [inv_res], [bdestruct_guard], the databases [bridge] and
      [lens].
    - [GoParse]: the standard library's readers of integers, booleans and
      durations ([strconv], [time.ParseDuration]), with their round trips.
    - [Sha256], [HashId]: [crypto/sha256] and [hashid/hashid.go] (wire and
      display order, parsing, double SHA-256).
    - [Objfmt]: the shared object codec, which is another module's code, as the
      classes [Objfmt] and [ObjfmtLaws], with a concrete instance.
    - [Encode], [TnWire]: [encode/encode.go] (push frames) and
      [tnwire/block.go] (conversion to and from Teranode's block
      serialization).
    - [Cache], [Generational], [Registry]: [cache/cache.go] (sharded LRU),
      [cache/generational.go] (two-generation transaction cache),
      [registry/registry.go].
    - [TxWire], [TxBuild], [Submit]: [internal/txpipe/txpipe.go]: the walk over
      transaction inputs; configuration, routing and the builder goroutine; the
      submission, settlement and retry of batches.
    - [Handlers]: [cmd/teranode-bridge/main.go]: the handlers of the three
      lanes, echo verification, flag validation and readiness predicates.
    - [Slab], [Lanes]: [lanes/lanes.go]: object ownership over an explicit
      memory; the connections of a lane as interleaved events, against the
      interface [Session] that the transaction session implements.
    - [FirstPull], [Announce]: [FirstPull] of [internal/obs/obs.go] and
      [announce/announce.go], against the interface [Protowire].
    - [Health]: [internal/health/health.go] and [buildChecks] of the command.
    - [UpTunnel]: [internal/submit/uptunnel.go].
    - [Retrieval]: [retrieval/server.go] over the interface [Store], which both
      caches implement.
    - [TnAsset]: [internal/tnasset/client.go].
    - [Reverse]: [reverse/reverse.go], [reverse/promoter.go] and the keepalive
      settings of [reverse/dial.go].
    - [EndToEnd]: lanes, cache, retrieval plane, asset client and reverse path
      put together.
    - [System]: the bridge as one state machine over deliveries, notifications,
      pulls and role changes, and the ideal bridge it refines.
    - [Routes]: [Handler] of [retrieval/server.go] on [net/http]'s mux.
    - [TnBench]: [hack/tnbench/main.go]: the propagation mock, with its own
      transaction walk, and the feeder.
    - [Metrics]: [internal/metrics/collector.go], [internal/metrics/metrics.go]
      and the [Stats] functions a scrape reads.
    - [Startup]: what [main] builds and starts, and with which exit code it
      refuses; [internal/activation/activation.go]; the credentials of
      [reverse/dial.go]; [reverse.New].
    - [Shutdown]: the order in which lanes, connections and builders stop
      ([main], [Serve] of [lanes/lanes.go]).
    - [ClusterState]: [reverse/clusterstate.go] and the gauges of
      [internal/obs/obs.go] it sets.
    - [Json], [HealthHttp]: [encoding/json] for the values the bridge writes,
      with a reader; the document and the handler of [internal/health/health.go],
      the routes of [Serve] in [internal/metrics/metrics.go], the probe of
      [reverse/promoter.go].
    - [Drain], [Freshness]: the drain goroutine of [lanes/lanes.go]; its coarse
      clock and cached freshness stamp, and [timed] of [retrieval/server.go].
    - [AnnouncePull]: the lane handlers with the producer they call, the record
      a consumer decodes, its pull through the routes, and the stopwatch.
    - [Failover]: a primary's endpoint and the promoter and subscriber of its
      standby ([reverse/promoter.go]) as one machine.
    - [Instruments]: the metric vectors and buckets of [internal/obs/obs.go],
      the hooks of [internal/obs/kafka/kafka.go], and the registration in [New]
      of [internal/metrics/metrics.go].
    - [JobPool]: the pooled runs of [internal/txpipe/txpipe.go] over explicit
      arrays and slices.
    - [PropLoad]: [hack/propbench/propload/main.go].
    - [LogStats]: [logStats] and the recorder's sources in
      [cmd/teranode-bridge/main.go].
    - [Tracing]: [Init] of [internal/tracing/tracing.go].
    - [CommandLine]: the flags of [main] with their defaults, the standard
      library's [flag] package, the head of [main] up to [Startup].
    - [Serving]: the group of tasks [main] runs: [Serve] of the lanes and of the
      two HTTP servers with their listeners and bound flags, [waitLanesBound],
      the exit status.
    - [ObjectLanes]: the subtree and block lanes running their handlers, and the
      reverse path gated by [submitterReady] over their [Stats], as one machine.
    - [TnFeed]: the commands of [hack/tnbench/main.go].
    - [Members]: the transaction lane, its cache, the subtree lane and the
      whole-subtree route put together.

    In each file a [Module] named after the Go package holds the translated
    definitions, under the names of the source; the specifications, lemmas and
    theorems follow it, and the witnesses close the file.

    ** How the code is modelled

    Functions return a value, an error or a panic ([res]); integers are kept at
    their width where a conversion or an overflow matters. A mutable object is
    a record passed through its methods; a mutex-protected method is one step.
    The clock is an argument of each operation. What the code does not decide
    (HTTP answers, dials and writes, broker answers, cancellation, the choice
    of an endpoint) is an argument too, and theorems hold for every choice.
    Goroutines are step relations: [TxBuild.bstep] is a builder with its
    channel and its linger timer, [Lanes.lstep] a lane with its connections and
    the builders behind its queue, [Shutdown.step] lanes, signal and builders
    while the process stops; invariants are proved by induction on
    reachability. Where every choice can be named in an event the machine is a
    function of the events ([System], [Freshness], [Failover], [JobPool],
    [Serving], [ObjectLanes]). An error value keeps the constant part of its
    text. The standard library and [errgroup] are modelled by what their
    documentation says of the calls made. Other code that is not in the repository is a class with laws
    ([Objfmt], [Protowire]); every theorem that uses one has a witness with a
    concrete instance.

    ** What the theorems show

    - Wire formats. A block survives encoding, conversion and parsing, and a
      frame that is converted and parsed re-encodes to the same bytes; hashes
      and announcements round trip; the decoders do not panic, except on counts
      of [2^57] and more, where [FromTeranode] does.
    - Stores. An LRU shard refines a list with a byte ceiling; the byte and
      entry bounds hold after any sequence of calls; an admitted transaction
      and a registered hash survive until half the TTL or a generation's worth
      of traffic has passed.
    - Transaction pipe. A lane connection, the queue, the builder and
      submission lose, duplicate and reorder nothing; sealed batches honour
      the batch endpoint's limits and never hold a transaction with one it
      spends; the dependency walk is exact; every batch is settled within a
      bounded number of requests and booked; shutdown drains.
    - Lanes. The counters are exact under every interleaving; the slab cannot
      be told from separate allocations, nor a pooled run from a fresh one; the
      cached freshness stamp reads as one set for every object; a drain ends
      within one and a half times its timeout.
    - Objects. A delivered object is servable before it is announced, is
      announced once, and again when the announcement failed; the record
      published decodes to a URL whose pull is answered with the object and
      timed once; what is pulled back rebuilds to the delivered frame bit for
      bit; a subtree whose transactions were delivered is answered with all of
      them, under every interleaving of the lane's connections ([Members]).
    - Reverse path. What crossed the bridge is not published, what is published
      is on record first, its echo is recognised; a standby takes the role
      over on a run of failed probes of its primary's endpoint, gives it back
      on a run of good ones, and publishes nothing before; nothing is published
      unless both class lanes have a connection open ([ObjectLanes]); the reconnect
      backoff and the up tunnel's failover are bounded.
    - The whole. Within the window the registries remember, the bridge handles
      any sequence of events without a panic, what it receives, announces and
      sends is what a bridge that never forgets would, and no object loops
      ([System]). A pull of the announced URL passes the route table and is
      answered with the delivered object ([Routes]).
    - The test rig. The mock and the pipe agree on every byte string about what
      a transaction spends; the mock accepts every batch a running builder
      seals, and the retries deliver a batch whose members spend each other
      ([TnBench]); the feeder writes the stream it describes; the load
      generator never repeats a transaction and its tallies add up
      ([PropLoad]).
    - Start and stop. Every configuration can be written on the command line
      and is read back exactly; the process starts exactly when its flags and
      its environment allow; readiness is reached once the lanes serve, and
      while it is reported and the process is not stopping every lane accepts
      and the retrieval plane answers; the exit status is 1 exactly when a task
      failed; a shutdown in which no lane fails loses nothing that was queued,
      and completes.
    - Observability. A scrape is well typed and has no duplicate series, the
      legacy prefix only adds aliases, every collector registers, the
      cluster-state gauges agree, the log and the scrape report the same
      numbers, the Kafka counters count produce requests, the pull gauge moves
      on pulls only, tracing installs nothing when a step of it fails.
    - Health. Only the lanes and the retrieval plane take the bridge out of
      rotation; the document of a health route is valid JSON that reads back
      as the checks' results, whatever bytes their messages hold.
    - Where the code departs from its comments, a theorem states what it does:
      [TnWire.FromTeranode_bump_panics], [Cache.put_oversize_lost],
      [Generational.gen_budget_exceeded], [TxWire.dependsOnBatch_panics],
      [TxBuild.shutdown_breaks_contract], [Submit.anonymous_report_accepted],
      [Reverse.failed_send_not_retried], [EndToEnd.wrong_body_served],
      [Health.asset_404_unhealthy], [Metrics.unserved_split_wraps],
      [Shutdown.failed_lane_loses], [ClusterState.unlisted_state_all_zero],
      [Routes.root_prefix_panics], [Instruments.write_errors_overcount],
      [LogStats.disabled_cache_exposed], [Serving.shutdown_cuts_pulls],
      [Serving.bound_while_draining], [TnFeed.feed_repeats].

    ** Bounds and fuel

    Counted loops over [uint64] counts recurse on the binary representation
    ([loop_Z]) and need no fuel. [Announce.Decode] iterates at most once per
    byte of its input and once more, each iteration consuming a tag; that this
    suffices is part of its theorem. [goflag.Parse] takes one step more than there
    are arguments, each step consuming one, and [gotime.ParseDuration] one per
    byte ([parse_loop_fuel], [components_fuel]). The retry loops recurse on the number of
    attempts the code allows. The hypothesis [fits] (fewer than [2^48] elements)
    is the address-space bound every Go slice obeys.

    ** Not modelled

    Sockets and the HTTP servers' own loops; TLS and gRPC below the choice of
    credentials; the OpenTelemetry, Prometheus and Kafka libraries below the
    calls made to them; the profiles and the log-level handler behind their
    routes; the logging set-up and the host inventory, which other modules
    make; generated protobuf code; CI. Log lines other than those of [logStats],
    and the durations measured for histograms, are left out of the operations
    that emit them. What remains of the sources outside these is imports,
    comments, one-line accessors and adapters ([ListenerAddr], [builderFunc],
    [cacheStore]), and calls of those libraries. *)

From Stdlib Require Import Strings.Byte.
From stdpp Require Import base list gmap strings numbers option countable.

#[global] Open Scope Z_scope.
#[export] Set Warnings "-clear-no-such-hyp".

(** ** Go values: machine integers, bytes, slices *)

(** Lengths are [int]s in Go; the model carries them as [Z]. *)
Abbreviation zlen l := (Z.of_nat (length l)).

Definition two63 : Z := 2 ^ 63.
Definition two64 : Z := 2 ^ 64.

(** [uint64] arithmetic wraps modulo [2^64]; the conversion [int(x)] of a
    [uint64], and [int] arithmetic, wrap into [[-2^63, 2^63)]. *)
Definition u64 (z : Z) : Z := z mod two64.
Definition i64 (z : Z) : Z := (z + two63) mod two64 - two63.

(** [int] addition and multiplication. *)
Definition iadd (a b : Z) : Z := i64 (a + b).
Definition imul (a b : Z) : Z := i64 (a * b).
#[global] Infix "+i" := iadd (at level 50, left associativity).
#[global] Infix "*i" := imul (at level 40, left associativity).

(** No Go slice is longer than the 48-bit address space; [make] panics beyond. *)
Definition max_alloc : Z := 2 ^ 48.
Definition fits {A} (b : list A) : Prop := Z.of_nat (length b) < max_alloc.

(** [time.Time.Sub] saturates at the ends of [time.Duration]. *)
Definition time_sub (t u : Z) : Z := Z.max (- two63) (Z.min (two63 - 1) (t - u)).

Definition byte_val (b : byte) : Z := Z.of_N (Byte.to_N b).
Definition byte_of (z : Z) : byte :=
  default x00 (Byte.of_N (Z.to_N (z mod 256))).

#[global] Instance byte_eq_decision : EqDecision byte := Byte.byte_eq_dec.
#[global] Instance byte_countable : Countable byte :=
  inj_countable Byte.to_N Byte.of_N Byte.of_to_N.

(** A Go string is a sequence of bytes; [str] is a string literal. *)
Abbreviation gostring := (list byte).
Definition str (s : string) : gostring := String.list_byte_of_string s.

(** [strings.Split] and [strings.Join] for a separator of one byte. *)
Fixpoint split_on (sep : byte) (s : gostring) : list gostring :=
  match s with
  | [] => [[]]
  | c :: s =>
      if bool_decide (c = sep) then [] :: split_on sep s
      else match split_on sep s with
           | l :: ls => (c :: l) :: ls
           | [] => [[c]]
           end
  end.
Fixpoint join_on (sep : byte) (ls : list gostring) : gostring :=
  match ls with
  | [] => []
  | [l] => l
  | l :: ls => l ++ [sep] ++ join_on sep ls
  end.

(** [binary.LittleEndian] and [binary.BigEndian], [n] bytes wide. *)
Fixpoint le_bytes (n : nat) (z : Z) : list byte :=
  match n with
  | O => []
  | S n => byte_of z :: le_bytes n (z / 256)
  end.

Fixpoint le_val (l : list byte) : Z :=
  match l with
  | [] => 0
  | b :: l => byte_val b + 256 * le_val l
  end.

Definition be_bytes (n : nat) (z : Z) : list byte := reverse (le_bytes n z).
Definition be_val (l : list byte) : Z := le_val (reverse l).
#[global] Arguments be_bytes : simpl never.

(** ** Outcomes of a Go call

    A call returns a value, returns a non-nil [error], or panics (an index or
    slice expression out of range, a [make] with an impossible length). *)

Inductive error : Type :=
| EMsg (msg : string)       (** an ordinary error *)
| EReject (msg : string).   (** an error wrapping [lanes.ErrReject] *)

#[global] Instance error_eq_decision : EqDecision error.
Proof. solve_decision. Defined.

Inductive res (A : Type) : Type :=
| Ok (a : A)
| Err (e : error)
| Panic.
Arguments Ok {A} a.
Arguments Err {A} e.
Arguments Panic {A}.

#[global] Instance res_ret : MRet res := @Ok.
#[global] Instance res_bind : MBind res := fun A B f m =>
  match m with
  | Ok a => f a
  | Err e => Err e
  | Panic => Panic
  end.
#[global] Instance res_eq_decision {A} `{EqDecision A} : EqDecision (res A).
Proof. solve_decision. Defined.

Definition res_ok {A} (r : res A) : bool :=
  match r with Ok _ => true | _ => false end.
Definition no_panic {A} (r : res A) : Prop := r ≠ Panic.

(** [if cond { return ..., err }]: continue when the guard does not fire. *)
Definition guard_err (cond : bool) (e : error) : res unit :=
  if cond then Err e else Ok tt.

(** [b[lo:hi]]; out of range panics. Capacities are taken to be lengths. *)
Definition slice {A} (b : list A) (lo hi : Z) : res (list A) :=
  if (0 <=? lo) && (lo <=? hi) && (hi <=? zlen b)
  then Ok (take (Z.to_nat (hi - lo)) (drop (Z.to_nat lo) b))
  else Panic.

(** [binary.BigEndian.Uint64(b[lo:hi])]. *)
Definition u64be (b : list byte) (lo hi : Z) : res Z :=
  s ← slice b lo hi; Ok (be_val s).

(** [b[lo:]]. *)
Definition slice_from {A} (b : list A) (lo : Z) : res (list A) :=
  slice b lo (zlen b).

(** [b[i]]. *)
Definition index {A} (b : list A) (i : Z) : res A :=
  if 0 <=? i then
    match b !! Z.to_nat i with Some x => Ok x | None => Panic end
  else Panic.

(** ** Counted loops

    [for i := 0; i < n; i++] over a state, where the body either goes on with
    a new state ([inl]) or leaves the function ([inr]). The counter is a
    [uint64], so the loop recurses on the binary representation of [n] and
    stops as soon as the body leaves: it is total, needs no fuel and still
    evaluates when [n] is astronomically large. *)
Section loop.
Context {St R : Type} (body : St → St + R).

Fixpoint loop_pos (p : positive) (s : St) : St + R :=
  match p with
  | xH => body s
  | xO p =>
      match loop_pos p s with
      | inl s' => loop_pos p s'
      | inr r => inr r
      end
  | xI p =>
      match body s with
      | inl s0 =>
          match loop_pos p s0 with
          | inl s' => loop_pos p s'
          | inr r => inr r
          end
      | inr r => inr r
      end
  end.

Definition loop_Z (n : Z) (s : St) : St + R :=
  match n with
  | Zpos p => loop_pos p s
  | _ => inl s
  end.

Fixpoint loop_nat (n : nat) (s : St) : St + R :=
  match n with
  | O => inl s
  | S n =>
      match body s with
      | inl s' => loop_nat n s'
      | inr r => inr r
      end
  end.

Lemma loop_nat_add n m s :
  loop_nat (n + m) s =
    match loop_nat n s with inl s' => loop_nat m s' | inr r => inr r end.
Proof.
  revert s; induction n as [|n IH]; intros s; simpl; [done|].
  destruct (body s); [apply IH|done].
Qed.

Lemma loop_pos_nat p s : loop_pos p s = loop_nat (Pos.to_nat p) s.
Proof.
  revert s; induction p as [p IH|p IH|]; intros s; cbn [loop_pos].
  - replace (Pos.to_nat p~1) with (S (Pos.to_nat p + Pos.to_nat p))%nat by lia.
    cbn [loop_nat]. destruct (body s) as [s0|]; [|done].
    rewrite loop_nat_add, !IH. by destruct (loop_nat _ _).
  - replace (Pos.to_nat p~0) with (Pos.to_nat p + Pos.to_nat p)%nat by lia.
    rewrite loop_nat_add, !IH. by destruct (loop_nat _ _).
  - change (Pos.to_nat 1) with 1%nat; simpl. by destruct (body s).
Qed.

(** The binary loop is the iteration of its body. *)
Lemma loop_Z_nat n s : loop_Z n s = loop_nat (Z.to_nat n) s.
Proof. destruct n; simpl; [done|apply loop_pos_nat|done]. Qed.
End loop.

(** ** Hashes: Go's [[32]byte] *)

(** Every 32-byte array type of the program ([hashid.Hash], [cache.Key],
    [registry.Key]) is this type; Go converts between them freely. *)
Record Hash : Type := mkHash {
  hbytes : list byte;
  hash_len : (length hbytes =? 32)%nat = true
}.

(** Makes the length proof of a closed hash compute to [eq_refl]. *)
Definition norm_true (b : bool) : b = true → b = true :=
  match b with
  | true => fun _ => eq_refl
  | false => fun H => H
  end.

Lemma copy32_len (b : list byte) :
  (length (resize 32 x00 b) =? 32)%nat = true.
Proof. by rewrite length_resize. Qed.

(** [copy(h[:], b)] into a zeroed [[32]byte]. *)
Definition copy32 (b : list byte) : Hash :=
  mkHash (resize 32 x00 b) (norm_true _ (copy32_len b)).

Definition zero_hash : Hash := copy32 [].

Lemma hash_eq (h k : Hash) : hbytes h = hbytes k → h = k.
Proof.
  destruct h as [l H], k as [l' H']; simpl; intros <-. f_equal.
  apply Eqdep_dec.UIP_dec, Bool.bool_dec.
Qed.

Lemma hash_length (h : Hash) : length (hbytes h) = 32%nat.
Proof. apply Nat.eqb_eq, hash_len. Qed.

Lemma copy32_bytes (b : list byte) :
  length b = 32%nat → hbytes (copy32 b) = b.
Proof. intros H; simpl. by apply resize_all_alt. Qed.

Lemma copy32_hbytes (h : Hash) : copy32 (hbytes h) = h.
Proof. apply hash_eq, copy32_bytes, hash_length. Qed.

#[global] Instance hash_eq_decision : EqDecision Hash.
Proof.
  intros h k. destruct (decide (hbytes h = hbytes k)) as [E|E].
  - left; by apply hash_eq.
  - right; by intros ->.
Defined.

#[global] Instance hash_countable : Countable Hash.
Proof.
  refine (inj_countable' hbytes copy32 _). intros h; apply copy32_hbytes.
Defined.

(** [key[0] & (shards-1)], the shard a key lives in: 64 ways by first byte. *)
Definition shards : nat := 64.
Definition shard_index (k : Hash) : nat :=
  Z.to_nat (Z.land (byte_val (hd x00 (hbytes k))) 63).

(** Consecutive 32-byte groups of a byte string. *)
Fixpoint chunks32 (n : nat) (b : list byte) : list (list byte) :=
  match n with
  | O => []
  | S n => take 32 b :: chunks32 n (drop 32 b)
  end.
Definition hashes_of (b : list byte) : list Hash :=
  copy32 <$> chunks32 (length b / 32) b.
Definition concat_hashes (hs : list Hash) : list byte := hs ≫= hbytes.
#[global] Arguments concat_hashes : simpl never.

(** ** Shared automation *)

Create HintDb bridge.
Create Rewrite HintDb lens.

(** Splits a boolean guard of the code into its propositional form. *)
Ltac bdestruct_guard :=
  match goal with
  | |- context [if (?x <? ?y)%Z then _ else _] => destruct (Z.ltb_spec x y)
  | |- context [if (?x <=? ?y)%Z then _ else _] => destruct (Z.leb_spec x y)
  | |- context [if (?x =? ?y)%Z then _ else _] => destruct (Z.eqb_spec x y)
  | H : context [if (?x <? ?y)%Z then _ else _] |- _ => destruct (Z.ltb_spec x y)
  | H : context [if (?x <=? ?y)%Z then _ else _] |- _ => destruct (Z.leb_spec x y)
  | H : context [if (?x =? ?y)%Z then _ else _] |- _ => destruct (Z.eqb_spec x y)
  end.

(** Inverts [m ≫= f = Ok _] hypotheses of the error monad. *)
Lemma res_bind_ok {A B} (m : res A) (f : A → res B) b :
  m ≫= f = Ok b ↔ ∃ a, m = Ok a ∧ f a = Ok b.
Proof.
  destruct m; simpl; split; [eauto| |done| |done|]; by intros (? & [=] & ?); subst.
Qed.

Lemma res_bind_no_panic {A B} (m : res A) (f : A → res B) :
  no_panic m → (∀ a, m = Ok a → no_panic (f a)) → no_panic (m ≫= f).
Proof. unfold no_panic. destruct m; simpl; naive_solver. Qed.

Lemma guard_err_ok c e u : guard_err c e = Ok u ↔ c = false.
Proof. by destruct c, u. Qed.

Lemma guard_err_no_panic c e : no_panic (guard_err c e).
Proof. by destruct c. Qed.
#[export] Hint Resolve guard_err_no_panic : bridge.

(** Advances a monadic definition past a computed result. *)
Ltac rstep := cbn [mbind res_bind mret res_ret guard_err negb andb orb fst snd].

Ltac inv_res :=
  repeat match goal with
  | H : _ ≫= _ = Ok _ |- _ =>
      apply res_bind_ok in H; destruct H as (? & ? & ?)
  | H : guard_err _ _ = Ok _ |- _ => apply guard_err_ok in H
  | H : mret _ = Ok _ |- _ => injection H as ?; subst
  | H : Ok _ = Ok _ |- _ => injection H as ?; subst
  | H : Err _ = Ok _ |- _ => discriminate H
  | H : Panic = Ok _ |- _ => discriminate H
  end.

(** ** Machine integers *)

Lemma two63_pos : 0 < two63. Proof. by compute. Qed.
Lemma two64_two63 : two64 = 2 * two63. Proof. done. Qed.

Lemma i64_small z : - two63 ≤ z < two63 → i64 z = z.
Proof.
  intros H. unfold i64. rewrite Z.mod_small; [lia|].
  rewrite two64_two63. lia.
Qed.

Lemma i64_range z : - two63 ≤ i64 z < two63.
Proof.
  unfold i64. pose proof (Z.mod_pos_bound (z + two63) two64 ltac:(by compute)).
  rewrite two64_two63 in *. lia.
Qed.

Lemma iadd_small a b : - two63 ≤ a + b < two63 → a +i b = a + b.
Proof. apply i64_small. Qed.
Lemma imul_small a b : - two63 ≤ a * b < two63 → a *i b = a * b.
Proof. apply i64_small. Qed.

(** The bounds as numerals, for [lia]. *)
Lemma bounds_num :
  max_alloc = 281474976710656 ∧ two63 = 9223372036854775808 ∧
  two64 = 18446744073709551616.
Proof. done. Qed.
Ltac num_bounds :=
  let H1 := fresh "Hmax" in let H2 := fresh "H63" in let H3 := fresh "H64" in
  destruct bounds_num as (H1 & H2 & H3).

Lemma u64_small z : 0 ≤ z < two64 → u64 z = z.
Proof. apply Z.mod_small. Qed.

Lemma time_sub_lt t u d : - two63 < d < two63 → time_sub t u < d ↔ t - u < d.
Proof. unfold time_sub. lia. Qed.
Lemma time_sub_gt t u d : - two63 ≤ d < two63 - 1 → d < time_sub t u ↔ d < t - u.
Proof. unfold time_sub. lia. Qed.

(** ** Bytes *)

Lemma byte_val_range b : 0 ≤ byte_val b < 256.
Proof. unfold byte_val. pose proof (Byte.to_N_bounded b). lia. Qed.

Lemma byte_val_of z : byte_val (byte_of z) = z mod 256.
Proof.
  unfold byte_val, byte_of.
  pose proof (Z.mod_pos_bound z 256 ltac:(lia)).
  destruct (Byte.of_N (Z.to_N (z mod 256))) as [b|] eqn:E; simpl.
  - apply Byte.to_of_N in E. lia.
  - apply Byte.of_N_None_iff in E. lia.
Qed.

Lemma byte_val_inj a b : byte_val a = byte_val b → a = b.
Proof.
  unfold byte_val. intros H%N2Z.inj.
  pose proof (Byte.of_to_N a) as Ha. pose proof (Byte.of_to_N b) as Hb.
  rewrite H in Ha. congruence.
Qed.

Lemma byte_of_val b : byte_of (byte_val b) = b.
Proof.
  apply byte_val_inj. rewrite byte_val_of. apply Z.mod_small, byte_val_range.
Qed.

Lemma length_le_bytes n z : length (le_bytes n z) = n.
Proof. revert z; induction n as [|n IH]; intros z; simpl; [done|]. by rewrite IH. Qed.

Lemma le_val_range l : 0 ≤ le_val l < 256 ^ zlen l.
Proof.
  induction l as [|b l IH]; simpl; [lia|].
  pose proof (byte_val_range b).
  rewrite Nat2Z.inj_succ, Z.pow_succ_r by lia. lia.
Qed.

Lemma le_val_bytes n z : le_val (le_bytes n z) = z mod 256 ^ Z.of_nat n.
Proof.
  revert z; induction n as [|n IH]; intros z; simpl.
  - by rewrite Z.mod_1_r.
  - rewrite IH, byte_val_of.
    rewrite Nat2Z.inj_succ, Z.pow_succ_r by lia.
    rewrite Z.rem_mul_r by lia. lia.
Qed.

Lemma le_bytes_val l : le_bytes (length l) (le_val l) = l.
Proof.
  induction l as [|b l IH]; simpl; [done|].
  pose proof (byte_val_range b).
  assert ((byte_val b + 256 * le_val l) / 256 = le_val l) as ->.
  { symmetry; apply (Z.div_unique _ _ _ (byte_val b)); lia. }
  rewrite IH. f_equal.
  apply byte_val_inj. rewrite byte_val_of.
  rewrite (Z.mul_comm 256), Z.mod_add by lia. by apply Z.mod_small.
Qed.

Lemma le_val_inj l k : length l = length k → le_val l = le_val k → l = k.
Proof.
  intros Hl Hv. rewrite <- (le_bytes_val l), <- (le_bytes_val k). congruence.
Qed.

Lemma length_be_bytes n z : length (be_bytes n z) = n.
Proof. unfold be_bytes. by rewrite length_reverse, length_le_bytes. Qed.

Lemma be_val_bytes n z : be_val (be_bytes n z) = z mod 256 ^ Z.of_nat n.
Proof. unfold be_val, be_bytes. by rewrite reverse_involutive, le_val_bytes. Qed.

Lemma be_bytes_val l : be_bytes (length l) (be_val l) = l.
Proof.
  unfold be_val, be_bytes. rewrite <- (length_reverse l), le_bytes_val.
  apply reverse_involutive.
Qed.

Lemma be_val_u64 z : 0 ≤ z < two64 → be_val (be_bytes 8 z) = z.
Proof. intros H. rewrite be_val_bytes. by apply Z.mod_small. Qed.

Lemma be_val_range l : 0 ≤ be_val l < 256 ^ zlen l.
Proof. unfold be_val. pose proof (le_val_range (reverse l)). by rewrite length_reverse in H. Qed.

#[export] Hint Rewrite length_le_bytes length_be_bytes hash_length : lens.

(** ** Slices *)

Lemma slice_ok {A} (b : list A) lo hi :
  0 ≤ lo ≤ hi → hi ≤ zlen b →
  slice b lo hi = Ok (take (Z.to_nat (hi - lo)) (drop (Z.to_nat lo) b)).
Proof.
  intros. unfold slice.
  rewrite !(proj2 (Z.leb_le _ _)) by lia. done.
Qed.

(** Reading a field that follows a prefix and precedes a suffix. *)
Lemma slice_app {A} (p x s : list A) lo hi :
  lo = zlen p → hi = zlen p + zlen x → slice (p ++ x ++ s) lo hi = Ok x.
Proof.
  intros -> ->. rewrite slice_ok.
  - rewrite Nat2Z.id, drop_app_length.
    replace (Z.to_nat (zlen p + zlen x - zlen p)) with (length x) by lia.
    by rewrite take_app_length.
  - lia.
  - rewrite !length_app. lia.
Qed.

Lemma slice_field {A} (b p x s : list A) lo hi :
  b = p ++ x ++ s → lo = zlen p → hi = zlen p + zlen x → slice b lo hi = Ok x.
Proof. intros ->. apply slice_app. Qed.

Lemma u64be_app p z s lo hi :
  lo = zlen p → hi = zlen p + 8 → 0 ≤ z < two64 →
  u64be (p ++ be_bytes 8 z ++ s) lo hi = Ok z.
Proof.
  intros ? -> ?. unfold u64be. rewrite slice_app; [|done|by rewrite length_be_bytes].
  simpl. by rewrite be_val_u64.
Qed.

Lemma slice_inv {A} (b : list A) lo hi x :
  slice b lo hi = Ok x →
  0 ≤ lo ≤ hi ∧ hi ≤ zlen b ∧ zlen x = hi - lo ∧
  b = take (Z.to_nat lo) b ++ x ++ drop (Z.to_nat hi) b.
Proof.
  unfold slice. destruct (_ && _) eqn:E; [|done]. intros [= <-].
  apply andb_true_iff in E as [E1 E3]. apply andb_true_iff in E1 as [E1 E2].
  apply Z.leb_le in E1, E2, E3. repeat split; [lia..| |].
  - rewrite length_take, length_drop. lia.
  - rewrite <- (take_drop (Z.to_nat lo) b) at 1. f_equal.
    rewrite <- (take_drop (Z.to_nat (hi - lo)) (drop (Z.to_nat lo) b)) at 1.
    f_equal. rewrite drop_drop. f_equal. lia.
Qed.

Lemma slice_from_app {A} (p s : list A) lo :
  lo = zlen p → slice_from (p ++ s) lo = Ok s.
Proof.
  intros ->. unfold slice_from.
  pose proof (slice_app p s [] (zlen p) (zlen (p ++ s))) as H.
  rewrite app_nil_r in H. apply H; [done|]. rewrite length_app. lia.
Qed.

Lemma slice_from_field {A} (b p s : list A) lo :
  b = p ++ s → lo = zlen p → slice_from b lo = Ok s.
Proof. intros ->. apply slice_from_app. Qed.

Lemma u64be_field b p z s lo hi :
  b = p ++ be_bytes 8 z ++ s → lo = zlen p → hi = zlen p + 8 → 0 ≤ z < two64 →
  u64be b lo hi = Ok z.
Proof. intros ->. apply u64be_app. Qed.

Lemma slice_from_inv {A} (b : list A) lo x :
  slice_from b lo = Ok x → 0 ≤ lo ≤ zlen b ∧ b = take (Z.to_nat lo) b ++ x ∧
  zlen x = zlen b - lo.
Proof.
  unfold slice_from. intros (?&?&?&Hb)%slice_inv. repeat split; [lia..| |lia].
  rewrite Hb at 1. rewrite Nat2Z.id, drop_all, app_nil_r. done.
Qed.

(** ** Hash lists *)

Lemma length_chunks32 n b : length (chunks32 n b) = n.
Proof. revert b; induction n; intros b; simpl; auto. Qed.

Lemma concat_hashes_cons h hs :
  concat_hashes (h :: hs) = hbytes h ++ concat_hashes hs.
Proof. done. Qed.

Lemma length_concat_hashes hs : length (concat_hashes hs) = (32 * length hs)%nat.
Proof.
  induction hs as [|h hs IH]; [done|].
  rewrite concat_hashes_cons, length_app, IH, hash_length. simpl. lia.
Qed.

Lemma chunks32_concat hs s :
  copy32 <$> chunks32 (length hs) (concat_hashes hs ++ s) = hs.
Proof.
  revert s; induction hs as [|h hs IH]; intros s; simpl; [done|].
  rewrite concat_hashes_cons, <- app_assoc.
  rewrite take_app_length', drop_app_length' by (by rewrite hash_length).
  by rewrite copy32_hbytes, IH.
Qed.

Lemma hashes_of_concat hs : hashes_of (concat_hashes hs) = hs.
Proof.
  unfold hashes_of. rewrite length_concat_hashes.
  rewrite Nat.mul_comm, Nat.div_mul by done.
  pose proof (chunks32_concat hs []) as H. by rewrite app_nil_r in H.
Qed.

Lemma concat_chunks32 n b :
  length b = (32 * n)%nat → concat_hashes (copy32 <$> chunks32 n b) = b.
Proof.
  revert b; induction n as [|n IH]; intros b H; simpl.
  - by destruct b.
  - rewrite concat_hashes_cons; simpl. rewrite IH by (rewrite length_drop; lia).
    change (resize 32 x00 (take 32 b)) with (hbytes (copy32 (take 32 b))).
    rewrite copy32_bytes by (rewrite length_take; lia). apply take_drop.
Qed.

Lemma concat_hashes_of b : (length b `mod` 32 = 0)%nat → concat_hashes (hashes_of b) = b.
Proof.
  intros H. unfold hashes_of. apply concat_chunks32.
  pose proof (Nat.div_mod_eq (length b) 32). lia.
Qed.

Lemma shard_index_lt k : (shard_index k < shards)%nat.
Proof.
  unfold shard_index, shards.
  change 63 with (Z.ones 6). rewrite Z.land_ones by lia.
  pose proof (Z.mod_pos_bound (byte_val (hd x00 (hbytes k))) (2 ^ 6) ltac:(lia)).
  change (2 ^ 6) with 64 in *. lia.
Qed.
(** ** Splitting and joining *)

Lemma split_on_app sep (l s : gostring) :
  sep ∉ l → split_on sep (l ++ sep :: s) = l :: split_on sep s.
Proof.
  induction l as [|c l IH]; intros Hl.
  { cbn [app split_on]. by rewrite (bool_decide_eq_true_2 (sep = sep)). }
  apply not_elem_of_cons in Hl as [Hc Hl].
  cbn [app split_on]. rewrite (bool_decide_eq_false_2 (c = sep)) by congruence. by rewrite IH.
Qed.

Lemma split_on_none sep (l : gostring) : sep ∉ l → split_on sep l = [l].
Proof.
  induction l as [|c l IH]; intros Hl; [done|]. apply not_elem_of_cons in Hl as [Hc Hl].
  cbn [split_on]. rewrite (bool_decide_eq_false_2 (c = sep)) by congruence. by rewrite IH.
Qed.

Lemma split_join sep ls :
  ls ≠ [] → Forall (λ l, sep ∉ l) ls → split_on sep (join_on sep ls) = ls.
Proof.
  induction ls as [|l ls IH]; intros Hne Hf; [done|]. apply list.Forall_cons in Hf as [Hl Hf].
  destruct ls as [|l' ls]; [by apply split_on_none|].
  cbn [join_on app]. rewrite split_on_app by done. f_equal. by apply IH.
Qed.

#[export] Hint Resolve shard_index_lt byte_val_range i64_range : bridge.
