(* ===== verification/GoParse.v ===== *)
(** * Reading numbers: [strconv] and [time] of Go's standard library

    The readers behind the command line's flag values and the health routes'
    timeout parameter: [strconv.ParseBool], [strconv.ParseInt] with the base
    read off the prefix, and [time.ParseDuration]. Fractions of a unit are
    computed in [float64] as the library does, over the standard library's
    [SpecFloat]. An error of a reader is [None]. *)

From Stdlib Require Import Strings.Byte Floats.SpecFloat.
From stdpp Require Import base list strings numbers pretty.
From S2P Require Import Prelude.

Module strconv.
Definition ParseBool (s : gostring) : option bool :=
  if bool_decide (s ∈ str <$> ["1"; "t"; "T"; "TRUE"; "true"; "True"]%string) then Some true
  else if bool_decide (s ∈ str <$> ["0"; "f"; "F"; "FALSE"; "false"; "False"]%string) then Some false
  else None.

(** [lower(c) = c | ('x' - 'X')]. *)
Definition lower (c : byte) : Z := Z.lor (byte_val c) 32.

Definition is_digit (c : byte) : bool := (48 <=? byte_val c) && (byte_val c <=? 57).

Definition digit_val (c : byte) : option Z :=
  if is_digit c then Some (byte_val c - 48)
  else if (97 <=? lower c) && (lower c <=? 122) then Some (lower c - 97 + 10)
  else None.

(** The loop of [ParseUint]: the value, and whether an underscore was seen. *)
Fixpoint digits (base : Z) (s : gostring) (n : Z) (underscores : bool) : option (Z * bool) :=
  match s with
  | [] => Some (n, underscores)
  | c :: s =>
      if bool_decide (c = x5f) then digits base s n true else
      match digit_val c with
      | None => None
      | Some d =>
          if base <=? d then None
          else if two64 <=? n * base + d then None
          else digits base s (n * base + d) underscores
      end
  end.

(** [underscoreOK]: an underscore stands between two digits, the base prefix
    counting as one. *)
Inductive previous : Type := PStart | PDigit | PUnderscore | POther.
Fixpoint underscores_ok (hex : bool) (i : previous) (s : gostring) : bool :=
  match s with
  | [] => match i with PUnderscore => false | _ => true end
  | c :: s =>
      if is_digit c || (hex && (97 <=? lower c) && (lower c <=? 102)) then underscores_ok hex PDigit s
      else if bool_decide (c = x5f) then
        match i with PDigit => underscores_ok hex PUnderscore s | _ => false end
      else match i with PUnderscore => false | _ => underscores_ok hex POther s end
  end.
Definition underscoreOK (s : gostring) : bool :=
  let s := match s with x2d :: s | x2b :: s => s | _ => s end in
  match s with
  | x30 :: c :: r =>
      if (lower c =? 98) || (lower c =? 111) || (lower c =? 120)
      then underscores_ok (lower c =? 120) PDigit r
      else underscores_ok false PStart s
  | _ => underscores_ok false PStart s
  end.

(** [ParseUint(s, 0, 64)]. *)
Definition ParseUint (s : gostring) : option Z :=
  let '(base, r) :=
    match s with
    | x30 :: r =>
        match r with
        | c :: ((_ :: _) as r') =>
            if lower c =? 98 then (2, r')
            else if lower c =? 111 then (8, r')
            else if lower c =? 120 then (16, r')
            else (8, r)
        | _ => (8, r)
        end
    | _ => (10, s)
    end in
  match s with
  | [] => None
  | _ =>
      match digits base r 0 false with
      | Some (n, underscores) => if underscores && negb (underscoreOK s) then None else Some n
      | None => None
      end
  end.

(** [ParseInt(s, 0, 64)]. *)
Definition ParseInt (s : gostring) : option Z :=
  let '(neg, r) := match s with
                   | x2b :: r => (false, r)
                   | x2d :: r => (true, r)
                   | _ => (false, s)
                   end in
  match ParseUint r with
  | None => None
  | Some un =>
      if neg : bool then (if two63 <? un then None else Some (- un))
      else if two63 <=? un then None else Some un
  end.
End strconv.

Module gotime.
Import strconv.

(** [leadingInt]: the digits the string starts with, at most [2^63]. *)
Fixpoint leadingInt (s : gostring) (x : Z) : option (Z * gostring) :=
  match s with
  | c :: s' =>
      if is_digit c then
        if Z.quot two63 10 <? x then None
        else
          let x := x * 10 + (byte_val c - 48) in
          if two63 <? x then None else leadingInt s' x
      else Some (x, s)
  | [] => Some (x, s)
  end.

(** [leadingFraction]: the digits, and the power of ten they are over; digits
    past the precision are read and dropped. *)
Fixpoint leadingFraction (s : gostring) (x scale : Z) (overflow : bool) : Z * Z * gostring :=
  match s with
  | c :: s' =>
      if is_digit c then
        if overflow then leadingFraction s' x scale true
        else if Z.quot (two63 - 1) 10 <? x then leadingFraction s' x scale true
        else
          let y := x * 10 + (byte_val c - 48) in
          if two63 <? y then leadingFraction s' x scale true
          else leadingFraction s' y (scale * 10) false
      else (x, scale, s)
  | [] => (x, scale, s)
  end.

Definition unitMap (u : gostring) : option Z :=
  if bool_decide (u = str "ns") then Some 1
  else if bool_decide (u = str "us") then Some (10 ^ 3)
  else if bool_decide (u = [xc2; xb5; x73]) then Some (10 ^ 3)   (** U+00B5 *)
  else if bool_decide (u = [xce; xbc; x73]) then Some (10 ^ 3)   (** U+03BC *)
  else if bool_decide (u = str "ms") then Some (10 ^ 6)
  else if bool_decide (u = str "s") then Some (10 ^ 9)
  else if bool_decide (u = str "m") then Some (60 * 10 ^ 9)
  else if bool_decide (u = str "h") then Some (3600 * 10 ^ 9)
  else None.

(** The unit runs up to the next digit or point. *)
Fixpoint unit_of (s : gostring) : gostring * gostring :=
  match s with
  | c :: s' =>
      if is_digit c || bool_decide (c = x2e) then ([], s)
      else let '(u, r) := unit_of s' in (c :: u, r)
  | [] => ([], [])
  end.

(** [float64] arithmetic, and the conversion to [uint64] of a value in range. *)
Definition float (z : Z) : spec_float := binary_normalize 53 1024 z 0 false.
Definition trunc (f : spec_float) : Z :=
  match f with
  | S754_finite false m e => if 0 <=? e then Zpos m * 2 ^ e else Z.quot (Zpos m) (2 ^ (- e))
  | _ => 0
  end.
(** [uint64(float64(f) * (float64(unit) / scale))]. *)
Definition fraction (f unit scale : Z) : Z :=
  trunc (SFmul 53 1024 (float f) (SFdiv 53 1024 (float unit) (float scale))).

(** One component of the duration: its nanoseconds and what follows. *)
Definition component (s : gostring) : option (Z * gostring) :=
  match s with
  | [] => None
  | c :: _ =>
      if negb (is_digit c || bool_decide (c = x2e)) then None else
      match leadingInt s 0 with
      | None => None
      | Some (v, s1) =>
          let pre := negb (zlen s1 =? zlen s) in
          let '(f, scale, s2, post) :=
            match s1 with
            | x2e :: r =>
                let '(f, scale, s2) := leadingFraction r 0 1 false in
                (f, scale, s2, negb (zlen s2 =? zlen r))
            | _ => (0, 1, s1, false)
            end in
          if negb pre && negb post then None else
          let '(u, s3) := unit_of s2 in
          match u with
          | [] => None
          | _ =>
              match unitMap u with
              | None => None
              | Some unit =>
                  if Z.quot two63 unit <? v then None else
                  let v := v * unit in
                  if 0 <? f then
                    let v := u64 (v + fraction f unit scale) in
                    if two63 <? v then None else Some (v, s3)
                  else Some (v, s3)
              end
          end
      end
  end.

(** [for s != ""]; a component takes at least a digit and a unit. *)
Fixpoint components (fuel : nat) (s : gostring) (d : Z) : option Z :=
  match s with
  | [] => Some d
  | _ =>
      match fuel with
      | O => None
      | S fuel =>
          match component s with
          | None => None
          | Some (v, s) =>
              let d := u64 (d + v) in
              if two63 <? d then None else components fuel s d
          end
      end
  end.

Definition ParseDuration (s : gostring) : option Z :=
  let '(neg, r) := match s with
                   | x2d :: r => (true, r)
                   | x2b :: r => (false, r)
                   | _ => (false, s)
                   end in
  if bool_decide (r = str "0") then Some 0
  else match r with
       | [] => None
       | _ =>
           match components (length r) r 0 with
           | None => None
           | Some d =>
               if neg : bool then Some (i64 (- d))
               else if two63 - 1 <? d then None else Some d
           end
       end.
End gotime.

Import strconv gotime.

Example parse_ints :
  ParseInt <$> (str <$> ["42"; "-7"; "+0x1F"; "0b101"; "010"; "1_000"; "1__0"; "09"; ""; "-"; "9223372036854775808";
                         "-9223372036854775808"]%string)
  = [Some 42; Some (-7); Some 31; Some 5; Some 8; Some 1000; None; None; None; None; None; Some (- two63)].
Proof. vm_compute. reflexivity. Qed.

Example parse_durations :
  ParseDuration <$> (str <$> ["45s"; "1h30m"; "-1.5h"; "2ms"; ".5s"; "0"; "-0"; "1"; "3000000h"; "1.s"; ".s"; "5 s"]%string)
  = [Some (45 * 10 ^ 9); Some (5400 * 10 ^ 9); Some (- (5400 * 10 ^ 9)); Some (2 * 10 ^ 6); Some (5 * 10 ^ 8); Some 0;
     Some 0; None; None; Some (10 ^ 9); None; None].
Proof. vm_compute. reflexivity. Qed.

(** ** Decimal printing *)

Definition digit_char (d : Z) : byte := byte_of (48 + d).
Definition dec_val (ds : list Z) (n : Z) : Z := foldl (λ n d, n * 10 + d) n ds.
Definition decimal (ds : list Z) : Prop := Forall (λ d, 0 ≤ d < 10) ds.

Lemma decimal_cons d ds : decimal (d :: ds) ↔ 0 ≤ d < 10 ∧ decimal ds.
Proof. unfold decimal. by rewrite Forall_cons. Qed.

Lemma pretty_char d : (d < 10)%N → Ascii.byte_of_ascii (pretty_N_char d) = digit_char (Z.of_N d).
Proof.
  intros H. assert (d ∈ [0; 1; 2; 3; 4; 5; 6; 7; 8; 9])%N as Hd.
  { rewrite !elem_of_cons, elem_of_nil. lia. }
  repeat (apply elem_of_cons in Hd as [->|Hd]; [reflexivity|]). by apply elem_of_nil in Hd.
Qed.

Lemma dec_val_cons0 d ds : dec_val (d :: ds) 0 = dec_val ds d.
Proof. done. Qed.

Lemma dec_val_app ds ds' n : dec_val (ds ++ ds') n = dec_val ds' (dec_val ds n).
Proof. apply foldl_app. Qed.

Lemma pretty_go_digits n s : (0 < n)%N →
  ∃ d ds, str (pretty_N_go n s) = digit_char d :: (digit_char <$> ds) ++ str s ∧
    0 < d < 10 ∧ decimal ds ∧ dec_val ds d = Z.of_N n.
Proof.
  revert s. induction (N.lt_wf_0 n) as [n _ IH]; intros s Hn.
  rewrite pretty_N_go_step by done. pose proof (N.mod_lt n 10 ltac:(done)) as Hm.
  pose proof (N.div_mod n 10 ltac:(done)) as E.
  destruct (decide (n `div` 10 = 0)%N) as [E0|].
  - rewrite E0, pretty_N_go_0. exists (Z.of_N n), []. cbn [fmap list_fmap app].
    rewrite N.mod_small by lia. change (str (String ?c ?s)) with (Ascii.byte_of_ascii c :: str s).
    rewrite pretty_char by lia. split_and!; [done|lia|lia|constructor|done].
  - destruct (IH (n `div` 10)%N) with (s := String (pretty_N_char (n `mod` 10)) s)
      as (d & ds & -> & Hd & Hds & Hv); [by apply N.div_lt|lia|].
    exists d, (ds ++ [Z.of_N (n `mod` 10)]). change (str (String ?c ?s)) with (Ascii.byte_of_ascii c :: str s).
    rewrite pretty_char by done. rewrite fmap_app, <- app_assoc. split_and!; [done|lia|lia| |].
    + apply Forall_app. split; [done|]. constructor; [|done]. cbv beta. generalize dependent (n `mod` 10)%N. lia.
    + rewrite dec_val_app, Hv. cbn. generalize dependent (n `div` 10)%N. generalize dependent (n `mod` 10)%N. lia.
Qed.

(** A number prints as its digits, without leading zeros. *)
Lemma pretty_digits z : 0 ≤ z →
  ∃ d ds, str (pretty z) = digit_char d :: (digit_char <$> ds) ∧
    0 ≤ d < 10 ∧ decimal ds ∧ dec_val ds d = z ∧ (d = 0 → ds = [] ∧ z = 0).
Proof.
  intros H. destruct z as [|p|p]; [|clear H|lia].
  - exists 0, []. split_and!; [reflexivity|lia|lia|constructor|done|done].
  - destruct (pretty_go_digits (Npos p) "" ltac:(done)) as (d & ds & E & Hd & Hds & Hv).
    exists d, ds. change (pretty (Zpos p)) with (pretty (Npos p)). unfold pretty, pretty_N.
    rewrite decide_False by done. rewrite E, app_nil_r. split_and!; [done|lia|lia|done|done|lia].
Qed.

Lemma pretty_neg z : z < 0 → str (pretty z) = x2d :: str (pretty (- z)).
Proof. intros H. by destruct z as [|p|p]; [lia|lia|]. Qed.

Lemma digit_char_val d : 0 ≤ d < 10 → byte_val (digit_char d) = 48 + d.
Proof. intros H. unfold digit_char. rewrite byte_val_of. rewrite Z.mod_small; lia. Qed.

Lemma digit_char_digit d : 0 ≤ d < 10 → is_digit (digit_char d) = true.
Proof. intros H. unfold is_digit. rewrite digit_char_val by done. apply andb_true_intro. split; lia. Qed.

Lemma digit_char_ne d c : 0 ≤ d < 10 → is_digit c = false → digit_char d ≠ c.
Proof. intros H Hc E. rewrite <- E, digit_char_digit in Hc by done. done. Qed.

Lemma dec_val_ge ds n : decimal ds → 0 ≤ n → n ≤ dec_val ds n.
Proof.
  revert n. induction ds as [|d ds IH]; intros n Hd Hn; [done|]. apply decimal_cons in Hd as [? Hd].
  change (n ≤ dec_val ds (n * 10 + d)).
  specialize (IH (n * 10 + d) Hd ltac:(lia)). lia.
Qed.

(** ** Round trips *)

Lemma digits_decimal ds n us : decimal ds → 0 ≤ n → dec_val ds n < two64 →
  digits 10 (digit_char <$> ds) n us = Some (dec_val ds n, us).
Proof.
  revert n. induction ds as [|d ds IH]; intros n Hd Hn Hv; [done|]. apply decimal_cons in Hd as [H Hd].
  cbn [fmap list_fmap digits]. rewrite bool_decide_eq_false_2 by (by apply digit_char_ne).
  unfold digit_val. rewrite digit_char_digit, digit_char_val by done.
  replace (48 + d - 48) with d by lia. rewrite (proj2 (Z.leb_gt 10 d)) by lia.
  pose proof (dec_val_ge ds (n * 10 + d) Hd ltac:(lia)). cbn [dec_val foldl] in Hv.
  rewrite (proj2 (Z.leb_gt two64 (n * 10 + d))) by (unfold dec_val in *; lia). apply IH; [done|lia|done].
Qed.

Lemma ParseUint_pretty z : 0 ≤ z < two64 → ParseUint (str (pretty z)) = Some z.
Proof.
  intros H. destruct (pretty_digits z ltac:(lia)) as (d & ds & -> & Hd & Hds & Hv & H0).
  destruct (decide (d = 0)) as [->|Hne]; [by destruct H0 as [-> ->]|].
  assert (digits 10 (digit_char <$> d :: ds) 0 false = Some (z, false)) as E.
  { rewrite digits_decimal; [by rewrite dec_val_cons0, Hv|by apply decimal_cons|done|rewrite dec_val_cons0; lia]. }
  unfold ParseUint. assert (digit_char d ≠ x30) as Hx.
  { intros Ex. pose proof (digit_char_val d Hd) as E'. rewrite Ex in E'. cbn in E'. lia. }
  cbn [fmap list_fmap] in E. destruct (digit_char d) eqn:Ed; try (by rewrite E). done.
Qed.

Lemma ParseInt_pretty z : - two63 ≤ z < two63 → ParseInt (str (pretty z)) = Some z.
Proof.
  intros H. destruct (decide (0 ≤ z)) as [Hz|Hz].
  - pose proof (ParseUint_pretty z ltac:(unfold two64, two63 in *; lia)) as E.
    destruct (pretty_digits z Hz) as (d & ds & Ep & Hd & _).
    unfold ParseInt. rewrite Ep in *.
    pose proof (digit_char_ne d x2b Hd eq_refl). pose proof (digit_char_ne d x2d Hd eq_refl).
    assert (match digit_char d :: (digit_char <$> ds) with
            | x2b :: r => (false, r) | x2d :: r => (true, r) | _ => (false, digit_char d :: (digit_char <$> ds)) end
            = (false, digit_char d :: (digit_char <$> ds))) as -> by (by destruct (digit_char d)).
    rewrite E. by rewrite (proj2 (Z.leb_gt two63 z)) by lia.
  - rewrite pretty_neg by lia. cbn [ParseInt].
    rewrite ParseUint_pretty by (unfold two64, two63 in *; lia).
    rewrite (proj2 (Z.ltb_ge two63 (- z))) by lia. f_equal. lia.
Qed.

Lemma ParseBool_pretty b : ParseBool (str (if b : bool then "true" else "false")) = Some b.
Proof. by destruct b. Qed.

Lemma leadingInt_decimal ds r x : decimal ds → 0 ≤ x → dec_val ds x ≤ two63 →
  (match r with [] => True | c :: _ => is_digit c = false end) →
  leadingInt ((digit_char <$> ds) ++ r) x = Some (dec_val ds x, r).
Proof.
  revert x. induction ds as [|d ds IH]; intros x Hd Hx Hv Hr.
  { destruct r as [|c r]; [done|]. cbn [fmap list_fmap app leadingInt]. by rewrite Hr. }
  apply decimal_cons in Hd as [H Hd]. cbn [fmap list_fmap app leadingInt].
  rewrite digit_char_digit, digit_char_val by done. replace (48 + d - 48) with d by lia.
  pose proof (dec_val_ge ds (x * 10 + d) Hd ltac:(lia)) as Hge. cbn [dec_val foldl] in Hv. fold (dec_val ds (x * 10 + d)) in Hv.
  rewrite (proj2 (Z.ltb_ge (Z.quot two63 10) x)) by (change (Z.quot two63 10) with 922337203685477580; unfold two63 in *; lia).
  rewrite (proj2 (Z.ltb_ge two63 (x * 10 + d))) by lia. by apply IH; [|lia| |].
Qed.

Lemma component_ns z : 0 ≤ z ≤ two63 → component (str (pretty z) ++ str "ns") = Some (z, []).
Proof.
  intros H. destruct (pretty_digits z ltac:(lia)) as (d & ds & -> & Hd & Hds & Hv & _).
  assert (leadingInt ((digit_char <$> d :: ds) ++ str "ns") 0 = Some (z, str "ns")) as E.
  { rewrite leadingInt_decimal; [by rewrite dec_val_cons0, Hv|by apply decimal_cons|done|rewrite dec_val_cons0; lia|done]. }
  cbn [fmap list_fmap app] in E. unfold component. cbn [app]. rewrite digit_char_digit by done. cbn [orb negb].
  rewrite E.
  assert (negb (zlen (str "ns") =? zlen (digit_char d :: (digit_char <$> ds) ++ str "ns")) = true) as ->.
  { apply negb_true_iff, Z.eqb_neq. cbn [length]. rewrite length_app. lia. }
  cbn [negb andb].
  change ((if Z.quot two63 1 <? z then None else Some (z * 1, @nil byte)) = Some (z, [])).
  change (Z.quot two63 1) with two63. rewrite (proj2 (Z.ltb_ge two63 z)) by lia. by rewrite Z.mul_1_r.
Qed.

Lemma ParseDuration_ns z : - two63 ≤ z < two63 → ParseDuration (str (pretty z) ++ str "ns") = Some z.
Proof.
  intros H.
  assert (∀ z', 0 ≤ z' ≤ two63 → ∀ n, (0 < n)%nat → components n (str (pretty z') ++ str "ns") 0 = Some z') as Hc.
  { intros z' Hz' [|n] Hn; [lia|]. pose proof (component_ns z' Hz') as E.
    destruct (str (pretty z') ++ str "ns") as [|c r] eqn:Es; [done|]. cbn [components]. rewrite E.
    rewrite Z.add_0_l. unfold u64. rewrite Z.mod_small by (unfold two63, two64 in *; lia).
    rewrite (proj2 (Z.ltb_ge two63 z')) by lia. by destruct n. }
  assert (∀ z', 0 ≤ z' → ∃ c r, str (pretty z') ++ str "ns" = c :: r ∧ is_digit c = true ∧ r ≠ []) as Hs.
  { intros z' Hz'. destruct (pretty_digits z' Hz') as (d & ds & -> & Hd & _). cbn [app].
    eexists _, _. split_and!; [done|by apply digit_char_digit|]. by destruct (digit_char <$> ds). }
  destruct (decide (0 ≤ z)) as [Hz|Hz].
  - specialize (Hc z ltac:(lia)). destruct (Hs z Hz) as (c & r & E & Hd & Hr). rewrite E in *.
    unfold ParseDuration.
    assert (match c :: r with x2d :: r => (true, r) | x2b :: r => (false, r) | _ => (false, c :: r) end
            = (false, c :: r)) as -> by (by destruct c).
    rewrite bool_decide_eq_false_2 by (intros [= _ ?]; by apply Hr).
    rewrite Hc by (cbn; lia). by rewrite (proj2 (Z.ltb_ge (two63 - 1) z)) by lia.
  - specialize (Hc (- z) ltac:(lia)). rewrite pretty_neg by lia.
    destruct (Hs (- z) ltac:(lia)) as (c & r & E & Hd & Hr). cbn [app]. rewrite E in *. cbn [ParseDuration].
    rewrite bool_decide_eq_false_2 by (intros [= _ ?]; by apply Hr).
    rewrite Hc by (cbn; lia). f_equal. unfold i64. rewrite Z.opp_involutive, Z.mod_small; unfold two63, two64 in *; lia.
Qed.

(** ** The fuel of [components] is enough *)

Lemma leadingInt_rest s x v r : leadingInt s x = Some (v, r) → (length r ≤ length s)%nat.
Proof.
  revert x. induction s as [|c s IH]; intros x; cbn [leadingInt length]; [by intros [= _ <-]|].
  destruct (is_digit c); [|intros [= _ <-]; cbn; lia].
  destruct (_ <? x); [done|]. cbv zeta. destruct (_ <? _); [done|]. intros H%IH. lia.
Qed.

Lemma leadingFraction_rest s x scale ov : (length (snd (leadingFraction s x scale ov)) ≤ length s)%nat.
Proof.
  revert x scale ov. induction s as [|c s IH]; intros x scale ov; cbn [leadingFraction length]; [done|].
  destruct (is_digit c); [|cbn; lia]. cbv zeta.
  destruct ov; [|destruct (_ <? x); [|destruct (_ <? _)]]; (etrans; [apply IH|lia]).
Qed.

Lemma unit_of_rest s : (length (fst (unit_of s)) + length (snd (unit_of s)) = length s)%nat.
Proof.
  induction s as [|c s IH]; [done|]. cbn [unit_of]. destruct (is_digit c || _); [done|].
  destruct (unit_of s) as [u r]. cbn in *. lia.
Qed.

Lemma component_rest s v r : component s = Some (v, r) → (length r < length s)%nat.
Proof.
  unfold component. destruct s as [|c s]; [done|]. set (l := c :: s). destruct (negb _); [done|].
  destruct (leadingInt l 0) as [[v1 s1]|] eqn:E1; [|done]. apply leadingInt_rest in E1.
  set (t := match s1 with x2e :: r => _ | _ => _ end).
  assert (length (t.1.2) ≤ length s1)%nat as Ht.
  { subst t. destruct s1 as [|c1 s1]; [done|]. destruct c1; try done.
    pose proof (leadingFraction_rest s1 0 1 false) as Hf. destruct (leadingFraction s1 0 1 false) as [[f sc] s2].
    cbn in *. lia. }
  destruct t as [[[f sc] s2] post]. cbn in Ht. destruct (negb _ && _); [done|].
  pose proof (unit_of_rest s2) as Hu. destruct (unit_of s2) as [u s3]. destruct u as [|c2 u]; [done|]. cbn in Hu.
  destruct (unitMap (c2 :: u)) as [un|]; [|done]. destruct (_ <? v1); [done|]. cbv zeta.
  destruct (0 <? f); [destruct (_ <? _); [done|]|]; intros [= _ <-]; lia.
Qed.

(** Every round of the loop shortens the string, so the loop ends. *)
Lemma components_fuel n m s d :
  (length s ≤ n)%nat → (length s ≤ m)%nat → components n s d = components m s d.
Proof.
  revert m s d. induction n as [|n IH]; intros [|m] s d Hn Hm; destruct s as [|c s]; cbn in Hn, Hm; try done; try lia.
  cbn [components]. destruct (component (c :: s)) as [[v r]|] eqn:E; [|done]. apply component_rest in E. cbn in E.
  destruct (_ <? _); [done|]. apply IH; lia.
Qed.
