(* ===== verification/Sha256.v ===== *)
(** * SHA-256

    [crypto/sha256.Sum256] of the Go standard library, which
    [hashid.DoubleSHA256] applies twice: the FIPS 180-4 function on byte
    strings, executable, checked on two standard test vectors. *)

From Stdlib Require Import Strings.Byte.
From stdpp Require Import base list strings numbers gmap.
From S2P Require Import Prelude.

Definition w32 (z : Z) : Z := z mod 2 ^ 32.
Definition rotr (n x : Z) : Z := Z.lor (Z.shiftr x n) (w32 (Z.shiftl x (32 - n))).

Definition Ch (x y z : Z) : Z := Z.lxor (Z.land x y) (Z.land (2 ^ 32 - 1 - x) z).
Definition Maj (x y z : Z) : Z :=
  Z.lxor (Z.lxor (Z.land x y) (Z.land x z)) (Z.land y z).
Definition Sigma0 (x : Z) : Z := Z.lxor (Z.lxor (rotr 2 x) (rotr 13 x)) (rotr 22 x).
Definition Sigma1 (x : Z) : Z := Z.lxor (Z.lxor (rotr 6 x) (rotr 11 x)) (rotr 25 x).
Definition sigma0 (x : Z) : Z := Z.lxor (Z.lxor (rotr 7 x) (rotr 18 x)) (Z.shiftr x 3).
Definition sigma1 (x : Z) : Z := Z.lxor (Z.lxor (rotr 17 x) (rotr 19 x)) (Z.shiftr x 10).

(** The constants as FIPS 180-4 defines them: the first 32 bits of the
    fractional parts of the cube roots of the first 64 primes, and of the
    square roots of the first eight. *)
Definition is_prime (n : Z) : bool :=
  (1 <? n) && forallb (λ d, negb (n mod d =? 0)) (seqZ 2 (n - 2)).
Definition primes : list Z :=
  Eval vm_compute in filter (λ n, is_prime n = true) (seqZ 2 310).

(** The integer cube root of [n], bit by bit from [2^k] down. *)
Fixpoint cbrt (k : nat) (r n : Z) : Z :=
  match k with
  | O => r
  | S k =>
      let r' := r + 2 ^ Z.of_nat k in
      cbrt k (if r' * r' * r' <=? n then r' else r) n
  end.

Definition K256 : list Z :=
  Eval vm_compute in (λ p, w32 (cbrt 40 0 (p * 2 ^ 96))) <$> primes.

(** The chaining value: the eight working words. *)
Record words8 : Type := W8 { wa : Z; wb : Z; wc : Z; wd : Z; we : Z; wf : Z; wg : Z; wh : Z }.

Definition H256 : words8 :=
  Eval vm_compute in
  match (λ p, w32 (Z.sqrt (p * 2 ^ 64))) <$> primes with
  | a :: b :: c :: d :: e :: f :: g :: h :: _ => W8 a b c d e f g h
  | _ => W8 0 0 0 0 0 0 0 0
  end.

Definition pad (m : list byte) : list byte :=
  m ++ [x80] ++ replicate (Z.to_nat ((55 - zlen m) mod 64)) x00
    ++ be_bytes 8 (8 * zlen m).

Fixpoint words32 (n : nat) (b : list byte) : list Z :=
  match n with
  | O => []
  | S n => be_val (take 4 b) :: words32 n (drop 4 b)
  end.

(** [rw] holds the schedule so far, most recent word first. *)
Fixpoint extend (n : nat) (rw : list Z) : list Z :=
  match n with
  | O => rw
  | S n =>
      let at_ i := default 0 (rw !! i) in
      extend n (w32 (sigma1 (at_ 1%nat) + at_ 6%nat + sigma0 (at_ 14%nat) + at_ 15%nat) :: rw)
  end.

Definition round (s : words8) (kw : Z * Z) : words8 :=
  let '(W8 a b c d e f g h) := s in
  let t1 := h + Sigma1 e + Ch e f g + fst kw + snd kw in
  let t2 := Sigma0 a + Maj a b c in
  W8 (w32 (t1 + t2)) a b c (w32 (d + t1)) e f g.

Definition compress (s : words8) (block : list byte) : words8 :=
  let w := reverse (extend 48 (reverse (words32 16 block))) in
  let t := foldl round s (zip K256 w) in
  W8 (w32 (wa s + wa t)) (w32 (wb s + wb t)) (w32 (wc s + wc t)) (w32 (wd s + wd t))
     (w32 (we s + we t)) (w32 (wf s + wf t)) (w32 (wg s + wg t)) (w32 (wh s + wh t)).

Fixpoint compress_all (n : nat) (s : words8) (m : list byte) : words8 :=
  match n with
  | O => s
  | S n => compress_all n (compress s (take 64 m)) (drop 64 m)
  end.

Definition Sum256 (m : list byte) : list byte :=
  let p := pad m in
  let s := compress_all (length p / 64) H256 p in
  [wa s; wb s; wc s; wd s; we s; wf s; wg s; wh s] ≫= be_bytes 4.

Lemma length_Sum256 m : length (Sum256 m) = 32%nat.
Proof. unfold Sum256. by rewrite !bind_cons, !length_app, !length_be_bytes. Qed.

Example Sum256_abc :
  Sum256 (str "abc") = be_bytes 32
    0xba7816bf8f01cfea414140de5dae2223b00361a396177a9cb410ff61f20015ad.
Proof. by vm_compute. Qed.

Example Sum256_empty :
  Sum256 [] = be_bytes 32
    0xe3b0c44298fc1c149afbf4c8996fb92427ae41e4649b934ca495991b7852b855.
Proof. by vm_compute. Qed.
