(* ===== verification/HashId.v ===== *)
(** * hashid: internal and display byte order

    [src/hashid/hashid.go]: hashes travel in internal order on the wire and in
    byte-reversed lower-case hex everywhere a human or an API sees them. *)

From Stdlib Require Import Strings.Byte.
From stdpp Require Import base list strings numbers gmap.
From S2P Require Import Prelude Sha256.

(** ** [encoding/hex] *)

Definition hextable : gostring := str "0123456789abcdef".
Definition hex_digit (n : Z) : byte := default x00 (hextable !! Z.to_nat n).

Definition hex_EncodeToString (b : list byte) : gostring :=
  b ≫= λ x, [hex_digit (Z.shiftr (byte_val x) 4); hex_digit (Z.land (byte_val x) 15)].

Definition unhex (c : byte) : option Z :=
  let v := byte_val c in
  if (48 <=? v) && (v <=? 57) then Some (v - 48)
  else if (97 <=? v) && (v <=? 102) then Some (v - 87)
  else if (65 <=? v) && (v <=? 70) then Some (v - 55)
  else None.

Fixpoint hex_DecodeString (s : gostring) : res (list byte) :=
  match s with
  | [] => Ok []
  | [_] => Err (EMsg "encoding/hex: odd length hex string")
  | a :: b :: s =>
      match unhex a, unhex b with
      | Some x, Some y =>
          l ← hex_DecodeString s; Ok (byte_of (Z.lor (Z.shiftl x 4) y) :: l)
      | _, _ => Err (EMsg "encoding/hex: invalid byte")
      end
  end.

(** ** The package *)

Module hashid.
Definition FromWire (b : list byte) : res Hash :=
  _ ← guard_err (zlen b <? 32) (EMsg "hashid: need 32 bytes");
  s ← slice b 0 32;
  Ok (copy32 s).

Definition DoubleSHA256 (b : list byte) : Hash :=
  copy32 (Sum256 (Sum256 b)).

(** [rev[i] = h[31-i]], then hex. *)
Definition Display (h : Hash) : gostring :=
  hex_EncodeToString (reverse (hbytes h)).

Definition Wire (h : Hash) : list byte := hbytes h.

Definition ParseDisplay (s : gostring) : res Hash :=
  _ ← guard_err (negb (zlen s =? 64)) (EMsg "hashid: want 64 hex chars");
  raw ← hex_DecodeString s;
  Ok (copy32 (reverse raw)).
End hashid.

(** ASCII lower case, the case folding hex decoding allows. *)
Definition ascii_lower (c : byte) : byte :=
  let v := byte_val c in
  if (65 <=? v) && (v <=? 90) then byte_of (v + 32) else c.

(** ** Lemmas *)

Lemma list_pair_ind {A} (P : list A → Prop) :
  P [] → (∀ a, P [a]) → (∀ a c l, P l → P (a :: c :: l)) → ∀ l, P l.
Proof.
  intros H0 H1 H2. fix IH 1. intros [|a [|c l]]; [done|apply H1|apply H2, IH].
Qed.

Lemma unhex_digit_hi x : unhex (hex_digit (Z.shiftr (byte_val x) 4)) = Some (byte_val x / 16).
Proof. by destruct x. Qed.
Lemma unhex_digit_lo x : unhex (hex_digit (Z.land (byte_val x) 15)) = Some (byte_val x mod 16).
Proof. by destruct x. Qed.

Lemma nibbles_val x :
  byte_of (Z.lor (Z.shiftl (byte_val x / 16) 4) (byte_val x mod 16)) = x.
Proof. by destruct x. Qed.

Lemma hex_decode_encode b : hex_DecodeString (hex_EncodeToString b) = Ok b.
Proof.
  unfold hex_EncodeToString. induction b as [|x b IH]; [done|].
  cbn -[unhex hex_digit Z.shiftr Z.land]. cbn -[unhex hex_digit Z.shiftr Z.land] in IH.
  rewrite unhex_digit_hi, unhex_digit_lo, IH. cbn -[Z.shiftl Z.div Z.modulo].
  by rewrite nibbles_val.
Qed.

Lemma length_hex_encode b : length (hex_EncodeToString b) = (2 * length b)%nat.
Proof.
  unfold hex_EncodeToString. induction b as [|x b IH]; [done|].
  rewrite bind_cons, length_app, IH. simpl. lia.
Qed.

Lemma unhex_nibbles a c x y :
  unhex a = Some x → unhex c = Some y →
  [hex_digit (Z.shiftr (byte_val (byte_of (Z.lor (Z.shiftl x 4) y))) 4);
   hex_digit (Z.land (byte_val (byte_of (Z.lor (Z.shiftl x 4) y))) 15)]
  = [ascii_lower a; ascii_lower c].
Proof.
  intros Ha Hc.
  destruct a; vm_compute in Ha; try discriminate Ha; injection Ha as <-;
    destruct c; vm_compute in Hc; try discriminate Hc; injection Hc as <-;
    by vm_compute.
Qed.

Lemma hex_encode_decode s b :
  hex_DecodeString s = Ok b → hex_EncodeToString b = ascii_lower <$> s.
Proof.
  revert b. induction s as [| |a c s IH] using list_pair_ind; intros b; simpl.
  - by intros [= <-].
  - done.
  - destruct (unhex a) as [x|] eqn:Ha; [|done].
    destruct (unhex c) as [y|] eqn:Hc; [|done].
    intros (l & Hl & Hb)%res_bind_ok. injection Hb as <-.
    specialize (IH l Hl). unfold hex_EncodeToString in *.
    rewrite bind_cons, IH, (unhex_nibbles a c x y Ha Hc). done.
Qed.

Lemma ascii_lower_length s t : ascii_lower <$> s = t → length s = length t.
Proof. intros <-. by rewrite length_fmap. Qed.

Lemma unhex_lower a : unhex (ascii_lower a) = unhex a.
Proof. by destruct a; vm_compute. Qed.

Lemma hex_decode_lower s : hex_DecodeString (ascii_lower <$> s) = hex_DecodeString s.
Proof.
  induction s as [| |a c s IH] using list_pair_ind; [done..|].
  rewrite !fmap_cons. cbn [hex_DecodeString].
  by rewrite !unhex_lower, IH.
Qed.

Lemma hex_decode_no_panic s : no_panic (hex_DecodeString s).
Proof.
  induction s as [| |a c s IH] using list_pair_ind; [done..|]. simpl.
  destruct (unhex a), (unhex c); try done.
  by apply res_bind_no_panic.
Qed.

Lemma length_Display h : length (hashid.Display h) = 64%nat.
Proof.
  unfold hashid.Display. by rewrite length_hex_encode, length_reverse, hash_length.
Qed.

Lemma ParseDisplay_Display h : hashid.ParseDisplay (hashid.Display h) = Ok h.
Proof.
  unfold hashid.ParseDisplay. rewrite length_Display. simpl.
  unfold hashid.Display. rewrite hex_decode_encode. simpl.
  by rewrite reverse_involutive, copy32_hbytes.
Qed.

Lemma Display_inj h k : hashid.Display h = hashid.Display k → h = k.
Proof.
  intros H. pose proof (ParseDisplay_Display h) as Hh.
  rewrite H, ParseDisplay_Display in Hh. congruence.
Qed.

Lemma FromWire_app h s : hashid.FromWire (hbytes h ++ s) = Ok h.
Proof.
  unfold hashid.FromWire. rewrite (proj2 (Z.ltb_ge _ _)) by (rewrite length_app, hash_length; lia).
  simpl. pose proof (slice_app [] (hbytes h) s 0 32) as H. simpl in H.
  rewrite H by (rewrite ?hash_length; done). simpl. by rewrite copy32_hbytes.
Qed.

(** [ParseDisplay] accepts exactly the display form of a hash, up to the
    letter case of its hex digits, and yields that hash: a display string and
    the wire bytes determine each other. *)
Theorem ParseDisplay_spec (s : gostring) (h : Hash) :
  hashid.ParseDisplay s = Ok h ↔ ascii_lower <$> s = hashid.Display h.
Proof.
  split.
  - unfold hashid.ParseDisplay.
    intros (u & Hl & (raw & Hraw & [= <-])%res_bind_ok)%res_bind_ok.
    apply guard_err_ok, negb_false_iff, Z.eqb_eq in Hl.
    pose proof (hex_encode_decode s _ Hraw) as He.
    assert (length raw = 32%nat) as Hx.
    { apply (f_equal length) in He. rewrite length_hex_encode, length_fmap in He. lia. }
    unfold hashid.Display. rewrite copy32_bytes by (by rewrite length_reverse).
    by rewrite reverse_involutive.
  - intros H. rewrite <- (ParseDisplay_Display h). unfold hashid.ParseDisplay.
    rewrite <- H, length_fmap, hex_decode_lower. done.
Qed.
