(* ===== verification/Objfmt.v ===== *)
(** * The shared object codec, as an interface

    [github.com/lightwebinc/shard-common/objfmt] is a separate module that the
    bridge calls to delimit objects; its source is not part of this
    repository. Its functions are the operations of the class [Objfmt], and
    what the bridge relies on is the class [ObjfmtLaws]: the object layouts
    documented in [src/encode/encode.go], [src/tnwire/block.go] and
    [src/docs/architecture.md], and that a size never exceeds the buffer it
    was computed from. [ref_objfmt] is a concrete codec that obeys the laws,
    used by the witnesses. *)

From Stdlib Require Import Strings.Byte.
From stdpp Require Import base list strings numbers gmap.
From S2P Require Import Prelude Sha256 HashId.

(** [objfmt.SubtreeHeaderSize] and [objfmt.BlockPrefixSize]: root and count,
    and header and three counts. *)
Definition SubtreeHeaderSize : Z := 40.
Definition BlockPrefixSize : Z := 104.

Class Objfmt : Type := {
  TxSize : list byte → res Z;
  BlockSize : list byte → res Z;
  SubtreeSize : list byte → res Z;
  IsEF : list byte → bool;
  TxID : list byte → res Hash;
  ToStandard : list byte → res (list byte)
}.

(** ** The documented layouts *)

(** [root[32] | NodeCount u64 BE | NodeCount × hash[32]]. *)
Definition subtree_layout (root : Hash) (nodes : list Hash) : list byte :=
  hbytes root ++ be_bytes 8 (zlen nodes) ++ concat_hashes nodes.

(** [header[80] | TxCount u64 BE | SizeInBytes u64 BE | SubtreeCount u64 BE |
    roots[32×M] | coinbase | Height u64 BE | BUMPLen u64 BE | BUMP]. *)
Definition block_layout (hdr : list byte) (txCount size : Z) (roots : list Hash)
    (coinbase : list byte) (height : Z) (bump : list byte) : list byte :=
  hdr ++ be_bytes 8 txCount ++ be_bytes 8 size ++ be_bytes 8 (zlen roots)
    ++ concat_hashes roots ++ coinbase ++ be_bytes 8 height
    ++ be_bytes 8 (zlen bump) ++ bump.

Definition is_u64 (z : Z) : Prop := 0 ≤ z < two64.

Class ObjfmtLaws (O : Objfmt) : Prop := {
  (** A transaction has a version, two counts and a lock time, and is within
      the buffer it was found in. *)
  tx_size_bounds b n : TxSize b = Ok n → 10 ≤ n ≤ zlen b;
  (** Transactions are self-delimiting: the size depends on the transaction's
      own bytes only. *)
  tx_size_self b n s : TxSize b = Ok n → TxSize (take (Z.to_nat n) b ++ s) = Ok n;
  tx_size_no_panic b : no_panic (TxSize b);
  (** A subtree frame is sized by its header's node count. *)
  subtree_size_sound b n : SubtreeSize b = Ok n →
    40 ≤ n ≤ zlen b ∧ n = 40 + 32 * be_val (take 8 (drop 32 b));
  (** A block frame is a prefix of the buffer with the documented layout. *)
  block_size_sound b n : BlockSize b = Ok n →
    ∃ hdr txCount size roots coinbase height bump s,
      b = block_layout hdr txCount size roots coinbase height bump ++ s ∧
      n = zlen (block_layout hdr txCount size roots coinbase height bump) ∧
      length hdr = 80%nat ∧ is_u64 txCount ∧ is_u64 size ∧ is_u64 height ∧
      TxSize coinbase = Ok (zlen coinbase);
  block_size_no_panic b : no_panic (BlockSize b);
  (** Conversion to the standard serialization returns on every input. *)
  to_standard_no_panic b : no_panic (ToStandard b)
}.

Lemma length_block_layout hdr tc sz roots cb h bump :
  length hdr = 80%nat →
  zlen (block_layout hdr tc sz roots cb h bump)
  = 104 + 32 * zlen roots + zlen cb + 16 + zlen bump.
Proof.
  intros H. unfold block_layout.
  rewrite !length_app, !length_be_bytes, length_concat_hashes. lia.
Qed.

Lemma length_subtree_layout root nodes :
  zlen (subtree_layout root nodes) = 40 + 32 * zlen nodes.
Proof.
  unfold subtree_layout.
  rewrite !length_app, length_be_bytes, length_concat_hashes, hash_length. lia.
Qed.

Section laws.
Context {O : Objfmt} {OL : ObjfmtLaws O}.

(** A whole transaction is still found when more bytes follow it. *)
Lemma tx_size_app b s : TxSize b = Ok (zlen b) → TxSize (b ++ s) = Ok (zlen b).
Proof.
  intros H. pose proof (tx_size_self _ _ s H) as H'.
  by rewrite Nat2Z.id, take_ge in H' by lia.
Qed.

Lemma tx_size_take b n : TxSize b = Ok n → TxSize (take (Z.to_nat n) b) = Ok n.
Proof. intros H. pose proof (tx_size_self _ _ [] H) as H'. by rewrite app_nil_r in H'. Qed.
End laws.

(** ** A codec that obeys the laws *)

Definition ref_TxSize (b : list byte) : res Z :=
  match b with
  | [] => Err (EMsg "short")
  | c :: _ =>
      let n := 10 + byte_val c in
      if n <=? zlen b then Ok n else Err (EMsg "short")
  end.

Definition ref_SubtreeSize (b : list byte) : res Z :=
  let n := 40 + 32 * be_val (take 8 (drop 32 b)) in
  if (40 <=? zlen b) && (n <=? zlen b) then Ok n else Err (EMsg "short").

Definition ref_BlockSize (b : list byte) : res Z :=
  _ ← guard_err (zlen b <? 104) (EMsg "short");
  let count := be_val (take 8 (drop 96 b)) in
  _ ← guard_err (zlen b <? 104 + 32 * count) (EMsg "short");
  let r := drop (Z.to_nat (104 + 32 * count)) b in
  n ← ref_TxSize r;
  let t := drop (Z.to_nat n) r in
  _ ← guard_err (zlen t <? 16) (EMsg "short");
  let bl := be_val (take 8 (drop 8 t)) in
  _ ← guard_err (zlen t <? 16 + bl) (EMsg "short");
  Ok (104 + 32 * count + n + 16 + bl).

#[export] Instance ref_objfmt : Objfmt := {|
  TxSize := ref_TxSize;
  BlockSize := ref_BlockSize;
  SubtreeSize := ref_SubtreeSize;
  IsEF b := bool_decide (take 6 (drop 4 b) = [x00; x00; x00; x00; x00; xef]);
  TxID b := Ok (hashid.DoubleSHA256 b);
  ToStandard b := Ok b
|}.

Lemma ref_TxSize_self b n s :
  ref_TxSize b = Ok n → ref_TxSize (take (Z.to_nat n) b ++ s) = Ok n.
Proof.
  destruct b as [|c b]; [done|]. unfold ref_TxSize.
  destruct (Z.leb_spec (10 + byte_val c) (zlen (c :: b))) as [H|]; [|done].
  intros [= <-]. pose proof (byte_val_range c).
  destruct (Z.to_nat (10 + byte_val c)) as [|k] eqn:E; [lia|]. cbn [take app].
  rewrite (proj2 (Z.leb_le _ _)); [done|].
  simpl in *. rewrite length_app, length_take. lia.
Qed.

Lemma ref_TxSize_bounds b n : ref_TxSize b = Ok n → 10 ≤ n ≤ zlen b.
Proof.
  destruct b as [|c b]; [done|]. unfold ref_TxSize. pose proof (byte_val_range c).
  destruct (Z.leb_spec (10 + byte_val c) (zlen (c :: b))); [|done]. intros [= <-]. lia.
Qed.

Lemma ref_TxSize_no_panic b : no_panic (ref_TxSize b).
Proof. destruct b; [done|]. simpl. by case_match. Qed.

(** Splitting a buffer at known field widths. *)
Lemma split_block_prefix (b : list byte) :
  104 ≤ zlen b →
  ∃ hdr tc sz ct r : list byte,
    b = hdr ++ tc ++ sz ++ ct ++ r ∧ length hdr = 80%nat ∧ length tc = 8%nat ∧
    length sz = 8%nat ∧ length ct = 8%nat ∧ ct = take 8 (drop 96 b) ∧ r = drop 104 b.
Proof.
  intros H.
  exists (take 80 b), (take 8 (drop 80 b)), (take 8 (drop 88 b)),
    (take 8 (drop 96 b)), (drop 104 b).
  rewrite !length_take, !length_drop. split_and!; try lia; [|done..].
  rewrite <- (take_drop 80 b) at 1. f_equal.
  rewrite <- (take_drop 8 (drop 80 b)) at 1. rewrite drop_drop. f_equal.
  rewrite <- (take_drop 8 (drop (80 + 8) b)) at 1. rewrite drop_drop. f_equal.
  rewrite <- (take_drop 8 (drop (80 + 8 + 8) b)) at 1. by rewrite drop_drop.
Qed.

Lemma be_field_u64 l : length l = 8%nat → be_bytes 8 (be_val l) = l ∧ is_u64 (be_val l).
Proof.
  intros H. split.
  - rewrite <- H. apply be_bytes_val.
  - pose proof (be_val_range l) as Hr. by rewrite H in Hr.
Qed.

Lemma ref_BlockSize_sound b n : ref_BlockSize b = Ok n →
  ∃ hdr txCount size roots coinbase height bump s,
    b = block_layout hdr txCount size roots coinbase height bump ++ s ∧
    n = zlen (block_layout hdr txCount size roots coinbase height bump) ∧
    length hdr = 80%nat ∧ is_u64 txCount ∧ is_u64 size ∧ is_u64 height ∧
    ref_TxSize coinbase = Ok (zlen coinbase).
Proof.
  unfold ref_BlockSize.
  intros (? & H1%guard_err_ok%Z.ltb_ge & H)%res_bind_ok.
  apply res_bind_ok in H as (? & H2%guard_err_ok%Z.ltb_ge & H).
  apply res_bind_ok in H as (k & Htx & H).
  apply res_bind_ok in H as (? & H3%guard_err_ok%Z.ltb_ge & H).
  apply res_bind_ok in H as (? & H4%guard_err_ok%Z.ltb_ge & [= <-]).
  destruct (split_block_prefix b H1)
    as (hdr & tc & sz & ct & r & Hb & Lh & Lt & Ls & Lc & Hct & Hr).
  rewrite <- Hct in *. set (count := be_val ct) in *.
  destruct (be_field_u64 ct Lc) as [Ec [Rc _]]. fold count in Ec, Rc.
  assert (drop (Z.to_nat (104 + 32 * count)) b = drop (Z.to_nat (32 * count)) r) as Er.
  { rewrite Hr, drop_drop. f_equal. lia. }
  rewrite Er in *.
  pose proof (ref_TxSize_bounds _ _ Htx) as Hk. rewrite length_drop in Hk.
  assert (Lr : zlen r = zlen b - 104) by (rewrite Hr, length_drop; lia).
  set (cb := take (Z.to_nat k) (drop (Z.to_nat (32 * count)) r)) in *.
  set (t := drop (Z.to_nat k) (drop (Z.to_nat (32 * count)) r)) in *.
  assert (Lcb : zlen cb = k) by (unfold cb; rewrite length_take, length_drop; lia).
  set (roots := copy32 <$> chunks32 (Z.to_nat count) (take (Z.to_nat (32 * count)) r)).
  assert (Lroots : zlen roots = count)
    by (unfold roots; rewrite length_fmap, length_chunks32; lia).
  assert (Eroots : concat_hashes roots = take (Z.to_nat (32 * count)) r).
  { unfold roots. apply concat_chunks32. rewrite length_take. lia. }
  destruct (be_field_u64 tc Lt) as [Et Rt]. destruct (be_field_u64 sz Ls) as [Es Rs].
  destruct (be_field_u64 (take 8 t)) as [Eh Rh]; [rewrite length_take; lia|].
  destruct (be_field_u64 (take 8 (drop 8 t))) as [El Rl].
  { rewrite length_take, length_drop; lia. }
  set (bl := be_val (take 8 (drop 8 t))) in *.
  assert (Lbump : zlen (take (Z.to_nat bl) (drop 16 t)) = bl).
  { rewrite length_take, length_drop. destruct Rl. lia. }
  exists hdr, (be_val tc), (be_val sz), roots, cb, (be_val (take 8 t)),
    (take (Z.to_nat bl) (drop 16 t)), (drop (Z.to_nat bl) (drop 16 t)).
  split_and!; [|rewrite length_block_layout by done; lia|done..|].
  - unfold block_layout. rewrite Et, Es, Lroots, Ec, Eh, Lbump, El, Eroots.
    rewrite Hb at 1. rewrite <- !app_assoc. do 4 f_equal.
    rewrite <- (take_drop (Z.to_nat (32 * count)) r) at 1. f_equal.
    rewrite <- (take_drop (Z.to_nat k) (drop (Z.to_nat (32 * count)) r)) at 1.
    fold cb t. f_equal. rewrite <- (take_drop 8 t) at 1. f_equal.
    rewrite <- (take_drop 8 (drop 8 t)) at 1. f_equal. rewrite drop_drop.
    by rewrite (take_drop _ (drop 16 t)).
  - rewrite Lcb. unfold cb.
    pose proof (ref_TxSize_self _ _ [] Htx) as Hs. by rewrite app_nil_r in Hs.
Qed.

#[export] Instance ref_objfmt_laws : ObjfmtLaws ref_objfmt.
Proof.
  split; cbn [TxSize BlockSize SubtreeSize ref_objfmt].
  - apply ref_TxSize_bounds.
  - apply ref_TxSize_self.
  - apply ref_TxSize_no_panic.
  - intros b n. unfold ref_SubtreeSize.
    destruct (_ && _) eqn:E; [|done]. intros [= <-].
    apply andb_true_iff in E as [E1%Z.leb_le E2%Z.leb_le].
    pose proof (be_val_range (take 8 (drop 32 b))). lia.
  - apply ref_BlockSize_sound.
  - intros b. unfold ref_BlockSize.
    repeat (apply res_bind_no_panic; [auto using ref_TxSize_no_panic with bridge|intros ? _]).
    done.
  - done.
Qed.
