(* ===== verification/Encode.v ===== *)
(** * encode: the push-frame builders

    [src/encode/encode.go]: [Subtree] builds a BRC-143 frame, [Block.Encode] a
    BRC-144 frame; each verifies its own output against the shared codec. *)

From Stdlib Require Import Strings.Byte.
From stdpp Require Import base list strings numbers gmap.
From S2P Require Import Prelude HashId Objfmt.

Module encode.
(** Node 0 of a block's first subtree: 32 bytes of 0xFF. *)
Definition CoinbasePlaceholder : Hash := copy32 (replicate 32 xff).

Record Block : Type := mkBlock {
  Header : list byte;
  TxCount : Z;
  SizeInBytes : Z;
  SubtreeRoots : list Hash;
  Coinbase : list byte;
  Height : Z;
  CoinbaseBUMP : list byte
}.

Section encode.
Context {O : Objfmt}.

(** [if n, err := f(b); err != nil || n != len(b) { return nil, ... }]. *)
Definition whole (f : list byte → res Z) (b : list byte) (e : error) : res unit :=
  match f b with
  | Ok n => guard_err (negb (n =? zlen b)) e
  | Err _ => Err e
  | Panic => Panic
  end.

Definition Subtree (root : Hash) (nodes : list Hash) : res (list byte) :=
  _ ← guard_err (zlen nodes =? 0) (EMsg "encode: subtree with no nodes");
  let out := hbytes root in
  let out := out ++ be_bytes 8 (u64 (zlen nodes)) in
  let out := foldl (λ out n, out ++ hbytes n) out nodes in
  _ ← whole SubtreeSize out (EMsg "encode: built subtree fails its own codec");
  Ok out.

Definition Encode (b : Block) : res (list byte) :=
  _ ← guard_err (negb (zlen (Header b) =? 80)) (EMsg "encode: header is not 80 bytes");
  _ ← guard_err (zlen (Coinbase b) =? 0) (EMsg "encode: block without an in-band coinbase");
  _ ← whole TxSize (Coinbase b) (EMsg "encode: coinbase is not one whole transaction");
  _ ← guard_err (existsb (λ r, bool_decide (r = zero_hash)) (SubtreeRoots b))
        (EMsg "encode: subtree root is all zero");
  let out := Header b in
  let out := out ++ be_bytes 8 (TxCount b) in
  let out := out ++ be_bytes 8 (SizeInBytes b) in
  let out := out ++ be_bytes 8 (u64 (zlen (SubtreeRoots b))) in
  let out := foldl (λ out r, out ++ hbytes r) out (SubtreeRoots b) in
  let out := out ++ Coinbase b in
  let out := out ++ be_bytes 8 (Height b) in
  let out := out ++ be_bytes 8 (u64 (zlen (CoinbaseBUMP b))) in
  let out := out ++ CoinbaseBUMP b in
  _ ← whole BlockSize out (EMsg "encode: built block fails its own codec");
  Ok out.
End encode.
End encode.

Import encode.

(** The values the [uint64] fields of a [Block] can hold. *)
Definition block_typed (b : Block) : Prop :=
  is_u64 (TxCount b) ∧ is_u64 (SizeInBytes b) ∧ is_u64 (Height b) ∧
  fits (SubtreeRoots b) ∧ fits (CoinbaseBUMP b).

Definition block_frame (b : Block) : list byte :=
  block_layout (Header b) (TxCount b) (SizeInBytes b) (SubtreeRoots b)
    (Coinbase b) (Height b) (CoinbaseBUMP b).

Lemma foldl_app_hashes out hs :
  foldl (λ out h, out ++ hbytes h) out hs = out ++ concat_hashes hs.
Proof.
  revert out; induction hs as [|h hs IH]; intros out; simpl.
  - by rewrite app_nil_r.
  - by rewrite IH, concat_hashes_cons, app_assoc.
Qed.

Lemma fits_u64 {A} (l : list A) : fits l → u64 (zlen l) = zlen l.
Proof.
  intros H. apply u64_small. unfold fits in H.
  assert (max_alloc < two64) by done. lia.
Qed.

Section lemmas.
Context {O : Objfmt}.

Lemma whole_ok f b e u : whole f b e = Ok u ↔ f b = Ok (zlen b).
Proof.
  unfold whole. destruct (f b) as [n| |]; [|done..].
  rewrite guard_err_ok, negb_false_iff, Z.eqb_eq. split; congruence.
Qed.

Lemma no_zero_roots rs :
  existsb (λ r, bool_decide (r = zero_hash)) rs = false ↔ zero_hash ∉ rs.
Proof.
  induction rs as [|r rs IH]; simpl; [by split; auto using not_elem_of_nil|].
  rewrite orb_false_iff, bool_decide_eq_false, IH, not_elem_of_cons.
  split; intros [? ?]; by split; [apply not_eq_sym|].
Qed.

(** [Subtree] either fails or returns the documented layout, which the
    codec sizes to its exact length. *)
Lemma Subtree_spec root nodes f :
  fits nodes →
  Subtree root nodes = Ok f ↔
    (nodes ≠ []) ∧ f = subtree_layout root nodes ∧ SubtreeSize f = Ok (zlen f).
Proof.
  intros Hf. unfold Subtree.
  rewrite foldl_app_hashes, fits_u64, <- app_assoc by done.
  fold (subtree_layout root nodes).
  rewrite res_bind_ok. split.
  - intros (? & Hg%guard_err_ok & (? & Hw%whole_ok & [= <-])%res_bind_ok).
    apply Z.eqb_neq in Hg. split_and!; [|done..]. by intros ->.
  - intros (Hn & -> & Hs). exists tt. rewrite guard_err_ok, Z.eqb_neq. split.
    + destruct nodes; [done|simpl; lia].
    + apply res_bind_ok. exists tt. by rewrite whole_ok.
Qed.

(** [Block.Encode] succeeds exactly on an 80-byte header, one whole
    transaction as coinbase and no all-zero root, when the frame it builds
    sizes to its own length; the frame is the documented layout. *)
Lemma Encode_spec b f :
  block_typed b →
  Encode b = Ok f ↔
    length (Header b) = 80%nat ∧ Coinbase b ≠ [] ∧
    TxSize (Coinbase b) = Ok (zlen (Coinbase b)) ∧
    (zero_hash ∉ SubtreeRoots b) ∧
    f = block_frame b ∧ BlockSize f = Ok (zlen f).
Proof.
  intros (_ & _ & _ & Hr & Hb). unfold Encode.
  rewrite foldl_app_hashes, !fits_u64, <- !app_assoc by done.
  change (Header b ++ (be_bytes 8 (TxCount b) ++ _)) with (block_frame b).
  split.
  - intros (? & H1%guard_err_ok & H)%res_bind_ok.
    apply res_bind_ok in H as (? & H2%guard_err_ok & H).
    apply res_bind_ok in H as (? & H3%whole_ok & H).
    apply res_bind_ok in H as (? & H4%guard_err_ok & H).
    apply res_bind_ok in H as (? & H5%whole_ok & [= <-]).
    apply negb_false_iff, Z.eqb_eq in H1. apply Z.eqb_neq in H2.
    apply no_zero_roots in H4. split_and!; [lia| |done..].
    intros E. by rewrite E in H2.
  - intros (H1 & H2 & H3 & H4 & -> & H5).
    rewrite H1. simpl. rewrite (proj2 (Z.eqb_neq (zlen (Coinbase b)) 0))
      by (destruct (Coinbase b); [done|simpl; lia]).
    simpl. rewrite (proj2 (whole_ok _ _ _ tt) H3). simpl.
    rewrite (proj2 (no_zero_roots _) H4). simpl.
    by rewrite (proj2 (whole_ok _ _ _ tt) H5).
Qed.
End lemmas.
