(* ===== verification/TnWire.v ===== *)
(** * tnwire: BRC-144 and Teranode's block serialization

    [src/tnwire/block.go]: the same fields in the same order, with four counts
    written as fixed big-endian words on one side and as CompactSize integers
    on the other. Counts come off the wire as [uint64] and are converted to
    [int]; the model keeps both widths and their wrap-around. *)

From Stdlib Require Import Strings.Byte.
From stdpp Require Import base list strings numbers gmap.
From S2P Require Import Prelude HashId Objfmt Encode.

Module tnwire.
Import encode.

Definition isZero32 (b : list byte) : bool := forallb (λ x, bool_decide (x = x00)) b.

Definition AppendVarInt (b : list byte) (v : Z) : list byte :=
  if v <? 0xfd then b ++ [byte_of v]
  else if v <=? 0xffff then (b ++ [xfd]) ++ le_bytes 2 v
  else if v <=? 0xffffffff then (b ++ [xfe]) ++ le_bytes 4 v
  else (b ++ [xff]) ++ le_bytes 8 v.

(** The value and the bytes consumed; [0, 0] when the buffer is short. *)
Definition readVarInt (b : list byte) : Z * Z :=
  match b with
  | [] => (0, 0)
  | c :: r =>
      if byte_val c =? 0xfd then
        if zlen b <? 3 then (0, 0) else (le_val (take 2 r), 3)
      else if byte_val c =? 0xfe then
        if zlen b <? 5 then (0, 0) else (le_val (take 4 r), 5)
      else if byte_val c =? 0xff then
        if zlen b <? 9 then (0, 0) else (le_val (take 8 r), 9)
      else (byte_val c, 1)
  end.

Section tnwire.
Context {O : Objfmt}.

(** The loop that refuses an all-zero subtree root. *)
Definition zero_root_body (roots : list byte) (i : Z) : Z + res unit :=
  match slice roots (i *i 32) ((i +i 1) *i 32) with
  | Ok g => if isZero32 g then inr (Err (EMsg "brc-144: subtree root is all zero"))
            else inl (i +i 1)
  | Err e => inr (Err e)
  | Panic => inr Panic
  end.
Definition check_zero_roots (roots : list byte) (n : Z) : res unit :=
  match loop_Z (zero_root_body roots) n 0 with
  | inl _ => Ok tt
  | inr r => r
  end.

Definition ToTeranode (obj : list byte) : res (list byte) :=
  total ← BlockSize obj;
  _ ← guard_err (negb (total =? zlen obj)) (EMsg "brc-144: frame declares another size");
  _ ← guard_err (zlen obj <? BlockPrefixSize) (EMsg "brc-144: short prefix");
  txCount ← u64be obj 80 88;
  sizeInBytes ← u64be obj 88 96;
  subtreeCount ← u64be obj 96 104;
  let off := BlockPrefixSize in
  let rootsLen := i64 subtreeCount *i 32 in
  _ ← guard_err (zlen obj <? off +i rootsLen) (EMsg "brc-144: subtree roots overrun");
  roots ← slice obj off (off +i rootsLen);
  let off := off +i rootsLen in
  _ ← check_zero_roots roots (i64 subtreeCount);
  rest ← slice_from obj off;
  cbLen ← TxSize rest;
  coinbase ← slice obj off (off +i cbLen);
  let off := off +i cbLen in
  _ ← guard_err (zlen obj <? off +i 16) (EMsg "brc-144: truncated before height/bump length");
  height ← u64be obj off (off +i 8);
  let off := off +i 8 in
  bumpLen ← u64be obj off (off +i 8);
  let off := off +i 8 in
  _ ← guard_err (u64 (zlen obj - off) <? bumpLen) (EMsg "brc-144: truncated BUMP");
  bump ← slice obj off (off +i i64 bumpLen);
  hdr ← slice obj 0 80;
  let out := hdr in
  let out := AppendVarInt out txCount in
  let out := AppendVarInt out sizeInBytes in
  let out := AppendVarInt out subtreeCount in
  let out := out ++ roots in
  let out := out ++ coinbase in
  let out := AppendVarInt out height in
  let out := AppendVarInt out (u64 (zlen bump)) in
  Ok (out ++ bump).

(** [v, n := readVarInt(b[off:])] followed by [if n <= 0 { return err }]. *)
Definition varint_at (b : list byte) (off : Z) (e : error) : res (Z * Z) :=
  rest ← slice_from b off;
  let '(v, n) := readVarInt rest in
  _ ← guard_err (n <=? 0) e;
  Ok (v, off +i n).

(** [for i := range roots { copy(roots[i][:], b[off:off+32]); off += 32 }]. *)
Definition copy_root_body (b : list byte) (s : Z * list Hash) : (Z * list Hash) + res (Z * list Hash) :=
  let '(off, acc) := s in
  match slice b off (off +i 32) with
  | Ok g => inl (off +i 32, acc ++ [copy32 g])
  | Err e => inr (Err e)
  | Panic => inr Panic
  end.
Definition copy_roots (b : list byte) (off n : Z) : res (Z * list Hash) :=
  match loop_Z (copy_root_body b) n (off, []) with
  | inl s => Ok s
  | inr r => r
  end.

(** [make([][32]byte, n)]. *)
Definition make_roots (n : Z) : res unit :=
  if (n <? two63) && (n * 32 <=? max_alloc) then Ok tt else Panic.

Definition FromTeranode (b : list byte) : res Block :=
  _ ← guard_err (zlen b <? 92) (EMsg "teranode block: minimum is 92");
  hdr ← slice b 0 80;
  '(txCount, off) ← varint_at b 80 (EMsg "teranode block: bad transaction count");
  '(size, off) ← varint_at b off (EMsg "teranode block: bad size");
  '(subtreeCount, off) ← varint_at b off (EMsg "teranode block: bad subtree count");
  _ ← guard_err (zlen b <? off +i (i64 subtreeCount *i 32))
        (EMsg "teranode block: subtree roots overrun");
  _ ← make_roots subtreeCount;
  '(off, roots) ← copy_roots b off subtreeCount;
  rest ← slice_from b off;
  cbLen ← TxSize rest;
  coinbase ← slice b off (off +i cbLen);
  let off := off +i cbLen in
  '(height, off) ← varint_at b off (EMsg "teranode block: bad height");
  if zlen b <=? off then Ok (mkBlock hdr txCount size roots coinbase height []) else
  '(bumpLen, off) ← varint_at b off (EMsg "teranode block: bad BUMP length");
  _ ← guard_err (zlen b <? off +i i64 bumpLen) (EMsg "teranode block: truncated BUMP");
  bump ← slice b off (off +i i64 bumpLen);
  Ok (mkBlock hdr txCount size roots coinbase height bump).

Definition CoinbaseOf (obj : list byte) : res (list byte) :=
  _ ← guard_err (zlen obj <? BlockPrefixSize) (EMsg "brc-144: short prefix");
  subtreeCount ← u64be obj 96 104;
  let off := BlockPrefixSize +i (i64 subtreeCount *i 32) in
  _ ← guard_err (zlen obj <? off) (EMsg "brc-144: subtree roots overrun");
  rest ← slice_from obj off;
  cbLen ← TxSize rest;
  slice obj off (off +i cbLen).

(** [for i := range roots { copy(roots[i][:], obj[104+i*32:]) }]. *)
Definition roots_of_body (obj : list byte) (s : Z * list Hash) : (Z * list Hash) + res (list Hash) :=
  let '(i, acc) := s in
  match slice_from obj (BlockPrefixSize +i (i *i 32)) with
  | Ok g => inl (i +i 1, acc ++ [copy32 g])
  | Err e => inr (Err e)
  | Panic => inr Panic
  end.

Definition SubtreeRootsOf (obj : list byte) : res (list Hash) :=
  _ ← guard_err (zlen obj <? BlockPrefixSize) (EMsg "brc-144: short prefix");
  count ← u64be obj 96 104;
  let end_ := BlockPrefixSize +i (i64 count *i 32) in
  _ ← guard_err ((u64 (zlen obj / 32) <? count) || (zlen obj <? end_))
        (EMsg "brc-144: subtree roots overrun");
  _ ← make_roots count;
  match loop_Z (roots_of_body obj) count (0, []) with
  | inl (_, roots) => Ok roots
  | inr r => r
  end.
End tnwire.
End tnwire.

Import encode tnwire.

(** [header[80] | varint txCount | varint size | varint subtreeCount |
    roots[32×M] | coinbase | varint height | varint bumpLen | bump]. *)
Definition teranode_layout (b : Block) : list byte :=
  Header b ++ AppendVarInt [] (TxCount b) ++ AppendVarInt [] (SizeInBytes b)
    ++ AppendVarInt [] (zlen (SubtreeRoots b)) ++ concat_hashes (SubtreeRoots b)
    ++ Coinbase b ++ AppendVarInt [] (Height b)
    ++ AppendVarInt [] (zlen (CoinbaseBUMP b)) ++ CoinbaseBUMP b.

(** ** CompactSize integers *)

Lemma AppendVarInt_app b v : AppendVarInt b v = b ++ AppendVarInt [] v.
Proof. unfold AppendVarInt. repeat case_match; by rewrite <- ?app_assoc. Qed.

Lemma length_AppendVarInt v : 1 ≤ zlen (AppendVarInt [] v) ≤ 9.
Proof.
  unfold AppendVarInt. repeat case_match; rewrite ?length_app, ?length_le_bytes; simpl; lia.
Qed.

Lemma readVarInt_tag c k v s :
  readVarInt ((([] ++ [c]) ++ le_bytes k v) ++ s) =
    if byte_val c =? 0xfd then
      if zlen ((c :: le_bytes k v) ++ s) <? 3 then (0, 0) else (le_val (take 2 (le_bytes k v ++ s)), 3)
    else if byte_val c =? 0xfe then
      if zlen ((c :: le_bytes k v) ++ s) <? 5 then (0, 0) else (le_val (take 4 (le_bytes k v ++ s)), 5)
    else if byte_val c =? 0xff then
      if zlen ((c :: le_bytes k v) ++ s) <? 9 then (0, 0) else (le_val (take 8 (le_bytes k v ++ s)), 9)
    else (byte_val c, 1).
Proof. done. Qed.

Lemma take_le_bytes k v (s : list byte) :
  0 ≤ v < 256 ^ Z.of_nat k → le_val (take k (le_bytes k v ++ s)) = v.
Proof.
  intros H. rewrite take_app_length' by (by rewrite length_le_bytes).
  rewrite le_val_bytes. by apply Z.mod_small.
Qed.

(** Reading back what was appended, whatever follows. *)
Lemma readVarInt_AppendVarInt v s :
  is_u64 v → readVarInt (AppendVarInt [] v ++ s) = (v, zlen (AppendVarInt [] v)).
Proof.
  intros [H0 H1]. unfold AppendVarInt.
  destruct (Z.ltb_spec v 0xfd).
  { simpl. rewrite byte_val_of, Z.mod_small by lia.
    rewrite !(proj2 (Z.eqb_neq _ _)) by lia. done. }
  destruct (Z.leb_spec v 0xffff).
  { rewrite (readVarInt_tag xfd 2). cbn -[le_bytes take].
    rewrite length_app, length_le_bytes, (proj2 (Z.ltb_ge _ _)) by lia.
    by rewrite take_le_bytes by lia. }
  destruct (Z.leb_spec v 0xffffffff).
  { rewrite (readVarInt_tag xfe 4). cbn -[le_bytes take].
    rewrite length_app, length_le_bytes, (proj2 (Z.ltb_ge _ _)) by lia.
    by rewrite take_le_bytes by lia. }
  rewrite (readVarInt_tag xff 8). cbn -[le_bytes take].
  rewrite length_app, length_le_bytes, (proj2 (Z.ltb_ge _ _)) by lia.
  rewrite take_le_bytes; [done|]. unfold two64 in H1. lia.
Qed.

(** Far from where [int] offsets wrap. *)
Definition roomy {A} (b : list A) : Prop := zlen b < 2 * max_alloc.

Lemma varint_at_field b p v s off e :
  b = p ++ AppendVarInt [] v ++ s → off = zlen p → is_u64 v → roomy b →
  varint_at b off e = Ok (v, off + zlen (AppendVarInt [] v)).
Proof.
  intros Hb -> Hv Hf. unfold varint_at.
  rewrite (slice_from_field b p (AppendVarInt [] v ++ s)) by done. simpl.
  rewrite readVarInt_AppendVarInt by done.
  pose proof (length_AppendVarInt v).
  rewrite (proj2 (Z.leb_gt _ _)) by lia. simpl.
  num_bounds. unfold roomy in Hf. rewrite Hb, !length_app in Hf.
  by rewrite iadd_small by lia.
Qed.

(** ** Loops over hashes *)

Lemma copy_root_loop b rs : ∀ p s off acc,
  b = p ++ concat_hashes rs ++ s → off = zlen p → roomy b →
  loop_nat (copy_root_body b) (length rs) (off, acc)
  = inl (off + 32 * zlen rs, acc ++ rs).
Proof.
  num_bounds. induction rs as [|r rs IH]; intros p s off acc Hb Hoff Hf; simpl.
  { f_equal. rewrite app_nil_r. f_equal. lia. }
  rewrite concat_hashes_cons, <- app_assoc in Hb.
  assert (off +i 32 = off + 32) as Ho.
  { apply iadd_small. unfold roomy in Hf.
    rewrite Hb, !length_app, hash_length in Hf. lia. }
  rewrite Ho, (slice_field b p (hbytes r) (concat_hashes rs ++ s))
    by (rewrite ?hash_length; first [done|lia]).
  rewrite (IH (p ++ hbytes r) s).
  - rewrite copy32_hbytes, <- app_assoc. simpl. do 2 f_equal. lia.
  - by rewrite <- app_assoc.
  - rewrite length_app, hash_length. lia.
  - done.
Qed.

Lemma copy_roots_field b p rs s off :
  b = p ++ concat_hashes rs ++ s → off = zlen p → roomy b →
  copy_roots b off (zlen rs) = Ok (off + 32 * zlen rs, rs).
Proof.
  intros. unfold copy_roots. rewrite loop_Z_nat, Nat2Z.id.
  by rewrite (copy_root_loop b rs p s).
Qed.

Lemma isZero32_hash h : isZero32 (hbytes h) = true ↔ h = zero_hash.
Proof.
  unfold isZero32. split.
  - intros H%Is_true_eq_left%forallb_True. apply hash_eq.
    assert (hbytes h = replicate 32 x00) as ->; [|done].
    rewrite <- (hash_length h). apply (list_eq_same_length _ _ (length (hbytes h))).
    + by rewrite length_replicate.
    + done.
    + intros i x y Hi Hx Hy. apply lookup_replicate in Hy as [-> _].
      rewrite Forall_lookup in H. specialize (H i x Hx).
      by apply bool_decide_unpack in H.
  - by intros ->.
Qed.

Lemma zero_root_loop rs : ∀ p s i,
  zero_hash ∉ rs → i = zlen p → zlen p + zlen rs < max_alloc →
  loop_nat (zero_root_body (concat_hashes p ++ concat_hashes rs ++ s)) (length rs) i
  = inl (i + zlen rs).
Proof.
  num_bounds. induction rs as [|r rs IH]; intros p s i Hz Hi Hm; simpl.
  { f_equal. lia. }
  apply not_elem_of_cons in Hz as [Hr Hz]. simpl in Hm.
  unfold zero_root_body at 1.
  rewrite (imul_small i 32), (iadd_small i 1), imul_small by lia.
  rewrite (slice_field _ (concat_hashes p) (hbytes r) (concat_hashes rs ++ s)).
  - destruct (isZero32 (hbytes r)) eqn:E.
    { apply isZero32_hash in E. congruence. }
    specialize (IH (p ++ [r]) s (i + 1)).
    assert (concat_hashes (p ++ [r]) = concat_hashes p ++ hbytes r) as Ep.
    { unfold concat_hashes. by rewrite bind_app, bind_cons, app_nil_r. }
    rewrite concat_hashes_cons, <- app_assoc. rewrite Ep, <- app_assoc in IH.
    rewrite IH; [f_equal; lia|done|rewrite length_app; simpl; lia|].
    rewrite length_app; simpl; lia.
  - by rewrite concat_hashes_cons, <- app_assoc.
  - rewrite length_concat_hashes. lia.
  - rewrite length_concat_hashes, hash_length. lia.
Qed.

Lemma check_zero_roots_ok rs :
  zero_hash ∉ rs → fits rs → check_zero_roots (concat_hashes rs) (zlen rs) = Ok tt.
Proof.
  intros Hz Hf. unfold check_zero_roots. rewrite loop_Z_nat, Nat2Z.id.
  pose proof (zero_root_loop rs [] [] 0 Hz eq_refl Hf) as H.
  rewrite app_nil_r in H. simpl in H. by rewrite H.
Qed.

(** ** The two layouts determine each other *)

(** Closes the length side conditions of the field lemmas. *)
Ltac len_solve :=
  rewrite ?length_app, ?length_be_bytes, ?length_concat_hashes; simpl; lia.

Section codec.
Context {O : Objfmt} {OL : ObjfmtLaws O}.

(** What [Encode] guarantees of the block behind a frame. *)
Record frame_ok (b : Block) : Prop := {
  fo_typed : block_typed b;
  fo_header : length (Header b) = 80%nat;
  fo_coinbase : TxSize (Coinbase b) = Ok (zlen (Coinbase b));
  fo_roots : zero_hash ∉ SubtreeRoots b;
  fo_size : BlockSize (block_frame b) = Ok (zlen (block_frame b));
  fo_fits : fits (block_frame b)
}.

Lemma frame_lengths b : length (Header b) = 80%nat →
  zlen (block_frame b)
  = 104 + 32 * zlen (SubtreeRoots b) + zlen (Coinbase b) + 16 + zlen (CoinbaseBUMP b).
Proof. apply length_block_layout. Qed.

(** Where the fields of a frame are found. *)
Section fields.
Context (b : Block) (Ht : block_typed b) (Hh : length (Header b) = 80%nat).
Let n := zlen (SubtreeRoots b).
Let k := zlen (Coinbase b).
Let m := zlen (CoinbaseBUMP b).
Let R := concat_hashes (SubtreeRoots b).
Let tail := be_bytes 8 (Height b) ++ be_bytes 8 m ++ CoinbaseBUMP b.

Lemma frame_prefix_fields :
  slice (block_frame b) 0 80 = Ok (Header b) ∧
  u64be (block_frame b) 80 88 = Ok (TxCount b) ∧
  u64be (block_frame b) 88 96 = Ok (SizeInBytes b) ∧
  u64be (block_frame b) 96 104 = Ok n ∧
  slice (block_frame b) 104 (104 + 32 * n) = Ok R.
Proof using Ht Hh.
  destruct Ht as (Htc & Hsz & _ & Hr & _). unfold fits in Hr. num_bounds.
  set (hdr := Header b). set (t1 := be_bytes 8 (TxCount b)).
  set (t2 := be_bytes 8 (SizeInBytes b)). set (t3 := be_bytes 8 n).
  assert (Lt : length t1 = 8%nat ∧ length t2 = 8%nat ∧ length t3 = 8%nat)
    by (unfold t1, t2, t3; rewrite !length_be_bytes; done).
  assert (LR : zlen R = 32 * n) by (unfold R; rewrite length_concat_hashes; unfold n; lia).
  split_and!.
  - apply (slice_field _ [] hdr (t1 ++ t2 ++ t3 ++ R ++ Coinbase b ++ tail)); [done..|].
    unfold hdr; simpl; lia.
  - apply (u64be_field _ hdr _ (t2 ++ t3 ++ R ++ Coinbase b ++ tail)); [done| | |done];
      unfold hdr; lia.
  - apply (u64be_field _ (hdr ++ t1) _ (t3 ++ R ++ Coinbase b ++ tail)); [| | |done];
      rewrite ?length_app; unfold hdr; [by rewrite <- !app_assoc|lia..].
  - apply (u64be_field _ (hdr ++ t1 ++ t2) _ (R ++ Coinbase b ++ tail));
      rewrite ?length_app; unfold hdr; [by rewrite <- !app_assoc|lia..].
  - apply (slice_field _ (hdr ++ t1 ++ t2 ++ t3) _ (Coinbase b ++ tail));
      rewrite ?length_app; unfold hdr; [by rewrite <- !app_assoc|lia..].
Qed.

Lemma frame_tail_fields o1 o2 :
  o1 = 104 + 32 * n → o2 = o1 + k →
  slice_from (block_frame b) o1 = Ok (Coinbase b ++ tail) ∧
  slice (block_frame b) o1 o2 = Ok (Coinbase b) ∧
  u64be (block_frame b) o2 (o2 + 8) = Ok (Height b) ∧
  u64be (block_frame b) (o2 + 8) (o2 + 8 + 8) = Ok m ∧
  slice (block_frame b) (o2 + 8 + 8) (o2 + 8 + 8 + m) = Ok (CoinbaseBUMP b).
Proof using Ht Hh.
  intros Ho1 Ho2. destruct Ht as (_ & _ & Hhe & _ & Hb). unfold fits in Hb. num_bounds.
  set (P := Header b ++ be_bytes 8 (TxCount b) ++ be_bytes 8 (SizeInBytes b)
            ++ be_bytes 8 n ++ R).
  assert (LP : zlen P = o1).
  { unfold P, R. rewrite !length_app, !length_be_bytes, length_concat_hashes. unfold n in *. lia. }
  assert (E : block_frame b = P ++ Coinbase b ++ tail)
    by (unfold P; by rewrite <- !app_assoc).
  split_and!.
  - by apply (slice_from_field _ P).
  - apply (slice_field _ P _ tail); [done|lia|unfold k in *; lia].
  - apply (u64be_field _ (P ++ Coinbase b) _ (be_bytes 8 m ++ CoinbaseBUMP b));
      rewrite ?length_app; [by rewrite E, <- !app_assoc|unfold k in *; lia..|done].
  - apply (u64be_field _ (P ++ Coinbase b ++ be_bytes 8 (Height b)) _ (CoinbaseBUMP b));
      rewrite ?length_app, ?length_be_bytes;
      [by rewrite E, <- !app_assoc|unfold k, m in *; lia..].
  - apply (slice_field _ (P ++ Coinbase b ++ be_bytes 8 (Height b) ++ be_bytes 8 m) _ []);
      rewrite ?length_app, ?length_be_bytes;
      [by rewrite E, app_nil_r, <- !app_assoc|unfold k, m in *; lia..].
Qed.
End fields.

(** A frame is rewritten field by field into Teranode's serialization. *)
Lemma ToTeranode_frame b :
  frame_ok b → ToTeranode (block_frame b) = Ok (teranode_layout b).
Proof.
  intros [Ht Hh Hc Hz Hs Hf]. num_bounds. pose proof (frame_lengths b Hh) as HL.
  pose proof (tx_size_bounds _ _ Hc) as [Hcb _].
  destruct (frame_prefix_fields b Ht Hh) as (E0 & E1 & E2 & E3 & E4).
  destruct (frame_tail_fields b Ht Hh _ _ eq_refl eq_refl) as (E5 & E6 & E7 & E8 & E9).
  destruct Ht as (_ & _ & _ & Hr & _). unfold fits in Hf. rewrite HL in Hf.
  unfold ToTeranode, BlockPrefixSize. rewrite Hs. rstep.
  rewrite Z.eqb_refl, (proj2 (Z.ltb_ge _ 104)) by lia. rstep.
  rewrite E1. rstep. rewrite E2. rstep. rewrite E3. rstep.
  rewrite (i64_small (zlen (SubtreeRoots b))), imul_small, (Z.mul_comm _ 32), (iadd_small 104) by lia.
  rewrite (proj2 (Z.ltb_ge _ (104 + _))) by lia. rstep. rewrite E4. rstep.
  rewrite (check_zero_roots_ok _ Hz Hr). rstep. rewrite E5. rstep.
  rewrite (tx_size_app _ _ Hc). rstep.
  rewrite (iadd_small _ (zlen (Coinbase b))), (iadd_small _ 16),
    (iadd_small (_ + zlen (Coinbase b)) 8), (iadd_small (_ + 8) 8) by lia.
  rewrite E6. rstep. rewrite (proj2 (Z.ltb_ge _ (_ + 16))) by lia. rstep.
  rewrite E7. rstep. rewrite E8. rstep.
  rewrite (u64_small (_ - _)), (proj2 (Z.ltb_ge _ _)) by lia. rstep.
  rewrite (i64_small (zlen (CoinbaseBUMP b))), iadd_small, E9 by lia. rstep.
  rewrite E0. rstep. rewrite u64_small by lia. unfold teranode_layout. f_equal.
  rewrite (AppendVarInt_app (AppendVarInt _ (Height b))),
    (AppendVarInt_app _ (Height b)), (AppendVarInt_app _ (zlen (SubtreeRoots b))),
    (AppendVarInt_app _ (SizeInBytes b)), (AppendVarInt_app (Header b)).
  by rewrite <- !app_assoc.
Qed.

Lemma length_teranode_layout b :
  length (Header b) = 80%nat →
  85 + 32 * zlen (SubtreeRoots b) + zlen (Coinbase b) + zlen (CoinbaseBUMP b)
  ≤ zlen (teranode_layout b)
  ≤ 125 + 32 * zlen (SubtreeRoots b) + zlen (Coinbase b) + zlen (CoinbaseBUMP b).
Proof.
  intros Hh. unfold teranode_layout. rewrite !length_app, length_concat_hashes, Hh.
  pose proof (length_AppendVarInt (TxCount b)).
  pose proof (length_AppendVarInt (SizeInBytes b)).
  pose proof (length_AppendVarInt (zlen (SubtreeRoots b))).
  pose proof (length_AppendVarInt (Height b)).
  pose proof (length_AppendVarInt (zlen (CoinbaseBUMP b))). lia.
Qed.

Lemma make_roots_ok n : 0 ≤ n → n * 32 ≤ max_alloc → make_roots n = Ok tt.
Proof.
  intros. num_bounds. unfold make_roots.
  by rewrite (proj2 (Z.ltb_lt _ _)), (proj2 (Z.leb_le _ _)) by lia.
Qed.

(** Teranode's serialization parses back to the block it came from. *)
Lemma FromTeranode_layout b :
  block_typed b → length (Header b) = 80%nat →
  TxSize (Coinbase b) = Ok (zlen (Coinbase b)) → fits (block_frame b) →
  FromTeranode (teranode_layout b) = Ok b.
Proof.
  intros Ht Hh Hc Hf. num_bounds. pose proof (tx_size_bounds _ _ Hc) as [Hcb _].
  pose proof (length_teranode_layout b Hh) as HL.
  unfold fits in Hf. rewrite frame_lengths in Hf by done.
  assert (Hr : roomy (teranode_layout b)) by (unfold roomy; lia).
  destruct Ht as (Htc & Hsz & Hhe & Hro & Hbu). unfold fits in Hro, Hbu.
  destruct b as [hdr tc sz roots cb he bump]; cbn [Header TxCount SizeInBytes
    SubtreeRoots Coinbase Height CoinbaseBUMP] in *.
  set (b := teranode_layout _) in *.
  set (v1 := AppendVarInt [] tc). set (v2 := AppendVarInt [] sz).
  set (v3 := AppendVarInt [] (zlen roots)). set (v4 := AppendVarInt [] he).
  set (v5 := AppendVarInt [] (zlen bump)). set (R := concat_hashes roots).
  assert (LR : zlen R = 32 * zlen roots) by (unfold R; rewrite length_concat_hashes; lia).
  assert (E : b = hdr ++ v1 ++ v2 ++ v3 ++ R ++ cb ++ v4 ++ v5 ++ bump) by done.
  assert (LE := f_equal length E). rewrite !length_app in LE.
  pose proof (length_AppendVarInt (zlen bump)) as L5. fold v5 in L5.
  unfold FromTeranode. rewrite (proj2 (Z.ltb_ge _ 92)) by lia. rstep.
  rewrite (slice_field b [] hdr _ 0 80 E) by (simpl; lia). rstep.
  rewrite (varint_at_field b hdr tc _ 80 _ E) by (first [done|lia]). rstep.
  rewrite (varint_at_field b (hdr ++ v1) sz (v3 ++ R ++ cb ++ v4 ++ v5 ++ bump))
    by (first [done|by rewrite E, <- !app_assoc|rewrite length_app; unfold v1; lia]). rstep.
  rewrite (varint_at_field b (hdr ++ v1 ++ v2) (zlen roots) (R ++ cb ++ v4 ++ v5 ++ bump))
    by (first [done|by rewrite E, <- !app_assoc|rewrite !length_app; unfold v1, v2; lia
              |split; lia]). rstep.
  fold v1 v2 v3. set (o3 := 80 + zlen v1 + zlen v2 + zlen v3).
  rewrite (i64_small (zlen roots)), imul_small, (iadd_small o3) by lia.
  rewrite (proj2 (Z.ltb_ge _ (o3 + _))) by lia. rstep.
  rewrite make_roots_ok by lia. rstep.
  rewrite (copy_roots_field b (hdr ++ v1 ++ v2 ++ v3) roots (cb ++ v4 ++ v5 ++ bump))
    by (first [done|by rewrite E, <- !app_assoc|rewrite !length_app; lia]). rstep.
  set (P := hdr ++ v1 ++ v2 ++ v3 ++ R).
  assert (EP : b = P ++ cb ++ v4 ++ v5 ++ bump) by (unfold P; by rewrite <- !app_assoc).
  assert (LP : zlen P = o3 + 32 * zlen roots) by (unfold P; rewrite !length_app; lia).
  rewrite (slice_from_field b P _ _ EP) by lia. rstep.
  rewrite (tx_size_app _ _ Hc). rstep. rewrite iadd_small by lia.
  rewrite (slice_field b P cb _ _ _ EP) by lia. rstep.
  rewrite (varint_at_field b (P ++ cb) he (v5 ++ bump))
    by (first [done|by rewrite EP, <- !app_assoc|rewrite !length_app; lia]). rstep.
  fold v4. rewrite (proj2 (Z.leb_gt _ _)) by lia.
  rewrite (varint_at_field b (P ++ cb ++ v4) (zlen bump) bump)
    by (first [done|by rewrite EP, <- !app_assoc|rewrite !length_app; lia|split; lia]). rstep.
  fold v5. rewrite (i64_small (zlen bump)), iadd_small by lia.
  rewrite (proj2 (Z.ltb_ge _ _)) by lia. rstep.
  rewrite (slice_field b (P ++ cb ++ v4 ++ v5) bump [])
    by (first [by rewrite EP, app_nil_r, <- !app_assoc|rewrite !length_app; lia]). done.
Qed.

(** A frame that names an all-zero root is refused. *)
Lemma zero_root_refused rs : ∀ p s i,
  zero_hash ∈ rs → i = zlen p → zlen p + zlen rs < max_alloc →
  loop_nat (zero_root_body (concat_hashes p ++ concat_hashes rs ++ s)) (length rs) i
  = inr (Err (EMsg "brc-144: subtree root is all zero")).
Proof.
  num_bounds. induction rs as [|r rs IH]; intros p s i Hz Hi Hm.
  { by apply not_elem_of_nil in Hz. }
  cbn [length loop_nat]. unfold zero_root_body at 1. simpl in Hm.
  rewrite (imul_small i 32), (iadd_small i 1), imul_small by lia.
  rewrite (slice_field _ (concat_hashes p) (hbytes r) (concat_hashes rs ++ s)).
  - destruct (isZero32 (hbytes r)) eqn:E; [done|].
    assert (concat_hashes (p ++ [r]) = concat_hashes p ++ hbytes r) as Ep.
    { unfold concat_hashes. by rewrite bind_app, bind_cons, app_nil_r. }
    specialize (IH (p ++ [r]) s (i + 1)).
    rewrite concat_hashes_cons, <- app_assoc. rewrite Ep, <- app_assoc in IH.
    apply IH; [|rewrite length_app; simpl; lia..].
    apply elem_of_cons in Hz as [<-|]; [|done].
    by rewrite (proj2 (isZero32_hash zero_hash) eq_refl) in E.
  - by rewrite concat_hashes_cons, <- app_assoc.
  - rewrite length_concat_hashes. lia.
  - rewrite length_concat_hashes, hash_length. lia.
Qed.

Lemma check_zero_roots_err rs :
  zero_hash ∈ rs → fits rs →
  check_zero_roots (concat_hashes rs) (zlen rs)
  = Err (EMsg "brc-144: subtree root is all zero").
Proof.
  intros Hz Hf. unfold check_zero_roots. rewrite loop_Z_nat, Nat2Z.id.
  pose proof (zero_root_refused rs [] [] 0 Hz eq_refl Hf) as H.
  rewrite app_nil_r in H. simpl in H. by rewrite H.
Qed.

(** Whatever the codec accepts as one whole frame is a frame. *)
Lemma whole_frame obj :
  BlockSize obj = Ok (zlen obj) → fits obj →
  ∃ b, obj = block_frame b ∧ block_typed b ∧ length (Header b) = 80%nat ∧
       TxSize (Coinbase b) = Ok (zlen (Coinbase b)).
Proof.
  intros Hs Hf. num_bounds.
  destruct (block_size_sound _ _ Hs)
    as (hdr & tc & sz & rs & cb & he & bu & s & Hobj & Hn & Hh & Htc & Hsz & Hhe & Hc).
  exists (mkBlock hdr tc sz rs cb he bu). unfold block_frame, block_typed; simpl.
  assert (s = []) as ->.
  { rewrite Hobj, length_app in Hn. destruct s; [done|simpl in Hn; lia]. }
  rewrite app_nil_r in Hobj. split_and!; try done; unfold fits in *;
    rewrite Hobj, length_block_layout in Hf by done; lia.
Qed.

Lemma ToTeranode_cases obj :
  fits obj →
  (∃ e, ToTeranode obj = Err e) ∨
  (∃ b, frame_ok b ∧ obj = block_frame b ∧ ToTeranode obj = Ok (teranode_layout b)).
Proof.
  intros Hf. destruct (BlockSize obj) as [n|e|] eqn:Hs.
  2: { left; exists e. unfold ToTeranode. by rewrite Hs. }
  2: { by destruct (block_size_no_panic obj). }
  destruct (decide (n = zlen obj)) as [->|Hn].
  2: { left; eexists. unfold ToTeranode. rewrite Hs. rstep.
       by rewrite (proj2 (Z.eqb_neq _ _) Hn). }
  destruct (whole_frame obj Hs Hf) as (b & -> & Ht & Hh & Hc).
  destruct (decide (zero_hash ∈ SubtreeRoots b)) as [Hz|Hz].
  2: { right; exists b. assert (frame_ok b) by (by constructor). auto using ToTeranode_frame. }
  left; eexists. num_bounds. pose proof (frame_lengths b Hh) as HL.
  destruct (frame_prefix_fields b Ht Hh) as (E0 & E1 & E2 & E3 & E4).
  pose proof (tx_size_bounds _ _ Hc). destruct Ht as (_ & _ & _ & Hr & _).
  unfold fits in Hf. rewrite HL in Hf.
  unfold ToTeranode, BlockPrefixSize. rewrite Hs. rstep.
  rewrite Z.eqb_refl, (proj2 (Z.ltb_ge _ 104)) by lia. rstep.
  rewrite E1. rstep. rewrite E2. rstep. rewrite E3. rstep.
  rewrite (i64_small (zlen (SubtreeRoots b))), imul_small, (Z.mul_comm _ 32), (iadd_small 104) by lia.
  rewrite (proj2 (Z.ltb_ge _ (104 + _))) by lia. rstep. rewrite E4. rstep.
  by rewrite (check_zero_roots_err _ Hz Hr).
Qed.

Lemma frame_ok_encode b : frame_ok b → Encode b = Ok (block_frame b).
Proof.
  intros [Ht Hh Hc Hz Hs Hf]. apply Encode_spec; [done|]. split_and!; try done.
  intros E. pose proof (tx_size_bounds _ _ Hc) as [H _]. rewrite E in H. simpl in H. lia.
Qed.

Lemma encode_frame_ok b f :
  block_typed b → fits f → Encode b = Ok f → frame_ok b ∧ f = block_frame b.
Proof.
  intros Ht Hf (Hh & _ & Hc & Hz & -> & Hs)%Encode_spec; [|done]. by split; [constructor|].
Qed.
End codec.

(** ** Offsets stay in range *)

Lemma readVarInt_bounds b v n :
  readVarInt b = (v, n) → is_u64 v ∧ 0 ≤ n ≤ zlen b.
Proof.
  unfold is_u64. num_bounds. destruct b as [|c r]; [intros [= <- <-]; simpl; lia|].
  pose proof (byte_val_range c). unfold readVarInt.
  assert (∀ k, (k ≤ 8)%nat → 0 ≤ le_val (take k r) < two64) as Hle.
  { intros k Hk. pose proof (le_val_range (take k r)).
    assert (256 ^ zlen (take k r) ≤ 256 ^ 8); [|lia].
    apply Z.pow_le_mono_r; [lia|]. rewrite length_take. lia. }
  repeat case_match; intros [= <- <-];
    try (match goal with |- context [take ?k r] => pose proof (Hle k ltac:(lia)) end);
    rewrite ?Z.ltb_ge in *; simpl in *; lia.
Qed.

Lemma varint_at_inv b off e :
  0 ≤ off ≤ zlen b → roomy b →
  no_panic (varint_at b off e) ∧
  ∀ v off', varint_at b off e = Ok (v, off') →
    off < off' ≤ zlen b ∧ is_u64 v ∧ fst (readVarInt (drop (Z.to_nat off) b)) = v.
Proof.
  intros Hoff Hr. unfold varint_at, slice_from. num_bounds. unfold roomy in Hr.
  rewrite slice_ok by lia. rstep. set (rest := take _ _).
  assert (rest = drop (Z.to_nat off) b) as ->.
  { unfold rest. apply take_ge. rewrite length_drop. lia. }
  destruct (readVarInt (drop (Z.to_nat off) b)) as [v n] eqn:E.
  pose proof (readVarInt_bounds _ _ _ E) as [Hv Hn]. rewrite length_drop in Hn.
  destruct (Z.leb_spec n 0); rstep; [done|]. split; [done|].
  intros v' off' [= <- <-]. rewrite iadd_small by lia. by split; [lia|].
Qed.

Lemma copy_roots_range b off n :
  0 ≤ off → 0 ≤ n → off + 32 * n ≤ zlen b → roomy b →
  ∃ rs, copy_roots b off n = Ok (off + 32 * n, rs).
Proof.
  intros H0 Hn Hl Hr.
  set (c := take (Z.to_nat (32 * n)) (drop (Z.to_nat off) b)).
  assert (Lc : length c = (32 * Z.to_nat n)%nat)
    by (unfold c; rewrite length_take, length_drop; lia).
  exists (copy32 <$> chunks32 (Z.to_nat n) c).
  replace n with (zlen (copy32 <$> chunks32 (Z.to_nat n) c)) at 1 2
    by (rewrite length_fmap, length_chunks32; lia).
  apply (copy_roots_field b (take (Z.to_nat off) b) _ (drop (Z.to_nat (32 * n)) (drop (Z.to_nat off) b)));
    [|rewrite length_take; lia|done].
  rewrite concat_chunks32 by done. unfold c. by rewrite !take_drop.
Qed.

Lemma roots_of_loop obj n : ∀ i acc,
  0 ≤ i → 104 + 32 * (i + Z.of_nat n) ≤ zlen obj → roomy obj →
  loop_nat (roots_of_body obj) n (i, acc)
  = inl (i + Z.of_nat n,
         acc ++ (copy32 <$> chunks32 n (drop (Z.to_nat (104 + 32 * i)) obj))).
Proof.
  num_bounds. unfold roomy. induction n as [|n IH]; intros i acc Hi Hl Hr.
  { cbn [loop_nat chunks32 fmap list_fmap]. rewrite app_nil_r. do 2 f_equal. lia. }
  cbn [loop_nat]. unfold roots_of_body at 1, BlockPrefixSize.
  rewrite imul_small, (iadd_small 104), (iadd_small i 1) by lia.
  unfold slice_from. rewrite slice_ok by lia. rewrite IH by lia. do 2 f_equal; [lia|].
  cbn [chunks32]. rewrite fmap_cons, <- app_assoc. f_equal. cbn [app]. f_equal.
  - apply hash_eq. cbn [hbytes copy32].
    rewrite (take_ge (drop (Z.to_nat (104 + i * 32)) obj)) by (rewrite length_drop; lia).
    replace (104 + i * 32) with (104 + 32 * i) by lia.
    rewrite !resize_spec, take_take, length_take, length_drop.
    do 2 f_equal; lia.
  - rewrite drop_drop. do 3 f_equal. lia.
Qed.

Lemma u64be_total b lo hi :
  0 ≤ lo → hi = lo + 8 → hi ≤ zlen b → ∃ v, u64be b lo hi = Ok v ∧ is_u64 v.
Proof.
  intros H0 -> Hl. unfold u64be. rewrite slice_ok by lia. rstep.
  set (f := take _ _). exists (be_val f). split; [done|].
  apply (be_field_u64 f). unfold f. rewrite length_take, length_drop. lia.
Qed.

Section accessors.
Context {O : Objfmt} {OL : ObjfmtLaws O}.

Lemma SubtreeRootsOf_ok obj count :
  fits obj → u64be obj 96 104 = Ok count → 0 ≤ count → 104 + 32 * count ≤ zlen obj →
  SubtreeRootsOf obj = Ok (copy32 <$> chunks32 (Z.to_nat count) (drop 104 obj)).
Proof.
  intros Hf Hc H0 Hl. num_bounds. unfold fits in *. unfold SubtreeRootsOf, BlockPrefixSize.
  rewrite (proj2 (Z.ltb_ge _ 104)) by lia. rstep. rewrite Hc. rstep.
  rewrite (i64_small count), imul_small, iadd_small by lia.
  rewrite (u64_small (_ / 32)) by (split; [apply Z.div_pos|apply Z.div_lt_upper_bound]; lia).
  rewrite (proj2 (Z.ltb_ge (_ / 32) _)) by (apply Z.div_le_lower_bound; lia).
  rewrite (proj2 (Z.ltb_ge _ (104 + _))) by lia. rstep.
  rewrite make_roots_ok by lia. rstep.
  by rewrite loop_Z_nat, roots_of_loop by (unfold roomy; lia).
Qed.

Lemma SubtreeRootsOf_err obj count :
  fits obj → 104 ≤ zlen obj → u64be obj 96 104 = Ok count → is_u64 count →
  zlen obj < 104 + 32 * count → ∃ e, SubtreeRootsOf obj = Err e.
Proof.
  intros Hf Hl Hc [H0 H1] Hov. num_bounds. unfold fits in *.
  eexists. unfold SubtreeRootsOf, BlockPrefixSize.
  rewrite (proj2 (Z.ltb_ge _ 104)) by lia. rstep. rewrite Hc. rstep.
  rewrite (u64_small (_ / 32)) by (split; [apply Z.div_pos|apply Z.div_lt_upper_bound]; lia).
  destruct (Z.ltb_spec (zlen obj / 32) count) as [|Hd]; [done|].
  pose proof (Z.mul_div_le (zlen obj) 32 ltac:(lia)).
  rewrite (i64_small count), imul_small, iadd_small by lia.
  by rewrite (proj2 (Z.ltb_lt _ (104 + _))) by lia.
Qed.

Lemma CoinbaseOf_frame b :
  block_typed b → length (Header b) = 80%nat → fits (block_frame b) →
  TxSize (Coinbase b) = Ok (zlen (Coinbase b)) →
  CoinbaseOf (block_frame b) = Ok (Coinbase b).
Proof.
  intros Ht Hh Hf Hc. num_bounds. unfold fits in Hf. rewrite frame_lengths in Hf by done.
  destruct (frame_prefix_fields b Ht Hh) as (_ & _ & _ & E3 & _).
  destruct (frame_tail_fields b Ht Hh _ _ eq_refl eq_refl) as (E5 & E6 & _).
  unfold CoinbaseOf, BlockPrefixSize. rewrite (frame_lengths b Hh).
  rewrite (proj2 (Z.ltb_ge _ 104)) by lia. rstep. rewrite E3. rstep.
  rewrite (i64_small (zlen (SubtreeRoots b))), imul_small, iadd_small by lia.
  rewrite (proj2 (Z.ltb_ge _ (104 + _))) by lia. rstep.
  rewrite (Z.mul_comm _ 32), E5. rstep. rewrite (tx_size_app _ _ Hc). rstep.
  by rewrite iadd_small by lia.
Qed.
End accessors.

(** The property theorems of the package. *)
Section properties.
Context {O : Objfmt} {OL : ObjfmtLaws O}.

(** A block the bridge encodes, converted to Teranode's serialization and
    parsed again, is the block it started from: no field is lost or moved. *)
Theorem block_roundtrip (b : Block) (frame : list byte) :
  block_typed b → fits frame → Encode b = Ok frame →
  ∃ tn, ToTeranode frame = Ok tn ∧ FromTeranode tn = Ok b.
Proof.
  intros Ht Hf He. destruct (encode_frame_ok b frame Ht Hf He) as [Hok ->].
  exists (teranode_layout b). split; [by apply ToTeranode_frame|].
  apply FromTeranode_layout; apply Hok.
Qed.

(** C6: A frame the retrieval plane serves and the reverse path fetches again
    re-encodes to the identical bytes. *)
Theorem frame_roundtrip (frame tn : list byte) :
  fits frame → ToTeranode frame = Ok tn →
  ∃ b, FromTeranode tn = Ok b ∧ Encode b = Ok frame.
Proof.
  intros Hf Ht. destruct (ToTeranode_cases frame Hf) as [[e He]|(b & Hok & -> & Hb)]; [congruence|].
  rewrite Hb in Ht. injection Ht as <-. exists b.
  split; [apply FromTeranode_layout; apply Hok|by apply frame_ok_encode].
Qed.

(** [ToTeranode] returns a value or an error on every input: its slice
    expressions are never out of range. *)
Theorem ToTeranode_total (obj : list byte) : fits obj → no_panic (ToTeranode obj).
Proof.
  intros Hf. unfold no_panic.
  destruct (ToTeranode_cases obj Hf) as [[e ->]|(b & _ & _ & ->)]; done.
Qed.

Lemma SubtreeRootsOf_no_panic obj : fits obj → no_panic (SubtreeRootsOf obj).
Proof.
  intros Hf. num_bounds. destruct (Z.ltb_spec (zlen obj) 104).
  { unfold SubtreeRootsOf, BlockPrefixSize. by rewrite (proj2 (Z.ltb_lt _ 104)). }
  destruct (u64be_total obj 96 104) as (c & Hc & Hu); [lia..|].
  destruct (Z.le_gt_cases (104 + 32 * c) (zlen obj)).
  - rewrite (SubtreeRootsOf_ok obj c); [done..|apply Hu|done].
  - destruct (SubtreeRootsOf_err obj c) as [e ->]; done.
Qed.

Lemma SubtreeRootsOf_frame b :
  fits (block_frame b) → block_typed b → length (Header b) = 80%nat →
  SubtreeRootsOf (block_frame b) = Ok (SubtreeRoots b).
Proof.
  intros Hf Ht Hh. num_bounds. destruct (frame_prefix_fields b Ht Hh) as (_ & _ & _ & E3 & _).
    rewrite (SubtreeRootsOf_ok _ _ Hf E3) by (rewrite ?(frame_lengths b Hh); lia).
    f_equal. rewrite Nat2Z.id. unfold block_frame, block_layout.
    replace 104%nat with (80 + (8 + (8 + 8)))%nat by lia.
    rewrite <- !drop_drop, drop_app_length' by done.
    rewrite !drop_app_length' by (by rewrite length_be_bytes).
    apply chunks32_concat.
Qed.

(** [SubtreeRootsOf] returns on every input, and on a frame it returns the
    roots the frame was built from. *)
Theorem SubtreeRootsOf_spec (obj : list byte) :
  fits obj →
  no_panic (SubtreeRootsOf obj) ∧
  ∀ b, obj = block_frame b → block_typed b → length (Header b) = 80%nat →
       SubtreeRootsOf obj = Ok (SubtreeRoots b).
Proof.
  intros Hf. split; [by apply SubtreeRootsOf_no_panic|].
  intros b -> Ht Hh. by apply SubtreeRootsOf_frame.
Qed.

(** [FromTeranode] panics only on a body that declares a count of 2^57 or
    more: on any other body, well formed or not, it returns. *)
Theorem FromTeranode_total (b : list byte) :
  fits b → (∀ off, fst (readVarInt (drop off b)) < 2 ^ 57) →
  no_panic (FromTeranode b).
Proof.
  intros Hf Hcount. num_bounds. assert (Hr : roomy b) by (unfold roomy, fits in *; lia).
  unfold fits in Hf. unfold FromTeranode.
  apply res_bind_no_panic; [auto with bridge|intros _ Hl%guard_err_ok%Z.ltb_ge].
  rewrite slice_ok by lia. rstep.
  destruct (varint_at_inv b 80 (EMsg "teranode block: bad transaction count")) as [Hn Ho]; [lia|done|].
  apply res_bind_no_panic; [done|intros [tc o1] [Ho1 _]%Ho].
  destruct (varint_at_inv b o1 (EMsg "teranode block: bad size")) as [Hn2 Ho2]; [lia|done|].
  apply res_bind_no_panic; [done|intros [sz o2] [Ho2' _]%Ho2].
  destruct (varint_at_inv b o2 (EMsg "teranode block: bad subtree count")) as [Hn3 Ho3]; [lia|done|].
  apply res_bind_no_panic; [done|intros [sc o3] (Ho3' & [Hsc _] & Ev)%Ho3].
  pose proof (Hcount (Z.to_nat o2)) as Hs. rewrite Ev in Hs.
  apply res_bind_no_panic; [auto with bridge|intros _ Hg%guard_err_ok%Z.ltb_ge].
  rewrite (i64_small sc), imul_small, iadd_small in Hg by lia.
  rewrite make_roots_ok by lia. rstep.
  destruct (copy_roots_range b o3 sc) as [rs ->]; [lia..|done|]. rstep.
  unfold slice_from. rewrite slice_ok by lia. rstep.
  apply res_bind_no_panic; [apply tx_size_no_panic|intros k Hk%tx_size_bounds].
  rewrite length_take, length_drop in Hk. rewrite iadd_small by lia.
  rewrite slice_ok by lia. rstep.
  destruct (varint_at_inv b (o3 + 32 * sc + k) (EMsg "teranode block: bad height")) as [Hn4 Ho4]; [lia|done|].
  apply res_bind_no_panic; [done|intros [he o4] [Ho4' _]%Ho4].
  destruct (Z.leb_spec (zlen b) o4); [done|].
  destruct (varint_at_inv b o4 (EMsg "teranode block: bad BUMP length")) as [Hn5 Ho5]; [lia|done|].
  apply res_bind_no_panic; [done|intros [bl o5] (Ho5' & [Hbl _] & Eb)%Ho5].
  pose proof (Hcount (Z.to_nat o4)) as Hb. rewrite Eb in Hb.
  apply res_bind_no_panic; [auto with bridge|intros _ Hg2%guard_err_ok%Z.ltb_ge].
  rewrite (i64_small bl), iadd_small in * by lia.
  by rewrite slice_ok by lia.
Qed.

(** C40: The bound is not vacuous: a body whose BUMP length field is 2^63 or more
    passes the length check after the conversion to [int] and then slices
    backwards. *)
Theorem FromTeranode_bump_panics (hdr coinbase : list byte) (bumpLen : Z) :
  length hdr = 80%nat → TxSize coinbase = Ok (zlen coinbase) → fits coinbase →
  two63 ≤ bumpLen < two64 →
  FromTeranode (hdr ++ [x00; x00; x00] ++ coinbase ++ [x00] ++ AppendVarInt [] bumpLen)
  = Panic.
Proof.
  intros Hh Hc Hf Hv. num_bounds. unfold fits in Hf.
  pose proof (tx_size_bounds _ _ Hc) as [Hcb _].
  pose proof (length_AppendVarInt bumpLen) as Lv. set (v := AppendVarInt [] bumpLen) in *.
  set (b := hdr ++ _).
  assert (Lb : zlen b = 84 + zlen coinbase + zlen v)
    by (unfold b; rewrite !length_app, Hh; simpl; lia).
  assert (Hr : roomy b) by (unfold roomy; lia).
  unfold FromTeranode. rewrite (proj2 (Z.ltb_ge _ 92)) by lia. rstep.
  rewrite slice_ok by lia. rstep.
  rewrite (varint_at_field b hdr 0 ([x00; x00] ++ coinbase ++ [x00] ++ v)) by (first [done|lia]).
  rstep. rewrite (varint_at_field b (hdr ++ [x00]) 0 ([x00] ++ coinbase ++ [x00] ++ v))
    by (first [done|rewrite length_app; simpl; lia|unfold b; by rewrite <- app_assoc]).
  rstep. rewrite (varint_at_field b (hdr ++ [x00; x00]) 0 (coinbase ++ [x00] ++ v))
    by (first [done|rewrite length_app; simpl; lia|unfold b; by rewrite <- app_assoc]).
  change (zlen (AppendVarInt [] 0)) with 1. rstep.
  change (i64 0 *i 32) with 0. rewrite iadd_small, (proj2 (Z.ltb_ge _ _)) by lia. rstep.
  rewrite make_roots_ok by lia. cbn -[varint_at slice slice_from iadd].
  set (P := hdr ++ [x00; x00; x00]).
  assert (LP : zlen P = 83) by (unfold P; rewrite length_app; simpl; lia).
  assert (E : b = P ++ coinbase ++ [x00] ++ v) by (unfold P; by rewrite <- app_assoc).
  rewrite (slice_from_field b P _ _ E) by done. rstep.
  rewrite (tx_size_app _ _ Hc). rstep. rewrite iadd_small by lia.
  rewrite (slice_field b P coinbase _ _ _ E) by lia. rstep.
  rewrite (varint_at_field b (P ++ coinbase) 0 v)
    by (first [done|rewrite length_app; lia|by rewrite E, <- app_assoc]).
  change (zlen (AppendVarInt [] 0)) with 1. rstep.
  rewrite (proj2 (Z.leb_gt _ _)) by lia.
  rewrite (varint_at_field b (P ++ coinbase ++ [x00]) bumpLen [])
    by (first [done|rewrite !length_app; simpl; lia|by rewrite E, app_nil_r, <- !app_assoc
              |unfold is_u64; lia]). fold v. rstep.
  assert (i64 bumpLen = bumpLen - two64) as ->.
  { unfold i64. replace (bumpLen + two63) with ((bumpLen - two63) + 1 * two64) by lia.
    rewrite Z.mod_add, Z.mod_small by lia. lia. }
  rewrite iadd_small, (proj2 (Z.ltb_ge _ _)) by lia. rstep.
  unfold slice. rewrite (proj2 (Z.leb_gt _ (_ + (_ - two64)))) by lia.
  by rewrite andb_false_r.
Qed.
End properties.

(** ** Witnesses *)

Definition w_block : Block :=
  mkBlock (replicate 80 x01) 1 200 [copy32 (replicate 32 x05)] (replicate 10 x00) 7 [x09].

Lemma w_block_typed : block_typed w_block.
Proof. by repeat split; vm_compute. Defined.

Lemma block_roundtrip_witness :
  ∃ tn, ToTeranode (block_frame w_block) = Ok tn ∧ FromTeranode tn = Ok w_block.
Proof.
  apply (block_roundtrip w_block (block_frame w_block));
    [apply w_block_typed|by vm_compute|by vm_compute].
Defined.

Lemma frame_roundtrip_witness :
  ∃ b, FromTeranode (teranode_layout w_block) = Ok b ∧ Encode b = Ok (block_frame w_block).
Proof.
  apply (frame_roundtrip (block_frame w_block)); [by vm_compute|by vm_compute].
Defined.

Lemma ToTeranode_total_witness : no_panic (ToTeranode (replicate 120 xff)).
Proof. apply ToTeranode_total. by vm_compute. Defined.

Lemma SubtreeRootsOf_spec_witness :
  SubtreeRootsOf (block_frame w_block) = Ok [copy32 (replicate 32 x05)].
Proof.
  apply (SubtreeRootsOf_spec (block_frame w_block)) with (b := w_block);
    [by vm_compute|done|apply w_block_typed|done].
Defined.

Lemma readVarInt_zeros off n : fst (readVarInt (drop off (replicate n x00))) < 2 ^ 57.
Proof. rewrite drop_replicate. by destruct (n - off)%nat. Defined.

Lemma FromTeranode_total_witness : no_panic (FromTeranode (replicate 92 x00)).
Proof. apply FromTeranode_total; [by vm_compute|intros off; apply readVarInt_zeros]. Defined.

Lemma FromTeranode_bump_panics_witness :
  FromTeranode (replicate 80 x01 ++ [x00; x00; x00] ++ replicate 10 x00 ++ [x00]
                ++ AppendVarInt [] (two64 - 1)) = Panic.
Proof.
  apply (FromTeranode_bump_panics (replicate 80 x01) (replicate 10 x00) (two64 - 1));
    [done|by vm_compute|by vm_compute|by vm_compute].
Defined.
