(* ===== verification/Cache.v ===== *)
(** * cache: the sharded LRU object cache

    [src/cache/cache.go]. A shard keeps a map of entries and a recency list
    (front = most recently used), a byte total and a byte ceiling; a cache is
    64 shards selected by the first key byte. Every operation runs under the
    shard's mutex, so the model is the sequence of operations; the clock value
    each one reads is an argument. The map and the list share their entries
    through pointers in the source; here the list holds the keys and the map
    the entries, and [shard_wf] states that the two agree. *)

From Stdlib Require Import Strings.Byte.
From stdpp Require Import base list strings numbers gmap.
From S2P Require Import Prelude.

Module cache.
Record entry : Type := mkEntry {
  e_body : list byte;
  e_class : gostring;
  e_stored : Z
}.

Record shard : Type := mkShard {
  items : gmap Hash entry;
  lru : list Hash;
  nbytes : Z;
  maxBytes : Z;
  ttl : Z;
  (* counters, read via Stats *)
  c_stored : Z; c_hits : Z; c_misses : Z; c_evicted : Z; c_expired : Z
}.

Record Options : Type := mkOptions { MaxBytes : Z; TTL : Z }.

(** [container/list]: MoveToFront, PushFront and Remove by element. *)
Definition list_remove (k : Hash) (l : list Hash) : list Hash :=
  filter (λ x, x ≠ k) l.
Definition move_to_front (k : Hash) (l : list Hash) : list Hash :=
  k :: list_remove k l.

Definition removeLocked (k : Hash) (e : entry) (s : shard) : shard :=
  mkShard (delete k (items s)) (list_remove k (lru s))
    (nbytes s - zlen (e_body e)) (maxBytes s) (ttl s)
    (c_stored s) (c_hits s) (c_misses s) (c_evicted s) (c_expired s).

Definition count_evicted (s : shard) : shard :=
  mkShard (items s) (lru s) (nbytes s) (maxBytes s) (ttl s)
    (c_stored s) (c_hits s) (c_misses s) (c_evicted s + 1) (c_expired s).

(** [for s.bytes > s.maxBytes { back := s.lru.Back(); ... }]: each round
    removes one list element, so the list's length bounds the rounds. *)
Fixpoint evict_loop (fuel : nat) (s : shard) : shard :=
  match fuel with
  | O => s
  | S fuel =>
      if maxBytes s <? nbytes s then
        match last (lru s) with
        | None => s
        | Some k =>
            match items s !! k with
            | Some e => evict_loop fuel (count_evicted (removeLocked k e s))
            | None => s
            end
        end
      else s
  end.
Definition evictLocked (s : shard) : shard := evict_loop (S (length (lru s))) s.

Definition putOwnedLocked (now : Z) (key : Hash) (class : gostring) (body : list byte)
    (s : shard) : shard :=
  evictLocked
    (mkShard (<[key := mkEntry body class now]> (items s)) (key :: lru s)
       (nbytes s + zlen body) (maxBytes s) (ttl s)
       (c_stored s + 1) (c_hits s) (c_misses s) (c_evicted s) (c_expired s)).

(** The body of [Put] and of [PutOwned] under the lock. *)
Definition shard_put (now : Z) (key : Hash) (class : gostring) (body : list byte)
    (s : shard) : shard :=
  match items s !! key with
  | Some e =>
      mkShard (<[key := mkEntry (e_body e) (e_class e) now]> (items s))
        (move_to_front key (lru s)) (nbytes s) (maxBytes s) (ttl s)
        (c_stored s) (c_hits s) (c_misses s) (c_evicted s) (c_expired s)
  | None => putOwnedLocked now key class body s
  end.

Definition expired_at (now : Z) (e : entry) (s : shard) : bool :=
  ttl s <? time_sub now (e_stored e).

Definition shard_get (now : Z) (key : Hash) (s : shard)
    : option (list byte * gostring) * shard :=
  match items s !! key with
  | None =>
      (None, mkShard (items s) (lru s) (nbytes s) (maxBytes s) (ttl s)
               (c_stored s) (c_hits s) (c_misses s + 1) (c_evicted s) (c_expired s))
  | Some e =>
      if expired_at now e s then
        let s := removeLocked key e s in
        (None, mkShard (items s) (lru s) (nbytes s) (maxBytes s) (ttl s)
                 (c_stored s) (c_hits s) (c_misses s + 1) (c_evicted s) (c_expired s + 1))
      else
        (Some (e_body e, e_class e),
         mkShard (items s) (move_to_front key (lru s)) (nbytes s) (maxBytes s) (ttl s)
           (c_stored s) (c_hits s + 1) (c_misses s) (c_evicted s) (c_expired s))
  end.

Definition shard_has (now : Z) (key : Hash) (s : shard) : bool :=
  match items s !! key with
  | Some e => negb (expired_at now e s)
  | None => false
  end.

(** A cache is its array of shards. *)
Abbreviation Cache := (list shard).

Definition New (o : Options) : Cache :=
  let max := if MaxBytes o <=? 0 then 2 ^ 30 else MaxBytes o in
  let ttl := if TTL o <=? 0 then 10 * 60 * 10 ^ 9 else TTL o in
  let per := Z.quot max 64 in
  let per := if per <=? 0 then 1 else per in
  replicate shards (mkShard ∅ [] 0 per ttl 0 0 0 0 0).

Definition Put (now : Z) (key : Hash) (class : gostring) (body : list byte) (c : Cache) : Cache :=
  alter (shard_put now key class body) (shard_index key) c.

(** [PutOwned] differs from [Put] in who owns the bytes, not in their value. *)
Definition PutOwned (now : Z) (key : Hash) (class : gostring) (body : list byte) (c : Cache) : Cache :=
  alter (shard_put now key class body) (shard_index key) c.

Definition Get (now : Z) (key : Hash) (c : Cache) : option (list byte * gostring) * Cache :=
  match c !! shard_index key with
  | Some s => let '(r, s') := shard_get now key s in (r, <[shard_index key := s']> c)
  | None => (None, c)
  end.

Definition Has (now : Z) (key : Hash) (c : Cache) : bool :=
  match c !! shard_index key with
  | Some s => shard_has now key s
  | None => false
  end.

Record Stats_t : Type := mkStats {
  Entries : Z; Bytes : Z; StMaxBytes : Z;
  Stored : Z; Hits : Z; Misses : Z; Evicted : Z; Expired : Z; Duplicates : Z
}.
Definition stats_add (st : Stats_t) (s : shard) : Stats_t :=
  mkStats (Entries st + Z.of_nat (size (items s))) (Bytes st + nbytes s)
    (StMaxBytes st + maxBytes s) (Stored st + c_stored s) (Hits st + c_hits s)
    (Misses st + c_misses s) (Evicted st + c_evicted s) (Expired st + c_expired s)
    (Duplicates st).
Definition Stats (c : Cache) : Stats_t :=
  foldl stats_add (mkStats 0 0 0 0 0 0 0 0 0) c.
End cache.

Import cache.

(** ** Reference: a recency list

    What a shard promises: a list of objects, most recently used first, of
    which a put keeps the longest prefix that fits the ceiling. *)
Module lru_spec.
Abbreviation t := (list (Hash * entry)).

Definition weight (l : t) : Z := foldr (λ x n, zlen (e_body (snd x)) + n) 0 l.

Fixpoint fit (max : Z) (l : t) : t :=
  match l with
  | [] => []
  | x :: l =>
      let n := zlen (e_body (snd x)) in
      if n <=? max then x :: fit (max - n) l else []
  end.

Definition remove (k : Hash) (l : t) : t := filter (λ x, fst x ≠ k) l.
Definition find (k : Hash) (l : t) : option entry :=
  snd <$> head (filter (λ x, fst x = k) l).

Definition put (max now : Z) (k : Hash) (class : gostring) (body : list byte) (l : t) : t :=
  match find k l with
  | Some e => (k, mkEntry (e_body e) (e_class e) now) :: remove k l
  | None => fit max ((k, mkEntry body class now) :: l)
  end.

Definition get (ttl now : Z) (k : Hash) (l : t) : option (list byte * gostring) * t :=
  match find k l with
  | None => (None, l)
  | Some e =>
      if ttl <? time_sub now (e_stored e) then (None, remove k l)
      else (Some (e_body e, e_class e), (k, e) :: remove k l)
  end.
End lru_spec.

(** The abstract content of a shard. *)
Definition contents (s : shard) : lru_spec.t :=
  omap (λ k, (λ e, (k, e)) <$> items s !! k) (lru s).

Record shard_wf (s : shard) : Prop := {
  wf_nodup : NoDup (lru s);
  wf_dom k : k ∈ lru s ↔ is_Some (items s !! k);
  wf_bytes : nbytes s = lru_spec.weight (contents s);
  wf_ceiling : nbytes s ≤ maxBytes s;
  wf_max : 0 < maxBytes s
}.

(** ** The recency list *)

Lemma weight_nonneg l : 0 ≤ lru_spec.weight l.
Proof. induction l; simpl; lia. Qed.

Lemma weight_app l k : lru_spec.weight (l ++ k) = lru_spec.weight l + lru_spec.weight k.
Proof. induction l; simpl; lia. Qed.

Lemma fit_all max l : lru_spec.weight l ≤ max → lru_spec.fit max l = l.
Proof.
  revert max; induction l as [|x l IH]; intros max H; simpl in *; [done|].
  pose proof (weight_nonneg l). rewrite (proj2 (Z.leb_le _ _)) by lia.
  by rewrite IH by lia.
Qed.

(** Dropping the last element of a list that does not fit changes nothing. *)
Lemma fit_snoc max l x :
  max < lru_spec.weight (l ++ [x]) → lru_spec.fit max (l ++ [x]) = lru_spec.fit max l.
Proof.
  revert max; induction l as [|y l IH]; intros max H; simpl in *.
  - by rewrite (proj2 (Z.leb_gt _ _)) by lia.
  - case_match; [|done]. by rewrite IH by lia.
Qed.

Lemma fit_weight max l : 0 ≤ max → lru_spec.weight (lru_spec.fit max l) ≤ max.
Proof.
  revert max; induction l as [|x l IH]; intros max H; simpl; [done|].
  destruct (Z.leb_spec (zlen (e_body x.2)) max); simpl; [|done].
  specialize (IH (max - zlen (e_body x.2))). lia.
Qed.

Lemma fit_prefix max l : lru_spec.fit max l `prefix_of` l.
Proof.
  revert max; induction l as [|x l IH]; intros max; simpl; [done|].
  case_match; [apply prefix_cons, IH|apply prefix_nil].
Qed.

(** ** From a shard to its contents *)

Definition contents_of (m : gmap Hash entry) (l : list Hash) : lru_spec.t :=
  omap (λ k, (λ e, (k, e)) <$> m !! k) l.

Lemma contents_cons m k l :
  contents_of m (k :: l)
  = match m !! k with
    | Some e => (k, e) :: contents_of m l
    | None => contents_of m l
    end.
Proof. unfold contents_of. simpl. by destruct (m !! k). Qed.
#[local] Arguments contents_of : simpl never.

Lemma contents_ext m m' l :
  (∀ k, k ∈ l → m !! k = m' !! k) → contents_of m l = contents_of m' l.
Proof.
  intros H. induction l as [|k l IH]; [done|].
  rewrite !contents_cons, H, IH by set_solver. done.
Qed.

Lemma contents_remove m k l :
  contents_of m (list_remove k l) = lru_spec.remove k (contents_of m l).
Proof.
  unfold list_remove, lru_spec.remove.
  induction l as [|x l IH]; [done|]. rewrite filter_cons, contents_cons.
  case_decide as Hx.
  - rewrite contents_cons, IH. destruct (m !! x); [|done].
    by rewrite filter_cons_True.
  - rewrite IH. destruct (m !! x); [|done]. by rewrite filter_cons_False by (simpl; auto).
Qed.

Lemma elem_of_list_remove k x l : x ∈ list_remove k l ↔ x ≠ k ∧ x ∈ l.
Proof. unfold list_remove. by rewrite list_elem_of_filter. Qed.

Lemma list_remove_fresh k l : k ∉ l → list_remove k l = l.
Proof.
  unfold list_remove. induction l as [|x l IH]; [done|].
  intros [Hx Hl]%not_elem_of_cons. rewrite filter_cons_True by done. by rewrite IH.
Qed.

Lemma list_remove_snoc k l : k ∉ l → list_remove k (l ++ [k]) = l.
Proof.
  intros H. unfold list_remove. rewrite filter_app.
  rewrite (filter_cons_False _ k) by auto.
  fold (list_remove k l). by rewrite list_remove_fresh, app_nil_r.
Qed.

Lemma contents_delete m k l :
  contents_of (delete k m) (list_remove k l) = lru_spec.remove k (contents_of m l).
Proof.
  rewrite <- contents_remove. apply contents_ext.
  intros x [Hx _]%elem_of_list_remove. by rewrite lookup_delete_ne.
Qed.

Lemma contents_insert m k e l :
  contents_of (<[k := e]> m) (k :: list_remove k l)
  = (k, e) :: lru_spec.remove k (contents_of m l).
Proof.
  rewrite <- contents_remove, contents_cons, lookup_insert_eq.
  f_equal. apply contents_ext.
  intros x [Hx _]%elem_of_list_remove. by rewrite lookup_insert_ne.
Qed.

Lemma contents_find m k l :
  lru_spec.find k (contents_of m l) = if decide (k ∈ l) then m !! k else None.
Proof.
  unfold lru_spec.find. induction l as [|x l IH].
  { by rewrite decide_False by apply not_elem_of_nil. }
  rewrite contents_cons. destruct (decide (x = k)) as [->|Hx].
  - rewrite (decide_True (P := k ∈ k :: l)) by set_solver.
    destruct (m !! k) as [e|] eqn:E.
    + by rewrite filter_cons_True.
    + rewrite IH. by case_decide.
  - rewrite (decide_ext (k ∈ x :: l) (k ∈ l)) by set_solver.
    destruct (m !! x) as [e|]; rewrite ?filter_cons_False by done; apply IH.
Qed.

(** ** Eviction *)

(** [shard_wf] without the ceiling: what holds while a put is in progress. *)
Record shard_inv (s : shard) : Prop := {
  inv_nodup : NoDup (lru s);
  inv_dom k : k ∈ lru s ↔ is_Some (items s !! k);
  inv_bytes : nbytes s = lru_spec.weight (contents s)
}.

Lemma wf_inv s : shard_wf s ↔ shard_inv s ∧ nbytes s ≤ maxBytes s ∧ 0 < maxBytes s.
Proof. split; [by intros []|by intros ([] & ? & ?)]. Qed.

Lemma contents_eq s : contents s = contents_of (items s) (lru s).
Proof. done. Qed.

Lemma inv_find s k : shard_inv s → lru_spec.find k (contents s) = items s !! k.
Proof.
  intros [_ Hd _]. rewrite contents_eq, contents_find. case_decide as Hk; [done|].
  symmetry. apply eq_None_not_Some. by rewrite <- Hd.
Qed.

Lemma weight_remove m k e l :
  NoDup l → k ∈ l → m !! k = Some e →
  lru_spec.weight (lru_spec.remove k (contents_of m l))
  = lru_spec.weight (contents_of m l) - zlen (e_body e).
Proof.
  intros Hn Hk He. induction Hn as [|x l Hx Hn IH]; [by apply not_elem_of_nil in Hk|].
  rewrite <- contents_remove in *. unfold list_remove in *. rewrite filter_cons.
  destruct (decide (x = k)) as [->|Hne].
  - rewrite decide_False by auto. fold (list_remove k l). rewrite list_remove_fresh by done.
    rewrite contents_cons, He. simpl. lia.
  - rewrite decide_True by done. apply elem_of_cons in Hk as [->|Hk]; [done|].
    specialize (IH Hk). rewrite !contents_cons. destruct (m !! x); simpl; lia.
Qed.

Lemma inv_removeLocked s k e :
  shard_inv s → items s !! k = Some e →
  shard_inv (removeLocked k e s) ∧
  contents (removeLocked k e s) = lru_spec.remove k (contents s).
Proof.
  intros [Hn Hd Hb] He. assert (k ∈ lru s) as Hk by (rewrite Hd; eauto).
  assert (Hc : contents (removeLocked k e s) = lru_spec.remove k (contents s))
    by apply contents_delete.
  split; [|done]. split; simpl.
  - by apply NoDup_filter.
  - intros x. rewrite elem_of_list_remove, lookup_delete_is_Some, Hd.
    split; intros [? ?]; split; auto using not_eq_sym.
  - rewrite Hc, Hb. symmetry. by apply weight_remove.
Qed.

(** The parts of a shard eviction and removal leave alone. *)
Definition same_config (s s' : shard) : Prop :=
  maxBytes s' = maxBytes s ∧ ttl s' = ttl s.

Lemma evict_loop_spec fuel s :
  shard_inv s → (length (lru s) < fuel)%nat → 0 < maxBytes s →
  shard_wf (evict_loop fuel s) ∧ same_config s (evict_loop fuel s) ∧
  contents (evict_loop fuel s) = lru_spec.fit (maxBytes s) (contents s).
Proof.
  revert s; induction fuel as [|fuel IH]; intros s Hinv Hlen Hmax; [lia|].
  simpl. pose proof Hinv as [Hn Hd Hb].
  destruct (Z.ltb_spec (maxBytes s) (nbytes s)) as [Hgt|Hle].
  2: { rewrite fit_all by lia. split; [by apply wf_inv|done]. }
  destruct (last (lru s)) as [k|] eqn:Hlast.
  2: { apply last_None in Hlast. rewrite Hb in Hgt. unfold contents in Hgt.
       rewrite Hlast in Hgt. simpl in Hgt. lia. }
  apply last_Some in Hlast as [l Hl].
  destruct (proj1 (Hd k)) as [e He]; [rewrite Hl; set_solver|]. rewrite He.
  destruct (inv_removeLocked s k e Hinv He) as [Hinv' Hc'].
  assert (k ∉ l) as Hkl by (rewrite Hl, NoDup_app in Hn; set_solver).
  destruct (IH (count_evicted (removeLocked k e s))) as (Hwf & Hsame & Hc).
  - by destruct Hinv'.
  - simpl. rewrite Hl, list_remove_snoc by done. rewrite Hl, length_app in Hlen. simpl in Hlen. lia.
  - done.
  - split_and!; [done..|]. rewrite Hc. simpl.
    change (contents (count_evicted _)) with (contents (removeLocked k e s)).
    rewrite Hc'. rewrite contents_eq, <- contents_remove, Hl, list_remove_snoc by done.
    assert (contents_of (items s) (l ++ [k]) = contents_of (items s) l ++ [(k, e)]) as Ec.
    { unfold contents_of. rewrite omap_app. simpl. by rewrite He. }
    rewrite Hb, contents_eq, Hl, Ec in Hgt. rewrite Ec. symmetry. by apply fit_snoc.
Qed.

(** ** A shard implements the recency list *)

Lemma put_existing_inv s k e now :
  shard_inv s → items s !! k = Some e →
  let e' := mkEntry (e_body e) (e_class e) now in
  NoDup (move_to_front k (lru s)) ∧
  (∀ x, x ∈ move_to_front k (lru s) ↔ is_Some (<[k := e']> (items s) !! x)) ∧
  nbytes s = lru_spec.weight ((k, e') :: lru_spec.remove k (contents s)).
Proof.
  intros [Hn Hd Hb] He e'. split_and!.
  - apply NoDup_cons. split; [|by apply NoDup_filter]. by rewrite elem_of_list_remove; intros [].
  - intros x. unfold move_to_front. rewrite elem_of_cons, elem_of_list_remove, lookup_insert_is_Some, Hd.
    destruct (decide (x = k)) as [->|]; naive_solver.
  - simpl. rewrite contents_eq, weight_remove with (e := e);
      [rewrite Hb, contents_eq; lia|done|by rewrite Hd, He|done].
Qed.

Lemma shard_put_spec now k class body s :
  shard_wf s →
  shard_wf (shard_put now k class body s) ∧
  same_config s (shard_put now k class body s) ∧
  contents (shard_put now k class body s)
  = lru_spec.put (maxBytes s) now k class body (contents s).
Proof.
  intros (Hinv & Hle & Hmax)%wf_inv. unfold shard_put, lru_spec.put.
  rewrite (inv_find s k Hinv). destruct (items s !! k) as [e|] eqn:He.
  - destruct (put_existing_inv s k e now Hinv He) as (Hn & Hd & Hb).
    assert (Hc : contents_of (<[k:=mkEntry (e_body e) (e_class e) now]> (items s))
        (move_to_front k (lru s)) = (k, mkEntry (e_body e) (e_class e) now)
          :: lru_spec.remove k (contents s)) by apply contents_insert.
    split_and!; [|done|exact Hc]. apply wf_inv. split; [|done].
    split; [done..|]. by rewrite contents_eq; cbn [items lru nbytes]; rewrite Hc.
  - pose proof Hinv as [Hn Hd Hb]. unfold putOwnedLocked, evictLocked.
    set (s1 := mkShard _ _ _ _ _ _ _ _ _ _).
    assert (k ∉ lru s) as Hk by (rewrite Hd, He; by intros [? ?]).
    assert (Hc : contents s1 = (k, mkEntry body class now) :: contents s).
    { rewrite contents_eq. unfold s1; cbn [items lru].
      rewrite <- (list_remove_fresh k (lru s)) at 1 by done.
      rewrite contents_insert, <- contents_remove. by rewrite list_remove_fresh. }
    destruct (evict_loop_spec (S (length (lru s1))) s1) as (Hwf & Hs & Hf); [|lia|done|].
    + split; simpl.
      * by apply NoDup_cons.
      * intros x. rewrite elem_of_cons, lookup_insert_is_Some, Hd.
        destruct (decide (x = k)) as [->|]; naive_solver.
      * rewrite Hc. simpl. lia.
    + split_and!; [done|apply Hs|]. by rewrite Hf, Hc.
Qed.

Lemma shard_get_spec now k s :
  shard_wf s →
  shard_wf (snd (shard_get now k s)) ∧
  same_config s (snd (shard_get now k s)) ∧
  (fst (shard_get now k s), contents (snd (shard_get now k s)))
  = lru_spec.get (ttl s) now k (contents s).
Proof.
  intros (Hinv & Hle & Hmax)%wf_inv. unfold shard_get, lru_spec.get, expired_at.
  rewrite (inv_find s k Hinv). destruct (items s !! k) as [e|] eqn:He.
  2: { split_and!; [|done..]. apply wf_inv. by destruct Hinv. }
  destruct (Z.ltb_spec (ttl s) (time_sub now (e_stored e))); simpl.
  - destruct (inv_removeLocked s k e Hinv He) as [Hi Hc].
    split_and!; [|done|by rewrite <- Hc]. apply wf_inv. simpl.
    split; [by destruct Hi|]. split; [lia|done].
  - destruct (put_existing_inv s k e (e_stored e) Hinv He) as (Hn & Hd & Hb).
    destruct e as [body class st]; simpl in *.
    rewrite (insert_id (items s)) in Hd by done.
    assert (Hc : contents_of (items s) (move_to_front k (lru s))
        = (k, mkEntry body class st) :: lru_spec.remove k (contents s)).
    { rewrite <- (insert_id (items s) k (mkEntry body class st)) at 1 by done.
      apply contents_insert. }
    split_and!; [|done|by rewrite contents_eq; cbn [items lru]; rewrite Hc].
    apply wf_inv. split; [|done]. split; [done..|].
    by rewrite contents_eq; cbn [items lru nbytes]; rewrite Hc.
Qed.

(** ** The whole cache *)

Record cache_wf (per ttl0 : Z) (c : Cache) : Prop := {
  cw_len : length c = shards;
  cw_shards : Forall (λ s, shard_wf s ∧ maxBytes s = per ∧ ttl s = ttl0) c
}.

(** One call on the cache, by any caller at any clock value. *)
Inductive cache_step : Cache → Cache → Prop :=
| step_Put now k class body c : cache_step c (Put now k class body c)
| step_PutOwned now k class body c : cache_step c (PutOwned now k class body c)
| step_Get now k c : cache_step c (snd (Get now k c)).

(** What [New] makes of its options. *)
Definition shard_ceiling (o : Options) : Z :=
  let max := if MaxBytes o <=? 0 then 2 ^ 30 else MaxBytes o in
  if Z.quot max 64 <=? 0 then 1 else Z.quot max 64.
Definition cache_ttl (o : Options) : Z :=
  if TTL o <=? 0 then 10 * 60 * 10 ^ 9 else TTL o.

Lemma shard_ceiling_pos o : 0 < shard_ceiling o.
Proof. unfold shard_ceiling. repeat bdestruct_guard; lia. Qed.

Lemma New_wf o : cache_wf (shard_ceiling o) (cache_ttl o) (New o).
Proof.
  split; [by unfold New; rewrite length_replicate|].
  apply Forall_replicate. split; [|done]. pose proof (shard_ceiling_pos o).
  split; simpl; [constructor| |done|by apply Z.lt_le_incl|done].
  intros k. rewrite lookup_empty, is_Some_alt. set_solver.
Qed.

Lemma cache_lookup per t c k :
  cache_wf per t c → ∃ s, c !! shard_index k = Some s ∧ shard_wf s ∧ maxBytes s = per ∧ ttl s = t.
Proof.
  intros [Hl Hs]. destruct (lookup_lt_is_Some_2 c (shard_index k)) as [s Hk].
  { rewrite Hl. apply shard_index_lt. }
  exists s. split; [done|]. rewrite Forall_lookup in Hs. by apply (Hs _ _ Hk).
Qed.

Lemma cache_step_wf per t c c' : cache_step c c' → cache_wf per t c → cache_wf per t c'.
Proof.
  assert (Hput : ∀ now k class body c, cache_wf per t c → cache_wf per t (Put now k class body c)).
  { intros now k class body c0 [Hl Hs]. split.
    - unfold Put. by rewrite length_alter.
    - apply Forall_alter; [done|]. intros s Hk (Hwf & Hm & Ht).
      destruct (shard_put_spec now k class body s Hwf) as (? & [-> ->] & _). done. }
  intros [now k class body c0|now k class body c0|now k c0] Hwf; [by apply Hput..|].
  destruct (cache_lookup per t c0 k Hwf) as (s & Hk & Hs & Hm & Ht).
  destruct Hwf as [Hl Hall]. unfold Get. rewrite Hk.
  destruct (shard_get now k s) as [r s'] eqn:E. simpl.
  pose proof (shard_get_spec now k s Hs) as (Hs' & [Hm' Ht'] & _). rewrite E in *. simpl in *.
  split; [by rewrite length_insert|]. apply Forall_insert; [done|]. by rewrite Hm', Ht'.
Qed.

Lemma reachable_wf o c : rtc cache_step (New o) c → cache_wf (shard_ceiling o) (cache_ttl o) c.
Proof.
  intros H. assert (Hn := New_wf o). induction H as [|c1 c2 c3 H _ IH]; [done|].
  eauto using cache_step_wf.
Qed.

(** A predicate on bodies that every stored object satisfies is kept: nothing
    is held but what was put. *)
Definition shard_all (P : list byte → Prop) (s : shard) : Prop :=
  map_Forall (λ _ e, P (e_body e)) (items s).
Definition cache_all (P : list byte → Prop) (c : Cache) : Prop := Forall (shard_all P) c.

Lemma evict_items fuel s : items (evict_loop fuel s) ⊆ items s.
Proof.
  revert s. induction fuel as [|fuel IH]; intros s; [done|]. cbn [evict_loop].
  destruct (maxBytes s <? nbytes s); [|done]. destruct (last (lru s)) as [k|]; [|done].
  destruct (items s !! k) as [e|]; [|done]. etrans; [apply IH|]. apply delete_subseteq.
Qed.

Lemma shard_put_all P now k class body s : shard_all P s → P body → shard_all P (shard_put now k class body s).
Proof.
  intros Hs Hb. unfold shard_put. destruct (items s !! k) as [e|] eqn:E.
  - apply map_Forall_insert_2; [by apply (Hs k e)|done].
  - intros k' e' He'. eapply lookup_weaken in He'; [|apply evict_items]. revert k' e' He'.
    by apply map_Forall_insert_2.
Qed.

Lemma shard_get_all P now k s :
  shard_all P s → shard_all P (snd (shard_get now k s)) ∧
  ∀ body class, fst (shard_get now k s) = Some (body, class) → P body.
Proof.
  intros Hs. unfold shard_get. destruct (items s !! k) as [e|] eqn:E; [|by split].
  destruct (expired_at now e s); (split; [|intros body class H]); [|done|done|].
  - by apply map_Forall_delete.
  - injection H as <- _. by apply (Hs k e).
Qed.

Lemma cache_all_New P o : cache_all P (New o).
Proof. apply Forall_replicate. apply map_Forall_empty. Qed.
Lemma cache_all_Put P now k class body c : cache_all P c → P body → cache_all P (Put now k class body c).
Proof. intros Hc Hb. apply Forall_alter; [done|]. intros s _ Hs. by apply shard_put_all. Qed.
Lemma cache_all_Get P now k c :
  cache_all P c → cache_all P (snd (Get now k c)) ∧
  ∀ body class, fst (Get now k c) = Some (body, class) → P body.
Proof.
  intros Hc. unfold Get. destruct (c !! shard_index k) as [s|] eqn:E; [|by split].
  pose proof (Forall_lookup_1 _ _ _ _ Hc E) as Hs. pose proof (shard_get_all P now k s Hs) as [H1 H2].
  destruct (shard_get now k s) as [r s']. split; [by apply Forall_insert|exact H2].
Qed.

Definition sum_bytes (c : Cache) : Z := foldr (λ s n, nbytes s + n) 0 c.

Lemma Stats_bytes c : Bytes (Stats c) = sum_bytes c.
Proof.
  assert (∀ st, Bytes (foldl stats_add st c) = Bytes st + sum_bytes c) as H.
  { induction c as [|s c IH]; intros st; simpl; [lia|]. rewrite IH. simpl. lia. }
  unfold Stats. rewrite H. simpl. lia.
Qed.

(** The entry the cache holds under a key, whatever its age. *)
Definition stored_entry (k : Hash) (c : Cache) : option entry :=
  c !! shard_index k ≫= λ s, items s !! k.

Lemma find_cons_eq k e l : lru_spec.find k ((k, e) :: l) = Some e.
Proof. unfold lru_spec.find. by rewrite filter_cons_True. Qed.

(** A get after a put, both within one shard, in terms of the recency list. *)
Lemma Get_Put_list now now' k class body c s :
  c !! shard_index k = Some s → shard_wf s →
  fst (Get now' k (Put now k class body c))
  = fst (lru_spec.get (ttl s) now' k
           (lru_spec.put (maxBytes s) now k class body (contents s))).
Proof.
  intros Hk Hs. unfold Get, Put. rewrite list_lookup_alter_eq, Hk. cbn [fmap option_fmap option_map].
  destruct (shard_put_spec now k class body s Hs) as (Hwf & [_ Ht] & Hc).
  destruct (shard_get_spec now' k _ Hwf) as (_ & _ & Hg).
  rewrite Ht, Hc in Hg. rewrite <- Hg. by destruct (shard_get _ _ _).
Qed.

Lemma Get_after_Put (o : Options) (c : Cache) (now now' : Z) (k : Hash)
    (class : gostring) (body : list byte) :
  rtc cache_step (New o) c →
  zlen body ≤ shard_ceiling o → time_sub now' now ≤ cache_ttl o →
  fst (Get now' k (Put now k class body c))
  = Some (match stored_entry k c with
          | Some e => (e_body e, e_class e)
          | None => (body, class)
          end).
Proof.
  intros Hr Hb Ht. destruct (cache_lookup _ _ c k (reachable_wf o c Hr)) as (s & Hk & Hs & Hm & Hts).
  rewrite (Get_Put_list _ _ _ _ _ _ s) by done. unfold stored_entry. rewrite Hk. cbn [mbind option_bind].
  unfold lru_spec.put. rewrite (inv_find s k) by (by apply wf_inv in Hs as [? _]).
  destruct (items s !! k) as [e|].
  - unfold lru_spec.get. rewrite find_cons_eq. cbn [e_stored e_body e_class].
    by rewrite (proj2 (Z.ltb_ge _ _)) by lia.
  - cbn [lru_spec.fit snd e_body]. rewrite (proj2 (Z.leb_le _ _)) by lia.
    unfold lru_spec.get. rewrite find_cons_eq. cbn [e_stored e_body e_class].
    by rewrite (proj2 (Z.ltb_ge _ _)) by lia.
Qed.

(** C7: Every shard of the cache behaves as a least-recently-used list: a put of a
    new object keeps exactly the longest most-recent prefix that fits the
    shard's ceiling, a put of a held object only refreshes it and keeps the
    original bytes, and a get answers from the list, dropping an expired entry. *)
Theorem shard_refines_lru (s : shard) (now : Z) (k : Hash) (class : gostring) (body : list byte) :
  shard_wf s →
  (shard_wf (shard_put now k class body s) ∧
   contents (shard_put now k class body s)
   = lru_spec.put (maxBytes s) now k class body (contents s)) ∧
  (shard_wf (snd (shard_get now k s)) ∧
   (fst (shard_get now k s), contents (snd (shard_get now k s)))
   = lru_spec.get (ttl s) now k (contents s)).
Proof.
  intros H. destruct (shard_put_spec now k class body s H) as (? & _ & ?).
  by destruct (shard_get_spec now k s H) as (? & _ & ?).
Qed.

(** After any sequence of calls the bytes the cache reports are within the
    configured ceiling. *)
Theorem cache_bytes_bounded (o : Options) (c : Cache) :
  64 ≤ MaxBytes o → rtc cache_step (New o) c → Bytes (Stats c) ≤ MaxBytes o.
Proof.
  intros Hm Hr. rewrite Stats_bytes.
  destruct (reachable_wf o c Hr) as [Hl Hs].
  assert (∀ c', Forall (λ s, shard_wf s ∧ maxBytes s = shard_ceiling o ∧ ttl s = cache_ttl o) c' →
    sum_bytes c' ≤ zlen c' * shard_ceiling o) as Hsum.
  { induction 1 as [|s c' (Hwf & Hms & _) _ IH]; simpl; [lia|].
    pose proof (wf_ceiling s Hwf). lia. }
  specialize (Hsum c Hs). rewrite Hl in Hsum. unfold shards in Hsum.
  assert (64 * shard_ceiling o ≤ MaxBytes o); [|lia].
  unfold shard_ceiling. rewrite (proj2 (Z.leb_gt (MaxBytes o) 0)) by lia.
  pose proof (Z.quot_le_lower_bound (MaxBytes o) 64 1). 
  rewrite (proj2 (Z.leb_gt (Z.quot _ _) 0)) by lia.
  rewrite Z.quot_div_nonneg by lia. apply Z.mul_div_le. lia.
Qed.


(** An object that fits a shard is served right after it is put: within the
    TTL, [Get] returns its bytes and class, or, when the key was already held,
    the bytes and class first stored under it (a later put never replaces
    content). *)
Theorem put_then_get (o : Options) (c : Cache) (now now' : Z) (k : Hash)
    (class : gostring) (body : list byte) :
  rtc cache_step (New o) c →
  zlen body ≤ shard_ceiling o → time_sub now' now ≤ cache_ttl o →
  fst (Get now' k (Put now k class body c))
  = Some (match stored_entry k c with
          | Some e => (e_body e, e_class e)
          | None => (body, class)
          end).
Proof. apply Get_after_Put. Qed.

(** An object larger than one shard's share of the ceiling is never served:
    putting it empties its shard and a get misses, at once and whatever the
    clock says. *)
Theorem put_oversize_lost (o : Options) (c : Cache) (now now' : Z) (k : Hash)
    (class : gostring) (body : list byte) :
  rtc cache_step (New o) c → stored_entry k c = None → shard_ceiling o < zlen body →
  fst (Get now' k (Put now k class body c)) = None ∧
  (contents <$> Put now k class body c !! shard_index k) = Some [].
Proof.
  intros Hr Hn Hb. destruct (cache_lookup _ _ c k (reachable_wf o c Hr)) as (s & Hk & Hs & Hm & Hts).
  rewrite (Get_Put_list _ _ _ _ _ _ s) by done. unfold stored_entry in Hn. rewrite Hk in Hn.
  cbn [mbind option_bind] in Hn.
  assert (lru_spec.put (maxBytes s) now k class body (contents s) = []) as Hp.
  { unfold lru_spec.put. rewrite (inv_find s k) by (by apply wf_inv in Hs as [? _]).
    rewrite Hn. cbn [lru_spec.fit snd e_body]. by rewrite (proj2 (Z.leb_gt _ _)) by lia. }
  split; [by rewrite Hp|]. unfold Put. rewrite list_lookup_alter_eq, Hk. simpl. f_equal.
  destruct (shard_put_spec now k class body s Hs) as (_ & _ & ->). done.
Qed.

(** ** Witnesses *)

Definition ex_opts : Options := mkOptions 128 10.
Definition ex_key : Hash := copy32 [x05].

Lemma ex_put_reachable b : rtc cache_step (New ex_opts) (Put 0 ex_key (str "tx") b (New ex_opts)).
Proof. apply rtc_once, step_Put. Qed.

Lemma shard_refines_lru_witness :
  contents (shard_put 7 ex_key (str "tx") [x01] (mkShard ∅ [] 0 2 10 0 0 0 0 0))
  = [(ex_key, mkEntry [x01] (str "tx") 7)].
Proof.
  destruct (shard_refines_lru (mkShard ∅ [] 0 2 10 0 0 0 0 0) 7 ex_key (str "tx") [x01]) as [[_ H] _].
  - split; simpl; [constructor| |done..]. intros k. rewrite lookup_empty, is_Some_alt. set_solver.
  - rewrite H. vm_compute. reflexivity.
Defined.

Lemma cache_bytes_bounded_witness :
  Bytes (Stats (Put 0 ex_key (str "tx") [x01; x02] (New ex_opts))) ≤ 128.
Proof. apply (cache_bytes_bounded ex_opts); [simpl; lia|apply ex_put_reachable]. Defined.

Lemma put_then_get_witness :
  fst (Get 9 ex_key (Put 3 ex_key (str "tx") [x07] (New ex_opts))) = Some ([x07], str "tx").
Proof.
  rewrite (put_then_get ex_opts); [vm_compute; reflexivity|apply rtc_refl|vm_compute; done|vm_compute; done].
Defined.

Lemma put_oversize_lost_witness :
  fst (Get 3 ex_key (Put 3 ex_key (str "subtree") [x07; x08; x09] (New ex_opts))) = None.
Proof.
  apply (put_oversize_lost ex_opts); [apply rtc_refl|vm_compute; reflexivity|vm_compute; reflexivity].
Defined.
