(* ===== verification/Generational.v ===== *)
(** * cache: the two-generation transaction cache

    [src/cache/generational.go]. A shard keeps two maps, the current and the
    previous generation; an admission first rotates the shard when half the
    TTL has passed since the last rotation or the current generation reached
    its byte threshold. The nil cache, which holds nothing and admits
    everything, is [None]. Operations run under the shard's mutex, so a run is
    a sequence of calls; the clock value a call reads is its argument. *)

From Stdlib Require Import Strings.Byte.
From stdpp Require Import base list strings numbers gmap.
From S2P Require Import Prelude Cache.

Module generational.
Record gshard : Type := mkGshard {
  cur : gmap Hash (list byte);
  prev : gmap Hash (list byte);
  curBytes : Z;
  prevBytes : Z;
  maxBytes : Z;
  ttl : Z;
  rotated : Z;
  g_stored : Z; g_hits : Z; g_misses : Z; g_evicted : Z; g_duplicates : Z
}.

(** [*Generational]: nil, or the array of shards. *)
Abbreviation Generational := (option (list gshard)).

Definition NewGenerational (start : Z) (o : cache.Options) : Generational :=
  let max := if cache.MaxBytes o <=? 0 then 2 ^ 30 else cache.MaxBytes o in
  let ttl := if cache.TTL o <=? 0 then 10 * 60 * 10 ^ 9 else cache.TTL o in
  let per := Z.quot (Z.quot max 64) 2 in
  let per := if per <=? 0 then 1 else per in
  Some (replicate shards (mkGshard ∅ ∅ 0 0 per ttl start 0 0 0 0 0)).

Definition rotateLocked (now : Z) (s : gshard) : gshard :=
  mkGshard ∅ (cur s) 0 (curBytes s) (maxBytes s) (ttl s) now
    (g_stored s) (g_hits s) (g_misses s) (g_evicted s + Z.of_nat (size (prev s)))
    (g_duplicates s).

Definition count_duplicate (s : gshard) : gshard :=
  mkGshard (cur s) (prev s) (curBytes s) (prevBytes s) (maxBytes s) (ttl s) (rotated s)
    (g_stored s) (g_hits s) (g_misses s) (g_evicted s) (g_duplicates s + 1).

(** [s.cur[key] = body]. *)
Definition set_cur (key : Hash) (body : list byte) (s : gshard) : gshard :=
  mkGshard (<[key := body]> (cur s)) (prev s) (curBytes s) (prevBytes s) (maxBytes s)
    (ttl s) (rotated s) (g_stored s) (g_hits s) (g_misses s) (g_evicted s) (g_duplicates s).

Definition must_rotate (now : Z) (s : gshard) : bool :=
  (Z.quot (ttl s) 2 <=? time_sub now (rotated s)) || (maxBytes s <=? curBytes s).

Definition shard_Admit (now : Z) (key : Hash) (body : list byte) (s : gshard) : bool * gshard :=
  let s := if must_rotate now s then rotateLocked now s else s in
  match prev s !! key with
  | Some _ => (false, count_duplicate s)
  | None =>
      let n := size (cur s) in
      let s := set_cur key body s in
      if (size (cur s) =? n)%nat then (false, count_duplicate s)
      else
        (true, mkGshard (cur s) (prev s) (curBytes s + zlen body) (prevBytes s) (maxBytes s)
                 (ttl s) (rotated s) (g_stored s + 1) (g_hits s) (g_misses s) (g_evicted s)
                 (g_duplicates s))
  end.

Definition Admit (now : Z) (key : Hash) (body : list byte) (g : Generational)
    : bool * Generational :=
  match g with
  | None => (true, None)
  | Some ss =>
      match ss !! shard_index key with
      | Some s =>
          let '(r, s') := shard_Admit now key body s in
          (r, Some (<[shard_index key := s']> ss))
      | None => (true, Some ss)
      end
  end.

Definition PutOwned (now : Z) (key : Hash) (class : gostring) (body : list byte)
    (g : Generational) : Generational :=
  match g with None => None | Some _ => snd (Admit now key body g) end.

Definition Put (now : Z) (key : Hash) (class : gostring) (body : list byte)
    (g : Generational) : Generational :=
  match g with None => None | Some _ => PutOwned now key class body g end.

Definition held (key : Hash) (s : gshard) : option (list byte) :=
  match cur s !! key with Some b => Some b | None => prev s !! key end.

Definition shard_Get (key : Hash) (s : gshard) : option (list byte * gostring) * gshard :=
  match held key s with
  | Some b =>
      (Some (b, str "tx"),
       mkGshard (cur s) (prev s) (curBytes s) (prevBytes s) (maxBytes s) (ttl s) (rotated s)
         (g_stored s) (g_hits s + 1) (g_misses s) (g_evicted s) (g_duplicates s))
  | None =>
      (None,
       mkGshard (cur s) (prev s) (curBytes s) (prevBytes s) (maxBytes s) (ttl s) (rotated s)
         (g_stored s) (g_hits s) (g_misses s + 1) (g_evicted s) (g_duplicates s))
  end.

Definition Get (key : Hash) (g : Generational) : option (list byte * gostring) * Generational :=
  match g with
  | None => (None, None)
  | Some ss =>
      match ss !! shard_index key with
      | Some s =>
          let '(r, s') := shard_Get key s in (r, Some (<[shard_index key := s']> ss))
      | None => (None, Some ss)
      end
  end.

Definition Has (key : Hash) (g : Generational) : bool :=
  match g with
  | None => false
  | Some ss =>
      match ss !! shard_index key with
      | Some s => match held key s with Some _ => true | None => false end
      | None => false
      end
  end.

Definition stats_add (st : cache.Stats_t) (s : gshard) : cache.Stats_t :=
  cache.mkStats
    (cache.Entries st + (Z.of_nat (size (cur s)) + Z.of_nat (size (prev s))))
    (cache.Bytes st + (curBytes s + prevBytes s))
    (cache.StMaxBytes st + maxBytes s * 2)
    (cache.Stored st + g_stored s) (cache.Hits st + g_hits s)
    (cache.Misses st + g_misses s) (cache.Evicted st + g_evicted s)
    (cache.Expired st) (cache.Duplicates st + g_duplicates s).
Definition Stats (g : Generational) : cache.Stats_t :=
  let zero := cache.mkStats 0 0 0 0 0 0 0 0 0 in
  match g with None => zero | Some ss => foldl stats_add zero ss end.
End generational.

Import generational.

(** ** Runs *)

(** The calls that change a cache ([Put] and [PutOwned] are admissions). *)
Inductive gop : Type :=
| GAdmit (now : Z) (key : Hash) (body : list byte)
| GGet (key : Hash).

Definition gapply (g : Generational) (o : gop) : Generational :=
  match o with
  | GAdmit now key body => snd (Admit now key body g)
  | GGet key => snd (Get key g)
  end.
Definition grun (ops : list gop) (g : Generational) : Generational := foldl gapply g ops.

Definition sapply (s : gshard) (o : gop) : gshard :=
  match o with
  | GAdmit now key body => snd (shard_Admit now key body s)
  | GGet key => snd (shard_Get key s)
  end.
Definition gop_key (o : gop) : Hash := match o with GAdmit _ k _ => k | GGet k => k end.

(** The calls of a run that reach shard [i], in order. *)
Definition on_shard (i : nat) (ops : list gop) : list gop :=
  filter (λ o, shard_index (gop_key o) = i) ops.

Definition gshard_at (i : nat) (g : Generational) : option gshard := g ≫= λ ss, ss !! i.

(** Shards do not interact: a run acts on each shard as the calls that reach it. *)
Lemma gapply_shard i g o :
  gshard_at i (gapply g o)
  = if decide (shard_index (gop_key o) = i) then (λ s, sapply s o) <$> gshard_at i g
    else gshard_at i g.
Proof.
  unfold gshard_at. destruct g as [ss|], o as [now key body|key]; simpl; try (by case_decide).
  all: destruct (ss !! shard_index key) as [s|] eqn:E; simpl;
    [|by case_decide; subst; rewrite ?E].
  1: destruct (shard_Admit now key body s) as [r s'] eqn:Es; simpl.
  2: destruct (shard_Get key s) as [r s'] eqn:Es; simpl.
  all: case_decide; subst;
    [rewrite E, list_lookup_insert_eq by (by eapply lookup_lt_Some); simpl; by rewrite Es
    |by rewrite list_lookup_insert_ne].
Qed.

Lemma grun_shard i ops g :
  gshard_at i (grun ops g) = (λ s, foldl sapply s (on_shard i ops)) <$> gshard_at i g.
Proof.
  unfold grun, on_shard. revert g. induction ops as [|o ops IH]; intros g; simpl.
  - by destruct (gshard_at i g).
  - rewrite IH, gapply_shard, filter_cons. case_decide; [|done].
    rewrite <- option_fmap_compose. done.
Qed.

(** ** One admission *)

Definition settled (now : Z) (s : gshard) : gshard :=
  if must_rotate now s then rotateLocked now s else s.

(** [Admit] adds exactly the keys that neither generation holds, once the
    rotation that is due has happened. *)
Lemma shard_Admit_spec now k b s :
  match held k (settled now s) with
  | Some _ =>
      fst (shard_Admit now k b s) = false ∧
      curBytes (snd (shard_Admit now k b s)) = curBytes (settled now s) ∧
      cur (snd (shard_Admit now k b s))
      = (if decide (is_Some (prev (settled now s) !! k)) then cur (settled now s)
         else <[k := b]> (cur (settled now s)))
  | None =>
      fst (shard_Admit now k b s) = true ∧
      curBytes (snd (shard_Admit now k b s)) = curBytes (settled now s) + zlen b ∧
      cur (snd (shard_Admit now k b s)) = <[k := b]> (cur (settled now s))
  end ∧
  prev (snd (shard_Admit now k b s)) = prev (settled now s) ∧
  prevBytes (snd (shard_Admit now k b s)) = prevBytes (settled now s) ∧
  rotated (snd (shard_Admit now k b s)) = rotated (settled now s) ∧
  maxBytes (snd (shard_Admit now k b s)) = maxBytes s ∧
  ttl (snd (shard_Admit now k b s)) = ttl s.
Proof.
  unfold shard_Admit. fold (settled now s).
  assert (maxBytes (settled now s) = maxBytes s ∧ ttl (settled now s) = ttl s) as [<- <-]
    by (unfold settled; by destruct must_rotate).
  generalize (settled now s) as r; intros r. unfold held.
  destruct (prev r !! k) as [p|] eqn:Hp.
  { destruct (cur r !! k); cbn; rewrite decide_True by eauto; done. }
  cbn [cur set_cur]. destruct (cur r !! k) as [c|] eqn:Hc.
  - rewrite map_size_insert, Hc. cbn. rewrite Nat.eqb_refl. cbn.
    rewrite decide_False by (by intros [? ?]). done.
  - rewrite map_size_insert, Hc. cbv beta iota.
    rewrite (proj2 (Nat.eqb_neq _ _)) by lia. done.
Qed.

Lemma shard_Get_frame k s :
  cur (snd (shard_Get k s)) = cur s ∧ prev (snd (shard_Get k s)) = prev s ∧
  curBytes (snd (shard_Get k s)) = curBytes s ∧ prevBytes (snd (shard_Get k s)) = prevBytes s ∧
  maxBytes (snd (shard_Get k s)) = maxBytes s ∧ ttl (snd (shard_Get k s)) = ttl s ∧
  rotated (snd (shard_Get k s)) = rotated s.
Proof. unfold shard_Get. by destruct (held k s). Qed.

Lemma sapply_frame s o : maxBytes (sapply s o) = maxBytes s ∧ ttl (sapply s o) = ttl s.
Proof.
  destruct o as [now k b|k]; simpl.
  - by pose proof (shard_Admit_spec now k b s) as (_ & _ & _ & _ & ? & ?).
  - by pose proof (shard_Get_frame k s) as (_ & _ & _ & _ & ? & ? & _).
Qed.

Lemma foldl_frame ops s :
  maxBytes (foldl sapply s ops) = maxBytes s ∧ ttl (foldl sapply s ops) = ttl s.
Proof.
  revert s. induction ops as [|o ops IH]; intros s; simpl; [done|].
  destruct (IH (sapply s o)) as [-> ->]. apply sapply_frame.
Qed.

(** ** How long an entry is kept *)

(** The bytes a sequence of calls offers for admission. *)
Fixpoint offered (ops : list gop) : Z :=
  match ops with
  | [] => 0
  | GAdmit _ _ b :: ops => zlen b + offered ops
  | GGet _ :: ops => offered ops
  end.

(** All admissions of a run read a clock in [[lo, hi)]. *)
Definition within (lo hi : Z) (ops : list gop) : Prop :=
  Forall (λ o, match o with GAdmit now _ _ => lo ≤ now < hi | GGet _ => True end) ops.

Lemma offered_nonneg ops : 0 ≤ offered ops.
Proof. induction ops as [|[] ops IH]; simpl; lia. Qed.

Definition content_of (f : Hash → list byte) (ops : list gop) : Prop :=
  Forall (λ o, match o with GAdmit _ k b => b = f k | GGet _ => True end) ops.

(** A shard in which [k] survives [budget] more bytes until time [deadline]:
    either in the current generation, or in the previous one with the rotation
    that put it there no older than [t0] and room left. *)
Definition safe (k : Hash) (b : list byte) (t0 budget : Z) (s : gshard) : Prop :=
  cur s !! k = Some b ∨
  (cur s !! k = None ∧ prev s !! k = Some b ∧ t0 ≤ rotated s ∧ curBytes s + budget < maxBytes s).

Lemma safe_held k b t0 budget s : safe k b t0 budget s → held k s = Some b.
Proof. unfold held. intros [->|(-> & -> & _)]; done. Qed.

Lemma safe_settled k b t0 budget now s :
  safe k b t0 budget s → t0 ≤ now < t0 + Z.quot (ttl s) 2 → - two63 < Z.quot (ttl s) 2 < two63 →
  0 ≤ budget < maxBytes s → safe k b t0 budget (settled now s).
Proof.
  intros Hs Hnow Httl Hb. unfold settled. destruct (must_rotate now s) eqn:E; [|done].
  destruct Hs as [Hc|(Hc & Hp & Ht & Hbytes)].
  - right. cbn. rewrite lookup_empty. split_and!; [done..|lia|lia].
  - exfalso. unfold must_rotate in E. apply orb_true_iff in E as [E|E]; apply Z.leb_le in E.
    + assert (time_sub now (rotated s) < Z.quot (ttl s) 2); [|lia].
      apply time_sub_lt; lia.
    + lia.
Qed.

Lemma safe_sapply f k t0 budget s o :
  safe k (f k) t0 (offered [o] + budget) s →
  within t0 (t0 + Z.quot (ttl s) 2) [o] → content_of f [o] →
  - two63 < Z.quot (ttl s) 2 < two63 → 0 ≤ budget → offered [o] + budget < maxBytes s →
  safe k (f k) t0 budget (sapply s o).
Proof.
  intros Hs Hw Hc Httl Hb Hm. destruct o as [now k' b|k']; simpl in *.
  2: { destruct (shard_Get_frame k' s) as (Ec & Ep & Eb & _ & Em & _ & Er).
       unfold safe. rewrite Ec, Ep, Eb, Em, Er. done. }
  unfold within, content_of in Hw, Hc. rewrite Forall_singleton in Hw, Hc. subst b.
  apply (safe_settled k _ t0 _ now) in Hs; [|lia..].
  pose proof (shard_Admit_spec now k' (f k') s) as (Ha & Ep & _ & Er & Em & _).
  unfold safe in *. rewrite Ep, Er, Em.
  assert (maxBytes (settled now s) = maxBytes s) as Ems
    by (unfold settled; by destruct must_rotate).
  rewrite Ems in Hs.
  destruct (held k' (settled now s)) as [b'|] eqn:Hh; destruct Ha as (_ & Eb & Ec); rewrite Eb, Ec.
  - case_decide as Hp; [naive_solver lia|].
    destruct (decide (k = k')) as [<-|Hne]; [rewrite lookup_insert_eq; auto|].
    rewrite lookup_insert_ne by done. naive_solver lia.
  - destruct (decide (k = k')) as [<-|Hne]; [rewrite lookup_insert_eq; auto|].
    rewrite lookup_insert_ne by done. naive_solver lia.
Qed.

Lemma safe_run f k t0 ops s :
  safe k (f k) t0 (offered ops) s →
  within t0 (t0 + Z.quot (ttl s) 2) ops → content_of f ops →
  - two63 < Z.quot (ttl s) 2 < two63 → offered ops < maxBytes s →
  safe k (f k) t0 0 (foldl sapply s ops).
Proof.
  revert s. induction ops as [|o ops IH]; intros s Hs Hw Hc Ht Hm; simpl in *; [done|].
  apply Forall_cons in Hw as [Hw1 Hw], Hc as [Hc1 Hc].
  destruct (sapply_frame s o) as [Em Et].
  pose proof (offered_nonneg ops).
  assert (match o with GAdmit _ _ b => zlen b + offered ops | GGet _ => offered ops end
          = offered [o] + offered ops) as Eo by (destruct o; simpl; lia).
  apply IH; rewrite ?Em, ?Et; try done.
  - apply safe_sapply; rewrite <- ?Eo; try done; by apply Forall_singleton.
  - destruct o; simpl in *; lia.
Qed.

(** ** Reachable caches *)

(** The rotation threshold [NewGenerational] gives each shard. *)
Definition gen_threshold (o : cache.Options) : Z :=
  let max := if cache.MaxBytes o <=? 0 then 2 ^ 30 else cache.MaxBytes o in
  if Z.quot (Z.quot max 64) 2 <=? 0 then 1 else Z.quot (Z.quot max 64) 2.

Lemma gen_threshold_pos o : 0 < gen_threshold o.
Proof. unfold gen_threshold. repeat bdestruct_guard; lia. Qed.

Lemma reachable_shard start o ops i :
  (i < shards)%nat →
  ∃ s, gshard_at i (grun ops (NewGenerational start o)) = Some s ∧
       maxBytes s = gen_threshold o ∧ ttl s = cache_ttl o.
Proof.
  intros Hi. rewrite grun_shard. unfold gshard_at, NewGenerational. cbn [mbind option_bind].
  rewrite lookup_replicate_2 by done. cbn [fmap option_fmap option_map].
  eexists. split; [done|]. apply foldl_frame.
Qed.

Lemma Admit_result now k b g s :
  gshard_at (shard_index k) g = Some s →
  fst (Admit now k b g) = fst (shard_Admit now k b s) ∧
  gshard_at (shard_index k) (snd (Admit now k b g)) = Some (snd (shard_Admit now k b s)).
Proof.
  intros H. pose proof (gapply_shard (shard_index k) g (GAdmit now k b)) as Hg.
  cbn in Hg. rewrite decide_True, H in Hg by done. split; [|done].
  unfold gshard_at in H. destruct g as [ss|]; [|done]. cbn in *. rewrite H.
  by destruct (shard_Admit now k b s).
Qed.

Lemma Get_result k g s :
  gshard_at (shard_index k) g = Some s →
  fst (Get k g) = (λ b, (b, str "tx")) <$> held k s.
Proof.
  unfold gshard_at. intros H. destruct g as [ss|]; [|done]. cbn in *. rewrite H.
  unfold shard_Get. by destruct (held k s).
Qed.

Lemma shard_Admit_dup now k b s :
  fst (shard_Admit now k b s) = false ↔ is_Some (held k (settled now s)).
Proof.
  pose proof (shard_Admit_spec now k b s) as [H _].
  destruct (held k (settled now s)); destruct H as [-> _]; split; (done || by intros [? ?]).
Qed.

(** ** Bytes held *)

Definition bodies_le (B : Z) (ops : list gop) : Prop :=
  Forall (λ o, match o with GAdmit _ _ b => zlen b ≤ B | GGet _ => True end) ops.

Lemma bodies_le_on_shard B i ops : bodies_le B ops → bodies_le B (on_shard i ops).
Proof.
  unfold bodies_le, on_shard. rewrite !list.Forall_forall.
  intros H x [_ Hx]%list_elem_of_filter. by apply H.
Qed.

Definition bytes_ok (B : Z) (s : gshard) : Prop :=
  curBytes s ≤ maxBytes s - 1 + B ∧ prevBytes s ≤ maxBytes s - 1 + B.

Lemma bytes_ok_sapply B s o :
  0 ≤ B → 0 < maxBytes s → bytes_ok B s → bodies_le B [o] → bytes_ok B (sapply s o).
Proof.
  intros HB Hm [Hc Hp] Hb. unfold bodies_le in Hb. rewrite Forall_singleton in Hb.
  destruct o as [now k b|k]; cbn [sapply]; unfold bytes_ok.
  - pose proof (shard_Admit_spec now k b s) as (Ha & _ & -> & _ & -> & _).
    assert (curBytes (settled now s) ≤ maxBytes s - 1 ∧
            prevBytes (settled now s) ≤ maxBytes s - 1 + B) as [? ?].
    { unfold settled. destruct (must_rotate now s) eqn:E; cbn; [lia|].
      unfold must_rotate in E. apply orb_false_iff in E as [_ E]. apply Z.leb_gt in E. lia. }
    destruct (held k (settled now s)); destruct Ha as (_ & -> & _); lia.
  - destruct (shard_Get_frame k s) as (_ & _ & -> & -> & -> & _). done.
Qed.

Lemma bytes_ok_run B ops s :
  0 ≤ B → 0 < maxBytes s → bytes_ok B s → bodies_le B ops → bytes_ok B (foldl sapply s ops).
Proof.
  intros HB. revert s. induction ops as [|o ops IH]; intros s Hm Hs Hb; simpl; [done|].
  apply Forall_cons in Hb as [Ho Hb]. apply IH; [by rewrite (proj1 (sapply_frame s o))| |done].
  apply bytes_ok_sapply; [done..|]. by apply Forall_singleton.
Qed.

Lemma gen_Stats_bytes ss :
  cache.Bytes (Stats (Some ss)) = foldr (λ s n, curBytes s + prevBytes s + n) 0 ss.
Proof.
  unfold Stats. assert (∀ st, cache.Bytes (foldl stats_add st ss)
    = cache.Bytes st + foldr (λ s n, curBytes s + prevBytes s + n) 0 ss) as ->; [|simpl; lia].
  induction ss as [|s ss IH]; intros st; simpl; [lia|]. rewrite IH. simpl. lia.
Qed.

Lemma grun_some start o ops :
  ∃ ss, grun ops (NewGenerational start o) = Some ss ∧ length ss = shards.
Proof.
  assert (∀ g, (∃ ss, g = Some ss ∧ length ss = shards) →
            ∃ ss, grun ops g = Some ss ∧ length ss = shards) as H.
  { unfold grun. induction ops as [|op ops IH]; intros g (ss & -> & Hl); simpl; [by eauto|].
    apply IH. destruct op as [now k b|k]; simpl; destruct (ss !! shard_index k) as [s|]; simpl;
      [destruct (shard_Admit now k b s)| |destruct (shard_Get k s)|];
      simpl; eexists; split; try done; by rewrite ?length_insert. }
  apply H. eexists; split; [done|]. by rewrite length_replicate.
Qed.

(** ** Theorems *)


(** The live bytes of the cache are bounded: with bodies of at most [B] bytes,
    every one of the 128 generations holds less than the rotation threshold
    plus one body. *)
Theorem gen_bytes_bounded (o : cache.Options) (start B : Z) (ops : list gop) :
  0 ≤ B → bodies_le B ops →
  cache.Bytes (Stats (grun ops (NewGenerational start o)))
  ≤ 128 * (gen_threshold o - 1 + B).
Proof.
  intros HB Hb. destruct (grun_some start o ops) as (ss & Hss & Hl).
  rewrite Hss, gen_Stats_bytes.
  assert (Forall (λ s, bytes_ok B s ∧ maxBytes s = gen_threshold o) ss) as Hall.
  { apply Forall_lookup. intros i s Hi. pose proof (gen_threshold_pos o).
    assert (gshard_at i (grun ops (NewGenerational start o)) = Some s) as Hg by (by rewrite Hss).
    assert (i < shards)%nat by (rewrite <- Hl; by eapply lookup_lt_Some).
    rewrite grun_shard in Hg. unfold gshard_at, NewGenerational in Hg. cbn [mbind option_bind] in Hg.
    rewrite lookup_replicate_2 in Hg by done. injection Hg as <-.
    split; [|by apply foldl_frame].
    apply bytes_ok_run; [done|done| |]; [unfold bytes_ok; cbn; fold (gen_threshold o); lia|].
    by apply bodies_le_on_shard. }
  clear Hss Hb. assert (foldr (λ s n, curBytes s + prevBytes s + n) 0 ss
    ≤ zlen ss * (2 * (gen_threshold o - 1 + B))) as H; [|rewrite Hl in H; unfold shards in H; lia].
  clear Hl. induction Hall as [|s ss [[? ?] Em] _ IH]; cbn [foldr length]; [lia|].
  rewrite Nat2Z.inj_succ. rewrite Em in *. lia.
Qed.

(** Admission is exact: on any cache that has run, a transaction is accepted
    exactly when it is not held once the rotation that is due has happened; a
    key held in the current generation is a duplicate whatever the clock says,
    an accepted one is served at once, and the disabled cache accepts
    everything and serves nothing. *)
Theorem admit_exact (o : cache.Options) (start now : Z) (ops : list gop) (k : Hash)
    (b : list byte) :
  (∃ s, gshard_at (shard_index k) (grun ops (NewGenerational start o)) = Some s ∧
    (fst (Admit now k b (grun ops (NewGenerational start o))) = true ↔
       held k (settled now s) = None) ∧
    (is_Some (cur s !! k) → fst (Admit now k b (grun ops (NewGenerational start o))) = false)) ∧
  (fst (Admit now k b (grun ops (NewGenerational start o))) = true →
   fst (Get k (snd (Admit now k b (grun ops (NewGenerational start o)))))
   = Some (b, str "tx")) ∧
  (fst (Admit now k b None) = true ∧ fst (Get k (snd (Admit now k b None))) = None).
Proof.
  destruct (reachable_shard start o ops (shard_index k) (shard_index_lt k)) as (s & Hs & _).
  destruct (Admit_result now k b _ s Hs) as [Ea Es].
  pose proof (shard_Admit_spec now k b s) as [Hsp _]. split_and!; [|rewrite Ea|done..].
  - exists s. rewrite Ea. split_and!; [done| |].
    + destruct (held k (settled now s)); destruct Hsp as [-> _]; by split.
    + intros [c Hc]. apply shard_Admit_dup. unfold settled, held.
      destruct (must_rotate now s); cbn; rewrite ?lookup_empty, ?Hc; eauto.
  - intros Ht. rewrite (Get_result _ _ _ Es). unfold held.
    destruct (held k (settled now s)); destruct Hsp as (Hf & _ & Hc); [congruence|].
    by rewrite Hc, lookup_insert_eq.
Qed.

(** ** Witnesses *)

Definition gx_opts : cache.Options := cache.mkOptions 12800 1000.
Definition gx_key (b : byte) : Hash := copy32 [x05; b].
Definition gx_body (k : Hash) : list byte := take 2 (hbytes k).


Lemma gen_bytes_bounded_witness :
  cache.Bytes (Stats (grun [GAdmit 120 (gx_key x02) [x05; x02]] (NewGenerational 0 gx_opts)))
  ≤ 128 * (gen_threshold gx_opts - 1 + 2).
Proof. apply gen_bytes_bounded; [lia|]. repeat constructor; simpl; lia. Defined.

Lemma admit_exact_witness :
  fst (Get (gx_key x02) (snd (Admit 3 (gx_key x02) [x09] (grun [] (NewGenerational 0 gx_opts)))))
  = Some ([x09], str "tx").
Proof.
  destruct (admit_exact gx_opts 0 3 [] (gx_key x02) [x09]) as (_ & H & _).
  apply H. vm_compute. reflexivity.
Defined.

(** The live total is not bounded by the configured budget: one admission is
    accepted whatever its size, so two 10-byte bodies are live under a budget
    of 2 bytes per shard. *)
Theorem gen_budget_exceeded :
  let o := cache.mkOptions 128 1000 in
  let s := gshard_at (shard_index (gx_key x01))
    (grun [GAdmit 1 (gx_key x01) (replicate 10 x00); GAdmit 1 (gx_key x02) (replicate 10 x00)]
       (NewGenerational 0 o)) in
  maxBytes <$> s = Some 1 ∧ (λ s, curBytes s + prevBytes s) <$> s = Some 20.
Proof. vm_compute. auto. Qed.
