(* ===== verification/Registry.v ===== *)
(** * registry: which hashes crossed the bridge, and which way

    [src/registry/registry.go]. 64 shards of two generations each, as in the
    transaction cache, but with a hit promoted to the current generation and a
    rotation threshold that counts entries. [Mark] and [Lookup] run under the
    shard's mutex: a run is a sequence of calls, and the clock value a call
    reads is its argument. *)

From Stdlib Require Import Strings.Byte Sorting.Sorted.
From stdpp Require Import base list strings numbers gmap.
From S2P Require Import Prelude.

Module registry.
Inductive Direction : Type := Delivered | Submitted.
#[global] Instance direction_eq_decision : EqDecision Direction.
Proof. solve_decision. Defined.

Definition Direction_String (d : Direction) : string :=
  match d with Delivered => "delivered" | Submitted => "submitted" end.

Record rshard : Type := mkRshard {
  cur : gmap Hash Direction;
  prev : gmap Hash Direction;
  rotated : Z;
  cap : Z;
  hits : Z; adds : Z; pruned : Z
}.

Record Registry : Type := mkRegistry { rs : list rshard; ttl : Z }.

Definition New (start ttl maxEntries : Z) : Registry :=
  let ttl := if ttl <=? 0 then 30 * 60 * 10 ^ 9 else ttl in
  let maxEntries := if maxEntries <=? 0 then 2 ^ 20 else maxEntries in
  let per := Z.quot (Z.quot maxEntries 64) 2 in
  let per := if per <=? 0 then 1 else per in
  mkRegistry (replicate shards (mkRshard ∅ ∅ start per 0 0 0)) ttl.

Definition rotateLocked (now : Z) (s : rshard) : rshard :=
  mkRshard ∅ (cur s) now (cap s) (hits s) (adds s) (pruned s + Z.of_nat (size (prev s))).

Definition maybeRotateLocked (now halfTTL : Z) (s : rshard) : rshard :=
  if (halfTTL <=? time_sub now (rotated s)) || (cap s <=? Z.of_nat (size (cur s)))
  then rotateLocked now s else s.

(** The two results of [Mark] and of [Lookup]: [None] is [(0, false)]. *)
Definition shard_Mark (now halfTTL : Z) (key : Hash) (dir : Direction) (s : rshard)
    : option Direction * rshard :=
  let s := maybeRotateLocked now halfTTL s in
  match cur s !! key with
  | Some d =>
      (Some d, mkRshard (cur s) (prev s) (rotated s) (cap s) (hits s + 1) (adds s) (pruned s))
  | None =>
      match prev s !! key with
      | Some d =>
          (Some d, mkRshard (<[key := d]> (cur s)) (prev s) (rotated s) (cap s)
                     (hits s + 1) (adds s) (pruned s))
      | None =>
          (None, mkRshard (<[key := dir]> (cur s)) (prev s) (rotated s) (cap s)
                   (hits s) (adds s + 1) (pruned s))
      end
  end.

Definition shard_Lookup (key : Hash) (s : rshard) : option Direction :=
  match cur s !! key with Some d => Some d | None => prev s !! key end.

Definition Mark (now : Z) (key : Hash) (dir : Direction) (r : Registry)
    : option Direction * Registry :=
  match rs r !! shard_index key with
  | Some s =>
      let '(p, s') := shard_Mark now (Z.quot (ttl r) 2) key dir s in
      (p, mkRegistry (<[shard_index key := s']> (rs r)) (ttl r))
  | None => (None, r)
  end.

Definition Lookup (key : Hash) (r : Registry) : option Direction :=
  rs r !! shard_index key ≫= shard_Lookup key.

Record Stats_t : Type := mkStats { Entries : Z; Hits : Z; Adds : Z; Pruned : Z }.
Definition stats_add (st : Stats_t) (s : rshard) : Stats_t :=
  mkStats (Entries st + (Z.of_nat (size (cur s)) + Z.of_nat (size (prev s))))
    (Hits st + hits s) (Adds st + adds s) (Pruned st + pruned s).
Definition Stats (r : Registry) : Stats_t := foldl stats_add (mkStats 0 0 0 0) (rs r).
End registry.

Import registry.

(** ** Runs *)

(** A call of [Mark]: clock, key, direction. *)
Record mark : Type := mkMark { m_now : Z; m_key : Hash; m_dir : Direction }.

Definition marks (ms : list mark) (r : Registry) : Registry :=
  foldl (λ r m, snd (Mark (m_now m) (m_key m) (m_dir m) r)) r ms.
Definition smark (h : Z) (s : rshard) (m : mark) : rshard :=
  snd (shard_Mark (m_now m) h (m_key m) (m_dir m) s).
Definition marks_on (i : nat) (ms : list mark) : list mark :=
  filter (λ m, shard_index (m_key m) = i) ms.

Lemma Mark_shard i now k d r :
  rs (snd (Mark now k d r)) !! i
  = if decide (shard_index k = i)
    then (λ s, snd (shard_Mark now (Z.quot (ttl r) 2) k d s)) <$> rs r !! i
    else rs r !! i.
Proof.
  unfold Mark. destruct (rs r !! shard_index k) as [s|] eqn:E; [|by case_decide; subst; rewrite ?E].
  destruct (shard_Mark now (Z.quot (ttl r) 2) k d s) as [p s'] eqn:Es. simpl. case_decide; subst.
  - rewrite E, list_lookup_insert_eq by (by eapply lookup_lt_Some). simpl. by rewrite Es.
  - by rewrite list_lookup_insert_ne.
Qed.

Lemma Mark_ttl now k d r : ttl (snd (Mark now k d r)) = ttl r.
Proof. unfold Mark. destruct (rs r !! _); [|done]. by destruct (shard_Mark _ _ _ _ _). Qed.

Lemma Mark_length now k d r : length (rs (snd (Mark now k d r))) = length (rs r).
Proof.
  unfold Mark. destruct (rs r !! _); [|done]. destruct (shard_Mark _ _ _ _ _). simpl.
  by rewrite length_insert.
Qed.

Lemma Mark_result now k d r s :
  rs r !! shard_index k = Some s →
  fst (Mark now k d r) = fst (shard_Mark now (Z.quot (ttl r) 2) k d s).
Proof. unfold Mark. intros ->. by destruct (shard_Mark _ _ _ _ _). Qed.

Lemma marks_frame ms r :
  ttl (marks ms r) = ttl r ∧ length (rs (marks ms r)) = length (rs r).
Proof.
  unfold marks. revert r. induction ms as [|m ms IH]; intros r; simpl; [done|].
  destruct (IH (snd (Mark (m_now m) (m_key m) (m_dir m) r))) as [-> ->].
  by rewrite Mark_ttl, Mark_length.
Qed.

Lemma marks_shard i ms r :
  rs (marks ms r) !! i
  = (λ s, foldl (smark (Z.quot (ttl r) 2)) s (marks_on i ms)) <$> rs r !! i.
Proof.
  unfold marks, marks_on. revert r. induction ms as [|m ms IH]; intros r; simpl.
  { by destruct (rs r !! i). }
  rewrite IH, Mark_shard, Mark_ttl, filter_cons. case_decide; [|done].
  rewrite <- option_fmap_compose. done.
Qed.

(** ** One call *)

Lemma maybeRotate_cap now h s : cap (maybeRotateLocked now h s) = cap s.
Proof. unfold maybeRotateLocked. by destruct (_ || _). Qed.

(** [Mark] keeps the direction a key is known in, records an unknown key, and
    leaves the key in the current generation. *)
Lemma shard_Mark_spec now h k d s :
  let r := maybeRotateLocked now h s in
  fst (shard_Mark now h k d s) = shard_Lookup k r ∧
  cur (snd (shard_Mark now h k d s)) = <[k := default d (shard_Lookup k r)]> (cur r) ∧
  prev (snd (shard_Mark now h k d s)) = prev r ∧
  rotated (snd (shard_Mark now h k d s)) = rotated r ∧
  cap (snd (shard_Mark now h k d s)) = cap s.
Proof.
  intros r. unfold shard_Mark, shard_Lookup. rewrite <- (maybeRotate_cap now h s). fold r.
  destruct (cur r !! k) as [e|] eqn:Hc; cbn.
  - by rewrite insert_id.
  - by destruct (prev r !! k).
Qed.

(** A key looked up after a rotation was there before it. *)
Lemma maybeRotate_lookup now h k s d :
  shard_Lookup k (maybeRotateLocked now h s) = Some d →
  shard_Lookup k s = Some d.
Proof.
  unfold maybeRotateLocked, shard_Lookup. destruct (_ || _); [|done].
  cbn. rewrite lookup_empty. by intros ->.
Qed.

Lemma shard_Lookup_Mark now h k d k' s :
  shard_Lookup k' (snd (shard_Mark now h k d s))
  = if decide (k = k') then Some (default d (shard_Lookup k (maybeRotateLocked now h s)))
    else shard_Lookup k' (maybeRotateLocked now h s).
Proof.
  destruct (shard_Mark_spec now h k d s) as (_ & Ec & Ep & _).
  unfold shard_Lookup at 1. rewrite Ec, Ep. case_decide as E; subst.
  - by rewrite lookup_insert_eq.
  - by rewrite lookup_insert_ne.
Qed.

(** ** How long a mark is kept *)

Definition reg_cap (maxEntries : Z) : Z :=
  let n := if maxEntries <=? 0 then 2 ^ 20 else maxEntries in
  if Z.quot (Z.quot n 64) 2 <=? 0 then 1 else Z.quot (Z.quot n 64) 2.
Definition reg_ttl (t : Z) : Z := if t <=? 0 then 30 * 60 * 10 ^ 9 else t.

Lemma reg_cap_pos n : 0 < reg_cap n.
Proof. unfold reg_cap. repeat bdestruct_guard; lia. Qed.
Lemma reg_ttl_pos t : 0 < reg_ttl t.
Proof. unfold reg_ttl. bdestruct_guard; lia. Qed.

Definition marked_within (lo hi : Z) (ms : list mark) : Prop :=
  Forall (λ m, lo ≤ m_now m < hi) ms.

(** [k] is known as [d] and stays so for [budget] more marks. *)
Definition rsafe (k : Hash) (d : Direction) (t0 budget : Z) (s : rshard) : Prop :=
  cur s !! k = Some d ∨
  (cur s !! k = None ∧ prev s !! k = Some d ∧ t0 ≤ rotated s ∧
   Z.of_nat (size (cur s)) + budget < cap s).

Lemma rsafe_lookup k d t0 budget s : rsafe k d t0 budget s → shard_Lookup k s = Some d.
Proof. unfold shard_Lookup. by intros [->|(-> & -> & _)]. Qed.

Lemma rsafe_rotate k d t0 budget now h s :
  rsafe k d t0 budget s → t0 ≤ now < t0 + h → - two63 < h < two63 → 0 ≤ budget < cap s →
  rsafe k d t0 budget (maybeRotateLocked now h s).
Proof.
  intros Hs Hnow Hh Hb. unfold maybeRotateLocked. destruct (_ || _) eqn:E; [|done].
  destruct Hs as [Hc|(Hc & Hp & Ht & Hsz)].
  - right. cbn. rewrite lookup_empty, map_size_empty. split_and!; [done..|lia|lia].
  - exfalso. apply orb_true_iff in E as [E|E]; apply Z.leb_le in E; [|lia].
    assert (time_sub now (rotated s) < h) by (apply time_sub_lt; lia). lia.
Qed.

Lemma rsafe_smark k d t0 budget h s m :
  rsafe k d t0 (1 + budget) s → t0 ≤ m_now m < t0 + h → - two63 < h < two63 →
  0 ≤ budget → 1 + budget < cap s → rsafe k d t0 budget (smark h s m).
Proof.
  intros Hs Hm Hh Hb Hc. apply (rsafe_rotate _ _ _ _ (m_now m) h) in Hs; [|lia..].
  pose proof (maybeRotate_cap (m_now m) h s) as Ecap.
  unfold smark. destruct (shard_Mark_spec (m_now m) h (m_key m) (m_dir m) s)
    as (_ & Ec & Ep & Er & Ek). unfold rsafe. rewrite Ec, Ep, Er, Ek.
  destruct (decide (m_key m = k)) as [->|Hne].
  - left. rewrite lookup_insert_eq. by rewrite (rsafe_lookup _ _ _ _ _ Hs).
  - rewrite lookup_insert_ne by done. destruct Hs as [?|(? & ? & ? & ?)]; [by left|right].
    split_and!; [done..|]. rewrite map_size_insert.
    destruct (cur (maybeRotateLocked (m_now m) h s) !! m_key m); cbn; lia.
Qed.

Lemma rsafe_run k d t0 h ms s :
  rsafe k d t0 (zlen ms) s → marked_within t0 (t0 + h) ms → - two63 < h < two63 →
  zlen ms < cap s → rsafe k d t0 0 (foldl (smark h) s ms) ∧ cap (foldl (smark h) s ms) = cap s.
Proof.
  revert s. induction ms as [|m ms IH]; intros s Hs Hw Hh Hc; [done|].
  apply Forall_cons in Hw as [Hm Hw]. cbn [length foldl] in *. rewrite Nat2Z.inj_succ in *.
  assert (cap (smark h s m) = cap s) as Ek by (apply shard_Mark_spec).
  rewrite <- Ek. apply IH; [|done..|lia].
  apply rsafe_smark; [|done|done|lia|lia]. by rewrite Z.add_comm.
Qed.

Lemma smark_cap h ms s : cap (foldl (smark h) s ms) = cap s.
Proof.
  revert s. induction ms as [|m ms IH]; intros s; simpl; [done|].
  rewrite IH. apply shard_Mark_spec.
Qed.

Lemma reachable_rshard start t n ms i :
  (i < shards)%nat →
  ∃ s, rs (marks ms (New start t n)) !! i = Some s ∧ cap s = reg_cap n.
Proof.
  intros Hi. rewrite marks_shard. unfold New. cbn [rs registry.ttl].
  rewrite lookup_replicate_2 by done. eexists. split; [done|].
  by rewrite smark_cap.
Qed.

Lemma half_ttl_range t : t < two63 → - two63 < Z.quot (reg_ttl t) 2 < two63.
Proof.
  intros H. assert (reg_ttl t < two63) by (unfold reg_ttl; bdestruct_guard; num_bounds; lia).
  pose proof (reg_ttl_pos t). rewrite Z.quot_div_nonneg by lia.
  pose proof (Z.div_lt (reg_ttl t) 2). pose proof (Z.div_pos (reg_ttl t) 2). num_bounds. lia.
Qed.

Lemma Lookup_shard k r s : rs r !! shard_index k = Some s → Lookup k r = shard_Lookup k s.
Proof. unfold Lookup. by intros ->. Qed.

(** ** What callers rely on *)

Definition registry_wf (r : Registry) : Prop := length (rs r) = shards.

Lemma New_registry_wf start t n : registry_wf (New start t n).
Proof. unfold registry_wf, New. cbn [rs]. by rewrite length_replicate. Qed.

Lemma Mark_registry_wf now k d r : registry_wf r → registry_wf (snd (Mark now k d r)).
Proof. unfold registry_wf. by rewrite Mark_length. Qed.

Lemma registry_shard r k : registry_wf r → ∃ s, rs r !! shard_index k = Some s.
Proof. intros H. apply lookup_lt_is_Some_2. rewrite H. apply shard_index_lt. Qed.

(** A mark reports only what a lookup before it reports. *)
Lemma Mark_known now k d r e : registry_wf r → fst (Mark now k d r) = Some e → Lookup k r = Some e.
Proof.
  intros Hw. destruct (registry_shard r k Hw) as [s Hs].
  rewrite (Mark_result _ _ _ _ _ Hs), (Lookup_shard _ _ _ Hs), (proj1 (shard_Mark_spec _ _ _ _ _)).
  apply maybeRotate_lookup.
Qed.

(** A marked key is known afterwards, in the direction the mark reported or,
    when it was new, in its own. *)
Lemma Lookup_Mark now k d r :
  registry_wf r → Lookup k (snd (Mark now k d r)) = Some (default d (fst (Mark now k d r))).
Proof.
  intros Hw. destruct (registry_shard r k Hw) as [s Hs].
  rewrite (Mark_result _ _ _ _ _ Hs), (proj1 (shard_Mark_spec _ _ _ _ _)).
  unfold Lookup. rewrite Mark_shard, decide_True, Hs by done. cbn [fmap option_fmap option_map mbind option_bind].
  by rewrite shard_Lookup_Mark, decide_True.
Qed.

(** Two marks in a row: the second always reports the first, at any time. *)
Lemma Mark_again now now' k d d' r :
  registry_wf r →
  fst (Mark now' k d' (snd (Mark now k d r))) = Some (default d (fst (Mark now k d r))).
Proof.
  intros Hw. destruct (registry_shard r k Hw) as [s Hs]. set (h := Z.quot (registry.ttl r) 2).
  assert (rs (snd (Mark now k d r)) !! shard_index k = Some (snd (shard_Mark now h k d s))) as Hs'.
  { by rewrite Mark_shard, decide_True, Hs by done. }
  rewrite (Mark_result _ _ _ _ _ Hs'), Mark_ttl, (Mark_result _ _ _ _ _ Hs). fold h.
  destruct (shard_Mark_spec now h k d s) as (-> & Ec & _).
  rewrite (proj1 (shard_Mark_spec now' h k d' _)). unfold maybeRotateLocked at 1, shard_Lookup at 1.
  destruct (_ || _); cbn; rewrite ?lookup_empty, Ec, lookup_insert_eq; done.
Qed.

Lemma marks_keep (start t n t0 : Z) (before ms : list mark) (k : Hash) (d : Direction) :
  t < two63 →
  marked_within t0 (t0 + Z.quot (reg_ttl t) 2) (marks_on (shard_index k) ms) →
  zlen (marks_on (shard_index k) ms) < reg_cap n →
  let r0 := marks before (New start t n) in
  let r := marks ms (snd (Mark t0 k d r0)) in
  let d0 := default d (fst (Mark t0 k d r0)) in
  Lookup k r = Some d0 ∧
  ∀ now d', t0 ≤ now < t0 + Z.quot (reg_ttl t) 2 → fst (Mark now k d' r) = Some d0.
Proof.
  intros Ht Hw Hn r0 r d0. pose proof (half_ttl_range t Ht) as Hh.
  destruct (reachable_rshard start t n before (shard_index k) (shard_index_lt k)) as (s & Hs & Ek).
  fold r0 in Hs. assert (registry.ttl r0 = reg_ttl t) as Et by apply marks_frame.
  pose proof (Mark_result t0 k d r0 s Hs) as Ed. rewrite Et in Ed.
  destruct (shard_Mark_spec t0 (Z.quot (reg_ttl t) 2) k d s) as (Ef & Ec & _ & _ & Ek1).
  set (s1 := snd (shard_Mark t0 (Z.quot (reg_ttl t) 2) k d s)) in *.
  assert (cur s1 !! k = Some d0) as Hk.
  { rewrite Ec, lookup_insert_eq, <- Ef. unfold d0. by rewrite Ed. }
  assert (rs r !! shard_index k
    = Some (foldl (smark (Z.quot (reg_ttl t) 2)) s1 (marks_on (shard_index k) ms))) as Hr.
  { unfold r. by rewrite marks_shard, Mark_shard, decide_True, Hs, Mark_ttl, Et by done. }
  destruct (rsafe_run k d0 t0 (Z.quot (reg_ttl t) 2) (marks_on (shard_index k) ms) s1)
    as [Hsafe Ek2]; [by left|done|done|by rewrite Ek1, Ek|].
  split; [by rewrite (Lookup_shard _ _ _ Hr), (rsafe_lookup _ _ _ _ _ Hsafe)|].
  intros now d' Hnow. rewrite (Mark_result _ _ _ _ _ Hr).
  assert (registry.ttl r = reg_ttl t) as -> by (unfold r; by rewrite (proj1 (marks_frame _ _)), Mark_ttl).
  rewrite (proj1 (shard_Mark_spec _ _ _ _ _)).
  pose proof (reg_cap_pos n). eapply rsafe_lookup, rsafe_rotate; [done|done|done|].
  rewrite Ek2, Ek1, Ek. lia.
Qed.

(** ** Within its window the registry is a map *)

(** The direction of the first mark of [k]. *)
Definition first_dir (k : Hash) (ms : list mark) : option Direction :=
  m_dir <$> head (filter (λ m, m_key m = k) ms).

(** Marks in the order of the clock, all within a span of [h]. *)
Record in_window (lo h : Z) (ms : list mark) : Prop := {
  win_sorted : StronglySorted (λ a b, m_now a ≤ m_now b) ms;
  win_span : marked_within lo (lo + h) ms
}.
Definition uncrowded (n : Z) (ms : list mark) : Prop :=
  ∀ i, zlen (marks_on i ms) < reg_cap n.

Lemma first_dir_split k ms d :
  first_dir k ms = Some d →
  ∃ pre m post, ms = pre ++ m :: post ∧ m_key m = k ∧ m_dir m = d ∧ first_dir k pre = None.
Proof.
  unfold first_dir. induction ms as [|m ms IH]; [done|].
  rewrite filter_cons. case_decide as Hk.
  - cbn. intros [= <-]. by exists [], m, ms.
  - intros H. destruct (IH H) as (pre & m' & post & -> & ? & ? & Hn).
    exists (m :: pre), m', post. split_and!; [done..|]. rewrite filter_cons. by rewrite decide_False.
Qed.

Lemma first_dir_None k ms : first_dir k ms = None → ∀ m, m ∈ ms → m_key m ≠ k.
Proof.
  unfold first_dir. intros H m Hm Hk.
  assert (m ∈ filter (λ m, m_key m = k) ms) as Hf by (by apply list_elem_of_filter).
  destruct (filter _ ms); [by apply not_elem_of_nil in Hf|done].
Qed.

Lemma Lookup_marked start t n ms k d :
  Lookup k (marks ms (New start t n)) = Some d → ∃ m, m ∈ ms ∧ m_key m = k ∧ m_dir m = d.
Proof.
  unfold Lookup. rewrite marks_shard.
  destruct (rs (New start t n) !! shard_index k) as [s|] eqn:Hs; [|done].
  cbn [fmap option_fmap option_map mbind option_bind].
  assert (shard_Lookup k s = None) as H0.
  { unfold New in Hs. cbn [rs] in Hs. apply lookup_replicate in Hs as [-> _]. done. }
  enough (∀ l, shard_Lookup k (foldl (smark (Z.quot (registry.ttl (New start t n)) 2)) s l) = Some d →
    ∃ m, m ∈ l ∧ m_key m = k ∧ m_dir m = d) as H.
  { intros Hl. destruct (H _ Hl) as (m & Hm & ?). exists m. split; [|done].
    by apply list_elem_of_filter in Hm as [_ ?]. }
  induction l as [|m l IH] using rev_ind; intros Hl; [by simpl in Hl; congruence|].
  rewrite foldl_snoc in Hl. unfold smark at 1 in Hl. rewrite shard_Lookup_Mark in Hl.
  destruct (decide (m_key m = k)) as [<-|Hne].
  - destruct (shard_Lookup (m_key m) (maybeRotateLocked _ _ _)) as [e|] eqn:E; injection Hl as <-.
    + apply maybeRotate_lookup in E. destruct (IH E) as (m' & ? & ?). exists m'. set_solver.
    + exists m. set_solver.
  - apply maybeRotate_lookup in Hl. destruct (IH Hl) as (m' & ? & ?). exists m'. set_solver.
Qed.

Lemma unmarked_unknown start t n ms k :
  first_dir k ms = None → Lookup k (marks ms (New start t n)) = None.
Proof.
  intros H. destruct (Lookup k _) as [d|] eqn:E; [|done].
  apply Lookup_marked in E as (m & Hm & Hk & _). by destruct (first_dir_None k ms H m Hm).
Qed.

Lemma marks_registry_wf start t n ms : registry_wf (marks ms (New start t n)).
Proof. unfold registry_wf. rewrite (proj2 (marks_frame _ _)). apply New_registry_wf. Qed.

Lemma Mark_unknown now k d r : registry_wf r → Lookup k r = None → fst (Mark now k d r) = None.
Proof.
  intros Hw Hl. destruct (fst (Mark now k d r)) as [e|] eqn:E; [|done].
  apply Mark_known in E; [congruence|done].
Qed.

Lemma marks_on_app i a b : marks_on i (a ++ b) = marks_on i a ++ marks_on i b.
Proof. apply filter_app. Qed.

Lemma window_exact start t n lo ms k :
  t < two63 → in_window lo (Z.quot (reg_ttl t) 2) ms → uncrowded n ms →
  Lookup k (marks ms (New start t n)) = first_dir k ms ∧
  ∀ now d, Forall (λ m, m_now m ≤ now) ms → lo ≤ now < lo + Z.quot (reg_ttl t) 2 →
    fst (Mark now k d (marks ms (New start t n))) = first_dir k ms.
Proof.
  intros Ht [Hsort Hspan] Hroom. destruct (first_dir k ms) as [d0|] eqn:E.
  2: { pose proof (unmarked_unknown start t n ms k E) as Hn. split; [done|].
       intros now d _ _. apply Mark_unknown; [apply marks_registry_wf|done]. }
  apply first_dir_split in E as (pre & m & post & -> & Hk & Hd & Hpre).
  apply Forall_app in Hspan as [_ Hspan]. apply Forall_cons in Hspan as [Hm Hspan].
  assert (Forall (λ m', m_now m ≤ m_now m') post) as Hafter.
  { clear -Hsort. induction pre as [|p pre IH]; cbn in *; apply StronglySorted_inv in Hsort as [Hs ?]; auto. }
  destruct (marks_keep start t n (m_now m) pre post k (m_dir m) Ht) as [Hl Hmk].
  - apply list.Forall_forall. intros m' [_ Hin]%list_elem_of_filter.
    rewrite list.Forall_forall in Hafter, Hspan. specialize (Hafter m' Hin). specialize (Hspan m' Hin).
    cbn in *. lia.
  - specialize (Hroom (shard_index k)). rewrite marks_on_app, length_app in Hroom.
    change (m :: post) with ([m] ++ post) in Hroom. rewrite marks_on_app, length_app in Hroom. lia.
  - assert (fst (Mark (m_now m) k (m_dir m) (marks pre (New start t n))) = None) as Hnone.
    { apply Mark_unknown; [apply marks_registry_wf|by apply unmarked_unknown]. }
    rewrite Hnone in Hl, Hmk. cbn [default] in Hl, Hmk.
    unfold marks. rewrite foldl_app. cbn [foldl]. rewrite Hk, <- Hd. split; [exact Hl|].
    intros now d Hnow Hin. apply Hmk. apply Forall_app in Hnow as [_ Hnow].
    apply Forall_cons in Hnow as [? _]. lia.
Qed.

(** ** Theorems *)

(** C25: A marked hash keeps the direction it was first known in: until half the
    TTL has passed and as long as fewer marks than the shard's capacity reach
    its shard, every lookup and every further mark, in either direction,
    answers with that direction. *)
Theorem mark_survives (start t n t0 : Z) (before ms : list mark) (k : Hash) (d : Direction) :
  t < two63 →
  marked_within t0 (t0 + Z.quot (reg_ttl t) 2) (marks_on (shard_index k) ms) →
  zlen (marks_on (shard_index k) ms) < reg_cap n →
  let r0 := marks before (New start t n) in
  let r := marks ms (snd (Mark t0 k d r0)) in
  let d0 := default d (fst (Mark t0 k d r0)) in
  Lookup k r = Some d0 ∧
  ∀ now d', t0 ≤ now < t0 + Z.quot (reg_ttl t) 2 → fst (Mark now k d' r) = Some d0.
Proof. apply marks_keep. Qed.

(** The registry never invents or relabels an entry: a hash it reports was
    marked in that direction by an earlier call. In particular a hash that was
    never marked is unknown, which is what the reverse path's origin filter
    asks. *)
Theorem lookup_was_marked (start t n : Z) (ms : list mark) (k : Hash) (d : Direction) :
  Lookup k (marks ms (New start t n)) = Some d →
  ∃ m, m ∈ ms ∧ m_key m = k ∧ m_dir m = d.
Proof. apply Lookup_marked. Qed.

(** The registry holds at most the configured number of entries, after any
    sequence of marks. *)
Theorem registry_bounded (start t n : Z) (ms : list mark) :
  128 ≤ n → Entries (Stats (marks ms (New start t n))) ≤ n.
Proof.
  intros Hn. set (h := Z.quot (reg_ttl t) 2).
  set (ok := λ s, Z.of_nat (size (cur s)) ≤ cap s ∧ Z.of_nat (size (prev s)) ≤ cap s ∧
                  cap s = reg_cap n).
  assert (∀ s m, ok s → ok (smark h s m)) as Hstep.
  { intros s m (Hc & Hp & Hk). pose proof (reg_cap_pos n). unfold ok, smark.
    destruct (shard_Mark_spec (m_now m) h (m_key m) (m_dir m) s) as (_ & -> & -> & _ & ->).
    rewrite map_size_insert. unfold maybeRotateLocked.
    destruct (_ || _) eqn:E.
    - cbn. rewrite lookup_empty, map_size_empty. lia.
    - apply orb_false_iff in E as [_ E%Z.leb_gt]. destruct (cur s !! _); cbn; lia. }
  assert (Forall ok (rs (marks ms (New start t n)))) as Hall.
  { apply Forall_lookup. intros i s Hi. rewrite marks_shard in Hi.
    destruct (rs (New start t n) !! i) as [s0|] eqn:Hs0; [|done]. injection Hi as <-.
    unfold New in Hs0. cbn [rs] in Hs0. apply lookup_replicate in Hs0 as [-> _].
    fold h. induction (marks_on i ms) as [|m l IH] using rev_ind.
    - unfold ok. cbn. rewrite map_size_empty. pose proof (reg_cap_pos n). fold (reg_cap n). lia.
    - rewrite foldl_snoc. by apply Hstep. }
  assert (length (rs (marks ms (New start t n))) = shards) as Hl.
  { rewrite (proj2 (marks_frame _ _)). unfold New. cbn [rs]. by rewrite length_replicate. }
  revert Hl Hall. unfold Stats. generalize (rs (marks ms (New start t n))). intros ss Hl Hall.
  assert (∀ st, Entries (foldl stats_add st ss) ≤ Entries st + zlen ss * (2 * reg_cap n)) as H.
  { clear Hl. induction Hall as [|s ss (? & ? & ?) _ IH]; intros st; cbn [foldl length]; [lia|].
    rewrite Nat2Z.inj_succ. specialize (IH (stats_add st s)). cbn [stats_add Entries] in IH. lia. }
  specialize (H (mkStats 0 0 0 0)). rewrite Hl in H. cbn [Entries] in H.
  assert (128 * reg_cap n ≤ n); [|unfold shards in H; lia].
  unfold reg_cap. rewrite (proj2 (Z.leb_gt n 0)) by lia.
  rewrite Z.quot_quot by lia. rewrite Z.quot_div_nonneg by lia.
  change (64 * 2) with 128. pose proof (Z.mul_div_le n 128). bdestruct_guard; lia.
Qed.

(** ** Witnesses *)

Definition rx_key (b : byte) : Hash := copy32 [x05; b].

Lemma mark_survives_witness :
  Lookup (rx_key x01)
    (marks [mkMark 12 (rx_key x02) Delivered; mkMark 13 (rx_key x01) Delivered]
       (snd (Mark 10 (rx_key x01) Submitted (marks [] (New 0 1000 6400)))))
  = Some Submitted.
Proof.
  destruct (mark_survives 0 1000 6400 10 []
    [mkMark 12 (rx_key x02) Delivered; mkMark 13 (rx_key x01) Delivered] (rx_key x01) Submitted)
    as [H _].
  - vm_compute; reflexivity.
  - vm_compute. repeat constructor; intros ?; discriminate.
  - vm_compute; reflexivity.
  - exact H.
Defined.

Lemma lookup_was_marked_witness :
  ∃ m, m ∈ [mkMark 12 (rx_key x02) Delivered] ∧ m_key m = rx_key x02 ∧ m_dir m = Delivered.
Proof. apply (lookup_was_marked 0 1000 6400). vm_compute. reflexivity. Defined.

Lemma registry_bounded_witness :
  Entries (Stats (marks [mkMark 12 (rx_key x02) Delivered] (New 0 1000 128))) ≤ 128.
Proof. apply registry_bounded. lia. Defined.
