(* ===== verification/TxWire.v ===== *)
(** * txpipe: walking a transaction's inputs

    The input scan of [src/internal/txpipe/txpipe.go] ([varInt], [inputRefs],
    [dependsOnBatch]), and the transaction layout it walks: BRC-12 raw and
    BRC-30 extended format. Offsets are [int]s and the script lengths read off
    the wire are [uint64]s converted to [int], so sums wrap. *)

From Stdlib Require Import Strings.Byte.
From stdpp Require Import base list strings numbers gmap.
From S2P Require Import Prelude Objfmt TnWire.

Module txwire.
(** [x |= uint64(b[off+1+i]) << (8*i)] for [i] counting from [i] to [i+n-1]. *)
Fixpoint or_bytes (b : list byte) (off : Z) (n : nat) (i : Z) (x : Z) : res Z :=
  match n with
  | O => Ok x
  | S n =>
      c ← index b (off +i 1 +i i);
      or_bytes b off n (i + 1) (Z.lor x (u64 (Z.shiftl (byte_val c) (8 * i))))
  end.

Definition varInt (b : list byte) (off : Z) : res (Z * Z) :=
  _ ← guard_err (zlen b <=? off) (EMsg "txpipe: short varint");
  v ← index b off;
  if byte_val v <? 0xfd then Ok (byte_val v, 1)
  else if byte_val v =? 0xfd then
    _ ← guard_err (zlen b <? off +i 3) (EMsg "txpipe: short varint16");
    x ← or_bytes b off 2 0 0; Ok (x, 3)
  else if byte_val v =? 0xfe then
    _ ← guard_err (zlen b <? off +i 5) (EMsg "txpipe: short varint32");
    x ← or_bytes b off 4 0 0; Ok (x, 5)
  else
    _ ← guard_err (zlen b <? off +i 9) (EMsg "txpipe: short varint64");
    x ← or_bytes b off 8 0 0; Ok (x, 9).

(** [tx[4] == 0 && ... && tx[9] == 0xEF]. *)
Definition ef_marker (tx : list byte) : bool :=
  bool_decide (take 6 (drop 4 tx) = [x00; x00; x00; x00; x00; xef]).

Section inputRefs.
(** The callback and the state it updates. *)
Context {A : Type} (fn : A → Hash → A).

(** One round of the input loop: the offset moves past one input. A return
    leaves with the callback's state so far. *)
Definition input_body (tx : list byte) (ef : bool) (s : Z * A) : (Z * A) + (A * res unit) :=
  let '(off, a) := s in
  if zlen tx <? off +i 36 then inr (a, Err (EMsg "txpipe: truncated input")) else
  match slice tx off (off +i 32) with
  | Ok g =>
      let a := fn a (copy32 g) in
      let r :=
        let off := off +i 36 in
        '(sLen, n) ← varInt tx off;
        let off := off +i (n +i i64 sLen +i 4) in
        off ← (if ef then
                 _ ← guard_err (zlen tx <? off +i 8) (EMsg "txpipe: truncated EF input");
                 let off := off +i 8 in
                 '(lLen, n) ← varInt tx off;
                 Ok (off +i (n +i i64 lLen))
               else Ok off);
        _ ← guard_err (zlen tx <? off) (EMsg "txpipe: input overruns tx");
        Ok off in
      match r with
      | Ok off => inl (off, a)
      | Err e => inr (a, Err e)
      | Panic => inr (a, Panic)
      end
  | Err e => inr (a, Err e)
  | Panic => inr (a, Panic)
  end.

Definition inputRefs (tx : list byte) (a : A) : A * res unit :=
  let off := 4 in
  if zlen tx <? 10 then (a, Err (EMsg "txpipe: short tx")) else
  let ef := ef_marker tx in
  let off := if ef then off +i 6 else off in
  match varInt tx off with
  | Panic => (a, Panic)
  | Err _ => (a, Err (EMsg "txpipe: bad input count"))
  | Ok (inCount, n) =>
      if inCount =? 0 then (a, Err (EMsg "txpipe: bad input count")) else
      match loop_Z (input_body tx ef) inCount (off +i n, a) with
      | inl (_, a) => (a, Ok tt)
      | inr r => r
      end
  end.
End inputRefs.

(** The error of the walk is dropped; what it saw before counts. *)
Definition dependsOnBatch (tx : list byte) (ids : gset Hash) : res bool :=
  match inputRefs (λ hit prev, hit || bool_decide (prev ∈ ids)) tx false with
  | (_, Panic) => Panic
  | (hit, _) => Ok hit
  end.
End txwire.

Import tnwire txwire.

(** ** The transaction layout *)

Record txin : Type := mkTxin {
  in_prev : Hash;          (** txid of the spent output *)
  in_index : list byte;    (** its index, 4 bytes *)
  in_script : list byte;   (** unlocking script *)
  in_seq : list byte;      (** sequence, 4 bytes *)
  in_value : list byte;    (** extended format: spent value, 8 bytes *)
  in_lock : list byte      (** extended format: spent locking script *)
}.

Definition var_bytes (b : list byte) : list byte := AppendVarInt [] (zlen b) ++ b.

Definition ser_in (ef : bool) (i : txin) : list byte :=
  hbytes (in_prev i) ++ in_index i ++ var_bytes (in_script i) ++ in_seq i
  ++ (if ef then in_value i ++ var_bytes (in_lock i) else []).

Definition ef_bytes : list byte := [x00; x00; x00; x00; x00; xef].

(** A transaction: version, inputs, and whatever follows (outputs, lock time). *)
Definition ser_tx (ef : bool) (version : list byte) (ins : list txin) (rest : list byte) : list byte :=
  version ++ (if ef then ef_bytes else []) ++ AppendVarInt [] (zlen ins)
  ++ (ins ≫= ser_in ef) ++ rest.

Definition txin_ok (i : txin) : Prop :=
  length (in_index i) = 4%nat ∧ length (in_seq i) = 4%nat ∧ length (in_value i) = 8%nat.

(** ** CompactSize integers *)

Lemma lor_shift x v i :
  0 ≤ i → 0 ≤ x < 2 ^ i → Z.lor x (Z.shiftl v i) = x + v * 2 ^ i.
Proof.
  intros Hi Hx. rewrite Z.shiftl_mul_pow2 by done.
  assert (Z.land x (v * 2 ^ i) = 0) as Hl.
  { apply Z.bits_inj'. intros n Hn. rewrite Z.land_spec, Z.bits_0.
    destruct (Z.lt_ge_cases n i).
    - by rewrite Z.mul_pow2_bits_low, andb_false_r by lia.
    - assert (Z.testbit x n = false) as ->; [|done].
      destruct (Z.eq_dec x 0) as [->|]; [apply Z.bits_0|].
      apply Z.bits_above_log2; [lia|].
      apply Z.log2_lt_pow2; [lia|]. apply Z.lt_le_trans with (2 ^ i); [lia|].
      apply Z.pow_le_mono_r; lia. }
  rewrite <- Z.lxor_lor by done. symmetry. by apply Z.add_nocarry_lxor.
Qed.

Lemma or_bytes_spec b off n i x :
  0 ≤ off → 0 ≤ i → i + Z.of_nat n ≤ 8 → off + 1 + i + Z.of_nat n ≤ zlen b → fits b →
  0 ≤ x < 2 ^ (8 * i) →
  or_bytes b off n i x
  = Ok (x + 2 ^ (8 * i) * le_val (take n (drop (Z.to_nat (off + 1 + i)) b))).
Proof.
  revert i x. induction n as [|n IH]; intros i x Ho Hi Hn Hb Hf Hx.
  { cbn [or_bytes take le_val]. by rewrite Z.mul_0_r, Z.add_0_r. }
  cbn [or_bytes]. unfold fits in Hf. num_bounds.
  rewrite (iadd_small off 1), (iadd_small _ i) by lia.
  destruct (lookup_lt_is_Some_2 b (Z.to_nat (off + 1 + i))) as [c Hc]; [lia|].
  unfold index. rewrite (proj2 (Z.leb_le _ _)), Hc by lia. rstep.
  pose proof (byte_val_range c) as Hr.
  assert (0 < 2 ^ (8 * i)) by (apply Z.pow_pos_nonneg; lia).
  assert (2 ^ (8 * (i + 1)) = 2 ^ (8 * i) * 256) as E
    by (rewrite Z.mul_add_distr_l, Z.pow_add_r by lia; done).
  assert (2 ^ (8 * (i + 1)) ≤ two64) by (apply Z.pow_le_mono_r; lia).
  rewrite Z.shiftl_mul_pow2, u64_small, <- Z.shiftl_mul_pow2, lor_shift by nia.
  rewrite IH; [|lia|lia|lia|lia|done|rewrite E; nia]. rewrite (drop_S b c (Z.to_nat (off + 1 + i))) by done. cbn [take le_val].
  rewrite E. replace (Z.to_nat (off + 1 + (i + 1))) with (S (Z.to_nat (off + 1 + i))) by lia.
  apply (f_equal Ok). ring.
Qed.

(** The scanner's decoder agrees with the one of [tnwire] at every offset. *)
Lemma varInt_readVarInt b off :
  0 ≤ off → fits b →
  match readVarInt (drop (Z.to_nat off) b) with
  | (v, n) => if n =? 0 then ∃ e, varInt b off = Err e else varInt b off = Ok (v, n)
  end.
Proof.
  intros Ho Hf. unfold varInt, readVarInt. pose proof Hf as Hf'. unfold fits in Hf'. num_bounds.
  destruct (drop (Z.to_nat off) b) as [|c r] eqn:Hd.
  { apply (f_equal length) in Hd. rewrite length_drop in Hd. simpl in Hd.
    rewrite (proj2 (Z.leb_le (zlen b) off)) by lia. rewrite Z.eqb_refl. eexists; reflexivity. }
  assert (Hlen : zlen b = off + zlen (c :: r)).
  { apply (f_equal length) in Hd. rewrite length_drop in Hd.
    destruct (Z.le_gt_cases (zlen b) off); [simpl in Hd; lia|]. lia. }
  rewrite (proj2 (Z.leb_gt (zlen b) off)) by (simpl in Hlen; lia). rstep.
  unfold index. rewrite (proj2 (Z.leb_le 0 off)) by done.
  assert (b !! Z.to_nat off = Some c) as ->.
  { pose proof (lookup_drop b (Z.to_nat off) 0) as Hl. rewrite Hd, Nat.add_0_r in Hl. by rewrite <- Hl. }
  rstep. pose proof (byte_val_range c).
  assert (∀ k : nat, zlen (c :: r) < 1 + Z.of_nat k → (k ≤ 8)%nat →
    (zlen b <? off +i (1 + Z.of_nat k)) = true) as Hshort.
  { intros k Hk Hk8. rewrite iadd_small by lia. apply Z.ltb_lt. lia. }
  assert (∀ k : nat, 1 + Z.of_nat k ≤ zlen (c :: r) → (k ≤ 8)%nat →
    (zlen b <? off +i (1 + Z.of_nat k)) = false ∧
    or_bytes b off k 0 0 = Ok (le_val (take k r))) as Hlong.
  { intros k Hk Hk8. split; [rewrite iadd_small by lia; apply Z.ltb_ge; lia|].
    rewrite or_bytes_spec; [|lia|lia|lia|lia|done|done].
    replace (Z.to_nat (off + 1 + 0)) with (Z.to_nat off + 1)%nat by lia.
    rewrite <- drop_drop, Hd. cbn [drop]. rewrite drop_0. apply (f_equal Ok). change (2 ^ (8 * 0)) with 1. ring. }
  assert (∀ k : nat, (1 ≤ k ≤ 8)%nat → ∀ msg,
    match (if zlen (c :: r) <? 1 + Z.of_nat k then (0, 0)
           else (le_val (take k r), 1 + Z.of_nat k)) with
    | (v, n) =>
        if n =? 0 then
          ∃ e, (_ ← guard_err (zlen b <? off +i (1 + Z.of_nat k)) msg;
                x ← or_bytes b off k 0 0; Ok (x, 1 + Z.of_nat k)) = Err e
        else (_ ← guard_err (zlen b <? off +i (1 + Z.of_nat k)) msg;
              x ← or_bytes b off k 0 0; Ok (x, 1 + Z.of_nat k)) = Ok (v, n)
    end) as Hcase.
  { intros k Hk msg. destruct (Z.ltb_spec (zlen (c :: r)) (1 + Z.of_nat k)) as [Hs|Hs].
    - rewrite Hshort by lia. rewrite Z.eqb_refl. eexists; reflexivity.
    - destruct (Hlong k) as [-> ->]; [lia..|]. rewrite (proj2 (Z.eqb_neq _ 0)) by lia. done. }
  destruct (Z.eqb_spec (byte_val c) 0xfd) as [->|]; [exact (Hcase 2%nat ltac:(lia) _)|].
  destruct (Z.eqb_spec (byte_val c) 0xfe) as [->|]; [exact (Hcase 4%nat ltac:(lia) _)|].
  destruct (Z.eqb_spec (byte_val c) 0xff) as [->|]; [exact (Hcase 8%nat ltac:(lia) _)|].
  rewrite (proj2 (Z.ltb_lt (byte_val c) 0xfd)) by lia. done.
Qed.

Lemma varInt_field (b p s : list byte) v off :
  b = p ++ AppendVarInt [] v ++ s → off = zlen p → is_u64 v → fits b →
  varInt b off = Ok (v, zlen (AppendVarInt [] v)).
Proof.
  intros -> -> Hv Hf. pose proof (varInt_readVarInt _ (zlen p) ltac:(lia) Hf) as H.
  rewrite Nat2Z.id, drop_app_length, readVarInt_AppendVarInt in H by done.
  pose proof (length_AppendVarInt v). by rewrite (proj2 (Z.eqb_neq _ 0)) in H by lia.
Qed.

Lemma fits_is_u64 {A B} (b : list A) (l : list B) : (length l ≤ length b)%nat → fits b → is_u64 (zlen l).
Proof. unfold fits, is_u64. num_bounds. lia. Qed.

(** ** Walking the inputs *)

Section walk.
Context {A : Type} (fn : A → Hash → A).

Lemma input_body_ser ef tx p i s a :
  tx = p ++ ser_in ef i ++ s → txin_ok i → fits tx →
  input_body fn tx ef (zlen p, a) = inl (zlen p + zlen (ser_in ef i), fn a (in_prev i)).
Proof.
  intros Htx (H4 & H4' & H8) Hf. pose proof Hf as Hf'. unfold fits in Hf'. num_bounds.
  set (scr := in_script i). set (lock := in_lock i).
  set (tail := (if ef then in_value i ++ var_bytes lock else []) ++ s).
  assert (E1 : tx = (p ++ hbytes (in_prev i) ++ in_index i) ++
                    AppendVarInt [] (zlen scr) ++ (scr ++ in_seq i ++ tail)).
  { rewrite Htx. unfold ser_in, tail, var_bytes. fold scr lock. by rewrite <- !app_assoc. }
  assert (E0 : tx = p ++ hbytes (in_prev i) ++ (in_index i ++ AppendVarInt [] (zlen scr)
                    ++ scr ++ in_seq i ++ tail)) by (rewrite E1, <- !app_assoc; done).
  pose proof (length_AppendVarInt (zlen scr)) as Lv.
  assert (Ltx : zlen tx = zlen p + 36 + zlen (AppendVarInt [] (zlen scr)) + zlen scr + 4 + zlen tail).
  { rewrite E1 at 1. rewrite !length_app, hash_length. lia. }
  assert (Hs : is_u64 (zlen scr)) by (eapply (fits_is_u64 tx); [lia|done]).
  unfold input_body. rewrite (iadd_small (zlen p) 36), (iadd_small (zlen p) 32) by lia.
  rewrite (proj2 (Z.ltb_ge _ _)) by lia.
  rewrite (slice_field tx p (hbytes (in_prev i)) _ _ _ E0) by (rewrite ?hash_length; lia).
  rewrite copy32_hbytes.
  rewrite (varInt_field tx _ _ (zlen scr) _ E1) by (rewrite ?length_app, ?hash_length; (lia || done)).
  rstep. rewrite (i64_small (zlen scr)) by lia.
  rewrite (iadd_small (zlen (AppendVarInt [] (zlen scr)))), (iadd_small _ 4), (iadd_small (zlen p + 36)) by lia.
  set (off := zlen p + 36 + _). destruct ef.
  - pose proof (length_AppendVarInt (zlen lock)) as Lw.
    assert (Lt : zlen tail = 8 + zlen (AppendVarInt [] (zlen lock)) + zlen lock + zlen s).
    { unfold tail, var_bytes. rewrite !length_app. lia. }
    assert (E2 : tx = (p ++ hbytes (in_prev i) ++ in_index i ++ AppendVarInt [] (zlen scr)
        ++ scr ++ in_seq i ++ in_value i) ++ AppendVarInt [] (zlen lock) ++ (lock ++ s)).
    { rewrite E1. unfold tail, var_bytes. rewrite <- !app_assoc. done. }
    rewrite (iadd_small off 8) by lia. rewrite (proj2 (Z.ltb_ge _ _)) by lia. rstep.
    assert (Hl : is_u64 (zlen lock)) by (eapply (fits_is_u64 tx); [lia|done]).
    rewrite (varInt_field tx _ _ (zlen lock) _ E2)
      by (rewrite ?length_app, ?hash_length; (lia || done)).
    rstep. rewrite (i64_small (zlen lock)) by lia.
    rewrite (iadd_small (zlen (AppendVarInt [] (zlen lock)))), (iadd_small (off + 8)) by lia.
    rewrite (proj2 (Z.ltb_ge _ _)) by lia. rstep.
    do 2 f_equal. unfold ser_in, var_bytes. fold scr lock. rewrite !length_app, hash_length. lia.
  - rstep. rewrite (proj2 (Z.ltb_ge _ _)) by lia. rstep.
    do 2 f_equal. unfold ser_in, var_bytes. fold scr. rewrite !length_app, hash_length. simpl. lia.
Qed.

Lemma input_loop_ser ef tx ins p s a :
  tx = p ++ (ins ≫= ser_in ef) ++ s → Forall txin_ok ins → fits tx →
  loop_nat (input_body fn tx ef) (length ins) (zlen p, a)
  = inl (zlen p + zlen (ins ≫= ser_in ef), foldl fn a (in_prev <$> ins)).
Proof.
  revert p a. induction ins as [|i ins IH]; intros p a Htx Hok Hf.
  { cbn. do 2 f_equal. lia. }
  apply Forall_cons in Hok as [Hi Hok]. rewrite bind_cons, <- app_assoc in Htx.
  cbn [length loop_nat]. rewrite (input_body_ser ef tx p i _ a Htx Hi Hf).
  rewrite app_assoc in Htx. specialize (IH (p ++ ser_in ef i) (fn a (in_prev i)) Htx Hok Hf).
  rewrite length_app, Nat2Z.inj_add in IH. rewrite IH.
  cbn [fmap list_fmap foldl]. do 2 f_equal. rewrite bind_cons, length_app. lia.
Qed.

(** The walk reports exactly the transaction's spent txids, in order. *)
Lemma inputRefs_ser ef version ins rest a :
  length version = 4%nat → ins ≠ [] → Forall txin_ok ins →
  fits (ser_tx ef version ins rest) →
  inputRefs fn (ser_tx ef version ins rest) a = (foldl fn a (in_prev <$> ins), Ok tt).
Proof.
  intros Hv Hne Hok Hf. pose proof (length_AppendVarInt (zlen ins)) as Lv.
  assert (0 < zlen ins) as Hn by (destruct ins; simpl; [done|lia]).
  set (tx := ser_tx ef version ins rest) in *.
  set (mark := if ef then ef_bytes else []).
  assert (Hlen : zlen tx = 4 + zlen mark + zlen (AppendVarInt [] (zlen ins))
      + zlen (ins ≫= ser_in ef) + zlen rest).
  { unfold tx, ser_tx. fold mark. rewrite !length_app. lia. }
  assert (36 * zlen ins ≤ zlen (ins ≫= ser_in ef)) as Hins.
  { clear -Hok. induction Hok as [|i l (? & ? & ?) _ IH]; [done|].
    rewrite bind_cons, length_app. unfold ser_in at 1. rewrite !length_app, hash_length.
    cbn [length]. lia. }
  assert (Em : ef_marker tx = ef).
  { unfold ef_marker, tx, ser_tx. rewrite drop_app_length' by done. destruct ef; [done|].
    apply bool_decide_eq_false. cbn [app]. unfold AppendVarInt. cbn [app].
    assert (byte_of (zlen ins) ≠ x00 ∨ 253 ≤ zlen ins) as Hb.
    { destruct (Z.lt_ge_cases (zlen ins) 253); [left|by right].
      intros E. apply (f_equal byte_val) in E. rewrite byte_val_of, Z.mod_small in E by lia.
      change (byte_val x00) with 0 in E. lia. }
    repeat bdestruct_guard; cbn [app take]; intros E; injection E; intros; subst; try done.
    destruct Hb; [done|lia]. }
  unfold inputRefs. pose proof Hf as Hf'. unfold fits in Hf'. num_bounds.
  rewrite (proj2 (Z.ltb_ge (zlen tx) 10)) by (destruct ef; cbn in *; lia).
  rewrite Em. set (off := if ef then 4 +i 6 else 4).
  assert (Eo : off = zlen (version ++ mark)).
  { unfold off, mark. rewrite length_app, Hv. by destruct ef. }
  assert (Et : tx = (version ++ mark) ++ AppendVarInt [] (zlen ins) ++ (ins ≫= ser_in ef) ++ rest)
    by (unfold tx, ser_tx; by rewrite <- app_assoc).
  rewrite (varInt_field tx _ _ (zlen ins) off Et Eo); [|eapply (fits_is_u64 tx); [lia|done]|done].
  rewrite (proj2 (Z.eqb_neq _ 0)) by lia.
  rewrite loop_Z_nat, Nat2Z.id, (iadd_small off) by (rewrite Eo, length_app; lia).
  rewrite app_assoc in Et. pose proof (input_loop_ser ef tx ins _ rest a Et Hok Hf) as Hl.
  rewrite length_app, Nat2Z.inj_add, <- Eo in Hl. by rewrite Hl.
Qed.
End walk.

Lemma foldl_hit (ids : gset Hash) prevs hit :
  foldl (λ hit prev, hit || bool_decide (prev ∈ ids)) hit prevs
  = hit || existsb (λ prev, bool_decide (prev ∈ ids)) prevs.
Proof.
  revert hit. induction prevs as [|x l IH]; intros hit; simpl; [by rewrite orb_false_r|].
  by rewrite IH, orb_assoc.
Qed.

(** ** The walk does not depend on its callback *)

Section fold.
Context {A : Type} (fn : A → Hash → A).

Let snoc (l : list Hash) (h : Hash) : list Hash := l ++ [h].

Lemma input_body_fold tx ef off l a :
  input_body fn tx ef (off, foldl fn a l)
  = match input_body snoc tx ef (off, l) with
    | inl (off', l') => inl (off', foldl fn a l')
    | inr (l', r) => inr (foldl fn a l', r)
    end.
Proof.
  unfold input_body. destruct (_ <? _); [done|].
  destruct (slice tx off (off +i 32)) as [g| |]; [|done..].
  cbv zeta. match goal with |- match ?r with _ => _ end = _ => destruct r end;
    unfold snoc; by rewrite foldl_app.
Qed.

Lemma input_loop_fold tx ef n off l a :
  loop_nat (input_body fn tx ef) n (off, foldl fn a l)
  = match loop_nat (input_body snoc tx ef) n (off, l) with
    | inl (off', l') => inl (off', foldl fn a l')
    | inr (l', r) => inr (foldl fn a l', r)
    end.
Proof.
  revert off l. induction n as [|n IH]; intros off l; [done|]. cbn [loop_nat].
  rewrite input_body_fold. destruct (input_body snoc tx ef (off, l)) as [[off' l']|[l' r]]; [|done].
  apply IH.
Qed.

Lemma inputRefs_fold tx a :
  inputRefs fn tx a = (foldl fn a (fst (inputRefs snoc tx [])), snd (inputRefs snoc tx [])).
Proof.
  unfold inputRefs. destruct (zlen tx <? 10); [done|].
  destruct (varInt _ _) as [[c n]| |]; [|done..]. destruct (c =? 0); [done|].
  rewrite !loop_Z_nat.
  pose proof (input_loop_fold tx (ef_marker tx) (Z.to_nat c)
    ((if ef_marker tx then 4 +i 6 else 4) +i n) [] a) as H. cbn [foldl] in H. rewrite H.
  by destruct (loop_nat (input_body snoc _ _) _ _) as [[]|[]].
Qed.
End fold.

(** The txids a transaction's walk sees, and whether the walk is in range. *)
Definition refs (tx : list byte) : list Hash := fst (inputRefs (λ l h, l ++ [h]) tx []).
Definition walkable (tx : list byte) : bool :=
  match snd (inputRefs (λ l h, l ++ [h]) tx []) with Panic => false | _ => true end.

Lemma dependsOnBatch_refs tx ids :
  dependsOnBatch tx ids
  = if walkable tx then Ok (existsb (λ prev, bool_decide (prev ∈ ids)) (refs tx)) else Panic.
Proof.
  unfold dependsOnBatch, walkable, refs. rewrite inputRefs_fold, foldl_hit. simpl.
  by destruct (snd (inputRefs _ tx [])).
Qed.

Lemma refs_ser ef version ins rest :
  length version = 4%nat → ins ≠ [] → Forall txin_ok ins → fits (ser_tx ef version ins rest) →
  refs (ser_tx ef version ins rest) = in_prev <$> ins ∧
  walkable (ser_tx ef version ins rest) = true.
Proof.
  intros. unfold refs, walkable. rewrite inputRefs_ser by done. split; [|done]. simpl.
  generalize (in_prev <$> ins). intros l.
  enough (∀ l', foldl (λ l h, l ++ [h]) l' l = l' ++ l) as E by apply (E []).
  induction l as [|x l IH]; intros l'; simpl; [by rewrite app_nil_r|]. by rewrite IH, <- app_assoc.
Qed.

(** ** Theorems *)

(** C21: On every well-formed transaction, raw or extended format, the dependency
    test returns and is exact: it answers true exactly when one of the inputs
    spends an output of a transaction in the set. *)
Theorem dependsOnBatch_exact (ef : bool) (version : list byte) (ins : list txin)
    (rest : list byte) (ids : gset Hash) :
  length version = 4%nat → ins ≠ [] → Forall txin_ok ins →
  fits (ser_tx ef version ins rest) →
  ∃ hit, dependsOnBatch (ser_tx ef version ins rest) ids = Ok hit ∧
         (hit = true ↔ ∃ i, i ∈ ins ∧ in_prev i ∈ ids).
Proof.
  intros Hv Hne Hok Hf. unfold dependsOnBatch. rewrite inputRefs_ser by done.
  eexists; split; [done|]. rewrite foldl_hit. simpl. rewrite existsb_exists. split.
  - intros (x & (i & -> & Hi)%list_elem_of_In%list_elem_of_fmap & Hx%bool_decide_eq_true). eauto.
  - intros (i & Hi & Hx). exists (in_prev i). split; [|by apply bool_decide_eq_true].
    apply list_elem_of_In, list_elem_of_fmap. eauto.
Qed.

(** The two CompactSize decoders of the program agree: at every offset of
    every buffer, [txpipe.varInt] returns what [tnwire.readVarInt] returns on
    the rest of the buffer, and fails exactly where it reports no bytes. *)
Theorem varInt_agrees (b : list byte) (off : Z) :
  0 ≤ off → fits b →
  (∃ e, varInt b off = Err e ∧ snd (readVarInt (drop (Z.to_nat off) b)) = 0) ∨
  varInt b off = Ok (readVarInt (drop (Z.to_nat off) b)) ∧
  0 < snd (readVarInt (drop (Z.to_nat off) b)).
Proof.
  intros Ho Hf. pose proof (varInt_readVarInt b off Ho Hf) as H.
  destruct (readVarInt (drop (Z.to_nat off) b)) as [v n] eqn:E. simpl.
  destruct (Z.eqb_spec n 0) as [->|Hn]; [left; naive_solver|right; split; [done|]].
  revert E. unfold readVarInt. repeat case_match; intros [= <- <-]; done || lia.
Qed.

(** A transaction whose script length does not fit an [int] makes the walk
    panic instead of reporting it malformed: the converted length is negative,
    so the offset passes every bounds check and the next read is out of
    range. *)
Theorem dependsOnBatch_panics (prev : Hash) (n : Z) (ids : gset Hash) :
  let tx := str "vers" ++ [x02] ++ hbytes prev ++ replicate 4 x00 ++ xff :: le_bytes 8 n in
  two63 ≤ n < two64 - 1000 → dependsOnBatch tx ids = Panic.
Proof.
  intros tx Hn. assert (Hlen : zlen tx = 50).
  { unfold tx. rewrite !length_app, hash_length, length_replicate. cbn [length].
    rewrite length_le_bytes. done. }
  assert (Hf : fits tx) by (unfold fits; rewrite Hlen; done). num_bounds.
  assert (E1 : tx = str "vers" ++ AppendVarInt [] 2 ++ (hbytes prev ++ replicate 4 x00 ++ xff :: le_bytes 8 n))
    by done.
  assert (E2 : tx = (str "vers" ++ [x02]) ++ hbytes prev ++ (replicate 4 x00 ++ xff :: le_bytes 8 n))
    by done.
  assert (E3 : tx = (str "vers" ++ [x02] ++ hbytes prev ++ replicate 4 x00) ++ AppendVarInt [] n ++ []).
  { unfold tx. rewrite <- !app_assoc, app_nil_r. unfold AppendVarInt.
    by rewrite (proj2 (Z.ltb_ge _ _)), !(proj2 (Z.leb_gt _ _)) by lia. }
  unfold dependsOnBatch, inputRefs. rewrite Hlen, (proj2 (Z.ltb_ge 50 10)) by lia.
  replace (ef_marker tx) with false
    by (symmetry; apply bool_decide_eq_false; unfold tx; cbn; by injection).
  rewrite (varInt_field tx _ _ 2 4 E1) by (done || (split; lia)).
  change (2 =? 0) with false. change (4 +i zlen (AppendVarInt [] 2)) with 5.
  change (loop_Z ?f 2) with (loop_pos f 2). cbn [loop_pos].
  unfold input_body at 1. rewrite Hlen. change (5 +i 36) with 41. change (5 +i 32) with 37.
  change (50 <? 41) with false.
  rewrite (slice_field tx _ _ _ _ _ E2) by (rewrite ?hash_length; done).
  rewrite copy32_hbytes, (varInt_field tx _ _ n 41 E3)
    by (rewrite ?length_app, ?hash_length; done || (split; lia)).
  rstep. assert (zlen (AppendVarInt [] n) = 9) as ->.
  { unfold AppendVarInt. rewrite (proj2 (Z.ltb_ge _ _)), !(proj2 (Z.leb_gt _ _)) by lia.
    rewrite length_app, length_le_bytes. done. }
  assert (i64 n = n - two64) as ->.
  { unfold i64. rewrite <- (Z.mod_unique (n + two63) two64 1 (n + two63 - two64)); lia. }
  rewrite (iadd_small 9), (iadd_small _ 4), (iadd_small 41) by lia.
  set (off := 41 + _). rewrite (proj2 (Z.ltb_ge 50 off)) by lia. rstep.
  unfold input_body. rewrite Hlen, (iadd_small off 36), (iadd_small off 32) by lia.
  rewrite (proj2 (Z.ltb_ge _ _)) by lia. unfold slice.
  rewrite (proj2 (Z.leb_gt 0 off)) by lia. done.
Qed.

(** ** Witnesses *)

Definition ex_in : txin :=
  mkTxin (copy32 [x09]) (replicate 4 x00) [x51; x52] (replicate 4 xff) (replicate 8 x01) [x76].

Lemma dependsOnBatch_exact_witness :
  dependsOnBatch (ser_tx true (str "vers") [ex_in; ex_in] [x00]) {[ copy32 [x09] ]} = Ok true.
Proof.
  destruct (dependsOnBatch_exact true (str "vers") [ex_in; ex_in] [x00] {[ copy32 [x09] ]})
    as (hit & -> & Hhit).
  - reflexivity.
  - done.
  - repeat constructor.
  - vm_compute. reflexivity.
  - f_equal. apply Hhit. exists ex_in. split; [by left|]. simpl. set_solver.
Defined.

Lemma varInt_agrees_witness :
  varInt [x00; xfd; x10; x01] 1 = Ok (readVarInt [xfd; x10; x01]).
Proof.
  destruct (varInt_agrees [x00; xfd; x10; x01] 1) as [(e & _ & H)|[H _]].
  - lia.
  - vm_compute. reflexivity.
  - vm_compute in H. discriminate H.
  - exact H.
Defined.

Lemma dependsOnBatch_panics_witness :
  dependsOnBatch (str "vers" ++ [x02] ++ hbytes (copy32 [x09]) ++ replicate 4 x00
                    ++ xff :: le_bytes 8 two63) ∅ = Panic.
Proof.
  apply (dependsOnBatch_panics (copy32 [x09]) two63 ∅).
  split; [apply Z.le_refl|vm_compute; reflexivity].
Defined.
