(* ===== verification/TxBuild.v ===== *)
(** * txpipe: configuration, queues and batch builders

    The part of [src/internal/txpipe/txpipe.go] in front of the submissions:
    the configuration's defaults, the runs of transactions a lane session
    queues ([Batch], [send]) and the builder goroutine that packs them into
    batches ([runBuilder]). A builder is a state machine: its queue, the open
    batch, the linger timer and the batches it has sealed so far, in order;
    one step is one round of its select loop or one send by a lane. Channel
    receives of the greedy drain are further receive steps. Each sealed batch
    is submitted by a goroutine of its own ([Submit.v]); the semaphore that
    limits how many run at once delays a seal and changes nothing else. *)

From Stdlib Require Import Strings.Byte.
From stdpp Require Import base list strings numbers gmap relations.
From S2P Require Import Prelude TxWire.
Import txwire.

Module txpipe.
Record Config : Type := mkConfig {
  Endpoints : list gostring;
  BatchTxs : Z;
  BatchBytes : Z;
  Linger : Z;
  Inflight : Z;
  RetryAttempts : Z;
  Timeout : Z;
  Queue : Z;
  Builders : Z
}.

Definition maxServerBatchTxs : Z := 1023.
Definition BatchCap : Z := 64.
Definition bodyHintPerTx : Z := 512.

(** [for c.Builders&(c.Builders-1) != 0 { c.Builders-- }]; entered with at
    most 16, so 16 rounds are enough. *)
Fixpoint round_down (fuel : nat) (b : Z) : Z :=
  match fuel with
  | O => b
  | S fuel => if negb (Z.land b (b - 1) =? 0) then round_down fuel (b - 1) else b
  end.

Definition defaults (c : Config) : Config :=
  let txs := if BatchTxs c <=? 0 then 512 else BatchTxs c in
  let txs := if maxServerBatchTxs <? txs then maxServerBatchTxs else txs in
  let bytes := if BatchBytes c <=? 0 then 8 * 2 ^ 20 else BatchBytes c in
  let bytes := if 30 * 2 ^ 20 <? bytes then 30 * 2 ^ 20 else bytes in
  let linger := if Linger c <=? 0 then 2 * 10 ^ 6 else Linger c in
  let inflight := if Inflight c <=? 0 then 4 else Inflight c in
  let timeout := if Timeout c <=? 0 then 30 * 10 ^ 9 else Timeout c in
  let queue := if Queue c <=? 0 then 8192 else Queue c in
  let builders :=
    if Builders c <? 1 then 4 else if 16 <? Builders c then 16 else Builders c in
  mkConfig (Endpoints c) txs bytes linger inflight (RetryAttempts c) timeout queue
    (round_down 16 builders).

(** [strings.TrimRight(e, "/")]. *)
Fixpoint drop_slashes (r : gostring) : gostring :=
  match r with
  | c :: r' => if bool_decide (c = x2f) then drop_slashes r' else r
  | [] => []
  end.
Definition TrimRight_slash (e : gostring) : gostring := reverse (drop_slashes (reverse e)).

Record job : Type := mkJob { raw : list byte; id : Hash }.

Record batch : Type := mkBatch {
  body : list byte;
  jobs : list job;
  ids : gset Hash;
  born : Z
}.

(** The pipe's queues: one channel of runs per builder, its capacity, the
    round-robin counter and the queue counters. *)
Record Pipe : Type := mkPipe {
  cfg : Config;
  ins : list (list (list job));
  chan_cap : Z;
  rr : Z;
  queued : Z;
  enqueued : Z
}.

Definition New (c : Config) : res Pipe :=
  _ ← guard_err (zlen (Endpoints c) =? 0)
        (EMsg "txpipe: no propagation endpoints configured");
  let c := defaults c in
  let c := mkConfig (TrimRight_slash <$> Endpoints c) (BatchTxs c) (BatchBytes c) (Linger c)
             (Inflight c) (RetryAttempts c) (Timeout c) (Queue c) (Builders c) in
  Ok (mkPipe c (replicate (Z.to_nat (Builders c)) [])
        (Z.max 4 (Z.quot (Queue c) (Builders c * BatchCap))) 0 0 0).

(** [send] on channel [i]: the run is queued, or the channel is full and the
    call waits ([None]; a cancelled context then returns its error). *)
Definition send (i : nat) (js : list job) (p : Pipe) : option Pipe :=
  match ins p !! i with
  | Some q =>
      if zlen q <? chan_cap p then
        Some (mkPipe (cfg p) (<[i := q ++ [js]]> (ins p)) (chan_cap p) (rr p)
                (queued p + zlen js) (enqueued p + zlen js))
      else None
  | None => None
  end.

(** [int(id[1]) & (Builders-1)] and [int(p.rr.Add(1)) & (Builders-1)]. *)
Definition route_id (c : Config) (k : Hash) : Z :=
  Z.land (byte_val (default x00 (hbytes k !! 1%nat))) (Builders c - 1).
Definition route_rr (c : Config) (n : Z) : Z := Z.land (i64 n) (Builders c - 1).

Definition EnqueueOwned (r : list byte) (k : Hash) (p : Pipe) : option Pipe :=
  send (Z.to_nat (route_id (cfg p) k)) [mkJob r k] p.
(** [Enqueue] copies the bytes first; the copy has the same value. *)
Definition Enqueue (r : list byte) (k : Hash) (p : Pipe) : option Pipe := EnqueueOwned r k p.

(** A lane session's [Batch] is the list of its waiting transactions. *)
Definition Batch_Add (r : list byte) (k : Hash) (b : list job) : bool * list job :=
  let b := b ++ [mkJob r k] in (BatchCap <=? zlen b, b).
Definition Batch_Len (b : list job) : Z := zlen b.
Definition Batch_Flush (b : list job) (p : Pipe) : list job * option Pipe :=
  if zlen b =? 0 then (b, Some p) else
  let n := u64 (rr p + 1) in
  let p := mkPipe (cfg p) (ins p) (chan_cap p) n (queued p) (enqueued p) in
  ([], send (Z.to_nat (route_rr (cfg p) n)) b p).

(** ** The builder *)

Definition empty_batch : batch := mkBatch [] [] ∅ 0.

(** A fresh batch, or one from the pool. *)
Definition newBatch (pooled : option batch) : batch := default empty_batch pooled.

(** [recycle]: what goes back to the pool once a submission settles. *)
Definition recycle (c : Config) (bodyCap : Z) (b : batch) : option batch :=
  if 4 * BatchTxs c * bodyHintPerTx <? bodyCap then None else Some (mkBatch [] [] ∅ 0).

Inductive reason : Type := SealSize | SealBytes | SealLinger | SealDep.

(** [linger] is the timer: [None] stopped, [Some d] set to fire at [d].
    [sealed] are the batches handed to submission, oldest first, each with
    the counter its seal incremented. *)
Record builder : Type := mkBuilder {
  cur : batch;
  linger : option Z;
  sealed : list (reason * batch)
}.

Definition seal (r : reason) (b : builder) : builder :=
  if zlen (jobs (cur b)) =? 0 then b
  else mkBuilder (newBatch None) None (sealed b ++ [(r, cur b)]).

Definition append_job (j : job) (b : batch) : batch :=
  mkBatch (body b ++ raw j) (jobs b ++ [j]) (ids b) (born b).

Definition add (c : Config) (now : Z) (j : job) (b : builder) : res builder :=
  dep ← dependsOnBatch (raw j) (ids (cur b));
  let b := if dep : bool then seal SealDep b else b in
  let b :=
    if zlen (jobs (cur b)) =? 0 then
      mkBuilder (mkBatch (body (cur b)) (jobs (cur b)) (ids (cur b)) now)
        (Some (now + Linger c)) (sealed b)
    else b in
  let cb := append_job j (cur b) in
  let b := mkBuilder (mkBatch (body cb) (jobs cb) ({[ id j ]} ∪ ids cb) (born cb))
             (linger b) (sealed b) in
  Ok (if BatchTxs c <=? zlen (jobs (cur b)) then seal SealSize b
      else if BatchBytes c <=? zlen (body (cur b)) then seal SealBytes b
      else b).

(** [for _, j := range js { add(j) }]. *)
Fixpoint addRun (c : Config) (now : Z) (js : list job) (b : builder) : res builder :=
  match js with
  | [] => Ok b
  | j :: js => b ← add c now j b; addRun c now js b
  end.

(** The receive of the shutdown branch: bytes and jobs are appended, without
    the dependency test, the identifier set and the seals. *)
Definition drain_run (js : list job) (b : builder) : builder :=
  mkBuilder (foldl (λ cb j, append_job j cb) (cur b) js) (linger b) (sealed b).
End txpipe.

Import txpipe.

Lemma Ok_inj {A} (a b : A) : Ok a = Ok b → a = b.
Proof. by intros [= ->]. Qed.

(** ** Configuration *)

Lemma round_down_spec b : 1 ≤ b ≤ 16 → In (round_down 16 b) [1; 2; 4; 8; 16] ∧ round_down 16 b ≤ b.
Proof.
  intros H. assert (In b [1;2;3;4;5;6;7;8;9;10;11;12;13;14;15;16]) as Hin by (simpl; lia).
  simpl in Hin. repeat (destruct Hin as [<-|Hin]; [vm_compute; split; [tauto|intros ?; discriminate]|]).
  done.
Qed.

Lemma builders_in c : In (Builders (defaults c)) [1; 2; 4; 8; 16].
Proof. unfold defaults. cbn [Builders]. apply round_down_spec. repeat bdestruct_guard; lia. Qed.

(** Masking with a power of two less one is the remainder. *)
Lemma mask_mod n z : In n [1; 2; 4; 8; 16] → Z.land z (n - 1) = z mod n.
Proof.
  intros H. simpl in H.
  repeat (destruct H as [<-|H]; [|]); [| | | | |done].
  - by rewrite Z.land_0_r, Z.mod_1_r.
  - exact (Z.land_ones z 1 ltac:(lia)).
  - exact (Z.land_ones z 2 ltac:(lia)).
  - exact (Z.land_ones z 3 ltac:(lia)).
  - exact (Z.land_ones z 4 ltac:(lia)).
Qed.

(** Conversion to [int] does not change the remainder by a divisor of [2^63]. *)
Lemma i64_mod n b : 0 < b → (b | two63) → i64 n mod b = n mod b.
Proof.
  intros Hb [q Hq]. unfold i64. rewrite two64_two63.
  revert Hq. generalize two63. intros t Hq.
  destruct (Z.eq_dec t 0) as [->|Ht]; [by rewrite Z.mod_0_r, Z.add_0_r, Z.sub_0_r|].
  rewrite (Z.mod_eq (n + t)) by lia. generalize ((n + t) / (2 * t)). intros x.
  replace (n + t - 2 * t * x - t) with (n + (- (2 * q * x)) * b) by (rewrite Hq; ring).
  by rewrite Z.mod_add by lia.
Qed.

Lemma builders_pos n : In n [1; 2; 4; 8; 16] → 1 ≤ n ≤ 16.
Proof. intros H. simpl in H. lia. Qed.

Lemma drop_slashes_spec r : ∃ k, r = replicate k x2f ++ drop_slashes r ∧ head (drop_slashes r) ≠ Some x2f.
Proof.
  induction r as [|c r (k & Hr & Hh)]; [by exists 0%nat|]. simpl.
  case_bool_decide as E; [|exists 0%nat; split; [done|simpl; congruence]].
  exists (S k). subst c. simpl. by rewrite <- Hr.
Qed.

Lemma builders_divide n : In n [1; 2; 4; 8; 16] → (n | two63).
Proof.
  intros H. simpl in H.
  repeat (destruct H as [<-|H]; [apply Z.mod_divide; [lia|vm_compute; reflexivity]|]). done.
Qed.

(** Whatever the flags say, the pipe runs with a usable configuration: batches
    of 1 to 1023 transactions (under the server's real limit) and at most
    30 MiB, positive linger, in-flight limit, timeout and queue, and a power of
    two of builders up to 16; settings already in range are kept. *)
Theorem defaults_bounds (c : Config) :
  let d := defaults c in
  (1 ≤ BatchTxs d ≤ 1023 ∧ 1 ≤ BatchBytes d ≤ 30 * 2 ^ 20 ∧ 0 < Linger d ∧ 0 < Inflight d ∧
   0 < Timeout d ∧ 0 < Queue d ∧ In (Builders d) [1; 2; 4; 8; 16]) ∧
  (1 ≤ BatchTxs c ≤ 1023 → BatchTxs d = BatchTxs c) ∧
  (1 ≤ BatchBytes c ≤ 30 * 2 ^ 20 → BatchBytes d = BatchBytes c) ∧
  (1 ≤ Builders c ≤ 16 → Builders d ≤ Builders c).
Proof.
  intros d. pose proof (builders_in c) as Hb. fold d in Hb.
  assert (1 ≤ Builders c ≤ 16 → Builders d ≤ Builders c) as Hle.
  { intros H. unfold d, defaults. cbn [Builders].
    rewrite (proj2 (Z.ltb_ge _ 1)), (proj2 (Z.ltb_ge 16 _)) by lia.
    by apply round_down_spec. }
  unfold d, defaults in *. clear d. unfold maxServerBatchTxs.
  cbn [BatchTxs BatchBytes Linger Inflight Timeout Queue Builders] in *.
  split_and!; try done; repeat bdestruct_guard; lia.
Qed.

(** Every transaction and every run is routed to an existing builder: the
    masks of [EnqueueOwned] and [Flush] are indices of the channels [New]
    made, also after the round-robin counter wraps, and [Flush] spreads runs
    over all builders. *)
Theorem route_in_range (c : Config) (p : Pipe) (k : Hash) (n : Z) :
  New c = Ok p →
  0 ≤ route_id (cfg p) k < zlen (ins p) ∧
  0 ≤ route_rr (cfg p) n < zlen (ins p) ∧
  route_rr (cfg p) n = n mod zlen (ins p).
Proof.
  unfold New. intros (u & _ & <-%Ok_inj)%res_bind_ok. cbn [cfg ins].
  unfold route_id, route_rr. cbn [Builders].
  pose proof (builders_in c) as Hb. pose proof (builders_pos _ Hb).
  rewrite length_replicate, Z2Nat.id, !(mask_mod _ _ Hb) by lia.
  split; [|split]; [apply Z.mod_pos_bound; lia..|].
  apply i64_mod; [lia|by apply builders_divide].
Qed.

(** ** The builder as a state machine *)

Inductive phase : Type := Running | Draining | Stopped.

(** A builder with its queue; [sent] is every transaction ever queued for it. *)
Record bstate : Type := mkB {
  chan : list (list job);
  ph : phase;
  bld : builder;
  sent : list job
}.

Definition binit : bstate := mkB [] Running (mkBuilder (newBatch None) None []) [].

(** The rounds of [runBuilder]'s loop, and the sends of the lanes. *)
Inductive bstep (c : Config) (cap : Z) : bstate → bstate → Prop :=
| s_send js s :
    zlen (chan s) < cap →
    bstep c cap s (mkB (chan s ++ [js]) (ph s) (bld s) (sent s ++ js))
| s_recv now js ch b b' l :
    addRun c now js b = Ok b' →
    bstep c cap (mkB (js :: ch) Running b l) (mkB ch Running b' l)
| s_linger now d ch b l :
    linger b = Some d → d ≤ now →
    bstep c cap (mkB ch Running b l)
      (mkB ch Running (seal SealLinger (mkBuilder (cur b) None (sealed b))) l)
| s_done ch b l : bstep c cap (mkB ch Running b l) (mkB ch Draining b l)
| s_drain js ch b l :
    bstep c cap (mkB (js :: ch) Draining b l) (mkB ch Draining (drain_run js b) l)
| s_exit b l :
    bstep c cap (mkB [] Draining b l) (mkB [] Stopped (seal SealLinger b) l).

(** The transactions handed to submission, in order. *)
Definition submitted (b : builder) : list job := sealed b ≫= λ x, jobs (snd x).
Definition raws (l : list job) : list byte := l ≫= raw.

(** No member spends an output of an earlier member. *)
Definition independent (l : list job) : Prop :=
  ∀ pre j post, l = pre ++ j :: post → ∀ k, k ∈ pre → id k ∉ refs (raw j).

(** The contract of a request: its body is its members' bytes; it has between
    one and [BatchTxs] of them; without the last one it is under the byte
    limit; and no member spends an earlier one. *)
Record good_batch (c : Config) (b : batch) : Prop := {
  gb_body : body b = raws (jobs b);
  gb_size : 1 ≤ zlen (jobs b) ≤ BatchTxs c;
  gb_bytes : ∀ l j, jobs b = l ++ [j] → zlen (raws l) < BatchBytes c;
  gb_indep : independent (jobs b)
}.

(** The open batch while the builder runs. *)
Record open_ok (c : Config) (b : builder) : Prop := {
  op_body : body (cur b) = raws (jobs (cur b));
  op_size : zlen (jobs (cur b)) < BatchTxs c;
  op_bytes : zlen (body (cur b)) < BatchBytes c;
  op_indep : independent (jobs (cur b));
  op_ids : ids (cur b) = list_to_set (id <$> jobs (cur b));
  op_timer : linger b = if decide (jobs (cur b) = []) then None else Some (born (cur b) + Linger c)
}.

Definition usable (c : Config) : Prop := 1 ≤ BatchTxs c ∧ 1 ≤ BatchBytes c.

Lemma bind_nil {A B} (f : A → list B) : [] ≫= f = [].
Proof. done. Qed.

Lemma raws_app l k : raws (l ++ k) = raws l ++ raws k.
Proof. apply bind_app. Qed.

Lemma independent_nil : independent [].
Proof. intros pre j post H. by destruct pre. Qed.

Lemma independent_snoc l j :
  independent l → (∀ k, k ∈ l → id k ∉ refs (raw j)) → independent (l ++ [j]).
Proof.
  intros Hl Hj pre x post E.
  destruct post as [|y post _] using rev_ind.
  - apply app_inj_tail in E as [-> ->]. done.
  - rewrite app_comm_cons, app_assoc in E. apply app_inj_tail in E as [-> ->]. by eapply Hl.
Qed.

Lemma empty_open c : usable c → ∀ bs, open_ok c (mkBuilder empty_batch None bs).
Proof. intros [? ?] bs. split; simpl; try done; try lia. apply independent_nil. Qed.

Lemma open_good c b : open_ok c b → jobs (cur b) ≠ [] → good_batch c (cur b).
Proof.
  intros [Hb Hs Hy Hi _ _] Hne. split; try done.
  - destruct (jobs (cur b)); simpl in *; [done|lia].
  - intros l j E. rewrite Hb, E, raws_app, length_app in Hy. lia.
Qed.

(** Sealing keeps every transaction, in order. *)
Lemma seal_submitted r b :
  submitted (seal r b) ++ jobs (cur (seal r b)) = submitted b ++ jobs (cur b).
Proof.
  unfold seal. destruct (Z.eqb_spec (zlen (jobs (cur b))) 0); [done|].
  unfold submitted. cbn [sealed cur newBatch default empty_batch jobs].
  by rewrite bind_app, bind_cons, bind_nil, !app_nil_r.
Qed.

Lemma seal_good c r b :
  usable c → Forall (λ x, good_batch c (snd x)) (sealed b) → open_ok c b →
  Forall (λ x, good_batch c (snd x)) (sealed (seal r b)) ∧ open_ok c (seal r b) ∧
  jobs (cur (seal r b)) = [].
Proof.
  intros Hu Hg Ho. unfold seal. destruct (Z.eqb_spec (zlen (jobs (cur b))) 0) as [E|E].
  - split_and!; [done..|]. by destruct (jobs (cur b)).
  - cbn [sealed cur]. split_and!; [|by apply empty_open|done].
    apply Forall_app; split; [done|]. apply Forall_singleton. apply open_good; [done|].
    by intros E'; rewrite E' in E.
Qed.

(** The state of a builder that has taken transactions in the run loop. *)
Definition run_ok (c : Config) (b : builder) : Prop :=
  Forall (λ x, good_batch c (snd x)) (sealed b) ∧ open_ok c b.

(** [add] before its seals: the dependency seal, then the append. *)
Definition add_open (c : Config) (now : Z) (j : job) (b : builder) : builder :=
  let b := if existsb (λ prev, bool_decide (prev ∈ ids (cur b))) (refs (raw j))
           then seal SealDep b else b in
  let b :=
    if zlen (jobs (cur b)) =? 0 then
      mkBuilder (mkBatch (body (cur b)) (jobs (cur b)) (ids (cur b)) now)
        (Some (now + Linger c)) (sealed b)
    else b in
  mkBuilder (mkBatch (body (cur b) ++ raw j) (jobs (cur b) ++ [j])
               ({[ id j ]} ∪ ids (cur b)) (born (cur b))) (linger b) (sealed b).

Lemma add_walkable c now j b :
  add c now j b
  = if walkable (raw j) then
      let b := add_open c now j b in
      Ok (if BatchTxs c <=? zlen (jobs (cur b)) then seal SealSize b
          else if BatchBytes c <=? zlen (body (cur b)) then seal SealBytes b
          else b)
    else Panic.
Proof. unfold add. rewrite dependsOnBatch_refs. by destruct (walkable (raw j)). Qed.

(** What the open batch looks like just after [add]'s append. *)
Lemma add_open_spec c now j b :
  usable c → run_ok c b →
  let b' := add_open c now j b in
  Forall (λ x, good_batch c (snd x)) (sealed b') ∧
  (∃ l, jobs (cur b') = l ++ [j] ∧ zlen l < BatchTxs c ∧ zlen (raws l) < BatchBytes c) ∧
  body (cur b') = raws (jobs (cur b')) ∧ independent (jobs (cur b')) ∧
  ids (cur b') = list_to_set (id <$> jobs (cur b')) ∧
  linger b' = Some (born (cur b') + Linger c) ∧
  submitted b' ++ jobs (cur b') = submitted b ++ jobs (cur b) ++ [j].
Proof.
  intros Hu [Hg Ho] b'. unfold b', add_open.
  set (b1 := if existsb _ _ then seal SealDep b else b).
  assert (Forall (λ x, good_batch c (snd x)) (sealed b1) ∧ open_ok c b1 ∧
    (∀ k, k ∈ jobs (cur b1) → id k ∉ refs (raw j)) ∧
    submitted b1 ++ jobs (cur b1) = submitted b ++ jobs (cur b)) as (Hg1 & Ho1 & Hind & Hsub).
  { unfold b1. destruct (existsb _ _) eqn:E.
    - destruct (seal_good c SealDep b Hu Hg Ho) as (? & ? & Hn).
      split_and!; [done..| |apply seal_submitted]. rewrite Hn. intros k Hk. by apply not_elem_of_nil in Hk.
    - split_and!; [done..| |done]. intros k Hk Hr.
      enough (existsb (λ prev, bool_decide (prev ∈ ids (cur b))) (refs (raw j)) = true) by congruence.
      apply existsb_exists. exists (id k). split; [by apply list_elem_of_In|].
      apply bool_decide_eq_true. rewrite (op_ids _ _ Ho). set_solver. }
  clearbody b1. pose proof Ho1 as [Hb Hs Hy Hi Hids Ht].
  assert (Hids' : ({[ id j ]} : gset Hash) ∪ ids (cur b1) = list_to_set (id <$> jobs (cur b1) ++ [j])).
  { rewrite Hids, fmap_app. set_solver. }
  assert (Hraw : body (cur b1) ++ raw j = raws (jobs (cur b1) ++ [j])).
  { rewrite raws_app, Hb. unfold raws at 3. by rewrite bind_cons, bind_nil, app_nil_r. }
  destruct (Z.eqb_spec (zlen (jobs (cur b1))) 0) as [E|E]; cbn [cur linger sealed jobs body ids born];
    (split_and!; [done| |done|by apply independent_snoc|done| |]).
  1, 4: exists (jobs (cur b1)); split_and!; [done|lia|by rewrite <- Hb].
  - done.
  - unfold submitted in *. cbn [sealed]. by rewrite !app_assoc, Hsub.
  - rewrite Ht. rewrite decide_False by (intros E'; by rewrite E' in E). done.
  - unfold submitted in *. cbn [sealed]. by rewrite !app_assoc, Hsub.
Qed.

Lemma add_ok c now j b b' :
  usable c → run_ok c b → add c now j b = Ok b' →
  run_ok c b' ∧ submitted b' ++ jobs (cur b') = submitted b ++ jobs (cur b) ++ [j].
Proof.
  intros Hu Hr. rewrite add_walkable. destruct (walkable (raw j)); [|done].
  cbv zeta. intros E%Ok_inj. subst b'.
  destruct (add_open_spec c now j b Hu Hr)
    as (Hg & (l & Hl & Hlt & Hly) & Hb & Hi & Hids & Ht & Hsub).
  set (b1 := add_open c now j b) in *. clearbody b1.
  assert (good_batch c (cur b1)) as Hgood.
  { split; [done| | |done].
    - rewrite Hl, length_app. simpl. lia.
    - intros l' j' E. rewrite Hl in E. by apply app_inj_tail in E as [<- <-]. }
  assert (Hne : jobs (cur b1) ≠ []) by (rewrite Hl; by destruct l).
  assert (∀ r, run_ok c (seal r b1)) as Hseal.
  { intros r. unfold seal. rewrite (proj2 (Z.eqb_neq _ 0)) by (destruct (jobs (cur b1)); simpl; [done|lia]).
    split; [|by apply empty_open]. cbn [sealed]. apply Forall_app; split; [done|].
    by apply Forall_singleton. }
  repeat bdestruct_guard; (split; [auto|by rewrite ?seal_submitted]).
  split; [done|]. split; [done|lia|lia|done|done|]. by rewrite Ht, decide_False.
Qed.

Lemma addRun_ok c now js b b' :
  usable c → run_ok c b → addRun c now js b = Ok b' →
  run_ok c b' ∧ submitted b' ++ jobs (cur b') = submitted b ++ jobs (cur b) ++ js.
Proof.
  intros Hu. revert b. induction js as [|j js IH]; intros b Hr E.
  - apply Ok_inj in E as <-. by rewrite app_nil_r.
  - cbn [addRun] in E. apply res_bind_ok in E as (b1 & E1 & E2).
    destruct (add_ok c now j b b1 Hu Hr E1) as [Hr1 Hs1].
    destruct (IH b1 Hr1 E2) as [Hr2 Hs2]. split; [done|].
    rewrite Hs2, app_assoc, Hs1, <- !app_assoc. done.
Qed.

(** A run of transactions whose inputs can be walked is always taken. *)
Lemma addRun_total c now js b :
  Forall (λ j, walkable (raw j) = true) js → ∃ b', addRun c now js b = Ok b'.
Proof.
  intros H. revert b. induction H as [|j js Hj _ IH]; intros b; cbn [addRun]; [eauto|].
  rewrite add_walkable, Hj. rstep. apply IH.
Qed.

Lemma drain_run_spec js b :
  body (cur b) = raws (jobs (cur b)) →
  jobs (cur (drain_run js b)) = jobs (cur b) ++ js ∧
  body (cur (drain_run js b)) = raws (jobs (cur (drain_run js b))).
Proof.
  unfold drain_run. cbn [cur]. generalize (cur b). clear b.
  induction js as [|j js IH]; intros b Hb; cbn [foldl]; [by rewrite app_nil_r|].
  destruct (IH (append_job j b)) as [-> E].
  - cbn [append_job body jobs]. rewrite raws_app, Hb. unfold raws at 3.
    by rewrite bind_cons, bind_nil, app_nil_r.
  - rewrite E. cbn [append_job jobs]. by rewrite <- app_assoc.
Qed.

(** ** The machine's invariant *)

Record binv (c : Config) (s : bstate) : Prop := {
  bi_conserve : sent s = submitted (bld s) ++ jobs (cur (bld s)) ++ concat (chan s);
  bi_bodies : Forall (λ x, body (snd x) = raws (jobs (snd x))) (sealed (bld s)) ∧
              body (cur (bld s)) = raws (jobs (cur (bld s)));
  bi_running : ph s = Running → run_ok c (bld s);
  bi_good : ph s ≠ Stopped → Forall (λ x, good_batch c (snd x)) (sealed (bld s));
  bi_stopped : ph s = Stopped → jobs (cur (bld s)) = []
}.

Lemma run_ok_bodies c b : run_ok c b →
  Forall (λ x, body (snd x) = raws (jobs (snd x))) (sealed b) ∧
  body (cur b) = raws (jobs (cur b)).
Proof.
  intros [Hg Ho]. split; [|by apply (op_body c)].
  eapply Forall_impl; [exact Hg|]. intros x [H _ _ _]. done.
Qed.

Lemma binv_running c ch b l :
  run_ok c b → l = submitted b ++ jobs (cur b) ++ concat ch → binv c (mkB ch Running b l).
Proof. intros Hr ->. split; cbn; try done; [by apply (run_ok_bodies c)|by intros _; apply Hr]. Qed.

Lemma binv_init c : usable c → binv c binit.
Proof.
  intros Hu. apply binv_running; [|done]. split; [by constructor|].
  by apply empty_open.
Qed.

Lemma seal_bodies r b :
  Forall (λ x, body (snd x) = raws (jobs (snd x))) (sealed b) →
  body (cur b) = raws (jobs (cur b)) →
  Forall (λ x, body (snd x) = raws (jobs (snd x))) (sealed (seal r b)) ∧
  body (cur (seal r b)) = raws (jobs (cur (seal r b))) ∧ jobs (cur (seal r b)) = [].
Proof.
  intros Hs Hb. unfold seal. destruct (Z.eqb_spec (zlen (jobs (cur b))) 0) as [E|E].
  - split_and!; [done..|]. by destruct (jobs (cur b)).
  - split_and!; [|done..]. apply Forall_app; split; [done|]. by apply Forall_singleton.
Qed.

Lemma bstep_inv c cap s s' : usable c → bstep c cap s s' → binv c s → binv c s'.
Proof.
  intros Hu Hstep [Hc [Hb Hb'] Hr Hg Hs]. destruct Hstep; cbn in *.
  - split; cbn; try done. rewrite Hc, concat_app, <- !app_assoc. simpl. by rewrite app_nil_r.
  - destruct (addRun_ok c now js b b' Hu (Hr eq_refl) H) as [Hr' Hsub].
    apply binv_running; [done|]. rewrite Hc, (app_assoc (submitted b')), Hsub, <- !app_assoc. done.
  - destruct (Hr eq_refl) as [Hg1 Ho]. apply binv_running.
    + destruct (seal_good c SealLinger b Hu Hg1 Ho) as (H1 & H2 & _).
      unfold seal in *. cbn [cur sealed] in *.
      destruct (Z.eqb_spec (zlen (jobs (cur b))) 0) as [E|E]; [|done].
      split; [done|]. destruct Ho. split; try done. cbn [cur linger].
      rewrite decide_True; [done|]. by destruct (jobs (cur b)).
    + rewrite Hc, !app_assoc. f_equal. symmetry.
      exact (seal_submitted SealLinger (mkBuilder (cur b) None (sealed b))).
  - split; cbn; try done. intros _. by apply Hr.
  - destruct (drain_run_spec js b Hb') as [Ej Eb]. split; cbn; try done.
    rewrite Hc. unfold submitted. cbn [drain_run sealed]. fold (drain_run js b).
    change (foldl (λ cb j, append_job j cb) (cur b) js) with (cur (drain_run js b)).
    rewrite Ej. by rewrite <- !app_assoc.
  - destruct (seal_bodies SealLinger b Hb Hb') as (H1 & H2 & H3). split; cbn; try done.
    rewrite Hc. rewrite !app_nil_r. symmetry. apply seal_submitted.
Qed.

Lemma reachable_binv c cap s : usable c → rtc (bstep c cap) binit s → binv c s.
Proof.
  intros Hu H. assert (Hi := binv_init c Hu). induction H as [|s1 s2 s3 H _ IH]; [done|].
  eauto using bstep_inv.
Qed.

Lemma defaults_usable c : usable (defaults c).
Proof.
  unfold usable, defaults, maxServerBatchTxs. cbn [BatchTxs BatchBytes].
  split; repeat bdestruct_guard; lia.
Qed.

(** ** Theorems *)

(** C3: The builder loses, duplicates and reorders nothing: at every moment the
    transactions queued for it are, in order, those of the batches it sealed,
    then those of the open batch, then those still in its queue; every request
    body is exactly its members' bytes; and once it has stopped the open batch
    is empty. *)
Theorem builder_conserves (c : Config) (cap : Z) (s : bstate) :
  rtc (bstep (defaults c) cap) binit s →
  sent s = submitted (bld s) ++ jobs (cur (bld s)) ++ concat (chan s) ∧
  Forall (λ x, body (snd x) = raws (jobs (snd x))) (sealed (bld s)) ∧
  (ph s = Stopped → sent s = submitted (bld s) ++ concat (chan s)).
Proof.
  intros Hr. destruct (reachable_binv _ _ _ (defaults_usable c) Hr) as [Hc [Hb _] _ _ Hs].
  split_and!; [done..|]. intros Hst. by rewrite Hc, (Hs Hst).
Qed.

(** C4: Every batch sealed while the pipe runs honours the contract of the batch
    endpoint: one to [BatchTxs] transactions, under the byte limit without its
    last one, and no transaction together with an earlier one whose output it
    spends. *)
Theorem builder_batch_contract (c : Config) (cap : Z) (s : bstate) :
  rtc (bstep (defaults c) cap) binit s → ph s ≠ Stopped →
  Forall (λ x, good_batch (defaults c) (snd x)) (sealed (bld s)).
Proof. intros Hr. apply (reachable_binv _ _ _ (defaults_usable c) Hr). Qed.

(** A running builder is never stuck: a queued run whose transactions can be
    walked is taken, and a non-empty open batch always has its linger timer
    set, to the linger time after its first transaction, so it is sealed
    whole when the timer fires. *)
Theorem builder_progress (c : Config) (cap now : Z) (s : bstate) :
  rtc (bstep (defaults c) cap) binit s → ph s = Running →
  (∀ js ch, chan s = js :: ch → Forall (λ j, walkable (raw j) = true) js →
     ∃ s', bstep (defaults c) cap s s' ∧ chan s' = ch) ∧
  (jobs (cur (bld s)) ≠ [] →
     linger (bld s) = Some (born (cur (bld s)) + Linger (defaults c)) ∧
     (born (cur (bld s)) + Linger (defaults c) ≤ now →
      ∃ s', bstep (defaults c) cap s s' ∧ jobs (cur (bld s')) = [] ∧
            submitted (bld s') = submitted (bld s) ++ jobs (cur (bld s)))).
Proof.
  intros Hr Hph. destruct (reachable_binv _ _ _ (defaults_usable c) Hr) as [_ _ Hrun _ _].
  destruct (Hrun Hph) as [_ Ho]. destruct s as [ch p b l]. cbn in *. subst p. split.
  - intros js ch' -> Hw. destruct (addRun_total (defaults c) now js b Hw) as [b' Hb'].
    exists (mkB ch' Running b' l). split; [by econstructor|done].
  - intros Hne. pose proof (op_timer _ _ Ho) as Ht. rewrite decide_False in Ht by done.
    split; [done|]. intros Hnow. eexists. split; [by eapply (s_linger _ _ now)|]. cbn.
    unfold seal. cbn [cur sealed].
    rewrite (proj2 (Z.eqb_neq _ 0)) by (destruct (jobs (cur b)); simpl; [done|lia]).
    split; [done|]. unfold submitted. cbn [sealed].
    by rewrite bind_app, bind_cons, bind_nil, app_nil_r.
Qed.

Lemma drain_all c cap ch b l :
  rtc (bstep c cap) (mkB ch Draining b l) (mkB [] Draining (foldl (λ b js, drain_run js b) b ch) l).
Proof.
  revert b. induction ch as [|js ch IH]; intros b; [apply rtc_refl|].
  eapply rtc_l; [apply s_drain|apply IH].
Qed.

(** Shutdown completes: from any reachable state a cancelled builder drains
    its queue and stops, and then every transaction it was ever sent has been
    handed to submission. *)
Theorem builder_shutdown (c : Config) (cap : Z) (s : bstate) :
  rtc (bstep (defaults c) cap) binit s → ph s ≠ Stopped →
  ∃ s', rtc (bstep (defaults c) cap) s s' ∧ ph s' = Stopped ∧
        submitted (bld s') = sent s ∧ sent s' = sent s.
Proof.
  intros Hr Hph. set (d := defaults c) in *. destruct s as [ch p b l]. cbn in *.
  assert (rtc (bstep d cap) (mkB ch p b l) (mkB ch Draining b l)) as H1.
  { destruct p; [apply rtc_once, s_done|apply rtc_refl|done]. }
  set (s' := mkB [] Stopped (seal SealLinger (foldl (λ b js, drain_run js b) b ch)) l).
  assert (rtc (bstep d cap) (mkB ch p b l) s') as H2.
  { etrans; [exact H1|]. etrans; [apply drain_all|]. apply rtc_once, s_exit. }
  exists s'. split_and!; [done..| |done].
  destruct (reachable_binv d cap s' (defaults_usable c)) as [Hc _ _ _ Hs]; [by etrans|].
  rewrite (Hs eq_refl) in Hc. cbn in Hc. by rewrite app_nil_r in Hc.
Qed.

(** ** Witnesses *)

Definition ex_cfg : Config := mkConfig [str "http://a/"] 1 0 0 0 3 0 0 1.
Definition ex_parent : job := mkJob (ser_tx false (str "vers") [ex_in] [x00]) (copy32 [x01]).
Definition ex_child : job := mkJob
  (ser_tx false (str "vers")
     [mkTxin (copy32 [x01]) (replicate 4 x00) [] (replicate 4 xff) (replicate 8 x01) []] [x00])
  (copy32 [x02]).

(** Parent and child queued as one run, received while running. *)
Definition ex_run : bstate :=
  mkB [] Running
    (match addRun (defaults ex_cfg) 5 [ex_parent; ex_child] (bld binit) with
     | Ok b => b | _ => bld binit end) [ex_parent; ex_child].

Lemma ex_run_reachable : rtc (bstep (defaults ex_cfg) 4) binit ex_run.
Proof.
  eapply rtc_l; [apply (s_send _ _ [ex_parent; ex_child]); simpl; lia|].
  apply rtc_once. apply (s_recv _ _ 5). vm_compute. reflexivity.
Qed.

Lemma builder_conserves_witness : sent ex_run = submitted (bld ex_run).
Proof.
  destruct (builder_conserves ex_cfg 4 ex_run ex_run_reachable) as [H _].
  rewrite H. vm_compute. reflexivity.
Defined.

Lemma builder_batch_contract_witness :
  Forall (λ x, good_batch (defaults ex_cfg) (snd x)) (sealed (bld ex_run)) ∧
  length (sealed (bld ex_run)) = 2%nat.
Proof.
  split; [apply (builder_batch_contract ex_cfg 4 ex_run ex_run_reachable); discriminate|].
  vm_compute. reflexivity.
Defined.

Lemma builder_progress_witness :
  ∃ s', bstep (defaults ex_cfg) 4 (mkB [[ex_parent]] Running (bld binit) [ex_parent]) s' ∧ chan s' = [].
Proof.
  destruct (builder_progress ex_cfg 4 7 (mkB [[ex_parent]] Running (bld binit) [ex_parent])) as [H _].
  - apply rtc_once. apply (s_send _ _ [ex_parent] binit). simpl. lia.
  - reflexivity.
  - apply (H [ex_parent]); [reflexivity|]. repeat constructor.
Defined.

Lemma builder_shutdown_witness :
  ∃ s', rtc (bstep (defaults ex_cfg) 4) ex_run s' ∧ ph s' = Stopped ∧
        submitted (bld s') = [ex_parent; ex_child] ∧ sent s' = [ex_parent; ex_child].
Proof. apply (builder_shutdown ex_cfg 4 ex_run ex_run_reachable). discriminate. Defined.

Lemma route_in_range_witness :
  match New ex_cfg with Ok p => 0 ≤ route_rr (cfg p) 5 < zlen (ins p) | _ => False end.
Proof.
  destruct (New ex_cfg) as [p| |] eqn:E; [|vm_compute in E; discriminate E..].
  apply (route_in_range ex_cfg p (copy32 []) 5 E).
Defined.

Lemma defaults_bounds_witness : BatchTxs (defaults ex_cfg) = 1.
Proof. apply (defaults_bounds ex_cfg). simpl. lia. Defined.

(** The shutdown drain does not honour the batch contract: transactions
    drained after cancellation are appended without the dependency test and
    the size limit, so with [BatchTxs] of one a parent and its child leave in
    one request of two. *)
Theorem shutdown_breaks_contract :
  ∃ s b, rtc (bstep (defaults ex_cfg) 4) binit s ∧ ph s = Stopped ∧
    sealed (bld s) = [(SealLinger, b)] ∧
    BatchTxs (defaults ex_cfg) < zlen (jobs b) ∧ ¬ independent (jobs b).
Proof.
  exists (mkB [] Stopped (seal SealLinger (drain_run [ex_parent; ex_child] (bld binit)))
            [ex_parent; ex_child]).
  eexists. split; [|split; [reflexivity|split; [vm_compute; reflexivity|split]]].
  - eapply rtc_l; [apply (s_send _ _ [ex_parent; ex_child]); simpl; lia|].
    eapply rtc_l; [apply s_done|]. eapply rtc_l; [apply s_drain|]. apply rtc_once, s_exit.
  - vm_compute. reflexivity.
  - intros H. specialize (H [ex_parent] ex_child [] eq_refl ex_parent).
    apply H; [by left|]. vm_compute. by left.
Qed.
