(* ===== verification/Submit.v ===== *)
(** * txpipe: submitting a batch and booking its outcome

    The submission half of [src/internal/txpipe/txpipe.go]: [submit] and its
    retry ladder, the parsing of a partial-failure report, [settlePartial] and
    [retryBatch]. Each runs in a goroutine of its own; what the outside decides
    (the response to each request, the endpoint counter's value, whether a wait
    ends by cancellation) is an [env], indexed by the request's number. The
    counters are the pipe's atomic counters; [posted] lists the requests made,
    in order. The counters are unbounded here: a [uint64] of transactions does
    not wrap in any run. *)

From Stdlib Require Import Strings.Byte.
From stdpp Require Import base list strings numbers gmap.
From S2P Require Import Prelude HashId TxBuild.
Import txpipe.

(** ** Strings *)

Fixpoint has_prefix (p s : gostring) : bool :=
  match p, s with
  | [], _ => true
  | x :: p, y :: s => bool_decide (x = y) && has_prefix p s
  | _ :: _, [] => false
  end.

(** [strings.Contains]. *)
Fixpoint contains (needle s : gostring) : bool :=
  has_prefix needle s || match s with [] => false | _ :: s => contains needle s end.

(** [strings.Split(s, "\n")]. *)
Definition split_lines (s : gostring) : list gostring := split_on x0a s.

(** [strings.ToLower] as far as the search for an ASCII word can see it: the
    ASCII letters, and the two other code points whose lower case is an ASCII
    letter (U+0130 to [i], U+212A to [k]); every other code point maps to a
    non-ASCII one. *)
Fixpoint ToLower_ascii (s : gostring) : gostring :=
  match s with
  | xc4 :: xb0 :: s => x69 :: ToLower_ascii s
  | xe2 :: x84 :: xaa :: s => x6b :: ToLower_ascii s
  | c :: s => ascii_lower c :: ToLower_ascii s
  | [] => []
  end.

Module submission.
Definition partialPrefix : gostring := str "Failed to process transactions".

Definition is_lower_hex (c : byte) : bool :=
  let v := byte_val c in ((48 <=? v) && (v <=? 57)) || ((97 <=? v) && (v <=? 102)).

(** One attempt of [\[([0-9a-f]{64})\]] at the start of the string. *)
Definition txid_at (s : gostring) : option gostring :=
  match s with
  | x5b :: s =>
      if (length (take 64 s) =? 64)%nat && forallb is_lower_hex (take 64 s)
         && bool_decide (s !! 64%nat = Some x5d)
      then Some (take 64 s) else None
  | _ => None
  end.

(** [FindStringSubmatch]: the leftmost match. *)
Fixpoint subjectTxID (line : gostring) : option gostring :=
  match txid_at line with
  | Some t => Some t
  | None => match line with [] => None | _ :: line => subjectTxID line end
  end.

Definition isMissingParent (line : gostring) : bool :=
  contains (str "MISSING_PARENT") line || contains (str "missing parent") (ToLower_ascii line).

Definition isRetryable (line : gostring) : bool :=
  isMissingParent line || contains (str "THRESHOLD_EXCEEDED") line.

Definition namesMember (body : gostring) : bool :=
  existsb (λ line, match subjectTxID line with Some _ => true | None => false end)
    (split_lines body).

(** [firstLine], for the log. *)
Fixpoint before_newline (s : gostring) : option gostring :=
  match s with
  | [] => None
  | c :: s => if bool_decide (c = x0a) then Some [] else (λ l, c :: l) <$> before_newline s
  end.
Definition firstLine (s : gostring) : gostring :=
  match before_newline s with
  | Some l => l
  | None => if 200 <? zlen s then take 200 s else s
  end.

(** What a POST gives: a transport error, or a status and a body. *)
Inductive response : Type :=
| RErr
| RStatus (status : Z) (body : gostring).

(** [post]: at most 1 MiB of the answer's body is read. *)
Definition post (r : response) : response :=
  match r with
  | RErr => RErr
  | RStatus st b => RStatus st (take (Z.to_nat (2 ^ 20)) b)
  end.

Record env : Type := mkEnv {
  e_resp : nat → response;        (** answer to the request *)
  e_next : nat → Z;               (** [p.next.Add(1)-1] *)
  e_cancel_wait : nat → bool;     (** the wait before it ends by [ctx.Done()] *)
  e_cancel_sem : nat → bool       (** the wait for a slot ends by [ctx.Done()] *)
}.

Record counters : Type := mkCtr {
  accepted : Z; rejected : Z; failed : Z;
  retried : Z; retryAccepted : Z; unattributed : Z;
  batches : Z; rateLimited : Z;
  posted : list (gostring * list byte)
}.

Definition add_accepted (n : Z) (k : counters) : counters :=
  mkCtr (accepted k + n) (rejected k) (failed k) (retried k) (retryAccepted k)
    (unattributed k) (batches k) (rateLimited k) (posted k).
Definition add_rejected (n : Z) (k : counters) : counters :=
  mkCtr (accepted k) (rejected k + n) (failed k) (retried k) (retryAccepted k)
    (unattributed k) (batches k) (rateLimited k) (posted k).
Definition add_failed (n : Z) (k : counters) : counters :=
  mkCtr (accepted k) (rejected k) (failed k + n) (retried k) (retryAccepted k)
    (unattributed k) (batches k) (rateLimited k) (posted k).
Definition add_retried (n : Z) (k : counters) : counters :=
  mkCtr (accepted k) (rejected k) (failed k) (retried k + n) (retryAccepted k)
    (unattributed k) (batches k) (rateLimited k) (posted k).
Definition add_retryAccepted (n : Z) (k : counters) : counters :=
  mkCtr (accepted k) (rejected k) (failed k) (retried k) (retryAccepted k + n)
    (unattributed k) (batches k) (rateLimited k) (posted k).
Definition add_unattributed (n : Z) (k : counters) : counters :=
  mkCtr (accepted k) (rejected k) (failed k) (retried k) (retryAccepted k)
    (unattributed k + n) (batches k) (rateLimited k) (posted k).
Definition add_batches (k : counters) : counters :=
  mkCtr (accepted k) (rejected k) (failed k) (retried k) (retryAccepted k)
    (unattributed k) (batches k + 1) (rateLimited k) (posted k).
Definition add_rateLimited (k : counters) : counters :=
  mkCtr (accepted k) (rejected k) (failed k) (retried k) (retryAccepted k)
    (unattributed k) (batches k) (rateLimited k + 1) (posted k).
Definition add_posted (ep : gostring) (b : list byte) (k : counters) : counters :=
  mkCtr (accepted k) (rejected k) (failed k) (retried k) (retryAccepted k)
    (unattributed k) (batches k) (rateLimited k) (posted k ++ [(ep ++ str "/txs", b)]).

(** [p.cfg.Endpoints[int(n)%len(p.cfg.Endpoints)]]. *)
Definition endpoint (c : Config) (n : Z) : res gostring :=
  index (Endpoints c) (Z.rem (i64 (u64 n)) (zlen (Endpoints c))).

(** [rateLimitBackoff] has three steps. *)
Definition rateLimitSteps : Z := 3.

(** The condition of the partial-failure case of both ladders. *)
Definition is_partial (status : Z) (body : gostring) : bool :=
  has_prefix partialPrefix body && ((status =? 500) || namesMember body).

(** The map from named txid to retryable, the last line naming it winning;
    lines are kept to those [keep] accepts. *)
Definition failures (keep : gostring → bool) (body : gostring) : gmap gostring bool :=
  foldl (λ m line,
    match subjectTxID line with
    | Some t => if keep t then <[t := isRetryable line]> m else m
    | None => m
    end) ∅ (split_lines body).

(** The members to retry, and how many failed for good. *)
Definition triage (named : gmap gostring bool) (js : list job) : list job * Z :=
  foldl (λ acc j,
    match named !! hashid.Display (id j) with
    | None => acc
    | Some true => (fst acc ++ [j], snd acc)
    | Some false => (fst acc, snd acc + 1)
    end) ([], 0) js.

Definition count_foreign (mine : gset gostring) (body : gostring) : Z :=
  foldl (λ n line,
    match subjectTxID line with
    | Some t => if bool_decide (t ∈ mine) then n else n + 1
    | None => n
    end) 0 (split_lines body).

(** [settlePartial]; the second result is the retry batch it starts. *)
Definition settlePartial (c : Config) (js : list job) (body : gostring) (k : counters)
    : counters * option (list job) :=
  let mine : gset gostring := list_to_set ((λ j, hashid.Display (id j)) <$> js) in
  let failedIDs := failures (λ t, bool_decide (t ∈ mine)) body in
  let unattr := count_foreign mine body in
  let '(toRetry, final) := triage failedIDs js in
  let k := if 0 <? final then add_rejected final k else k in
  let k := if 0 <? unattr then add_unattributed unattr k else k in
  let ok := zlen js - zlen toRetry - final - unattr in
  let ok := if ok <? 0 then 0 else ok in
  let k := add_accepted ok k in
  if (RetryAttempts c <=? 0) || (zlen toRetry =? 0)
  then (add_rejected (zlen toRetry) k, None)
  else (k, Some toRetry).

(** The loop of [submit]. At most two rounds end in a refusal and at most
    three in a throttle that goes on, so six rounds of fuel suffice; a round
    that leaves the function gives [inr]. *)
Fixpoint submit_loop (fuel : nat) (c : Config) (e : env) (b : batch)
    (attempt : nat) (throttled : Z) (k : counters) : res (counters + (counters * option (list job))) :=
  match fuel with
  | O => Ok (inl k)
  | S fuel =>
      if Z.of_nat attempt - throttled <? 2 then
        ep ← endpoint c (e_next e attempt);
        let k := add_posted ep (body b) k in
        let n := zlen (jobs b) in
        match post (e_resp e attempt) with
        | RErr => submit_loop fuel c e b (S attempt) throttled k
        | RStatus status rbody =>
            if status =? 200 then Ok (inr (add_accepted n k, None))
            else if is_partial status rbody then Ok (inr (settlePartial c (jobs b) rbody k))
            else if status =? 429 then
              let k := add_rateLimited k in
              if rateLimitSteps <=? throttled then Ok (inr (add_failed n k, None))
              else if e_cancel_wait e attempt then Ok (inr (add_failed n k, None))
              else submit_loop fuel c e b (S attempt) (throttled + 1) k
            else submit_loop fuel c e b (S attempt) throttled k
        end
      else Ok (inl k)
  end.

Definition submit (c : Config) (e : env) (b : batch) (k : counters)
    : res (counters * option (list job)) :=
  let k := add_batches k in
  r ← submit_loop 6 c e b 0 0 k;
  match r with
  | inr out => Ok out
  | inl k =>
      if 0 <? RetryAttempts c then Ok (k, Some (jobs b))
      else Ok (add_failed (zlen (jobs b)) k, None)
  end.

(** The ladder of [retryBatch], with [rounds] rounds to go. *)
Fixpoint retry_loop (rounds : nat) (c : Config) (e : env) (attempt : nat)
    (pending : list job) (k : counters) : res (counters * list job) :=
  match rounds with
  | O => Ok (k, pending)
  | S rounds =>
      if zlen pending =? 0 then Ok (k, pending) else
      if e_cancel_wait e attempt then Ok (add_failed (zlen pending) k, []) else
      let rbody := pending ≫= raw in
      if e_cancel_sem e attempt then Ok (add_failed (zlen pending) k, []) else
      ep ← endpoint c (e_next e attempt);
      let k := add_posted ep rbody k in
      match post (e_resp e attempt) with
      | RErr => retry_loop rounds c e (S attempt) pending k
      | RStatus status respBody =>
          if status =? 200 then
            Ok (add_accepted (zlen pending) (add_retryAccepted (zlen pending) k), [])
          else if is_partial status respBody then
            let '(next, final) := triage (failures (λ _, true) respBody) pending in
            let ok := zlen pending - zlen next - final in
            let k := if 0 <? ok then add_accepted ok (add_retryAccepted ok k) else k in
            let k := if 0 <? final then add_rejected final k else k in
            retry_loop rounds c e (S attempt) next k
          else if status =? 429 then
            retry_loop rounds c e (S attempt) pending (add_rateLimited k)
          else if status =? 422 then retry_loop rounds c e (S attempt) pending k
          else Ok (add_rejected (zlen pending) k, [])
      end
  end.

Definition retryBatch (c : Config) (e : env) (js : list job) (k : counters) : res counters :=
  if zlen js =? 0 then Ok k else
  let k := add_retried (zlen js) k in
  '(k, pending) ← retry_loop (Z.to_nat (RetryAttempts c)) c e 0 js k;
  Ok (if 0 <? zlen pending then add_rejected (zlen pending) k else k).
End submission.

Import submission.

(** ** Parsing a report *)

Lemma txid_at_spec s t :
  txid_at s = Some t ↔
  ∃ post, s = [x5b] ++ t ++ [x5d] ++ post ∧ length t = 64%nat ∧ forallb is_lower_hex t = true.
Proof.
  split.
  - unfold txid_at. destruct s as [|c s]; [done|]. destruct c; try done.
    destruct (_ && _) eqn:E; [|done]. intros [= <-].
    apply andb_true_iff in E as [[E1%Nat.eqb_eq E2]%andb_true_iff E3%bool_decide_eq_true].
    exists (drop 65 s). split_and!; [|done..]. cbn [app]. f_equal.
    rewrite <- (take_drop 64 s) at 1. f_equal. by apply drop_S.
  - intros (post & -> & Hl & Hh). cbn [app txid_at].
    rewrite (take_app_length' t _ 64) by done. rewrite Hl, Hh.
    rewrite (list_lookup_middle t post x5d 64) by done. done.
Qed.

Lemma subjectTxID_spec line t :
  subjectTxID line = Some t ↔
  ∃ pre post, line = pre ++ [x5b] ++ t ++ [x5d] ++ post ∧ length t = 64%nat ∧
    forallb is_lower_hex t = true ∧
    (∀ pre', (length pre' < length pre)%nat → ∀ s, line = pre' ++ s → txid_at s = None).
Proof.
  split.
  - induction line as [|c line IH]; [done|]. cbn [subjectTxID].
    destruct (txid_at (c :: line)) as [t'|] eqn:E.
    + intros [= ->]. apply txid_at_spec in E as (post & E & ? & ?). exists [], post.
      split_and!; [done..|]. intros pre' Hp. simpl in Hp. lia.
    + intros H. destruct (IH H) as (pre & post & -> & ? & ? & Hf). exists (c :: pre), post.
      split_and!; [done..|]. intros [|c' pre'] Hl s Hs; simpl in *; [by subst s|].
      injection Hs as -> Hs. apply (Hf pre'); [lia|done].
  - intros (pre & post & -> & Hl & Hh & Hf). induction pre as [|c pre IH].
    + assert (txid_at ([x5b] ++ t ++ [x5d] ++ post) = Some t) as E by (apply txid_at_spec; eauto).
      cbn [app subjectTxID] in *. by rewrite E.
    + cbn [app subjectTxID]. pose proof (Hf [] ltac:(simpl; lia) _ eq_refl) as E.
      cbn [app] in E. rewrite E. apply IH. intros pre' Hlt s Hs.
      apply (Hf (c :: pre')); [simpl; lia|]. by rewrite <- app_comm_cons, Hs.
Qed.

(** ** Triage *)

Definition state_of (named : gmap gostring bool) (j : job) : option bool :=
  named !! hashid.Display (id j).

Lemma triage_spec named js :
  triage named js
  = (filter (λ j, state_of named j = Some true) js,
     zlen (filter (λ j, state_of named j = Some false) js)).
Proof.
  unfold triage. enough (∀ acc, foldl (λ acc j,
      match named !! hashid.Display (id j) with
      | None => acc
      | Some true => (fst acc ++ [j], snd acc)
      | Some false => (fst acc, snd acc + 1)
      end) acc js
    = (fst acc ++ filter (λ j, state_of named j = Some true) js,
       snd acc + zlen (filter (λ j, state_of named j = Some false) js))) as H by apply H.
  induction js as [|j js IH]; intros [r f]; cbn [foldl].
  - cbn. rewrite app_nil_r. f_equal. lia.
  - rewrite IH, !filter_cons. fold (state_of named j).
    destruct (state_of named j) as [[]|]; cbn [fst snd];
      repeat case_decide; try congruence; cbn [length]; rewrite <- ?app_assoc; f_equal; lia.
Qed.

(** What the map of failures holds of a member: the verdict of the last line
    about it. *)
Lemma failures_verdict keep rbody j :
  keep (hashid.Display (id j)) = true →
  state_of (failures keep rbody) j
  = isRetryable <$> last (filter (λ line, subjectTxID line = Some (hashid.Display (id j))) (split_lines rbody)).
Proof.
  intros Hk. unfold state_of, failures.
  induction (split_lines rbody) as [|l ls IH] using rev_ind; [apply lookup_empty|].
  rewrite foldl_snoc, filter_app, filter_cons, filter_nil.
  destruct (subjectTxID l) as [t|].
  - destruct (decide (Some t = Some (hashid.Display (id j)))) as [[= ->]|Hne].
    + rewrite Hk, lookup_insert_eq, last_snoc. done.
    + rewrite app_nil_r. destruct (keep t); [|done]. rewrite lookup_insert_ne by congruence. done.
  - rewrite decide_False by done. by rewrite app_nil_r.
Qed.

Lemma filter_ext_in {A} (P Q : A → Prop) `{∀ x, Decision (P x), ∀ x, Decision (Q x)} (l : list A) :
  (∀ x, x ∈ l → P x ↔ Q x) → filter P l = filter Q l.
Proof.
  induction l as [|x l IH]; intros Hl; [done|]. rewrite !filter_cons.
  rewrite IH by (intros; apply Hl; by right).
  destruct (decide (P x)), (decide (Q x)); try done; pose proof (Hl x (list_elem_of_here x l)); tauto.
Qed.

Lemma triage_empty js : triage ∅ js = ([], 0).
Proof.
  unfold triage. induction js as [|j js IH]; [done|]. cbn [foldl]. rewrite lookup_empty. done.
Qed.

Lemma triage_sizes named js :
  zlen (fst (triage named js)) + snd (triage named js) ≤ zlen js ∧
  0 ≤ snd (triage named js) ∧ fst (triage named js) `sublist_of` js.
Proof.
  rewrite triage_spec. cbn [fst snd]. split_and!; [|lia|].
  - induction js as [|j js IH]; [done|]. rewrite !filter_cons.
    repeat case_decide; cbn [length] in *; try lia. congruence.
  - induction js as [|j js IH]; [done|]. rewrite filter_cons.
    case_decide; by constructor.
Qed.

(** ** Booking *)

Definition booked (k : counters) : Z := accepted k + rejected k + failed k.
Definition retry_len (r : option (list job)) : Z := match r with Some l => zlen l | None => 0 end.

(** The books of one batch: what was booked or handed to a retry is at most the
    batch, and falls short of it by no more than the outcomes reported as
    unknown; a retry holds members of the batch, in order. *)
Definition balanced (js : list job) (k k' : counters) (r : option (list job)) : Prop :=
  zlen js - (unattributed k' - unattributed k) ≤ booked k' - booked k + retry_len r ≤ zlen js ∧
  0 ≤ unattributed k' - unattributed k ∧
  (∀ l, r = Some l → l `sublist_of` js).

Lemma count_foreign_nonneg mine body : 0 ≤ count_foreign mine body.
Proof.
  unfold count_foreign. generalize (split_lines body). intros ls.
  enough (∀ n, 0 ≤ n → 0 ≤ foldl (λ n line, match subjectTxID line with
    | Some t => if bool_decide (t ∈ mine) then n else n + 1 | None => n end) n ls) as H by (by apply H).
  induction ls as [|l ls IH]; intros n Hn; cbn [foldl]; [done|]. apply IH.
  repeat case_match; lia.
Qed.

Lemma settlePartial_balanced c js body k :
  balanced js k (fst (settlePartial c js body k)) (snd (settlePartial c js body k)) ∧
  posted (fst (settlePartial c js body k)) = posted k.
Proof.
  unfold settlePartial. set (mine := list_to_set _).
  set (named := failures _ body).
  pose proof (count_foreign_nonneg mine body) as Hu. set (u := count_foreign mine body) in *.
  destruct (triage_sizes named js) as (Hs & Hf & Hsub).
  destruct (triage named js) as [r f]. cbn [fst snd] in *.
  unfold balanced, booked.
  repeat bdestruct_guard; destruct (_ || _) eqn:E;
    cbn [fst snd retry_len accepted rejected failed unattributed posted add_accepted add_rejected add_unattributed];
    (split; [|done]); split_and!; try lia; try done; by intros l [= <-].
Qed.

(** ** The ladders *)

(** The environments in which a request finds its endpoint: some endpoint is
    configured, and the endpoint counter has not passed [2^63]. *)
Definition env_ok (c : Config) (e : env) : Prop :=
  Endpoints c ≠ [] ∧ ∀ i, 0 ≤ e_next e i < two63.

Lemma endpoint_ok c e i : env_ok c e → ∃ ep, endpoint c (e_next e i) = Ok ep ∧ ep ∈ Endpoints c.
Proof.
  intros [Hne Hn]. specialize (Hn i). unfold endpoint. num_bounds.
  rewrite u64_small, i64_small by lia.
  assert (0 < zlen (Endpoints c)) by (destruct (Endpoints c); simpl; [done|lia]).
  rewrite Z.rem_mod_nonneg by lia.
  pose proof (Z.mod_pos_bound (e_next e i) (zlen (Endpoints c)) ltac:(lia)).
  unfold index. rewrite (proj2 (Z.leb_le _ _)) by lia.
  destruct (lookup_lt_is_Some_2 (Endpoints c) (Z.to_nat (e_next e i mod zlen (Endpoints c))))
    as [ep Hep]; [lia|]. rewrite Hep. eauto using list_elem_of_lookup_2.
Qed.

(** The requests between two counter states: at most [m] of them, each with
    [ok]'s body to a configured endpoint's batch path. *)
Definition requests (c : Config) (m : Z) (ok : list byte → Prop) (k k' : counters) : Prop :=
  ∃ reqs, posted k' = posted k ++ reqs ∧ zlen reqs ≤ m ∧
    Forall (λ r, ok (snd r) ∧ ∃ ep, ep ∈ Endpoints c ∧ fst r = ep ++ str "/txs") reqs.

Lemma requests_refl c m ok k k' : 0 ≤ m → posted k' = posted k → requests c m ok k k'.
Proof. intros Hm E. exists []. rewrite app_nil_r. by split_and!. Qed.

Lemma requests_step c m (ok : list byte → Prop) k k1 k' ep b :
  ep ∈ Endpoints c → ok b → posted k1 = posted k ++ [(ep ++ str "/txs", b)] →
  requests c m ok k1 k' → requests c (m + 1) ok k k'.
Proof.
  intros Hep Hb E (reqs & E' & Hm & Hf). exists ((ep ++ str "/txs", b) :: reqs).
  split_and!; [by rewrite E', E, <- app_assoc|cbn [length]; lia|].
  constructor; [eauto|done].
Qed.

Lemma requests_mono c m m' ok k k' : m ≤ m' → requests c m ok k k' → requests c m' ok k k'.
Proof. intros Hm (r & ? & ? & ?). exists r. split_and!; [done|lia|done]. Qed.

(** The state of the books when the loop of [submit] ends: untouched when it
    ran out of attempts, balanced when it returned. *)
Definition loop_booked (js : list job) (k : counters)
    (r : counters + counters * option (list job)) : Prop :=
  match r with
  | inl k' => booked k' = booked k ∧ unattributed k' = unattributed k
  | inr (k', r) => balanced js k k' r
  end.
Definition loop_counters (r : counters + counters * option (list job)) : counters :=
  match r with inl k' => k' | inr (k', _) => k' end.

Lemma balanced_all js k k' :
  unattributed k' = unattributed k → booked k' = booked k + zlen js → balanced js k k' None.
Proof. intros Hu Hb. unfold balanced. cbn. split_and!; [lia..|done]. Qed.

Lemma submit_loop_spec fuel c e b attempt t k :
  env_ok c e → 0 ≤ t ≤ rateLimitSteps → Z.of_nat attempt - t ≤ 2 →
  (2 - (Z.of_nat attempt - t)) + (rateLimitSteps - t) < Z.of_nat fuel →
  ∃ r, submit_loop fuel c e b attempt t k = Ok r ∧ loop_booked (jobs b) k r ∧
    requests c ((2 - (Z.of_nat attempt - t)) + (rateLimitSteps - t)) (λ x, x = body b) k (loop_counters r).
Proof.
  intros He. revert attempt t k. induction fuel as [|fuel IH]; intros attempt t k Ht Ha Hf; [lia|].
  cbn [submit_loop]. destruct (Z.ltb_spec (Z.of_nat attempt - t) 2) as [Hlt|Hge].
  2: { eexists. split; [done|]. split; [done|]. apply requests_refl; [lia|done]. }
  destruct (endpoint_ok c e attempt He) as (ep & Eep & Hep). rewrite Eep. rstep.
  set (k1 := add_posted ep (body b) k).
  set (m := (2 - (Z.of_nat attempt - t)) + (rateLimitSteps - t)) in *.
  assert (Hreq : ∀ k', requests c (m - 1) (λ x, x = body b) k1 k' → requests c m (λ x, x = body b) k k').
  { intros k' H. replace m with (m - 1 + 1) by lia.
    by apply (requests_step c (m - 1) _ k k1 k' ep (body b)). }
  assert (Hdone : ∀ k', posted k' = posted k1 → requests c m (λ x, x = body b) k k').
  { intros k' H. apply Hreq, requests_refl; [lia|done]. }
  assert (Hrefuse : ∃ r, submit_loop fuel c e b (S attempt) t k1 = Ok r ∧
     loop_booked (jobs b) k r ∧ requests c m (λ x, x = body b) k (loop_counters r)).
  { destruct (IH (S attempt) t k1) as (r & Er & Hb & Hq); [done|lia|lia|].
    exists r. split_and!; [done|done|]. apply Hreq. eapply requests_mono; [|exact Hq]. lia. }
  destruct (post (e_resp e attempt)) as [|st rb]; [done|].
  destruct (st =? 200).
  { eexists. split; [done|]. split; [|by apply Hdone]. apply balanced_all; [done|].
    unfold booked. cbn. lia. }
  destruct (is_partial st rb).
  { destruct (settlePartial_balanced c (jobs b) rb k1) as [Hbal Hp].
    eexists. split; [done|]. destruct (settlePartial c (jobs b) rb k1) as [k' r].
    split; [done|]. by apply Hdone. }
  destruct (st =? 429); [|done].
  destruct (Z.leb_spec rateLimitSteps t) as [Hs|Hs].
  { eexists. split; [done|]. split; [|by apply Hdone]. apply balanced_all; [done|].
    unfold booked. cbn. lia. }
  destruct (e_cancel_wait e attempt).
  { eexists. split; [done|]. split; [|by apply Hdone]. apply balanced_all; [done|].
    unfold booked. cbn. lia. }
  destruct (IH (S attempt) (t + 1) (add_rateLimited k1)) as (r & Er & Hb & Hq); [lia..|].
  exists r. split_and!; [done|done|]. apply Hreq. eapply requests_mono; [|exact Hq]. lia.
Qed.

(** With retries disabled the loop starts none. *)
Lemma submit_loop_no_retry fuel c e b a t k k' r :
  RetryAttempts c ≤ 0 → submit_loop fuel c e b a t k = Ok (inr (k', r)) → r = None.
Proof.
  intros Hc. revert a t k. induction fuel as [|fuel IH]; intros a t k; cbn [submit_loop]; [discriminate|].
  destruct (_ <? 2); [|discriminate].
  destruct (endpoint c (e_next e a)) as [ep| |]; [|discriminate..]. rstep.
  destruct (post _) as [|st rb]; [apply IH|]. destruct (st =? 200); [by intros [= _ <-]|].
  destruct (is_partial st rb).
  { unfold settlePartial. destruct (triage _ _) as [? ?].
    rewrite (proj2 (Z.leb_le (RetryAttempts c) 0)) by done. by intros [= _ <-]. }
  destruct (st =? 429); [|apply IH]. destruct (_ <=? t); [by intros [= _ <-]|].
  destruct (e_cancel_wait e a); [by intros [= _ <-]|apply IH].
Qed.

Lemma submit_spec c e b k :
  env_ok c e →
  ∃ k' r, submit c e b k = Ok (k', r) ∧ balanced (jobs b) k k' r ∧
    requests c 5 (λ x, x = body b) k k' ∧ (r = None ∨ 0 < RetryAttempts c).
Proof.
  intros He. unfold submit.
  destruct (submit_loop_spec 6 c e b 0 0 (add_batches k)) as (r & Er & Hb & Hq);
    [done|unfold rateLimitSteps; lia..|].
  rewrite Er. rstep. change ((2 - (Z.of_nat 0 - 0)) + (rateLimitSteps - 0)) with 5 in Hq.
  destruct r as [k'|[k' r]]; cbn [loop_booked loop_counters] in *.
  - destruct Hb as [Hb Hu]. destruct (Z.ltb_spec 0 (RetryAttempts c)).
    + do 2 eexists. split_and!; [done| |done|by right].
      unfold balanced. cbn in *. rewrite Hb, Hu. unfold booked. cbn.
      split_and!; [lia..|]. by intros l [= <-].
    + do 2 eexists. split_and!; [done| |done|by left]. apply balanced_all; [done|].
      unfold booked in *. cbn in *. lia.
  - do 2 eexists. split_and!; [reflexivity|exact Hb|exact Hq|]. destruct (Z.lt_ge_cases 0 (RetryAttempts c)); [by right|left].
    by eapply submit_loop_no_retry.
Qed.

Lemma retry_loop_spec rounds c e a pending k :
  env_ok c e →
  ∃ k' rest, retry_loop rounds c e a pending k = Ok (k', rest) ∧
    booked k' + zlen rest = booked k + zlen pending ∧ unattributed k' = unattributed k ∧
    requests c (Z.of_nat rounds) (λ x, ∃ l, l `sublist_of` pending ∧ x = raws l) k k'.
Proof.
  intros He. revert a pending k. induction rounds as [|n IH]; intros a pending k; cbn [retry_loop].
  { do 2 eexists. split_and!; [done..|]. by apply requests_refl. }
  set (ok := λ x, ∃ l, l `sublist_of` pending ∧ x = raws l).
  destruct (Z.eqb_spec (zlen pending) 0).
  { do 2 eexists. split_and!; [done..|]. apply requests_refl; [lia|done]. }
  assert (∀ k', posted k' = posted k → requests c (Z.of_nat (S n)) ok k k') as Hnone.
  { intros k' E. apply requests_refl; [lia|done]. }
  destruct (e_cancel_wait e a);
    [do 2 eexists; split_and!; [done|unfold booked; cbn; lia|done|by apply Hnone]|].
  destruct (e_cancel_sem e a);
    [do 2 eexists; split_and!; [done|unfold booked; cbn; lia|done|by apply Hnone]|].
  destruct (endpoint_ok c e a He) as (ep & Eep & Hep). rewrite Eep. rstep.
  set (k1 := add_posted ep (pending ≫= raw) k).
  assert (Hreq : ∀ k', requests c (Z.of_nat n) ok k1 k' → requests c (Z.of_nat (S n)) ok k k').
  { intros k' H. replace (Z.of_nat (S n)) with (Z.of_nat n + 1) by lia.
    apply (requests_step c _ _ k k1 k' ep (pending ≫= raw)); [done| |done..].
    exists pending. by split. }
  assert (Hdone : ∀ k', posted k' = posted k1 → requests c (Z.of_nat (S n)) ok k k').
  { intros k' H. apply Hreq, requests_refl; [lia|done]. }
  assert (Hgo : ∀ next k2, next `sublist_of` pending → posted k2 = posted k1 →
     unattributed k2 = unattributed k → booked k2 + zlen next = booked k + zlen pending →
     ∃ k' rest, retry_loop n c e (S a) next k2 = Ok (k', rest) ∧
       booked k' + zlen rest = booked k + zlen pending ∧ unattributed k' = unattributed k ∧
       requests c (Z.of_nat (S n)) ok k k').
  { intros next k2 Hsub Hp Hu Hb. destruct (IH (S a) next k2) as (k' & rest & E & Hb' & Hu' & Hq).
    exists k', rest. split_and!; [done|lia|congruence|]. apply Hreq.
    destruct Hq as (reqs & Er & Hn & Hf). exists reqs. split_and!; [congruence|done|].
    eapply Forall_impl; [exact Hf|]. intros x [(l & Hl & Hx) Hx']. split; [|done].
    exists l. split; [by etrans|done]. }
  destruct (post (e_resp e a)) as [|st rb]; [by apply Hgo|].
  destruct (st =? 200);
    [do 2 eexists; split_and!; [done|unfold booked; cbn; lia|done|by apply Hdone]|].
  destruct (is_partial st rb).
  { destruct (triage_sizes (failures (λ _, true) rb) pending) as (Hs & Hf & Hsub).
    destruct (triage _ pending) as [next final]. cbn [fst snd] in *.
    apply Hgo; [done|repeat bdestruct_guard; done..|].
    unfold booked. repeat bdestruct_guard; cbn; lia. }
  destruct (st =? 429); [by apply Hgo|]. destruct (st =? 422); [by apply Hgo|].
  do 2 eexists; split_and!; [done|unfold booked; cbn; lia|done|by apply Hdone].
Qed.

Lemma retryBatch_spec c e js k :
  env_ok c e →
  ∃ k', retryBatch c e js k = Ok k' ∧ booked k' = booked k + zlen js ∧
    unattributed k' = unattributed k ∧
    requests c (Z.max 0 (RetryAttempts c)) (λ x, ∃ l, l `sublist_of` js ∧ x = raws l) k k'.
Proof.
  intros He. unfold retryBatch. destruct (Z.eqb_spec (zlen js) 0) as [E|E].
  { eexists. split_and!; [done|lia|done|]. apply requests_refl; [lia|done]. }
  destruct (retry_loop_spec (Z.to_nat (RetryAttempts c)) c e 0 js (add_retried (zlen js) k) He)
    as (k' & rest & Er & Hb & Hu & Hq). rewrite Er. rstep.
  eexists. split_and!; [done|..].
  - unfold booked in *. bdestruct_guard; cbn in *; lia.
  - by bdestruct_guard.
  - apply (requests_mono _ (Z.of_nat (Z.to_nat (RetryAttempts c)))); [lia|].
    bdestruct_guard; exact Hq.
Qed.

(** ** Theorems *)

(** The life of a batch: its submission and the retry batch it may start. *)
Definition deliver (c : Config) (e e' : env) (b : batch) (k : counters) : res counters :=
  '(k, r) ← submit c e b k;
  match r with None => Ok k | Some js => retryBatch c e' js k end.

(** C5: Every batch is settled and the books add up, whatever the cluster answers:
    submission and retry end after at most five and [RetryAttempts] requests,
    each to a configured endpoint, and then accepted, rejected and failed
    together have grown by at most the batch's transactions and by no fewer
    than those less the outcomes counted as unattributed. *)
Theorem deliver_accounts (c : Config) (e e' : env) (b : batch) (k : counters) :
  env_ok c e → env_ok c e' →
  ∃ k', deliver c e e' b k = Ok k' ∧
    zlen (jobs b) - (unattributed k' - unattributed k) ≤ booked k' - booked k ≤ zlen (jobs b) ∧
    ∃ reqs, posted k' = posted k ++ reqs ∧ zlen reqs ≤ 5 + Z.max 0 (RetryAttempts c) ∧
      Forall (λ r, ∃ ep, ep ∈ Endpoints c ∧ fst r = ep ++ str "/txs") reqs.
Proof.
  intros He He'. unfold deliver.
  destruct (submit_spec c e b k He) as (k1 & r & -> & (Hb & Hu & _) & (q1 & Hq1 & Hn1 & Hf1) & _). rstep.
  destruct r as [js|]; cbn [retry_len] in Hb.
  - destruct (retryBatch_spec c e' js k1 He') as (k' & -> & Hb' & Hu' & q2 & Hq2 & Hn2 & Hf2).
    exists k'. split_and!; [done|lia|lia|]. exists (q1 ++ q2).
    split_and!; [by rewrite Hq2, Hq1, app_assoc|rewrite length_app; lia|].
    apply Forall_app; split; eapply Forall_impl; [exact Hf1| |exact Hf2|]; by intros ? [_ ?].
  - exists k1. split_and!; [done|lia|lia|]. exists q1.
    split_and!; [done|lia|]. eapply Forall_impl; [exact Hf1|]. by intros ? [_ ?].
Qed.

(** C20: A retry batch is settled exactly: after at most [RetryAttempts] requests,
    each carrying a subsequence of the batch in order, every transaction of it
    is booked accepted, rejected or failed, once. *)
Theorem retryBatch_exact (c : Config) (e : env) (js : list job) (k : counters) :
  env_ok c e →
  ∃ k', retryBatch c e js k = Ok k' ∧ booked k' = booked k + zlen js ∧
    ∃ reqs, posted k' = posted k ++ reqs ∧ zlen reqs ≤ Z.max 0 (RetryAttempts c) ∧
      Forall (λ r, ∃ l, l `sublist_of` js ∧ snd r = raws l) reqs.
Proof.
  intros He. destruct (retryBatch_spec c e js k He) as (k' & E & Hb & _ & q & Hq & Hn & Hf).
  exists k'. split_and!; [done..|]. exists q. split_and!; [done..|].
  eapply Forall_impl; [exact Hf|]. by intros ? [? _].
Qed.

(** A rate-limited batch is retried whole and never split: when every answer
    is a 429, the batch is sent unchanged four times, then booked failed, and
    no retry batch is started. *)
Theorem rate_limited_whole (c : Config) (e : env) (b : batch) (k : counters) :
  env_ok c e →
  (∀ i, ∃ body, e_resp e i = RStatus 429 body ∧ has_prefix partialPrefix (take (Z.to_nat (2 ^ 20)) body) = false) →
  (∀ i, e_cancel_wait e i = false) →
  ∃ k', submit c e b k = Ok (k', None) ∧ failed k' = failed k + zlen (jobs b) ∧
    accepted k' = accepted k ∧ rejected k' = rejected k ∧ rateLimited k' = rateLimited k + 4 ∧
    ∃ reqs, posted k' = posted k ++ reqs ∧ zlen reqs = 4 ∧ Forall (λ r, snd r = body b) reqs.
Proof.
  intros He Hr Hc. unfold submit.
  assert (∀ fuel a t k0, (Z.of_nat a - t <? 2) = true →
    submit_loop (S fuel) c e b a t k0
    = ep ← endpoint c (e_next e a);
      let k1 := add_rateLimited (add_posted ep (body b) k0) in
      if rateLimitSteps <=? t then Ok (inr (add_failed (zlen (jobs b)) k1, None))
      else submit_loop fuel c e b (S a) (t + 1) k1) as Hround.
  { intros fuel a t k0 E. cbn [submit_loop]. rewrite E.
    destruct (endpoint c (e_next e a)); [|done..]. rstep.
    destruct (Hr a) as (rb & -> & Hp). cbn [post]. unfold is_partial. rewrite Hp.
    change (429 =? 200) with false. change (429 =? 429) with true. rstep. by rewrite Hc. }
  destruct (endpoint_ok c e 0 He) as (e0 & E0 & _), (endpoint_ok c e 1 He) as (e1 & E1 & _),
    (endpoint_ok c e 2 He) as (e2 & E2 & _), (endpoint_ok c e 3 He) as (e3 & E3 & _).
  rewrite Hround, E0 by done. rstep. change (rateLimitSteps <=? 0) with false. cbv zeta iota.
  rewrite Hround, E1 by done. rstep. change (rateLimitSteps <=? 0 + 1) with false. cbv zeta iota.
  rewrite Hround, E2 by done. rstep. change (rateLimitSteps <=? 0 + 1 + 1) with false. cbv zeta iota.
  rewrite Hround, E3 by done. rstep. change (rateLimitSteps <=? 0 + 1 + 1 + 1) with true. cbv zeta iota.
  eexists. split; [reflexivity|]. cbn [failed accepted rejected rateLimited posted add_failed
    add_rateLimited add_posted add_batches]. split_and!; [done..|lia|].
  eexists. split; [by rewrite <- !app_assoc|]. split; [done|]. by repeat constructor.
Qed.

(** C19: The partial-failure report is attributed exactly: a member is retried
    exactly when a report line is about it and the last such line describes a
    missing parent or an overload, and rejected exactly when that line
    describes anything else; the retry keeps the batch's order. *)
Theorem settlePartial_attribution (c : Config) (js : list job) (rbody : gostring) (k : counters) :
  let mine : gset gostring := list_to_set ((λ j, hashid.Display (id j)) <$> js) in
  let about j := filter (λ line, subjectTxID line = Some (hashid.Display (id j))) (split_lines rbody) in
  let verdict j := isRetryable <$> last (about j) in
  let retry := filter (λ j, verdict j = Some true) js in
  let final := filter (λ j, verdict j = Some false) js in
  snd (settlePartial c js rbody k)
  = (if (RetryAttempts c <=? 0) || (zlen retry =? 0) then None else Some retry) ∧
  rejected (fst (settlePartial c js rbody k))
  = rejected k + zlen final + (if RetryAttempts c <=? 0 then zlen retry else 0) ∧
  unattributed (fst (settlePartial c js rbody k)) = unattributed k + count_foreign mine rbody.
Proof.
  intros mine about verdict retry final.
  assert (Hv : ∀ j, j ∈ js →
    state_of (failures (λ t, bool_decide (t ∈ mine)) rbody) j = verdict j).
  { intros j Hj. apply failures_verdict, bool_decide_eq_true_2.
    unfold mine. apply elem_of_list_to_set, list_elem_of_fmap. eauto. }
  assert (Hfil : ∀ v, filter (λ j, state_of (failures (λ t, bool_decide (t ∈ mine)) rbody) j = Some v) js
            = filter (λ j, verdict j = Some v) js).
  { intros v. apply filter_ext_in. intros j Hj. by rewrite Hv. }
  unfold settlePartial. fold mine. rewrite triage_spec, !Hfil. fold retry final.
  pose proof (count_foreign_nonneg mine rbody).
  destruct (Z.leb_spec (RetryAttempts c) 0), (Z.eqb_spec (zlen retry) 0); cbn [orb];
    repeat bdestruct_guard; cbn; (split_and!; [done|lia|lia]).
Qed.

(** A report that names nobody is booked as a full success: a 500 answer whose
    body opens like a partial-failure report but brackets no txid settles the
    whole batch as accepted, with nothing retried, rejected or counted as
    unattributed. *)
Theorem anonymous_report_accepted (c : Config) (e : env) (b : batch) (k : counters) (rbody : gostring) :
  env_ok c e → e_resp e 0 = RStatus 500 rbody → zlen rbody ≤ 2 ^ 20 →
  has_prefix partialPrefix rbody = true → namesMember rbody = false →
  ∃ k', submit c e b k = Ok (k', None) ∧ accepted k' = accepted k + zlen (jobs b) ∧
    rejected k' = rejected k ∧ failed k' = failed k ∧ unattributed k' = unattributed k.
Proof.
  intros He Hr Hl Hp Hn. unfold submit. cbn [submit_loop].
  change (Z.of_nat 0 - 0 <? 2) with true. cbv iota.
  destruct (endpoint_ok c e 0 He) as (ep & -> & _). rstep. rewrite Hr. unfold post.
  rewrite take_ge by lia. change (500 =? 200) with false. unfold is_partial. rewrite Hp. rstep.
  assert (Hnone : ∀ line, line ∈ split_lines rbody → subjectTxID line = None).
  { intros line Hin. destruct (subjectTxID line) eqn:E; [|done].
    enough (namesMember rbody = true) by congruence.
    apply existsb_exists. exists line. split; [by apply list_elem_of_In|by rewrite E]. }
  assert (Hempty : ∀ keep, failures keep rbody = ∅).
  { intros keep. unfold failures. revert Hnone. generalize (split_lines rbody). intros ls.
    induction ls as [|l ls IH]; intros Hls; [done|]. cbn [foldl]. rewrite Hls by (by left).
    apply IH. intros; apply Hls. by right. }
  assert (Hzero : ∀ mine, count_foreign mine rbody = 0).
  { intros mine. unfold count_foreign. revert Hnone. generalize (split_lines rbody). intros ls.
    induction ls as [|l ls IH]; intros Hls; [done|]. cbn [foldl]. rewrite Hls by (by left).
    apply IH. intros; apply Hls. by right. }
  unfold settlePartial. rewrite Hempty, Hzero, triage_empty. cbv zeta.
  change (zlen ([] : list job)) with 0. rewrite !Z.sub_0_r.
  change (0 <? 0) with false. cbv iota. rewrite (proj2 (Z.ltb_ge (zlen (jobs b)) 0)) by lia.
  rewrite Z.eqb_refl, orb_true_r. change (500 =? 500) with true. rstep.
  eexists. split; [reflexivity|]. cbn. split_and!; lia.
Qed.

(** ** Witnesses *)

Definition ex_env (r : response) : env := mkEnv (λ _, r) (λ _, 0) (λ _, false) (λ _, false).
Definition ex_batch : batch :=
  mkBatch (raws [ex_parent; ex_child]) [ex_parent; ex_child] ∅ 0.
Definition ctr0 : counters := mkCtr 0 0 0 0 0 0 0 0 [].

Lemma ex_env_ok r : env_ok ex_cfg (ex_env r).
Proof. split; [discriminate|]. intros i. split; [apply Z.le_refl|vm_compute; reflexivity]. Qed.

Lemma deliver_accounts_witness :
  ∃ k', deliver ex_cfg (ex_env RErr) (ex_env (RStatus 200 [])) ex_batch ctr0 = Ok k' ∧
        2 - unattributed k' ≤ booked k' ≤ 2.
Proof.
  destruct (deliver_accounts ex_cfg (ex_env RErr) (ex_env (RStatus 200 [])) ex_batch ctr0)
    as (k' & H & Hb & _); [apply ex_env_ok..|].
  exists k'. split; [exact H|]. change (booked ctr0) with 0 in Hb.
  change (unattributed ctr0) with 0 in Hb. change (zlen (jobs ex_batch)) with 2 in Hb. lia.
Defined.

Lemma retryBatch_exact_witness :
  ∃ k', retryBatch ex_cfg (ex_env (RStatus 422 [])) [ex_parent; ex_child] ctr0 = Ok k' ∧ booked k' = 2.
Proof.
  destruct (retryBatch_exact ex_cfg (ex_env (RStatus 422 [])) [ex_parent; ex_child] ctr0)
    as (k' & H & Hb & _); [apply ex_env_ok|].
  exists k'. split; [exact H|]. rewrite Hb. reflexivity.
Defined.

Lemma rate_limited_whole_witness :
  ∃ k', submit ex_cfg (ex_env (RStatus 429 [])) ex_batch ctr0 = Ok (k', None) ∧ failed k' = 2.
Proof.
  destruct (rate_limited_whole ex_cfg (ex_env (RStatus 429 [])) ex_batch ctr0)
    as (k' & H & Hb & _).
  - apply ex_env_ok.
  - intros i. exists []. split; [reflexivity|]. rewrite take_nil. reflexivity.
  - reflexivity.
  - exists k'. split; [exact H|]. rewrite Hb. reflexivity.
Defined.

Lemma anonymous_report_accepted_witness :
  ∃ k', submit ex_cfg (ex_env (RStatus 500 (str "Failed to process transactions: bad stream")))
          ex_batch ctr0 = Ok (k', None) ∧ accepted k' = 2.
Proof.
  destruct (anonymous_report_accepted ex_cfg
    (ex_env (RStatus 500 (str "Failed to process transactions: bad stream"))) ex_batch ctr0
    (str "Failed to process transactions: bad stream")) as (k' & H & Hb & _).
  - apply ex_env_ok.
  - reflexivity.
  - vm_compute. discriminate.
  - vm_compute. reflexivity.
  - vm_compute. reflexivity.
  - exists k'. split; [exact H|]. rewrite Hb. reflexivity.
Defined.
