(* ===== verification/Handlers.v ===== *)
(** * The lane handlers and start-up decisions of the command

    [src/cmd/teranode-bridge/main.go]: what each delivery lane does with an
    object ([handleTx], [txSession], [handleSubtree], [handleBlock],
    [verifyEcho]), the flag validation, and the predicates that gate readiness
    and publishing. The subtree and block handlers share the object cache, the
    two registries and the producer; that shared state is [plane]. An announce
    is one event whose outcome the broker decides; the events are kept in
    order. The calls of one handler are given one clock reading. *)

From Stdlib Require Import Strings.Byte.
From stdpp Require Import base list strings numbers gmap pretty.
From S2P Require Import Prelude HashId Objfmt Encode TnWire Cache Generational Registry TxWire TxBuild.

Module bridge.
(** ** Flags *)

(** A refusal is its text; the one that quotes the mode is given without it. *)
Definition announceFlagsErr (propagationN brokersN : Z) (advertise peerID : gostring) : string :=
  if (propagationN =? 0) || (brokersN =? 0) || bool_decide (advertise = []) then
    "-propagation, -kafka and -advertise are required with -mode all (-mode tx needs only -propagation)"
  else if bool_decide (peerID = []) then 
    "-peer-id is required with -mode all: set a synthetic valid-format libp2p id that is registered nowhere (see docs/configuration.md); announcing with an empty id makes the cluster's catchup circuit-break against the bridge"
  else "".

Definition modeFlagsErr (mode : gostring) (propagationN brokersN : Z)
    (advertise peerID blockchain : gostring) : string :=
  if bool_decide (mode = str "sink") then ""
  else if bool_decide (mode = str "tx") then
    if propagationN =? 0 then "-propagation is required with -mode tx"
    else if negb (bool_decide (blockchain = [])) then
      "-blockchain configures the reverse path, which publishes subtrees and blocks; -mode tx carries neither"
    else ""
  else if bool_decide (mode = str "all") then
    announceFlagsErr propagationN brokersN advertise peerID
  else "-mode: want all, tx or sink".

(** Which tx cache the flags select: [-1] follows [-cache-bytes]. *)
Definition tx_cache (start : Z) (txCache cacheBytes cacheTTL : Z) (txOnly : bool)
    : generational.Generational :=
  if (txCache <? 0) && negb txOnly then
    generational.NewGenerational start (cache.mkOptions cacheBytes cacheTTL)
  else if 0 <? txCache then
    generational.NewGenerational start (cache.mkOptions txCache cacheTTL)
  else None.

(** [strings.Split(s, ",")]. *)
Definition split_commas (s : gostring) : list gostring := split_on x2c s.

(** The UTF-8 encodings of the runes [unicode.IsSpace] accepts. *)
Definition space_runes : list gostring :=
  [[x09]; [x0a]; [x0b]; [x0c]; [x0d]; [x20]; [xc2; x85]; [xc2; xa0]; [xe1; x9a; x80]]
  ++ ((λ b, [xe2; x80; b]) <$> [x80; x81; x82; x83; x84; x85; x86; x87; x88; x89; x8a; xa8; xa9; xaf])
  ++ [[xe2; x81; x9f]; [xe3; x80; x80]].

Fixpoint strip_prefix (p s : gostring) : option gostring :=
  match p, s with
  | [], _ => Some s
  | x :: p, y :: s => if bool_decide (x = y) then strip_prefix p s else None
  | _ :: _, [] => None
  end.
Fixpoint strip_any (ps : list gostring) (s : gostring) : option gostring :=
  match ps with
  | [] => None
  | p :: ps => match strip_prefix p s with Some s => Some s | None => strip_any ps s end
  end.
(** Leading occurrences of [ps] are dropped; each takes at least one byte. *)
Fixpoint drop_leading (fuel : nat) (ps : list gostring) (s : gostring) : gostring :=
  match fuel with
  | O => s
  | S fuel => match strip_any ps s with Some s => drop_leading fuel ps s | None => s end
  end.

(** [strings.TrimSpace]; a trailing rune is a leading one of the reversal. *)
Definition TrimSpace (s : gostring) : gostring :=
  let s := drop_leading (length s) space_runes s in
  reverse (drop_leading (length s) (reverse <$> space_runes) (reverse s)).

(** [stringList.Set]. *)
Definition stringList_Set (s : list gostring) (v : gostring) : list gostring :=
  s ++ filter (λ p, p ≠ []) (TrimSpace <$> split_commas v).

(** [net.JoinHostPort]: a host with a colon is bracketed. *)
Definition JoinHostPort (host port : gostring) : gostring :=
  if existsb (λ c, bool_decide (c = x3a)) host then str "[" ++ host ++ str "]:" ++ port
  else host ++ str ":" ++ port.

Definition ingressAddrs (hosts : gostring) (port : Z) : list gostring :=
  (λ h, JoinHostPort h (str (pretty port))) <$> filter (λ h, h ≠ []) (TrimSpace <$> split_commas hosts).

(** ** The transaction lane *)

Section objfmt.
Context {O : Objfmt}.

Definition admitTx (now : Z) (obj : list byte) (txs : generational.Generational)
    : res (Hash * bool) * generational.Generational :=
  if negb (IsEF obj) then (Err (EReject "not BRC-30 extended format"), txs) else
  match TxID obj with
  | Err _ => (Err (EMsg "txid"), txs)
  | Panic => (Panic, txs)
  | Ok id =>
      let '(fresh, txs) := generational.Admit now id obj txs in
      (Ok (id, fresh), txs)
  end.

(** [handleTx]; the pipe is [None] in sink mode. The last result is false
    when the pipe's queue is full, where the call waits. *)
Definition handleTx (now : Z) (obj : list byte) (txs : generational.Generational)
    (pipe : option txpipe.Pipe)
    : res unit * generational.Generational * option txpipe.Pipe * bool :=
  match admitTx now obj txs with
  | (Err e, txs) => (Err e, txs, pipe, true)
  | (Panic, txs) => (Panic, txs, pipe, true)
  | (Ok (_, false), txs) => (Ok tt, txs, pipe, true)
  | (Ok (id, true), txs) =>
      match pipe with
      | None => (Ok tt, txs, None, true)
      | Some p =>
          match txpipe.EnqueueOwned obj id p with
          | Some p => (Ok tt, txs, Some p, true)
          | None => (Ok tt, txs, Some p, false)
          end
      end
  end.

(** The session handler of a lane connection: admission, then the run of
    waiting transactions, flushed when it is full. *)
Definition session_Handle (now : Z) (obj : list byte) (txs : generational.Generational)
    (run : list txpipe.job) (p : txpipe.Pipe)
    : res unit * generational.Generational * list txpipe.job * txpipe.Pipe * bool :=
  match admitTx now obj txs with
  | (Err e, txs) => (Err e, txs, run, p, true)
  | (Panic, txs) => (Panic, txs, run, p, true)
  | (Ok (_, false), txs) => (Ok tt, txs, run, p, true)
  | (Ok (id, true), txs) =>
      let '(full, run) := txpipe.Batch_Add obj id run in
      if full then
        match txpipe.Batch_Flush run p with
        | (run, Some p) => (Ok tt, txs, run, p, true)
        | (run, None) => (Ok tt, txs, run, p, false)
        end
      else (Ok tt, txs, run, p, true)
  end.

(** ** The object lanes *)

(** One announce: class, display hash, URL, and whether the broker took it. *)
Record announce_ev : Type := mkAnn {
  a_class : gostring; a_hash : gostring; a_url : gostring; a_ok : bool
  }.

Record plane : Type := mkPlane {
  objects : list cache.shard;
  seen : registry.Registry;
  announced : registry.Registry;
  events : list announce_ev;
  echoVerified : Z;
  echoMismatch : Z
  }.

(** The producer: nil (sink mode), or the broker's answer to this announce. *)
Inductive producer : Type :=
  | NoProducer
  | Announces (outcome : option error).

Definition verifyEcho (now : Z) (h : Hash) (obj : list byte) (s : plane) : plane :=
  match registry.Lookup h (seen s) with
  | Some registry.Submitted =>
      match cache.Get now h (objects s) with
      | (None, c) =>
          mkPlane c (seen s) (announced s) (events s) (echoVerified s) (echoMismatch s)
      | (Some (sent, _), c) =>
          if bool_decide (sent = obj)
          then mkPlane c (seen s) (announced s) (events s) (echoVerified s + 1) (echoMismatch s)
          else mkPlane c (seen s) (announced s) (events s) (echoVerified s) (echoMismatch s + 1)
      end
  | _ => s
  end.

Definition put_object (now : Z) (h : Hash) (class : gostring) (obj : list byte) (s : plane) : plane :=
  mkPlane (cache.Put now h class obj (objects s)) (seen s) (announced s) (events s)
    (echoVerified s) (echoMismatch s).
Definition mark_seen (now : Z) (h : Hash) (s : plane) : option registry.Direction * plane :=
  let '(d, r) := registry.Mark now h registry.Delivered (seen s) in
  (d, mkPlane (objects s) r (announced s) (events s) (echoVerified s) (echoMismatch s)).
Definition mark_announced (now : Z) (h : Hash) (s : plane) : plane :=
  mkPlane (objects s) (seen s) (snd (registry.Mark now h registry.Delivered (announced s)))
    (events s) (echoVerified s) (echoMismatch s).
Definition add_event (e : announce_ev) (s : plane) : plane :=
  mkPlane (objects s) (seen s) (announced s) (events s ++ [e]) (echoVerified s) (echoMismatch s).

(** The part the two handlers share, from the mark in [seen] on. *)
Definition announce_gate (now : Z) (prod : producer) (baseURL class : gostring) (h : Hash)
    (s : plane) : res unit * plane :=
  let '(dir, s) := mark_seen now h s in
  if bool_decide (dir = Some registry.Submitted) then (Ok tt, s) else
  match registry.Lookup h (announced s) with
  | Some _ => (Ok tt, mark_announced now h s)
  | None =>
      match prod with
      | NoProducer => (Ok tt, mark_announced now h s)
      | Announces (Some e) =>
          (Err e, add_event (mkAnn class (hashid.Display h) baseURL false) s)
      | Announces None =>
          (Ok tt, mark_announced now h
                    (add_event (mkAnn class (hashid.Display h) baseURL true) s))
      end
  end.

Definition handleSubtree (now : Z) (prod : producer) (baseURL : gostring) (obj : list byte)
    (s : plane) : res unit * plane :=
  if zlen obj <? SubtreeHeaderSize then (Err (EMsg "subtree frame too short"), s) else
  match (b ← slice obj 0 32; hashid.FromWire b) with
  | Err e => (Err e, s)
  | Panic => (Panic, s)
  | Ok root =>
      let s := verifyEcho now root obj s in
      let s := put_object now root (str "subtree") obj s in
      announce_gate now prod baseURL (str "subtree") root s
  end.

(** [for _, r := range roots { seen.Mark(...); announced.Mark(...) }]. *)
Definition mark_roots (now : Z) (roots : list Hash) (s : plane) : plane :=
  foldl (λ s r, mark_announced now r (snd (mark_seen now r s))) s roots.

Definition handleBlock (now : Z) (prod : producer) (baseURL : gostring) (obj : list byte)
    (s : plane) : res unit * plane :=
  if zlen obj <? BlockPrefixSize then (Err (EMsg "block frame too short"), s) else
  match slice obj 0 80 with
  | Err e => (Err e, s)
  | Panic => (Panic, s)
  | Ok hdr =>
      let id := hashid.DoubleSHA256 hdr in
      let s := verifyEcho now id obj s in
      let s := put_object now id (str "block") obj s in
      match tnwire.SubtreeRootsOf obj with
      | Panic => (Panic, s)
      | Err _ => announce_gate now prod baseURL (str "block") id s
      | Ok roots => announce_gate now prod baseURL (str "block") id (mark_roots now roots s)
      end
  end.
End objfmt.

(** ** Readiness *)

(** A lane as readiness sees it: its name, whether it is bound, and how many
    connections are open. *)
Record lane_view : Type := mkLaneView { l_name : gostring; l_bound : bool; l_active : Z }.

(** [waitLanesBound]: one round of its loop; it returns true when the count
    of bound lanes reaches the number of lanes. *)
Definition lanes_bound (ls : list lane_view) : bool :=
  zlen (filter (λ l, l_bound l = true) ls) =? zlen ls.

(** [submitterReady]: the closure, given the lanes' current state. *)
Definition submitterReady (ls : list lane_view) (started now grace : Z) (allowBlind : bool) : bool :=
  if time_sub now started <? grace then false
  else if allowBlind then true
  else forallb (λ l, negb ((bool_decide (l_name l = str "subtree") || bool_decide (l_name l = str "block"))
                           && (l_active l =? 0))) ls.
End bridge.

Import bridge.

(** ** The shared gate *)

Record plane_wf (s : plane) : Prop := {
  pw_seen : registry_wf (seen s);
  pw_announced : registry_wf (announced s)
}.

Lemma gate_objects now prod url class h s :
  objects (snd (announce_gate now prod url class h s)) = objects s.
Proof.
  unfold announce_gate, mark_seen. destruct (registry.Mark _ _ _ (seen s)) as [d r].
  case_bool_decide; [done|]. cbn [announced]. destruct (registry.Lookup _ _); [done|].
  by destruct prod as [|[]].
Qed.

Lemma gate_echo now prod url class h s :
  echoVerified (snd (announce_gate now prod url class h s)) = echoVerified s ∧
  echoMismatch (snd (announce_gate now prod url class h s)) = echoMismatch s.
Proof.
  unfold announce_gate, mark_seen. destruct (registry.Mark _ _ _ (seen s)) as [d r].
  case_bool_decide; [done|]. cbn [announced]. destruct (registry.Lookup _ _); [done|].
  destruct prod as [|[]]; split; done.
Qed.

(** What the gate does with a hash, on every branch. [dir] is how [seen] knew
    the hash, [done] whether the cluster was told before. *)
Lemma gate_spec now prod url class h s :
  plane_wf s →
  let dir := fst (registry.Mark now h registry.Delivered (seen s)) in
  let out := announce_gate now prod url class h s in
  plane_wf (snd out) ∧
  registry.Lookup h (seen (snd out)) = Some (default registry.Delivered dir) ∧
  (dir = Some registry.Submitted →
     fst out = Ok tt ∧ events (snd out) = events s ∧ announced (snd out) = announced s) ∧
  (dir ≠ Some registry.Submitted →
     (is_Some (registry.Lookup h (announced s)) →
        fst out = Ok tt ∧ events (snd out) = events s ∧
        is_Some (registry.Lookup h (announced (snd out)))) ∧
     (registry.Lookup h (announced s) = None →
        match prod with
        | NoProducer =>
            fst out = Ok tt ∧ events (snd out) = events s ∧
            is_Some (registry.Lookup h (announced (snd out)))
        | Announces (Some e) =>
            fst out = Err e ∧ announced (snd out) = announced s ∧
            events (snd out) = events s ++ [mkAnn class (hashid.Display h) url false]
        | Announces None =>
            fst out = Ok tt ∧ is_Some (registry.Lookup h (announced (snd out))) ∧
            events (snd out) = events s ++ [mkAnn class (hashid.Display h) url true]
        end)).
Proof.
  intros [Hs Ha] dir out. unfold out, dir, announce_gate, mark_seen. clear out dir.
  pose proof (Lookup_Mark now h registry.Delivered (seen s) Hs) as Hl.
  pose proof (Mark_registry_wf now h registry.Delivered (seen s) Hs) as Hs'.
  pose proof (Lookup_Mark now h registry.Delivered (announced s) Ha) as Hla.
  pose proof (Mark_registry_wf now h registry.Delivered (announced s) Ha) as Ha'.
  destruct (registry.Mark now h registry.Delivered (seen s)) as [d r] eqn:E.
  cbn [fst snd] in *.
  case_bool_decide as Hd; [split_and!; done|]. cbn [announced].
  destruct (registry.Lookup h (announced s)) as [x|] eqn:Ex.
  - split_and!; [done|done|done|]. intros _. split; [|done]. intros _. cbn. rewrite Hla. by split_and!; eauto.
  - destruct prod as [|[e|]]; (split_and!; [done|done|done|]); intros _;
      (split; [by intros [? ?]|]); intros _; cbn; rewrite ?Hla; by split_and!; eauto.
Qed.

Lemma verifyEcho_frame now h obj s :
  seen (verifyEcho now h obj s) = seen s ∧ announced (verifyEcho now h obj s) = announced s ∧
  events (verifyEcho now h obj s) = events s ∧
  (objects (verifyEcho now h obj s) = objects s ∨
   objects (verifyEcho now h obj s) = snd (cache.Get now h (objects s))).
Proof.
  unfold verifyEcho. destruct (registry.Lookup h (seen s)) as [[]|]; try (split_and!; auto; done).
  destruct (cache.Get now h (objects s)) as [[[sent c]|] o]; [|split_and!; auto].
  case_bool_decide; split_and!; auto.
Qed.

Lemma mark_roots_spec now roots s :
  seen (mark_roots now roots s) = marks ((λ r, mkMark now r registry.Delivered) <$> roots) (seen s) ∧
  announced (mark_roots now roots s)
  = marks ((λ r, mkMark now r registry.Delivered) <$> roots) (announced s) ∧
  objects (mark_roots now roots s) = objects s ∧ events (mark_roots now roots s) = events s.
Proof.
  unfold mark_roots, marks. revert s. induction roots as [|r roots IH]; intros s; [done|].
  cbn [foldl fmap list_fmap].
  destruct (IH (mark_announced now r (snd (mark_seen now r s)))) as (-> & -> & -> & ->).
  unfold mark_seen. cbn [m_now m_key m_dir]. by destruct (registry.Mark now r _ (seen s)).
Qed.

Lemma marks_wf ms r : registry_wf r → registry_wf (marks ms r).
Proof. unfold registry_wf. by rewrite (proj2 (marks_frame ms r)). Qed.

Section handlers.
Context {O : Objfmt}.

(** The hash a subtree frame is known by. *)
Definition subtree_root (obj : list byte) : Hash := copy32 (take 32 obj).
Definition block_id (obj : list byte) : Hash := hashid.DoubleSHA256 (take 80 obj).

(** Both handlers store the object and then run the gate. *)
Definition stored (now : Z) (h : Hash) (class : gostring) (obj : list byte) (s : plane) : plane :=
  put_object now h class obj (verifyEcho now h obj s).

Lemma handleSubtree_gate now prod url obj s :
  40 ≤ zlen obj →
  handleSubtree now prod url obj s
  = announce_gate now prod url (str "subtree") (subtree_root obj)
      (stored now (subtree_root obj) (str "subtree") obj s).
Proof.
  intros Hl. unfold handleSubtree, SubtreeHeaderSize.
  rewrite (proj2 (Z.ltb_ge (zlen obj) 40)) by done.
  rewrite slice_ok by lia. rstep. rewrite drop_0. change (Z.to_nat (32 - 0)) with 32%nat.
  unfold hashid.FromWire. rewrite (proj2 (Z.ltb_ge _ 32)) by (rewrite length_take; lia). rstep.
  rewrite slice_ok by (rewrite ?length_take; lia). rstep. rewrite drop_0.
  change (Z.to_nat (32 - 0)) with 32%nat. rewrite take_take. done.
Qed.

Lemma handleBlock_gate now prod url obj s :
  104 ≤ zlen obj → fits obj →
  handleBlock now prod url obj s
  = announce_gate now prod url (str "block") (block_id obj)
      (mark_roots now (match tnwire.SubtreeRootsOf obj with Ok roots => roots | _ => [] end)
         (stored now (block_id obj) (str "block") obj s)).
Proof.
  intros Hl Hf. unfold handleBlock, BlockPrefixSize.
  rewrite (proj2 (Z.ltb_ge (zlen obj) 104)) by done.
  rewrite slice_ok by lia. rewrite drop_0. change (Z.to_nat (80 - 0)) with 80%nat. fold (block_id obj).
  pose proof (SubtreeRootsOf_no_panic obj Hf) as Hn. by destruct (tnwire.SubtreeRootsOf obj).
Qed.

Lemma stored_frame now h class obj s :
  seen (stored now h class obj s) = seen s ∧ announced (stored now h class obj s) = announced s ∧
  events (stored now h class obj s) = events s.
Proof. destruct (verifyEcho_frame now h obj s) as (? & ? & ? & _). done. Qed.

Lemma stored_wf now h class obj s : plane_wf s → plane_wf (stored now h class obj s).
Proof.
  intros [Hs Ha]. destruct (stored_frame now h class obj s) as (E1 & E2 & _).
  split; [by rewrite E1|by rewrite E2].
Qed.
End handlers.

(** ** Theorems *)

Section theorems.
Context {O : Objfmt}.

Lemma stored_entry_Get now k c :
  stored_entry k c = None → stored_entry k (snd (cache.Get now k c)) = None.
Proof.
  unfold stored_entry, cache.Get. destruct (c !! shard_index k) as [s|] eqn:E; cbn; [|by rewrite E].
  intros Hs. unfold cache.shard_get. rewrite Hs. cbn.
  by rewrite list_lookup_insert_eq by (by eapply lookup_lt_Some).
Qed.

(** What the cache serves once an object is stored. *)
Lemma stored_servable o now now' h class obj s :
  rtc cache_step (cache.New o) (objects s) → zlen obj ≤ shard_ceiling o →
  time_sub now' now ≤ cache_ttl o →
  ∃ b cl, fst (cache.Get now' h (objects (stored now h class obj s))) = Some (b, cl) ∧
    (stored_entry h (objects s) = None → b = obj ∧ cl = class).
Proof.
  intros Hr Hl Ht. destruct (verifyEcho_frame now h obj s) as (_ & _ & _ & Ho).
  assert (rtc cache_step (cache.New o) (objects (verifyEcho now h obj s))) as Hr'.
  { destruct Ho as [->| ->]; [done|]. eapply rtc_r; [done|constructor]. }
  unfold stored, put_object. cbn [objects].
  rewrite (Get_after_Put o _ now now' h class obj Hr' Hl Ht).
  do 2 eexists. split; [by rewrite <- surjective_pairing|].
  intros Hn. assert (stored_entry h (objects (verifyEcho now h obj s)) = None) as ->.
  { destruct Ho as [->| ->]; [done|by apply stored_entry_Get]. }
  done.
Qed.

(** An object is servable before the cluster hears of it: whatever a subtree
    or block delivery does, right after it and until the TTL passes the
    cache answers for the object's hash, with the delivered frame when the
    hash was not held before, provided the frame fits one cache shard. *)
Theorem delivery_servable (o : cache.Options) (now now' : Z) (prod : producer)
    (url : gostring) (obj : list byte) (s : plane) :
  rtc cache_step (cache.New o) (objects s) → zlen obj ≤ shard_ceiling o → fits obj →
  time_sub now' now ≤ cache_ttl o →
  (40 ≤ zlen obj →
   ∃ b cl, fst (cache.Get now' (subtree_root obj) (objects (snd (handleSubtree now prod url obj s)))) = Some (b, cl) ∧
     (stored_entry (subtree_root obj) (objects s) = None → b = obj ∧ cl = str "subtree")) ∧
  (104 ≤ zlen obj →
   ∃ b cl, fst (cache.Get now' (block_id obj) (objects (snd (handleBlock now prod url obj s)))) = Some (b, cl) ∧
     (stored_entry (block_id obj) (objects s) = None → b = obj ∧ cl = str "block")).
Proof.
  intros Hr Hl Hf Ht. split; intros Hlen.
  - rewrite handleSubtree_gate, gate_objects by done. by apply (stored_servable o).
  - rewrite handleBlock_gate, gate_objects by done.
    rewrite (proj1 (proj2 (proj2 (mark_roots_spec _ _ _)))). by apply (stored_servable o).
Qed.

(** The announce gate of the subtree lane, on every branch: the hash is
    always registered as having crossed the bridge; the bridge's own echo
    and an object the cluster was already told of are never announced; a
    fresh object is announced exactly once per delivery; and it is recorded
    as announced exactly when the announce succeeded (or there is nobody to
    tell), the handler's error being the announce's. *)
Theorem subtree_announce_gate (now : Z) (prod : producer) (url : gostring) (obj : list byte)
    (s : plane) :
  plane_wf s → 40 ≤ zlen obj →
  let root := subtree_root obj in
  let dir := fst (registry.Mark now root registry.Delivered (seen s)) in
  let out := handleSubtree now prod url obj s in
  registry.Lookup root (seen (snd out)) = Some (default registry.Delivered dir) ∧
  (dir = Some registry.Submitted ∨ is_Some (registry.Lookup root (announced s)) →
     fst out = Ok tt ∧ events (snd out) = events s) ∧
  (dir ≠ Some registry.Submitted → registry.Lookup root (announced s) = None →
     match prod with
     | NoProducer =>
         fst out = Ok tt ∧ events (snd out) = events s ∧
         is_Some (registry.Lookup root (announced (snd out)))
     | Announces (Some e) =>
         fst out = Err e ∧ announced (snd out) = announced s ∧
         events (snd out) = events s ++ [mkAnn (str "subtree") (hashid.Display root) url false]
     | Announces None =>
         fst out = Ok tt ∧ is_Some (registry.Lookup root (announced (snd out))) ∧
         events (snd out) = events s ++ [mkAnn (str "subtree") (hashid.Display root) url true]
     end).
Proof.
  intros Hw Hl root dir out. unfold out. rewrite handleSubtree_gate by done. fold root.
  destruct (stored_frame now root (str "subtree") obj s) as (E1 & E2 & E3).
  pose proof (gate_spec now prod url (str "subtree") root _ (stored_wf now root (str "subtree") obj s Hw)) as H.
  cbv zeta in H. rewrite E1, E2, E3 in H. fold dir in H. destruct H as (_ & Hs & He & Hg).
  split_and!; [done| |].
  - intros Hor. destruct (decide (dir = Some registry.Submitted)) as [E|E].
    + by destruct (He E) as (? & ? & _).
    + destruct Hor as [?|Ha]; [done|]. by destruct (proj1 (Hg E) Ha) as (? & ? & _).
  - intros Hd Hn. by apply (proj2 (Hg Hd)).
Qed.

Lemma mark_not_submitted now k r :
  registry_wf r → registry.Lookup k r ≠ Some registry.Submitted →
  fst (registry.Mark now k registry.Delivered r) ≠ Some registry.Submitted.
Proof. intros Hw Hn E. apply Hn. by apply (Mark_known now k registry.Delivered). Qed.

(** A failed announce heals itself: when a subtree's announce fails, its
    next delivery announces it again, and once that succeeds a further
    delivery does not. *)
Theorem failed_announce_retried (now1 now2 now3 : Z) (e : error) (url : gostring) (p : producer)
    (obj : list byte) (s : plane) :
  plane_wf s → 40 ≤ zlen obj →
  registry.Lookup (subtree_root obj) (seen s) ≠ Some registry.Submitted →
  registry.Lookup (subtree_root obj) (announced s) = None →
  let '(r1, s1) := handleSubtree now1 (Announces (Some e)) url obj s in
  let '(r2, s2) := handleSubtree now2 (Announces None) url obj s1 in
  let '(r3, s3) := handleSubtree now3 p url obj s2 in
  let ev := mkAnn (str "subtree") (hashid.Display (subtree_root obj)) url in
  r1 = Err e ∧ r2 = Ok tt ∧ r3 = Ok tt ∧
  events s1 = events s ++ [ev false] ∧ events s2 = events s1 ++ [ev true] ∧ events s3 = events s2.
Proof.
  intros Hw Hl Hns Hna. rewrite handleSubtree_gate by done.
  set (h := subtree_root obj) in *.
  assert (Hstep : ∀ now prod s', plane_wf s' → registry.Lookup h (seen s') ≠ Some registry.Submitted →
    let out := announce_gate now prod url (str "subtree") h (stored now h (str "subtree") obj s') in
    plane_wf (snd out) ∧ registry.Lookup h (seen (snd out)) ≠ Some registry.Submitted ∧
    (is_Some (registry.Lookup h (announced s')) → fst out = Ok tt ∧ events (snd out) = events s') ∧
    (registry.Lookup h (announced s') = None →
      match prod with
      | NoProducer => True
      | Announces (Some e) => fst out = Err e ∧ announced (snd out) = announced s' ∧
          events (snd out) = events s' ++ [mkAnn (str "subtree") (hashid.Display h) url false]
      | Announces None => fst out = Ok tt ∧ is_Some (registry.Lookup h (announced (snd out))) ∧
          events (snd out) = events s' ++ [mkAnn (str "subtree") (hashid.Display h) url true]
      end)).
  { intros now prod s' Hw' Hn'. destruct (stored_frame now h (str "subtree") obj s') as (E1 & E2 & E3).
    pose proof (gate_spec now prod url (str "subtree") h _ (stored_wf now h (str "subtree") obj s' Hw')) as H.
    cbv zeta in H. rewrite E1, E2, E3 in H. destruct H as (Hwf & Hs & _ & Hg).
    pose proof (mark_not_submitted now h (seen s') (pw_seen _ Hw') Hn') as Hd.
    destruct (Hg Hd) as [Hg1 Hg2]. cbv zeta. split_and!; [done| | |].
    - rewrite Hs. intros [= E]. destruct (fst (registry.Mark now h registry.Delivered (seen s'))); cbn in E; congruence.
    - intros Ha. by destruct (Hg1 Ha) as (? & ? & _).
    - intros Ha. specialize (Hg2 Ha). by destruct prod as [|[]]. }
  destruct (Hstep now1 (Announces (Some e)) s Hw Hns) as (Hw1 & Hn1 & _ & H1).
  specialize (H1 Hna). destruct (announce_gate now1 _ _ _ _ _) as [r1 s1].
  cbn [fst snd] in *. destruct H1 as (-> & Ea1 & Ev1).
  rewrite handleSubtree_gate by done. fold h.
  destruct (Hstep now2 (Announces None) s1 Hw1 Hn1) as (Hw2 & Hn2 & _ & H2).
  rewrite Ea1 in H2. specialize (H2 Hna). destruct (announce_gate now2 _ _ _ _ _) as [r2 s2].
  cbn [fst snd] in *. destruct H2 as (-> & Ea2 & Ev2).
  rewrite handleSubtree_gate by done. fold h.
  destruct (Hstep now3 p s2 Hw2 Hn2) as (_ & _ & H3 & _). specialize (H3 Ea2).
  destruct (announce_gate now3 _ _ _ _ _) as [r3 s3]. cbn [fst snd] in *. destruct H3 as [-> Ev3].
  done.
Qed.

Lemma handleBlock_seen now prod url b s :
  let obj := block_frame b in
  fits obj → block_typed b → length (encode.Header b) = 80%nat →
  seen (snd (handleBlock now prod url obj s))
  = marks ((λ r, mkMark now r registry.Delivered) <$> encode.SubtreeRoots b ++ [block_id obj]) (seen s).
Proof.
  intros obj Hf Ht Hh. rewrite handleBlock_gate; [|unfold obj; rewrite frame_lengths; lia|done].
  unfold obj. rewrite SubtreeRootsOf_frame by done. fold obj.
  set (s1 := mark_roots _ _ _).
  assert (seen (snd (announce_gate now prod url (str "block") (block_id obj) s1))
    = snd (registry.Mark now (block_id obj) registry.Delivered (seen s1))) as ->.
  { unfold announce_gate, mark_seen. destruct (registry.Mark _ _ _ (seen s1)) as [d r].
    case_bool_decide; [done|]. cbn [announced]. destruct (registry.Lookup _ _); [done|].
    by destruct prod as [|[]]. }
  unfold s1. rewrite (proj1 (mark_roots_spec _ _ _)).
  rewrite (proj1 (stored_frame now (block_id obj) (str "block") obj s)).
  unfold marks. rewrite fmap_app, foldl_app. done.
Qed.

Lemma marks_app ms ms' r : marks (ms ++ ms') r = marks ms' (marks ms r).
Proof. unfold marks. by rewrite foldl_app. Qed.

(** Marking a list of hashes at one moment leaves all of them known, as long
    as the list is shorter than a shard's capacity. *)
Lemma marks_all_known start t n now before hs h :
  t < two63 → 2 ≤ reg_ttl t → zlen hs ≤ reg_cap n → h ∈ hs →
  is_Some (registry.Lookup h
    (marks ((λ r, mkMark now r registry.Delivered) <$> hs) (marks before (registry.New start t n)))).
Proof.
  intros Ht Ht2 Hn (l1 & l2 & ->)%list_elem_of_split. rewrite fmap_app, marks_app, <- (marks_app before).
  set (mk := λ r, mkMark now r registry.Delivered). rewrite fmap_cons. set (ms := mk <$> l2).
  assert (0 < Z.quot (reg_ttl t) 2).
  { rewrite Z.quot_div_nonneg by lia. apply Z.div_str_pos. lia. }
  destruct (marks_keep start t n now (before ++ (mk <$> l1)) ms h registry.Delivered Ht) as [Hk _].
  - apply list.Forall_forall. intros m [_ (r & -> & _)%list_elem_of_fmap]%list_elem_of_filter.
    cbn. lia.
  - pose proof (length_filter (λ m, shard_index (m_key m) = shard_index h) ms) as Hlen.
    unfold marks_on. unfold ms in *. rewrite length_fmap in Hlen.
    rewrite length_app in Hn. cbn [length] in Hn. lia.
  - unfold is_Some. eexists. exact Hk.
Qed.

(** A delivered block vouches for its subtrees: after a block frame is
    handled, the block's hash and every subtree root it names are known to
    the origin filter, whatever the announce did, as long as the block names
    fewer subtrees than a registry shard holds. *)
Theorem block_registers_subtrees (start t n now : Z) (before : list mark) (prod : producer)
    (url : gostring) (b : encode.Block) (s : plane) (h : Hash) :
  seen s = marks before (registry.New start t n) →
  t < two63 → 2 ≤ reg_ttl t → zlen (encode.SubtreeRoots b) < reg_cap n →
  fits (block_frame b) → block_typed b → length (encode.Header b) = 80%nat →
  h ∈ encode.SubtreeRoots b ++ [block_id (block_frame b)] →
  is_Some (registry.Lookup h (seen (snd (handleBlock now prod url (block_frame b) s)))).
Proof.
  intros Hs Ht Ht2 Hn Hf Hty Hh Hin. rewrite handleBlock_seen, Hs by done.
  apply marks_all_known; [done|done| |done]. rewrite length_app. simpl. lia.
Qed.

(** ** The transaction lane *)

(** A lane connection: its objects in order, each with the clock reading at
    which it is handled. A full queue makes the session wait ([None]). *)
Fixpoint session (objs : list (Z * list byte)) (txs : generational.Generational)
    (run : list txpipe.job) (p : txpipe.Pipe)
    : option (generational.Generational * list txpipe.job * txpipe.Pipe) :=
  match objs with
  | [] => Some (txs, run, p)
  | (now, obj) :: objs =>
      match session_Handle now obj txs run p with
      | (_, txs, run, p, true) => session objs txs run p
      | (_, _, _, _, false) => None
      end
  end.

(** The transactions the lane admits as new, in order. *)
Fixpoint fresh_jobs (objs : list (Z * list byte)) (txs : generational.Generational)
    : list txpipe.job :=
  match objs with
  | [] => []
  | (now, obj) :: objs =>
      match admitTx now obj txs with
      | (Ok (id, true), txs) => txpipe.mkJob obj id :: fresh_jobs objs txs
      | (_, txs) => fresh_jobs objs txs
      end
  end.

Definition queued_jobs (p : txpipe.Pipe) : list txpipe.job := concat (concat (txpipe.ins p)).

Lemma send_queued i js p p' :
  txpipe.send i js p = Some p' →
  queued_jobs p' ≡ₚ queued_jobs p ++ js ∧ txpipe.enqueued p' = txpipe.enqueued p + zlen js.
Proof.
  unfold txpipe.send, queued_jobs. destruct (txpipe.ins p !! i) as [q|] eqn:E; [|done].
  destruct (_ <? _); [|done]. intros [= <-]. cbn [txpipe.ins txpipe.enqueued]. split; [|done].
  rewrite <- (take_drop_middle _ _ _ E) at 2.
  rewrite insert_take_drop by (by eapply lookup_lt_Some).
  rewrite !concat_app, !concat_cons, !concat_app. cbn [concat].
  rewrite app_nil_r, <- !app_assoc. apply Permutation_app_head, Permutation_app_head.
  apply Permutation_app_comm.
Qed.

Lemma session_Handle_spec now obj txs run p :
  zlen run < txpipe.BatchCap →
  match session_Handle now obj txs run p with
  | (_, txs', run', p', true) =>
      txs' = snd (admitTx now obj txs) ∧ zlen run' < txpipe.BatchCap ∧
      queued_jobs p' ++ run' ≡ₚ queued_jobs p ++ run ++
        (match fst (admitTx now obj txs) with
         | Ok (id, true) => [txpipe.mkJob obj id] | _ => [] end)
  | (_, _, _, _, false) => True
  end.
Proof.
  intros Hr. unfold session_Handle.
  destruct (admitTx now obj txs) as [[[id []]| |] txs']; cbn [fst snd]; rewrite ?app_nil_r; try done.
  unfold txpipe.Batch_Add. set (run1 := run ++ [txpipe.mkJob obj id]).
  destruct (Z.leb_spec txpipe.BatchCap (zlen run1)); [|done].
  unfold txpipe.Batch_Flush. destruct (Z.eqb_spec (zlen run1) 0) as [E0|E0].
  { unfold run1 in E0. rewrite length_app in E0. cbn in E0. lia. }
  set (p1 := txpipe.mkPipe _ _ _ _ _ _).
  destruct (txpipe.send _ run1 p1) as [p'|] eqn:E; [|done].
  apply send_queued in E as [E _]. rewrite app_nil_r. split_and!; [done..|exact E].
Qed.

(** A lane connection hands every new transaction to the pipe exactly once:
    after any sequence of objects, what the session queued on the builders
    and what waits in its run is what was there before and the transactions
    admitted as new, and the run is always shorter than its flush size. *)
Theorem session_conserves (objs : list (Z * list byte)) (txs txs' : generational.Generational)
    (run run' : list txpipe.job) (p p' : txpipe.Pipe) :
  zlen run < txpipe.BatchCap → session objs txs run p = Some (txs', run', p') →
  zlen run' < txpipe.BatchCap ∧
  queued_jobs p' ++ run' ≡ₚ queued_jobs p ++ run ++ fresh_jobs objs txs.
Proof.
  revert txs run p. induction objs as [|[now obj] objs IH]; intros txs run p Hr; cbn [session fresh_jobs].
  { intros [= <- <- <-]. by rewrite app_nil_r. }
  pose proof (session_Handle_spec now obj txs run p Hr) as H.
  destruct (session_Handle now obj txs run p) as [[[[r txs1] run1] p1] []]; [|done].
  destruct H as (-> & Hr1 & Hq). intros Hs. destruct (IH _ _ _ Hr1 Hs) as [Hr' Hq'].
  split; [done|]. rewrite Hq', app_assoc, Hq.
  destruct (admitTx now obj txs) as [[[id []]| |] txs1]; cbn [fst snd];
    by rewrite <- ?app_assoc, ?app_nil_r.
Qed.

(** The transaction lane refuses what is not extended format, and refusing
    costs nothing: a standard-format transaction is answered with the
    rejection marker and neither the cache nor the run nor the pipe
    changes. *)
Theorem non_ef_refused (now : Z) (obj : list byte) (txs : generational.Generational)
    (run : list txpipe.job) (p : txpipe.Pipe) :
  IsEF obj = false →
  ∃ msg, session_Handle now obj txs run p = (Err (EReject msg), txs, run, p, true) ∧
         handleTx now obj txs (Some p) = (Err (EReject msg), txs, Some p, true).
Proof. intros H. unfold session_Handle, handleTx, admitTx. rewrite H. by eexists. Qed.
End theorems.

(** ** Witnesses *)

Definition hx_plane : plane :=
  mkPlane (cache.New (cache.mkOptions 64000 1000)) (registry.New 0 1000 6400)
    (registry.New 0 1000 6400) [] 0 0.
Definition hx_obj : list byte := replicate 72 x01.

Lemma hx_plane_wf : plane_wf hx_plane.
Proof. split; apply New_registry_wf. Qed.

Lemma delivery_servable_witness :
  ∃ b cl, fst (cache.Get 7 (subtree_root hx_obj)
            (objects (snd (handleSubtree 5 (Announces None) (str "u") hx_obj hx_plane)))) = Some (b, cl) ∧
    (stored_entry (subtree_root hx_obj) (objects hx_plane) = None → b = hx_obj ∧ cl = str "subtree").
Proof.
  destruct (delivery_servable (cache.mkOptions 64000 1000) 5 7 (Announces None) (str "u") hx_obj hx_plane)
    as [H _].
  - apply rtc_refl.
  - vm_compute. discriminate.
  - vm_compute. reflexivity.
  - vm_compute. discriminate.
  - apply H. vm_compute. discriminate.
Defined.

Lemma subtree_announce_gate_witness :
  events (snd (handleSubtree 5 (Announces None) (str "u") hx_obj hx_plane))
  = [mkAnn (str "subtree") (hashid.Display (subtree_root hx_obj)) (str "u") true].
Proof.
  destruct (subtree_announce_gate 5 (Announces None) (str "u") hx_obj hx_plane hx_plane_wf)
    as (_ & _ & H).
  - vm_compute. discriminate.
  - destruct H as (_ & _ & H); [vm_compute; discriminate|vm_compute; reflexivity|exact H].
Defined.

Lemma failed_announce_retried_witness :
  let '(r1, s1) := handleSubtree 5 (Announces (Some (EMsg "down"))) (str "u") hx_obj hx_plane in
  let '(r2, s2) := handleSubtree 6 (Announces None) (str "u") hx_obj s1 in
  r1 = Err (EMsg "down") ∧ r2 = Ok tt ∧ length (events s2) = 2%nat.
Proof.
  pose proof (failed_announce_retried 5 6 7 (EMsg "down") (str "u") NoProducer hx_obj hx_plane
    hx_plane_wf) as H.
  destruct (handleSubtree 5 _ _ _ _) as [r1 s1], (handleSubtree 6 _ _ _ s1) as [r2 s2],
    (handleSubtree 7 _ _ _ s2) as [r3 s3].
  destruct H as (-> & -> & _ & E1 & E2 & _); [vm_compute; discriminate|vm_compute; discriminate|vm_compute; reflexivity|].
  rewrite E2, E1. done.
Defined.

Definition hx_block : encode.Block :=
  encode.mkBlock (replicate 80 x07) 3 500 [copy32 [x01]; copy32 [x02]] (replicate 10 x00) 9 [].

Lemma block_registers_subtrees_witness :
  is_Some (registry.Lookup (copy32 [x02])
    (seen (snd (handleBlock 5 (Announces None) (str "u") (block_frame hx_block) hx_plane)))).
Proof.
  apply (block_registers_subtrees 0 1000 6400 5 []).
  - reflexivity.
  - vm_compute. reflexivity.
  - vm_compute. discriminate.
  - vm_compute. reflexivity.
  - vm_compute. reflexivity.
  - repeat split; vm_compute; congruence.
  - reflexivity.
  - right. left.
Defined.

Definition hx_pipe : txpipe.Pipe := txpipe.mkPipe (txpipe.defaults ex_cfg) [[]] 4 0 0 0.
Definition hx_tx : list byte := [x04] ++ str "ers" ++ ef_bytes ++ replicate 4 x01.

Lemma session_conserves_witness :
  match session [(1, hx_tx); (2, hx_tx)] (generational.NewGenerational 0 gx_opts) [] hx_pipe with
  | Some (_, run', p') => queued_jobs p' ++ run' ≡ₚ [txpipe.mkJob hx_tx (hashid.DoubleSHA256 hx_tx)]
  | None => False
  end.
Proof.
  destruct (session [(1, hx_tx); (2, hx_tx)] (generational.NewGenerational 0 gx_opts) [] hx_pipe)
    as [[[txs' run'] p']|] eqn:E; [|vm_compute in E; discriminate E].
  apply session_conserves in E as [_ E]; [|vm_compute; reflexivity].
  rewrite E. vm_compute. reflexivity.
Defined.

Lemma non_ef_refused_witness :
  ∃ msg, handleTx 1 (replicate 20 x01) None (Some hx_pipe)
         = (Err (EReject msg), None, Some hx_pipe, true).
Proof.
  destruct (non_ef_refused 1 (replicate 20 x01) None [] hx_pipe) as (m & _ & H).
  - vm_compute. reflexivity.
  - exists m. exact H.
Defined.
