(* ===== verification/FirstPull.v ===== *)
(** * The announce-to-first-pull stopwatch

    [FirstPull] of [src/internal/obs/obs.go]: the producer starts it when an
    announcement is acknowledged, the retrieval plane stops it at the first
    pull. The tracker is bounded and best effort. A nil tracker is [None]; the
    clock is an argument; the histogram observation is a result. *)

From Stdlib Require Import Strings.Byte.
From stdpp Require Import base list strings numbers gmap.
From S2P Require Import Prelude.

Module obs.
(** The zero [time.Time], in nanoseconds of the Unix epoch. *)
Definition zero_time : Z := -62135596800000000000.
Definition Second : Z := 1000000000.
Definition Minute : Z := 60 * Second.

Record entry : Type := mkEntry { e_t : Z; e_class : gostring }.

Record FirstPull : Type := mkFP {
  at_ : gmap gostring entry; max : Z; ttl : Z; lastGC : Z
}.

Definition NewFirstPull (capacity ttl : Z) : FirstPull :=
  mkFP ∅ (if capacity <=? 0 then 2 ^ 16 else capacity) (if ttl <=? 0 then 10 * Minute else ttl)
    zero_time.

Definition gc (now : Z) (f : FirstPull) : FirstPull :=
  if time_sub now (lastGC f) <? Second then f
  else mkFP (filter (λ ke, ¬ ttl f < time_sub now (e_t (snd ke))) (at_ f)) (max f) (ttl f) now.

Definition Announced (now : Z) (key class : gostring) (f : option FirstPull) : option FirstPull :=
  match f with
  | None => None
  | Some f =>
      let f := gc now f in
      if max f <=? Z.of_nat (size (at_ f)) then Some f
      else Some (mkFP (<[key := mkEntry now class]> (at_ f)) (max f) (ttl f) (lastGC f))
  end.

(** The observation is the class and the delay. *)
Definition Pulled (now : Z) (key : gostring) (f : option FirstPull)
    : option (gostring * Z) * option FirstPull :=
  match f with
  | None => (None, None)
  | Some f =>
      match at_ f !! key with
      | Some e => (Some (e_class e, time_sub now (e_t e)),
                   Some (mkFP (delete key (at_ f)) (max f) (ttl f) (lastGC f)))
      | None => (None, Some f)
      end
  end.

Definition Len (f : option FirstPull) : Z :=
  match f with None => 0 | Some f => Z.of_nat (size (at_ f)) end.
End obs.

Import obs.

Inductive fp_op : Type :=
| FAnnounced (now : Z) (key class : gostring)
| FPulled (now : Z) (key : gostring).

Definition fp_step (f : option FirstPull) (o : fp_op) : option FirstPull :=
  match o with
  | FAnnounced now key class => Announced now key class f
  | FPulled now key => snd (Pulled now key f)
  end.
Definition fp_run (ops : list fp_op) (f : option FirstPull) : option FirstPull :=
  foldl fp_step f ops.

Definition fp_capacity (capacity : Z) : Z := if capacity <=? 0 then 2 ^ 16 else capacity.
Definition fp_ttl (ttl : Z) : Z := if ttl <=? 0 then 10 * Minute else ttl.

(** ** Boundedness *)

Definition fp_ok (m t : Z) (f : option FirstPull) : Prop :=
  match f with
  | Some f => max f = m ∧ ttl f = t ∧ Z.of_nat (size (at_ f)) ≤ m
  | None => False
  end.

Lemma gc_size now f : (size (at_ (gc now f)) ≤ size (at_ f))%nat.
Proof.
  unfold gc. case_match; [done|]. cbn [at_]. apply map_subseteq_size, map_filter_subseteq.
Qed.

Lemma gc_config now f : max (gc now f) = max f ∧ ttl (gc now f) = ttl f.
Proof. unfold gc. by case_match. Qed.

Lemma size_insert_le {A} (m : gmap gostring A) k x : (size (<[k := x]> m) ≤ S (size m))%nat.
Proof.
  destruct (m !! k) eqn:E.
  - rewrite map_size_insert_Some by eauto. lia.
  - rewrite map_size_insert_None by done. lia.
Qed.

Lemma size_delete_le {A} (m : gmap gostring A) k : (size (delete k m) ≤ size m)%nat.
Proof. apply map_subseteq_size, delete_subseteq. Qed.

Lemma fp_step_ok m t f o : fp_ok m t f → fp_ok m t (fp_step f o).
Proof.
  destruct f as [f|]; [|done]. intros (Hm & Ht & Hs). destruct o as [now k c|now k]; cbn.
  - destruct (gc_config now f) as [E1 E2]. pose proof (gc_size now f).
    destruct (Z.leb_spec (max (gc now f)) (Z.of_nat (size (at_ (gc now f))))).
    + cbn. split_and!; [congruence|congruence|lia].
    + cbn. pose proof (size_insert_le (at_ (gc now f)) k (mkEntry now c)).
      split_and!; [congruence|congruence|lia].
  - destruct (at_ f !! k); cbn; [|done]. pose proof (size_delete_le (at_ f) k).
    split_and!; [done|done|lia].
Qed.

Lemma fp_run_ok m t ops f : fp_ok m t f → fp_ok m t (fp_run ops f).
Proof.
  unfold fp_run. revert f; induction ops as [|o ops IH]; intros f Hf; [done|].
  by apply IH, fp_step_ok.
Qed.

(** The tracker never holds more announcements than its capacity, whatever is
    announced and pulled, in any order and at any clock readings. *)
Theorem first_pull_bounded (capacity ttl : Z) (ops : list fp_op) :
  Len (fp_run ops (Some (NewFirstPull capacity ttl))) ≤ fp_capacity capacity.
Proof.
  pose proof (fp_run_ok (fp_capacity capacity) (fp_ttl ttl) ops (Some (NewFirstPull capacity ttl))) as H.
  destruct (fp_run ops _) as [f|]; cbn [Len fp_ok] in *; [apply H|exfalso; apply H];
    (split_and!; [done|done|]; unfold fp_capacity; cbn [NewFirstPull at_]; rewrite map_size_empty; repeat bdestruct_guard; lia).
Qed.

(** ** Observation *)

Definition op_key (o : fp_op) : gostring :=
  match o with FAnnounced _ k _ => k | FPulled _ k => k end.
Definition op_now (o : fp_op) : Z :=
  match o with FAnnounced now _ _ => now | FPulled now _ => now end.

Definition tracked (t : Z) (k : gostring) (e : entry) (f : option FirstPull) : Prop :=
  match f with Some f => at_ f !! k = Some e ∧ ttl f = t | None => False end.

Lemma gc_keeps now f k e :
  at_ f !! k = Some e → time_sub now (e_t e) ≤ ttl f → at_ (gc now f) !! k = Some e.
Proof.
  intros Hk Ht. unfold gc. case_match; [done|]. cbn [at_].
  apply map_lookup_filter_Some. cbn. split; [done|lia].
Qed.

Lemma tracked_step t k e f o :
  tracked t k e f → op_key o ≠ k → time_sub (op_now o) (e_t e) ≤ t → tracked t k e (fp_step f o).
Proof.
  destruct f as [f|]; [|done]. intros [Hk Ht] Hne Hnow. destruct o as [now k' c|now k']; cbn in *.
  - pose proof (gc_keeps now f k e Hk ltac:(lia)) as Hg. destruct (gc_config now f) as [_ Hc].
    destruct (_ <=? _); cbn; split; try congruence. by rewrite lookup_insert_ne.
  - destruct (at_ f !! k'); cbn; split; try done. by rewrite lookup_delete_ne.
Qed.

Lemma tracked_run t k e ops f :
  tracked t k e f → Forall (λ o, op_key o ≠ k ∧ time_sub (op_now o) (e_t e) ≤ t) ops →
  tracked t k e (fp_run ops f).
Proof.
  unfold fp_run. revert f; induction ops as [|o ops IH]; intros f Hf Ho; [done|].
  apply Forall_cons in Ho as [[Hk Ht] Ho]. apply IH; [by apply tracked_step|done].
Qed.

(** An announcement the tracker has room for is timed exactly once: whatever
    else is announced and pulled within the retention window, the first pull
    observes the announced class and the time since the announcement, and the
    next pull observes nothing. *)
Theorem first_pull_observed (f : FirstPull) (t0 now now' : Z) (k class : gostring)
    (ops : list fp_op) :
  Z.of_nat (size (at_ (gc t0 f))) < max f →
  Forall (λ o, op_key o ≠ k ∧ time_sub (op_now o) t0 ≤ ttl f) ops →
  let '(obs1, f1) := Pulled now k (fp_run ops (Announced t0 k class (Some f))) in
  obs1 = Some (class, time_sub now t0) ∧ fst (Pulled now' k f1) = None.
Proof.
  intros Hroom Hops. destruct (gc_config t0 f) as [Em Et].
  assert (tracked (ttl f) k (mkEntry t0 class) (Announced t0 k class (Some f))) as H0.
  { cbn. rewrite Em. destruct (Z.leb_spec (max f) (Z.of_nat (size (at_ (gc t0 f))))); [lia|].
    cbn. split; [apply lookup_insert_eq|done]. }
  pose proof (tracked_run _ _ _ _ _ H0 Hops) as H.
  destruct (fp_run _ _) as [g|]; [|done]. destruct H as [Hk _]. cbn [Pulled].
  rewrite Hk. cbn [e_class e_t]. split; [done|]. cbn. by rewrite lookup_delete_eq.
Qed.

Lemma first_pull_observed_witness :
  let f := NewFirstPull 10 0 in
  fst (Pulled 7 (str "k") (fp_run [FAnnounced 5 (str "j") (str "block")]
         (Announced 3 (str "k") (str "subtree") (Some f)))) = Some (str "subtree", 4).
Proof.
  pose proof (first_pull_observed (NewFirstPull 10 0) 3 7 8 (str "k") (str "subtree")
    [FAnnounced 5 (str "j") (str "block")]) as H.
  destruct (Pulled 7 (str "k") _) as [o f1] eqn:E.
  cbv zeta. rewrite E. cbn [fst]. apply H.
  - vm_compute. reflexivity.
  - apply Forall_singleton. split; [vm_compute; congruence|vm_compute; discriminate].
Defined.
