(* ===== verification/Announce.v ===== *)
(** * announce: telling the cluster what to fetch

    [src/announce/announce.go]: the announcement message and its protobuf
    encoding, and the producer that publishes it. The field-level codec
    ([google.golang.org/protobuf/encoding/protowire]) and the Kafka client are
    separate modules: the codec is the class [Protowire] with the laws its
    documentation states, the broker's answer to a produce is an argument, and
    the records it acknowledged are kept in order. *)

From Stdlib Require Import Strings.Byte.
From stdpp Require Import base list strings numbers gmap.
From S2P Require Import Prelude FirstPull.

Class Protowire : Type := {
  AppendTag : list byte → Z → Z → list byte;
  AppendString : list byte → gostring → list byte;
  ConsumeTag : list byte → Z * Z * Z;
  ConsumeString : list byte → gostring * Z;
  ConsumeFieldValue : Z → Z → list byte → Z
}.

(** [protowire.BytesType]. *)
Definition BytesType : Z := 2.

Class ProtowireLaws (P : Protowire) : Prop := {
  append_tag b num typ : AppendTag b num typ = b ++ AppendTag [] num typ;
  append_string b s : AppendString b s = b ++ AppendString [] s;
  (** What was appended is consumed, whatever follows it. *)
  consume_tag num rest : 1 ≤ num ≤ 15 →
    ConsumeTag (AppendTag [] num BytesType ++ rest) = (num, BytesType, zlen (AppendTag [] num BytesType));
  consume_string s rest : fits s →
    ConsumeString (AppendString [] s ++ rest) = (s, zlen (AppendString [] s));
  (** A length that is not negative is within the buffer, and a tag is not empty. *)
  consume_tag_len b num typ n : ConsumeTag b = (num, typ, n) → 0 ≤ n → 1 ≤ n ≤ zlen b;
  consume_string_len b s n : ConsumeString b = (s, n) → 0 ≤ n → n ≤ zlen b;
  consume_field_len num typ b : 0 ≤ ConsumeFieldValue num typ b → ConsumeFieldValue num typ b ≤ zlen b
}.

Module announce.
Record Message : Type := mkMsg { m_Hash : gostring; m_URL : gostring; m_PeerID : gostring }.

Section codec.
Context {P : Protowire}.

Definition Encode (m : Message) : list byte :=
  let b := [] in
  let b := if bool_decide (m_Hash m ≠ []) then
             AppendString (AppendTag b 1 BytesType) (m_Hash m) else b in
  let b := if bool_decide (m_URL m ≠ []) then
             AppendString (AppendTag b 2 BytesType) (m_URL m) else b in
  let b := if bool_decide (m_PeerID m ≠ []) then
             AppendString (AppendTag b 3 BytesType) (m_PeerID m) else b in
  b.

Definition set_field (num : Z) (v : gostring) (m : Message) : Message :=
  if num =? 1 then mkMsg v (m_URL m) (m_PeerID m)
  else if num =? 2 then mkMsg (m_Hash m) v (m_PeerID m)
  else if num =? 3 then mkMsg (m_Hash m) (m_URL m) v
  else m.

(** [protowire.ParseError]. *)
Definition ParseError : error := EMsg "protowire".

(** [b = b[n:]] and around the loop again. *)
Definition advance (b : list byte) (n : Z) (m : Message)
    : Message * list byte + res (Message * option error) :=
  match slice_from b n with
  | Ok b => inl (m, b)
  | Err e => inr (Err e)
  | Panic => inr Panic
  end.

(** The body of [for len(b) > 0]. *)
Definition decode_body (s : Message * list byte)
    : Message * list byte + res (Message * option error) :=
  let '(m, b) := s in
  if zlen b =? 0 then inr (Ok (m, None)) else
  let '(num, typ, n) := ConsumeTag b in
  if n <? 0 then inr (Ok (m, Some ParseError)) else
  match advance b n m with
  | inr r => inr r
  | inl (m, b) =>
      if negb (typ =? BytesType) then
        let n := ConsumeFieldValue num typ b in
        if n <? 0 then inr (Ok (m, Some ParseError)) else advance b n m
      else
        let '(v, n) := ConsumeString b in
        if n <? 0 then inr (Ok (m, Some ParseError)) else advance b n (set_field num v m)
  end.

(** Every iteration consumes at least the tag, so one more than the length of
    the buffer bounds the iterations. *)
Definition Decode (b : list byte) : res (Message * option error) :=
  match loop_nat decode_body (S (length b)) (mkMsg [] [] [], b) with
  | inr r => r
  | inl _ => Panic
  end.

(** ** The producer *)

Record Config : Type := mkConfig {
  Brokers : list gostring; SubtreeTopic : gostring; BlockTopic : gostring;
  PeerID : gostring; Timeout : Z
}.

(** [acked]: the records the broker acknowledged, topic and value. *)
Record Producer : Type := mkProducer {
  cfg : Config; firstPull : option obs.FirstPull;
  subtrees : Z; blocks : Z; failures : Z; acked : list (gostring * list byte)
}.

(** [NewClient] is whether [kgo.NewClient] accepts its options, of which only
    the seed brokers are not constant. *)
Definition New (NewClient : list gostring → bool) (c : Config) : res Producer :=
  _ ← guard_err (zlen (Brokers c) =? 0) (EMsg "announce: no brokers configured");
  let c := if Timeout c <=? 0
           then mkConfig (Brokers c) (SubtreeTopic c) (BlockTopic c) (PeerID c) (10 * obs.Second)
           else c in
  _ ← guard_err (negb (NewClient (Brokers c))) (EMsg "announce: kafka client");
  Ok (mkProducer c None 0 0 0 []).

Definition SetFirstPull (f : option obs.FirstPull) (p : Producer) : Producer :=
  mkProducer (cfg p) f (subtrees p) (blocks p) (failures p) (acked p).

(** [broker] is what [ProduceSync] returns for this record. *)
Definition produce (now : Z) (broker : option error) (topic class : gostring) (m : Message)
    (p : Producer) : option error * Producer :=
  if bool_decide (topic = []) then (Some (EMsg "announce: empty topic"), p) else
  match broker with
  | Some e => (Some e, p)
  | None =>
      (None, mkProducer (cfg p) (obs.Announced now (m_Hash m) class (firstPull p))
               (subtrees p) (blocks p) (failures p) (acked p ++ [(topic, Encode m)]))
  end.

Definition add_failure (p : Producer) : Producer :=
  mkProducer (cfg p) (firstPull p) (subtrees p) (blocks p) (u64 (failures p + 1)) (acked p).

Definition Subtree (now : Z) (broker : option error) (hash baseURL : gostring) (p : Producer)
    : option error * Producer :=
  match produce now broker (SubtreeTopic (cfg p)) (str "subtree")
          (mkMsg hash baseURL (PeerID (cfg p))) p with
  | (Some e, p) => (Some e, add_failure p)
  | (None, p) =>
      (None, mkProducer (cfg p) (firstPull p) (u64 (subtrees p + 1)) (blocks p) (failures p) (acked p))
  end.

Definition Block (now : Z) (broker : option error) (hash baseURL : gostring) (p : Producer)
    : option error * Producer :=
  match produce now broker (BlockTopic (cfg p)) (str "block")
          (mkMsg hash baseURL (PeerID (cfg p))) p with
  | (Some e, p) => (Some e, add_failure p)
  | (None, p) =>
      (None, mkProducer (cfg p) (firstPull p) (subtrees p) (u64 (blocks p + 1)) (failures p) (acked p))
  end.
End codec.
End announce.

Import announce.

Section theorems.
Context {P : Protowire} {L : ProtowireLaws P}.

(** ** The loop of [Decode] *)

Definition decodes (m : Message) (b : list byte) (r : res (Message * option error)) : Prop :=
  ∃ n, (n ≤ S (length b))%nat ∧ loop_nat decode_body n (m, b) = inr r.

Lemma decodes_Decode b r : decodes (mkMsg [] [] []) b r → Decode b = r.
Proof.
  intros (n & Hn & Hr). unfold Decode.
  replace (S (length b)) with (n + (S (length b) - n))%nat by lia.
  by rewrite loop_nat_add, Hr.
Qed.

Lemma decodes_done m b r : decode_body (m, b) = inr r → decodes m b r.
Proof. intros H. exists 1%nat. split; [lia|]. cbn [loop_nat]. by rewrite H. Qed.

Lemma decodes_step m b m' b' r :
  decode_body (m, b) = inl (m', b') → (length b' < length b)%nat →
  decodes m' b' r → decodes m b r.
Proof.
  intros Hb Hl (n & Hn & Hr). exists (S n). split; [lia|]. cbn [loop_nat]. by rewrite Hb.
Qed.

Lemma advance_ok b n m :
  0 ≤ n ≤ zlen b → advance b n m = inl (m, drop (Z.to_nat n) b).
Proof.
  intros Hn. unfold advance. rewrite (slice_from_field b (take (Z.to_nat n) b) (drop (Z.to_nat n) b)).
  - done.
  - by rewrite take_drop.
  - rewrite length_take. lia.
Qed.

(** An iteration on a buffer that is not empty ends the decode without a
    panic or leaves a shorter buffer. *)
Lemma decode_body_progress m b :
  b ≠ [] →
  (∃ x, decode_body (m, b) = inr (Ok x)) ∨
  ∃ m' b', decode_body (m, b) = inl (m', b') ∧ (length b' < length b)%nat.
Proof.
  intros Hb. unfold decode_body. destruct (Z.eqb_spec (zlen b) 0); [destruct b; simpl in *; [done|lia]|].
  destruct (ConsumeTag b) as [[num typ] n1] eqn:E1. destruct (Z.ltb_spec n1 0) as [|Hn0]; [by left; eexists|].
  pose proof (consume_tag_len _ _ _ _ E1 Hn0) as Hn1. rewrite advance_ok by lia.
  set (b1 := drop (Z.to_nat n1) b). assert (zlen b1 = zlen b - n1) as Hb1.
  { unfold b1. rewrite length_drop. lia. }
  destruct (negb (typ =? BytesType)).
  - destruct (Z.ltb_spec (ConsumeFieldValue num typ b1) 0) as [|Hn2]; [by left; eexists|].
    pose proof (consume_field_len num typ b1 Hn2). rewrite advance_ok by lia.
    right. do 2 eexists. split; [done|]. rewrite length_drop. lia.
  - destruct (ConsumeString b1) as [v n2] eqn:E2. destruct (Z.ltb_spec n2 0) as [|Hn2]; [by left; eexists|].
    pose proof (consume_string_len _ _ _ E2 Hn2). rewrite advance_ok by lia.
    right. do 2 eexists. split; [done|]. rewrite length_drop. lia.
Qed.

Lemma decodes_total b m : ∃ x, decodes m b (Ok x).
Proof.
  remember (length b) as k eqn:Hk. revert b m Hk.
  induction (lt_wf k) as [k _ IH]. intros b m ->.
  destruct (decide (b = [])) as [->|Hb]; [eexists; by apply decodes_done|].
  destruct (decode_body_progress m b Hb) as [[x Hx]|(m' & b' & Hs & Hl)].
  - exists x. by apply decodes_done.
  - destruct (IH _ Hl b' m' eq_refl) as [x Hx]. exists x. by eapply decodes_step.
Qed.

(** ** Round trip *)

Definition field (num : Z) (v : gostring) : list byte :=
  if bool_decide (v ≠ []) then AppendTag [] num BytesType ++ AppendString [] v else [].

Lemma append_field b num v :
  (if bool_decide (v ≠ []) then AppendString (AppendTag b num BytesType) v else b) = b ++ field num v.
Proof.
  unfold field. case_bool_decide; [|by rewrite app_nil_r].
  by rewrite append_string, (append_tag b), <- app_assoc.
Qed.

Lemma Encode_fields m : Encode m = field 1 (m_Hash m) ++ field 2 (m_URL m) ++ field 3 (m_PeerID m).
Proof. unfold Encode. cbv zeta. by rewrite !append_field, app_nil_l, <- app_assoc. Qed.

Lemma decodes_field num v m rest r :
  1 ≤ num ≤ 15 → fits v → (v = [] → set_field num v m = m) →
  decodes (set_field num v m) rest r → decodes m (field num v ++ rest) r.
Proof.
  intros Hnum Hv Hempty Hr. unfold field. case_bool_decide as Hne.
  2: { rewrite <- Hempty; [done|]. by destruct (decide (v = [])). }
  pose proof (consume_tag num (AppendString [] v ++ rest) Hnum) as Htag.
  pose proof (consume_tag_len _ _ _ _ Htag ltac:(lia)) as Hpos.
  rewrite <- app_assoc. eapply decodes_step; [| |exact Hr].
  - unfold decode_body. rewrite (proj2 (Z.eqb_neq _ _)) by lia. rewrite Htag.
    rewrite (proj2 (Z.ltb_ge _ _)) by lia. unfold advance at 1. rewrite slice_from_app by done.
    change (negb (BytesType =? BytesType)) with false. cbv iota.
    rewrite consume_string by done. rewrite (proj2 (Z.ltb_ge _ _)) by lia.
    unfold advance. by rewrite slice_from_app by done.
  - rewrite !length_app. lia.
Qed.

Lemma Decode_Encode m :
  fits (m_Hash m) → fits (m_URL m) → fits (m_PeerID m) → Decode (Encode m) = Ok (m, None).
Proof.
  intros H1 H2 H3. apply decodes_Decode. rewrite Encode_fields.
  rewrite <- (app_nil_r (field 3 _)).
  apply decodes_field; [lia|done|by intros ->|]. apply decodes_field; [lia|done|by intros ->|].
  apply decodes_field; [lia|done|by intros ->|]. destruct m. by apply decodes_done.
Qed.

(** The announcement codec is faithful and total: decoding the bytes the
    producer publishes gives back the hash, the URL and the peer identity, so
    two messages never share an encoding; and on arbitrary bytes the decoder
    returns, without a panic and without looping. *)
Theorem announce_codec (m m' : Message) (b : list byte) :
  fits (m_Hash m) → fits (m_URL m) → fits (m_PeerID m) →
  fits (m_Hash m') → fits (m_URL m') → fits (m_PeerID m') →
  Decode (Encode m) = Ok (m, None) ∧ (Encode m = Encode m' → m = m') ∧ no_panic (Decode b).
Proof.
  intros. split_and!; [by apply Decode_Encode| |].
  - intros E. assert (Ok (m, None) = Ok (m', None)) as [=] by (rewrite <- !Decode_Encode by done; by rewrite E).
    done.
  - destruct (decodes_total b (mkMsg [] [] [])) as [x Hx]. by rewrite (decodes_Decode b _ Hx).
Qed.

(** ** The producer *)

Definition announce_one (blk : bool) (now : Z) (broker : option error) (hash baseURL : gostring)
    (p : Producer) : option error * Producer :=
  if blk then Block now broker hash baseURL p else Subtree now broker hash baseURL p.
Definition topic_of (blk : bool) (p : Producer) : gostring :=
  if blk then BlockTopic (cfg p) else SubtreeTopic (cfg p).
Definition announced_count (blk : bool) (p : Producer) : Z := if blk then blocks p else subtrees p.

(** An announcement on every branch: an empty topic or a broker error is
    returned and counted as a failure, and nothing else changes; otherwise
    exactly one record is acknowledged, on the class's topic, whose value
    decodes to the hash, the URL and the configured peer identity, the
    success is counted for the class, and the first-pull stopwatch is started
    for the hash. *)
Theorem announce_once (blk : bool) (now : Z) (broker : option error) (hash baseURL : gostring)
    (p : Producer) :
  fits hash → fits baseURL → fits (PeerID (cfg p)) →
  let '(r, p') := announce_one blk now broker hash baseURL p in
  cfg p' = cfg p ∧ announced_count (negb blk) p' = announced_count (negb blk) p ∧
  if bool_decide (topic_of blk p = []) || bool_decide (is_Some broker) then
    is_Some r ∧ failures p' = u64 (failures p + 1) ∧
    announced_count blk p' = announced_count blk p ∧
    acked p' = acked p ∧ firstPull p' = firstPull p
  else
    r = None ∧ failures p' = failures p ∧
    announced_count blk p' = u64 (announced_count blk p + 1) ∧
    (∃ value, acked p' = acked p ++ [(topic_of blk p, value)] ∧
              Decode value = Ok (mkMsg hash baseURL (PeerID (cfg p)), None)) ∧
    firstPull p' = obs.Announced now hash (if blk then str "block" else str "subtree") (firstPull p).
Proof.
  intros H1 H2 H3.
  assert (Decode (Encode (mkMsg hash baseURL (PeerID (cfg p)))) = _) as Hd by (by apply Decode_Encode).
  destruct blk; cbn [announce_one topic_of announced_count negb]; unfold Block, Subtree, produce;
    (case_bool_decide; [by split_and!; eauto|]); destruct broker as [e|]; cbn;
    by split_and!; eauto.
Qed.
End theorems.

(** ** Witnesses: a codec that obeys the laws *)

Definition ref_ConsumeString (b : list byte) : gostring * Z :=
  let n := be_val (take 8 b) in
  if (8 <=? zlen b) && (8 + n <=? zlen b) then (take (Z.to_nat n) (drop 8 b), 8 + n) else ([], -1).

Definition ref_protowire : Protowire := {|
  AppendTag b num typ := b ++ [byte_of (8 * num + typ)];
  AppendString b s := b ++ be_bytes 8 (zlen s) ++ s;
  ConsumeTag b := match b with [] => (0, 0, -1) | c :: _ => (byte_val c / 8, byte_val c mod 8, 1) end;
  ConsumeString := ref_ConsumeString;
  ConsumeFieldValue _ _ _ := -1
|}.

Lemma ref_protowire_laws : ProtowireLaws ref_protowire.
Proof.
  split; cbn [AppendTag AppendString ConsumeTag ConsumeString ConsumeFieldValue ref_protowire].
  - done.
  - done.
  - intros num rest Hn. cbn [app length]. rewrite byte_val_of. unfold BytesType.
    rewrite Z.mod_small by lia. replace (8 * num + 2) with (2 + num * 8) by lia.
    by rewrite Z.div_add, Z.mod_add by lia.
  - intros s rest Hs. unfold ref_ConsumeString. rewrite app_nil_l, <- app_assoc.
    assert (length (be_bytes 8 (zlen s)) = 8%nat) as Hl by apply length_be_bytes.
    rewrite take_app_length', drop_app_length' by done.
    rewrite be_val_u64 by (unfold fits, max_alloc, two64 in *; lia).
    rewrite !length_app, Hl, (proj2 (Z.leb_le _ _)), (proj2 (Z.leb_le _ _)) by lia. cbn [andb].
    rewrite take_app_length' by lia. f_equal. lia.
  - intros [|c b] num typ n [= <- <- <-] Hn; cbn; lia.
  - unfold ref_ConsumeString. intros b s n. destruct (_ && _) eqn:E; intros [= <- <-] Hn; lia.
  - lia.
Qed.

Definition nx_msg : Message := mkMsg (str "ab") (str "http://b") [].

Lemma announce_codec_witness :
  Decode (P := ref_protowire) (Encode (P := ref_protowire) nx_msg) = Ok (nx_msg, None).
Proof.
  apply (announce_codec (L := ref_protowire_laws) nx_msg nx_msg []); vm_compute; reflexivity.
Defined.

Lemma announce_once_witness :
  let p := mkProducer (mkConfig [str "k"] (str "subtrees") (str "blocks") (str "id") 0) None 0 0 0 [] in
  failures (snd (announce_one (P := ref_protowire) false 1 (Some (EMsg "down")) (str "h") (str "u") p)) = 1.
Proof.
  intros p.
  pose proof (announce_once (L := ref_protowire_laws) false 1 (Some (EMsg "down")) (str "h") (str "u") p)
    as H.
  destruct (announce_one _ _ _ _ _ _) as [r p'].
  destruct H as (_ & _ & _ & Hf & _); [vm_compute; reflexivity..|]. exact Hf.
Defined.
