(* ===== verification/Health.v ===== *)
(** * health: dependency checks and the routes that aggregate them

    [src/internal/health/health.go] and [buildChecks] of
    [src/cmd/teranode-bridge/main.go]. A check is a function of the liveness
    flag, given what the dependency answers; the answers (a ping's error, an
    HTTP outcome, the state of the lanes) are arguments. The response body is
    the [Report] that [encoding/json] marshals. *)

From Stdlib Require Import Strings.Byte.
From stdpp Require Import base list strings numbers gmap pretty.
From S2P Require Import Prelude TxBuild.

Module health.
Definition StatusOK : Z := 200.
Definition StatusServiceUnavailable : Z := 503.

(** [CheckFunc]: status, message, error. *)
Definition CheckFunc : Type := bool → Z * gostring * option error.

Record Check : Type := mkCheck { c_Name : gostring; c_Check : CheckFunc; c_Gating : bool }.

Record Result : Type := mkResult {
  Resource : gostring; Status : Z; Message : gostring; Error : option error; Gating : bool
}.
Record Report : Type := mkReport { r_Status : Z; Dependencies : list Result }.

(** [err != nil || status != http.StatusOK]. *)
Definition failed (out : Z * gostring * option error) : bool :=
  match out with
  | (status, _, err) => bool_decide (is_Some err) || negb (status =? StatusOK)
  end.

(** The body of the loop over the checks. *)
Definition check_step (checkLiveness strict : bool) (acc : Z * list Result) (c : Check)
    : Z * list Result :=
  let '(overall, results) := acc in
  let out := c_Check c checkLiveness in
  let '(status, message, err) := out in
  (if failed out && (strict || c_Gating c) then StatusServiceUnavailable else overall,
   results ++ [mkResult (c_Name c) status message err (c_Gating c)]).

Definition CheckAll (checkLiveness strict : bool) (checks : list Check) : Z * Report :=
  let '(overall, results) := foldl (check_step checkLiveness strict) (StatusOK, []) checks in
  (overall, mkReport overall results).

Definition Alive : CheckFunc := λ _, (StatusOK, str "process is running", None).

Definition Skip (f : CheckFunc) : CheckFunc := λ checkLiveness,
  if checkLiveness : bool then (StatusOK, str "liveness (dependency probe skipped)", None)
  else f checkLiveness.

Definition Bool (ok : bool) (whenOK whenNot : gostring) : CheckFunc := λ _,
  if ok then (StatusOK, whenOK, None) else (StatusServiceUnavailable, whenNot, None).

Definition Ping (name : gostring) (ping : option error) : CheckFunc :=
  Skip (λ _, match ping with
             | Some err => (StatusServiceUnavailable, name ++ str " unreachable", Some err)
             | None => (StatusOK, name ++ str " reachable", None)
             end).

(** What one GET came to: no request could be made or no answer came, or a
    status. *)
Inductive get_outcome : Type := GetError (e : error) | GetStatus (code : Z).

(** [strconv.Itoa], [Error] and [fmt.Errorf] without a wrapped error. *)
Definition itoa (v : Z) : gostring := str (pretty v).
Definition error_text (e : error) : gostring := match e with EMsg s | EReject s => str s end.
Definition Errorf (text : gostring) : error := EMsg (String.string_of_list_byte text).

Definition trimRight (s : gostring) : gostring := txpipe.TrimRight_slash s.

Definition get_step (http : gostring → get_outcome) (path : gostring)
    (acc : Z * option error) (base : gostring) : Z * option error :=
  let '(reached, lastErr) := acc in
  let url := trimRight base ++ path in
  match http url with
  | GetError e => (reached, Some e)
  | GetStatus code =>
      if (200 <=? code) && (code <? 300) then (reached + 1, lastErr)
      else (reached, Some (Errorf (url ++ str ": http " ++ itoa code)))
  end.

Definition HTTPGet (http : gostring → get_outcome) (bases : list gostring) (path : gostring)
    : CheckFunc :=
  Skip (λ _,
    if zlen bases =? 0 then (StatusOK, str "not configured - skipping", None) else
    let '(reached, lastErr) := foldl (get_step http path) (0, None) bases in
    if reached =? zlen bases then 
      (StatusOK, str "all " ++ itoa reached ++ str " endpoints answering", None)
    else if 0 <? reached then
      (StatusOK, itoa reached ++ str " of " ++ itoa (zlen bases) ++ str " endpoints answering ("
                 ++ match lastErr with Some e => error_text e | None => str "<nil>" end ++ str ")", None)
    else (StatusServiceUnavailable, str "no endpoint answering", lastErr)).

(** What [buildChecks] is given: the number of lanes and whether the recorder
    is ready, the retrieval server and whether it listens, the producer and its ping, the propagation
    endpoints, the asset base URL, and the subscriber with the cluster state it
    last read and its role. *)
Record deps : Type := mkDeps {
  d_lanes : Z; d_ready : bool; d_ret : option bool; d_producer : option (option error);
  d_propagation : list gostring; d_assetBase : gostring;
  d_rev : option (gostring * Z * bool); d_http : gostring → get_outcome
}.

Definition fsm_check (state : gostring) (height : Z) : CheckFunc :=
  Skip (λ _,
    if bool_decide (state = []) then
      (StatusServiceUnavailable, str "cluster state not yet read", None)
    else if bool_decide (state ∈ [str "RUNNING"; str "IDLE"; str "CATCHINGBLOCKS"]) then
      (StatusOK, str "cluster FSM " ++ state ++ str " at height " ++ itoa height, None)
    else (StatusServiceUnavailable, str "cluster FSM " ++ state, None)).

Definition role_check (active : bool) : CheckFunc := λ _,
  if active then (StatusOK, str "holds the submitter role", None)
  else (StatusOK, str "standby (not publishing)", None).

Definition buildChecks (d : deps) (sink clusterPolled : bool) : list Check :=
  let checks :=
    [mkCheck (str "process") Alive false;
     mkCheck (str "DeliveryLanes")
       (Bool (d_ready d) (str "all " ++ itoa (d_lanes d) ++ str " delivery lanes bound")
          (str "not every delivery lane is bound"))
       true] in
  if sink then checks else
  let checks :=
    match d_ret d with
    | Some listening =>
        checks ++ [mkCheck (str "RetrievalPlane")
          (Bool listening (str "retrieval plane listening")
             (str "retrieval plane not listening; announced objects would 404")) true]
    | None => checks
    end in
  let checks :=
    match d_producer d with
    | Some ping => checks ++ [mkCheck (str "Kafka") (Ping (str "kafka") ping) false]
    | None => checks
    end in
  let checks :=
    if 0 <? zlen (d_propagation d) then
      checks ++ [mkCheck (str "Propagation") (HTTPGet (d_http d) (d_propagation d) (str "/health")) false]
    else checks in
  let checks :=
    if negb (bool_decide (d_assetBase d = [])) then
      checks ++ [mkCheck (str "AssetService") (HTTPGet (d_http d) [d_assetBase d] (str "/health")) false]
    else checks in
  match d_rev d with
  | Some (state, height, active) =>
      let checks :=
        if clusterPolled then checks ++ [mkCheck (str "BlockchainFSM") (fsm_check state height) false]
        else checks in
      checks ++ [mkCheck (str "SubmitterRole") (role_check active) false]
  | None => checks
  end.
End health.

Import health.

(** ** Aggregation *)

Definition gates (live strict : bool) (c : Check) : bool :=
  failed (c_Check c live) && (strict || c_Gating c).
Definition result_of (live : bool) (c : Check) : Result :=
  let '(status, message, err) := c_Check c live in
  mkResult (c_Name c) status message err (c_Gating c).

Lemma check_steps live strict checks overall results :
  foldl (check_step live strict) (overall, results) checks =
  (if existsb (gates live strict) checks then StatusServiceUnavailable else overall,
   results ++ (result_of live <$> checks)).
Proof.
  revert overall results.
  induction checks as [|c checks IH]; intros overall results; cbn [foldl existsb fmap list_fmap].
  { by rewrite app_nil_r. }
  unfold check_step at 2. unfold gates at 1, result_of at 1.
  destruct (c_Check c live) as [[status message] err]. rewrite IH, <- app_assoc.
  by destruct (failed _ && _), (existsb _ _).
Qed.

Lemma CheckAll_eq live strict checks :
  CheckAll live strict checks =
  let overall := if existsb (gates live strict) checks then StatusServiceUnavailable else StatusOK in
  (overall, mkReport overall (result_of live <$> checks)).
Proof.
  unfold CheckAll. by rewrite check_steps.
Qed.

(** [/health] answers 200 exactly when no check that counts has failed: a
    check counts when it gates or the mode is strict; and the body lists every
    check, in order, with its own outcome, whatever the aggregate is. *)
Theorem CheckAll_spec (live strict : bool) (checks : list Check) :
  let '(overall, report) := CheckAll live strict checks in
  (overall = StatusOK ↔
     ∀ c, c ∈ checks → strict = true ∨ c_Gating c = true → failed (c_Check c live) = false) ∧
  (overall = StatusOK ∨ overall = StatusServiceUnavailable) ∧
  r_Status report = overall ∧
  (λ r, (Resource r, (Status r, Message r, Error r))) <$> Dependencies report
  = (λ c, (c_Name c, c_Check c live)) <$> checks.
Proof.
  rewrite CheckAll_eq. cbv zeta. cbn [r_Status Dependencies]. split_and!; [|by destruct existsb; auto|done|].
  - destruct (existsb (gates live strict) checks) eqn:E.
    + split; [done|]. intros H. apply existsb_exists in E as (c & Hin & Hg%andb_true_iff).
      destruct Hg as [Hf Hc]. rewrite H in Hf; [done|by apply list_elem_of_In|].
      by apply orb_true_iff.
    + split; [|done]. intros _ c Hin Hc. destruct (failed (c_Check c live)) eqn:Ef; [|done].
      exfalso. enough (existsb (gates live strict) checks = true) by congruence.
      apply existsb_exists. exists c. split; [by apply list_elem_of_In|].
      unfold gates. rewrite Ef. by apply orb_true_iff in Hc.
  - rewrite <- list_fmap_compose. apply list_fmap_ext. intros i c _. unfold compose, result_of.
    by destruct (c_Check c live) as [[? ?] ?].
Qed.

(** ** The checks of the bridge *)

(** What the two gating checks say. *)
Definition serving (d : deps) (sink : bool) : bool :=
  d_ready d && (sink || default true (d_ret d)).

Lemma gates_skipped strict n f g : gates true strict (mkCheck n (Skip f) g) = false.
Proof. by unfold gates. Qed.

Lemma gates_advisory live n f : gates live false (mkCheck n f false) = false.
Proof. unfold gates. cbn. apply andb_false_r. Qed.

Lemma gates_bool live strict n ok a b :
  gates live strict (mkCheck n (Bool ok a b) true) = negb ok.
Proof. unfold gates, Bool, failed. cbn. by destruct ok, strict. Qed.

Lemma gates_role live strict n a : gates live strict (mkCheck n (role_check a) false) = false.
Proof. by destruct a. Qed.

Lemma gates_alive live strict n : gates live strict (mkCheck n Alive false) = false.
Proof. done. Qed.

(** Which checks can fail the aggregate, when the dependency probes are
    advisory or skipped. *)
Lemma build_gates live strict d sink polled :
  live = true ∨ strict = false →
  existsb (gates live strict) (buildChecks d sink polled) = negb (serving d sink).
Proof.
  intros Hm. assert (∀ n f, gates live strict (mkCheck n (Skip f) false) = false) as Hs.
  { intros n f. destruct Hm as [-> | ->]; [apply gates_skipped|apply gates_advisory]. }
  unfold buildChecks, serving, Ping, HTTPGet, fsm_check.
  destruct sink.
  { cbn [existsb]. rewrite gates_alive, gates_bool. by destruct (d_ready d). }
  destruct (d_ret d) as [l|], (d_producer d) as [p|], (0 <? _), (negb (bool_decide _)),
    (d_rev d) as [[[st ht] act]|], polled;
    repeat rewrite existsb_app; cbn [existsb app];
    rewrite ?Hs, ?gates_alive, ?gates_bool, ?gates_role;
    cbn [default orb]; rewrite ?orb_false_r; by destruct (d_ready d); try destruct l.
Qed.

(** Only what this process itself can be missing takes it out of rotation:
    readiness answers 200 exactly when the lanes are bound and the retrieval
    plane (if there is one, outside sink mode) listens, whatever Kafka, the
    propagation and asset services and the cluster's state machine answer;
    and so does the liveness route, in strict mode too. *)
Theorem health_routes_local (d : deps) (sink polled strict : bool) :
  fst (CheckAll false false (buildChecks d sink polled))
  = (if serving d sink then StatusOK else StatusServiceUnavailable) ∧
  fst (CheckAll true strict (buildChecks d sink polled))
  = (if serving d sink then StatusOK else StatusServiceUnavailable).
Proof.
  rewrite !CheckAll_eq. cbn [fst]. rewrite !build_gates by auto.
  by destruct (serving d sink).
Qed.


(** ** Endpoint probes *)

Definition answering (http : gostring → get_outcome) (path base : gostring) : bool :=
  match http (trimRight base ++ path) with
  | GetStatus code => (200 <=? code) && (code <? 300)
  | GetError _ => false
  end.

Lemma get_steps http path bases n e :
  fst (foldl (get_step http path) (n, e) bases)
  = n + zlen (filter (λ b, answering http path b = true) bases).
Proof.
  revert n e; induction bases as [|b bases IH]; intros n e; cbn [foldl].
  { cbn. lia. }
  unfold get_step at 2. destruct (answering http path b) eqn:Ea.
  - rewrite filter_cons_True by done. unfold answering in Ea.
    destruct (http _) as [|code]; [done|]. rewrite Ea, IH. cbn [length]. lia.
  - rewrite filter_cons_False by (by rewrite Ea). unfold answering in Ea.
    destruct (http _) as [|code]; [|rewrite Ea]; apply IH.
Qed.

(** A probe of several endpoints fails exactly when there are some and none
    answers in the 200s; one that answers is enough. *)
Theorem HTTPGet_spec (http : gostring → get_outcome) (bases : list gostring) (path : gostring) :
  (failed (HTTPGet http bases path false) = false ↔
     bases = [] ∨ ∃ b, b ∈ bases ∧ answering http path b = true) ∧
  failed (HTTPGet http bases path true) = false.
Proof.
  split; [|done]. unfold HTTPGet, Skip. destruct (Z.eqb_spec (zlen bases) 0) as [E|E].
  { destruct bases; [|simpl in E; lia]. split; [by left|done]. }
  pose proof (get_steps http path bases 0 None) as Hs.
  destruct (foldl (get_step http path) (0, None) bases) as [reached lastErr]. cbn [fst] in Hs.
  assert (0 < reached ↔ ∃ b, b ∈ bases ∧ answering http path b = true) as Hr.
  { rewrite Hs. set (l := filter _ bases). split.
    - intros Hl. destruct l as [|b l'] eqn:El; [simpl in Hl; lia|]. exists b.
      assert (b ∈ b :: l') as Hb by left. unfold l in El. rewrite <- El in Hb.
      apply list_elem_of_filter in Hb as [??]. done.
    - intros (b & Hin & Ha). assert (b ∈ l) as Hb by (by apply list_elem_of_filter).
      destruct l; [by apply not_elem_of_nil in Hb|simpl; lia]. }
  assert (bases ≠ []) as Hne by (by intros ->).
  destruct (Z.eqb_spec reached (zlen bases)); [|destruct (Z.ltb_spec 0 reached)].
  - split; [|done]. intros _. right. apply Hr. lia.
  - split; [|done]. intros _. right. by apply Hr.
  - split; [cbn; by rewrite orb_true_r|]. intros [?|?%Hr]; [done|lia].
Qed.

(** A reachable asset service that has no health route is reported as down:
    its 404 is an answer, and the check fails with no endpoint answering. *)
Theorem asset_404_unhealthy (http : gostring → get_outcome) (base : gostring) :
  http (trimRight base ++ str "/health") = GetStatus 404 →
  HTTPGet http [base] (str "/health") false
  = (StatusServiceUnavailable, str "no endpoint answering",
     Some (Errorf (trimRight base ++ str "/health" ++ str ": http 404"))).
Proof.
  intros H. unfold HTTPGet, Skip. cbn [foldl]. unfold get_step. rewrite H.
  rewrite <- app_assoc. reflexivity.
Qed.

Lemma asset_404_unhealthy_witness :
  failed (HTTPGet (λ _, GetStatus 404) [str "http://asset:8090/"] (str "/health") false) = true.
Proof. by rewrite (asset_404_unhealthy (λ _, GetStatus 404) (str "http://asset:8090/") eq_refl). Defined.
