(* ===== verification/Slab.v ===== *)
(** * Object ownership in a lane connection: [owner.own]

    [src/lanes/lanes.go] copies the objects of an [Owned] lane into
    per-connection slabs, many objects to one allocation, and hands each out
    as a slice with its capacity cut to its length. Here Go's memory is
    explicit: arrays of bytes, slices that alias them, [make] and [append].
    The theorem is that the sharing cannot be observed: a handler that keeps,
    appends to and overwrites its objects sees what it would see if every
    object had its own allocation. *)

From Stdlib Require Import Strings.Byte.
From stdpp Require Import base list strings numbers gmap.
From S2P Require Import Prelude.

(** ** Go memory *)

(** Byte [z] of array [a]; a byte never written is zero, as [make] leaves it.
    Arrays are numbered in the order they are allocated. *)
Record memory : Type := mkMem { cells : gmap (nat * Z) byte; next_array : nat }.

(** A slice: [s_len] bytes of array [s_arr] from [s_off] on, with room up to
    [s_cap]. The nil slice has no room. *)
Record gslice : Type := mkSlice { s_arr : nat; s_off : Z; s_len : Z; s_cap : Z }.
Definition nil_slice : gslice := mkSlice 0 0 0 0.

Definition read (s : gslice) (m : memory) : list byte :=
  (λ z, default x00 (cells m !! (s_arr s, z))) <$> seqZ (s_off s) (s_len s).

Fixpoint write (a : nat) (z : Z) (bs : list byte) (c : gmap (nat * Z) byte)
    : gmap (nat * Z) byte :=
  match bs with
  | [] => c
  | b :: bs => <[(a, z) := b]> (write a (z + 1) bs c)
  end.

(** [make([]byte, len, cap)]. *)
Definition make (len cap : Z) (m : memory) : gslice * memory :=
  (mkSlice (next_array m) 0 len cap, mkMem (cells m) (S (next_array m))).

(** [copy(dst, src)] of a source no longer than the destination. *)
Definition copy_into (s : gslice) (bs : list byte) (m : memory) : memory :=
  mkMem (write (s_arr s) (s_off s) bs (cells m)) (next_array m).

(** [append(s, bs...)]: in place when there is room, else into a new array
    whose spare room [spare] the runtime chooses. *)
Definition append (spare : Z) (s : gslice) (bs : list byte) (m : memory) : gslice * memory :=
  if s_len s + zlen bs <=? s_cap s then
    (mkSlice (s_arr s) (s_off s) (s_len s + zlen bs) (s_cap s),
     mkMem (write (s_arr s) (s_off s + s_len s) bs (cells m)) (next_array m))
  else
    let '(s', m') := make (s_len s + zlen bs) (s_len s + zlen bs + Z.max 0 spare) m in
    (s', copy_into s' (read s m ++ bs) m').

Module slab.
Definition slabSize : Z := 2 ^ 20.

Definition own (spare : Z) (obj : list byte) (o : gslice) (m : memory)
    : gslice * gslice * memory :=
  let n := zlen obj in
  if Z.quot slabSize 8 <? n then
    let '(b, m) := make n n m in
    (b, o, copy_into b obj m)
  else
    let '(o, m) := if s_cap o - s_len o <? n then make 0 slabSize m else (o, m) in
    let off := s_len o in
    let '(o, m) := append spare o obj m in
    (mkSlice (s_arr o) (s_off o + off) n n, o, m).
End slab.

Import slab.

(** ** A handler that keeps its objects *)

(** What a handler may do with the objects it was given: receive one more,
    append to one it holds ([x = append(x, bs...)]), or set a byte of it. *)
Inductive use : Type :=
| Receive (spare : Z) (obj : list byte)
| Append (spare : Z) (i : nat) (bs : list byte)
| SetByte (i : nat) (k : nat) (b : byte).

Record holder : Type := mkHolder { mem : memory; own_slab : gslice; objs : list gslice }.

Definition use_step (u : use) (h : holder) : holder :=
  match u with
  | Receive spare obj =>
      let '(s, o, m) := own spare obj (own_slab h) (mem h) in mkHolder m o (objs h ++ [s])
  | Append spare i bs =>
      match objs h !! i with
      | Some s => let '(s', m) := append spare s bs (mem h) in
                  mkHolder m (own_slab h) (<[i := s']> (objs h))
      | None => h
      end
  | SetByte i k b =>
      match objs h !! i with
      | Some s =>
          if Z.of_nat k <? s_len s then
            mkHolder (mkMem (<[(s_arr s, s_off s + Z.of_nat k) := b]> (cells (mem h)))
                        (next_array (mem h))) (own_slab h) (objs h)
          else h
      | None => h
      end
  end.

(** The specification: every object is a value of its own. *)
Definition use_spec (u : use) (xs : list (list byte)) : list (list byte) :=
  match u with
  | Receive _ obj => xs ++ [obj]
  | Append _ i bs => alter (λ x, x ++ bs) i xs
  | SetByte i k b => alter (<[k := b]>) i xs
  end.

Definition holder0 : holder := mkHolder (mkMem ∅ 0) nil_slice [].

(** ** Memory lemmas *)

Lemma lookup_write a z bs c a' z' :
  write a z bs c !! (a', z')
  = if bool_decide (a' = a ∧ z ≤ z' < z + zlen bs) then bs !! Z.to_nat (z' - z)
    else c !! (a', z').
Proof.
  revert z; induction bs as [|b bs IH]; intros z; cbn [write].
  { rewrite bool_decide_false; [done|]. simpl. lia. }
  destruct (decide (a' = a ∧ z' = z)) as [[-> ->]|Hne].
  - rewrite lookup_insert_eq, bool_decide_true by (simpl; lia). by rewrite Z.sub_diag.
  - rewrite lookup_insert_ne by (intros [= -> ->]; tauto). rewrite IH.
    cbn [length]. case_bool_decide; case_bool_decide; try lia; [|done].
    replace (Z.to_nat (z' - z)) with (S (Z.to_nat (z' - (z + 1)))) by lia. done.
Qed.

Lemma length_read s m : zlen (read s m) = Z.max 0 (s_len s).
Proof. unfold read. rewrite length_fmap, length_seqZ. lia. Qed.

(** Two slices of equal length over cells that agree read the same. *)
Lemma read_ext s m s' m' :
  s_len s = s_len s' →
  (∀ k, 0 ≤ k < s_len s →
     cells m !! (s_arr s, s_off s + k) = cells m' !! (s_arr s', s_off s' + k)) →
  read s m = read s' m'.
Proof.
  intros Hl H. apply list_eq. intros i. unfold read. rewrite !list_lookup_fmap.
  destruct (decide (Z.of_nat i < s_len s)) as [Hi|Hi].
  - rewrite !lookup_seqZ_lt by lia. simpl. rewrite H by lia. done.
  - rewrite !lookup_seqZ_ge by lia. done.
Qed.

Lemma read_written s bs m :
  s_len s = zlen bs → read s (copy_into s bs m) = bs.
Proof.
  intros Hl. apply list_eq. intros i. unfold read. rewrite list_lookup_fmap.
  destruct (decide (Z.of_nat i < s_len s)) as [Hi|Hi].
  - rewrite lookup_seqZ_lt by lia. cbn [fmap option_fmap option_map copy_into cells].
    rewrite lookup_write, bool_decide_true by lia.
    replace (Z.to_nat _) with i by lia.
    destruct (lookup_lt_is_Some_2 bs i) as [b ->]; [lia|done].
  - rewrite lookup_seqZ_ge by lia. symmetry. apply lookup_ge_None_2. lia.
Qed.

Lemma read_split a off n n' c m :
  0 ≤ n → 0 ≤ n' →
  read (mkSlice a off (n + n') c) m = read (mkSlice a off n c) m ++ read (mkSlice a (off + n) n' c) m.
Proof. intros. unfold read. cbn. by rewrite seqZ_app, fmap_app by lia. Qed.

(** ** Separation *)

(** A slice may write the cells of its region: its capacity, not only its
    length. *)
Definition region (s : gslice) (a : nat) (z : Z) : Prop :=
  a = s_arr s ∧ s_off s ≤ z < s_off s + s_cap s.
(** What is left of the slab. *)
Definition free (o : gslice) : gslice :=
  mkSlice (s_arr o) (s_off o + s_len o) 0 (s_cap o - s_len o).
Definition apart (s s' : gslice) : Prop := ∀ a z, region s a z → region s' a z → False.

Definition view_ok (m : memory) (s : gslice) : Prop :=
  0 ≤ s_len s ≤ s_cap s ∧ (0 < s_cap s → (s_arr s < next_array m)%nat).

Record separate (h : holder) : Prop := {
  sep_objs : Forall (view_ok (mem h)) (objs h);
  sep_slab : view_ok (mem h) (own_slab h);
  sep_pairs : ∀ i j s s', i ≠ j → objs h !! i = Some s → objs h !! j = Some s' → apart s s';
  sep_free : ∀ i s, objs h !! i = Some s → apart s (free (own_slab h))
}.

Lemma apart_sym s s' : apart s s' → apart s' s.
Proof. intros H a z ??. by eapply H. Qed.

Lemma view_ok_mono m m' s :
  (next_array m ≤ next_array m')%nat → view_ok m s → view_ok m' s.
Proof. intros Hm [H1 H2]. split; [done|]. intros H. specialize (H2 H). lia. Qed.

(** A slice of a new array is apart from everything allocated before. *)
Lemma apart_new m s z l c : view_ok m s → apart s (mkSlice (next_array m) z l c) .
Proof. intros [H1 H2] a y [-> ?] [? ?]. cbn in *. specialize (H2 ltac:(lia)). lia. Qed.

(** A write inside [s']'s region leaves a slice apart from it as it was. *)
Lemma read_apart s s' z bs n m :
  view_ok m s → apart s s' → s_off s' ≤ z → z + zlen bs ≤ s_off s' + s_cap s' →
  read s (mkMem (write (s_arr s') z bs (cells m)) n) = read s m.
Proof.
  intros [Hs _] Ha Hz Hz'. apply read_ext; [done|]. intros k Hk. cbn [cells].
  rewrite lookup_write. case_bool_decide as Hb; [|done]. exfalso.
  apply (Ha (s_arr s) (s_off s + k)); split; lia.
Qed.

(** ** [append] and [own] *)

Lemma append_ok spare s bs m :
  view_ok m s →
  let '(s', m') := append spare s bs m in
  view_ok m' s' ∧ (next_array m ≤ next_array m')%nat ∧ read s' m' = read s m ++ bs ∧
  ∀ t, view_ok m t →
    (apart t (free s) → read t m' = read t m) ∧ (apart t s → apart t s').
Proof.
  intros Hs. pose proof Hs as [Hl Ha]. unfold append.
  destruct (Z.leb_spec (s_len s + zlen bs) (s_cap s)) as [Hr|Hr].
  - split_and!; [split; cbn; lia|done| |].
    + rewrite read_split by lia. f_equal.
      * apply read_ext; [done|]. intros k Hk. cbn in *. rewrite lookup_write, bool_decide_false; [done|lia].
      * etrans; [|apply (read_written (mkSlice (s_arr s) (s_off s + s_len s) (zlen bs) (s_cap s)) bs m); done].
        done.
    + intros t Ht. split; [|done]. intros Hf.
      apply (read_apart t (free s)); [done|done|cbn; lia|cbn; lia].
  - cbn [make]. split_and!; [split; cbn; lia|cbn; lia| |].
    + apply read_written. cbn. rewrite length_app. pose proof (length_read s m). lia.
    + intros t Ht. split; intros _; [|by apply apart_new].
      apply (read_apart t (mkSlice (next_array m) 0 0 (zlen (read s m ++ bs))) 0 (read s m ++ bs) _ m);
        [exact Ht|by apply apart_new|cbn; lia|cbn; lia].
Qed.

(** The slab [own] appends to: the old one when it has room for [n] bytes. *)
Lemma slab_room n o m o1 m1 :
  view_ok m o → n ≤ slabSize →
  (if s_cap o - s_len o <? n then make 0 slabSize m else (o, m)) = (o1, m1) →
  view_ok m1 o1 ∧ n ≤ s_cap o1 - s_len o1 ∧ cells m1 = cells m ∧
  (next_array m ≤ next_array m1)%nat ∧
  ∀ t, view_ok m t → apart t (free o) → apart t (free o1).
Proof.
  intros Ho Hn. destruct (Z.ltb_spec (s_cap o - s_len o) n); intros [= <- <-].
  - split_and!; [split; cbn; unfold slabSize; lia|cbn; lia|done|cbn; lia|].
    intros t Ht _. by apply apart_new.
  - by split_and!.
Qed.

Lemma own_ok spare obj o m :
  view_ok m o →
  let '(s, o', m') := own spare obj o m in
  view_ok m' s ∧ view_ok m' o' ∧ (next_array m ≤ next_array m')%nat ∧ read s m' = obj ∧
  apart s (free o') ∧
  ∀ t, view_ok m t → apart t (free o) →
    read t m' = read t m ∧ apart t s ∧ apart t (free o').
Proof.
  intros Ho. unfold own. destruct (Z.ltb_spec (Z.quot slabSize 8) (zlen obj)) as [Hn|Hn].
  - cbn [make]. split_and!; [split; cbn; lia|apply (view_ok_mono m); [cbn; lia|done]|cbn; lia| | |].
    + by apply read_written.
    + apply apart_sym, apart_new. destruct Ho as [? H]. split; cbn; [lia|]. intros; apply H; lia.
    + intros t Ht Hf. split_and!; [|by apply apart_new|done].
      apply (read_apart t (mkSlice (next_array m) 0 0 (zlen obj)) 0 obj _ m);
        [done|by apply apart_new|cbn; lia|cbn; lia].
  - assert (zlen obj ≤ slabSize) as Hn' by (etrans; [exact Hn|done]).
    destruct (if s_cap o - s_len o <? zlen obj then _ else _) as [o1 m1] eqn:E.
    destruct (slab_room _ _ _ _ _ Ho Hn' E) as (Ho1 & Hroom & Hcells & Hnext & Hfree).
    unfold append. rewrite (proj2 (Z.leb_le _ _)) by lia. cbn [s_arr s_off].
    destruct Ho1 as [Hl1 Ha1].
    split_and!; [split; cbn; lia|split; cbn; lia|cbn; lia| | |].
    + etrans; [|apply (read_written (mkSlice (s_arr o1) (s_off o1 + s_len o1) (zlen obj) 0) obj m1); done].
      done.
    + intros a z [_ H1] [_ H2]. cbn in *. lia.
    + intros t Ht Hf. specialize (Hfree t Ht Hf). split_and!.
      * rewrite (read_apart t (free o1) _ _ _ m1); [by apply read_ext; [|intros; by rewrite Hcells]| |done|cbn; lia|cbn; lia].
        by apply (view_ok_mono m).
      * intros a z H1 [-> H2]. apply (Hfree (s_arr o1) z); [done|]. cbn in *. split; cbn; lia.
      * intros a z H1 [-> H2]. apply (Hfree (s_arr o1) z); [done|]. cbn in *. split; cbn; lia.
Qed.

(** ** Holding objects *)

Lemma holder_receive spare obj h xs :
  separate h → (λ s, read s (mem h)) <$> objs h = xs →
  let h' := use_step (Receive spare obj) h in
  separate h' ∧ (λ s, read s (mem h')) <$> objs h' = xs ++ [obj].
Proof.
  intros [Ho Hs Hp Hf] Hx. cbn [use_step].
  pose proof (own_ok spare obj (own_slab h) (mem h) Hs) as H.
  destruct (own spare obj (own_slab h) (mem h)) as [[s o'] m'].
  destruct H as (Hs' & Ho' & Hn & Hr & Hsf & Hfr).
  assert (∀ i t, objs h !! i = Some t → read t m' = read t (mem h) ∧ apart t s ∧ apart t (free o')) as Hold.
  { intros i t Hi. apply Hfr; [by eapply Forall_lookup_1|by eapply Hf]. }
  split; [split; cbn|].
  - rewrite Forall_app, Forall_singleton. split; [|done].
    eapply Forall_impl; [exact Ho|]. intros t. by apply view_ok_mono.
  - done.
  - intros i j t t' Hij Hi Hj.
    apply lookup_app_Some in Hi as [Hi|[Hi [Hi0 <-]%list_lookup_singleton_Some]];
    apply lookup_app_Some in Hj as [Hj|[Hj [Hj0 <-]%list_lookup_singleton_Some]].
    + by apply (Hp i j).
    + by eapply Hold.
    + apply apart_sym. by eapply Hold.
    + lia.
  - intros i t [Hi|[_ [_ <-]%list_lookup_singleton_Some]]%lookup_app_Some; [by eapply Hold|done].
  - cbn [objs mem]. rewrite fmap_app, <- Hx. cbn. rewrite Hr. f_equal.
    apply list_fmap_ext. intros i t Hi. by eapply Hold.
Qed.

(** Changing one held object, by a slice that stays apart from whatever the
    old one was apart from and a memory where every other slice reads the same. *)
Lemma holder_update h i s s' m' y :
  separate h → objs h !! i = Some s →
  view_ok m' s' → (next_array (mem h) ≤ next_array m')%nat →
  (∀ t, view_ok (mem h) t → apart t s → read t m' = read t (mem h)) →
  (∀ t, view_ok (mem h) t → apart t s → apart t s') →
  read s' m' = y →
  let h' := mkHolder m' (own_slab h) (<[i := s']> (objs h)) in
  separate h' ∧
  (λ t, read t m') <$> objs h' = <[i := y]> ((λ t, read t (mem h)) <$> objs h).
Proof.
  intros [Ho Hs Hp Hf] Hi Hs' Hn Hread Hapart Hy h'.
  assert (∀ j t, j ≠ i → objs h !! j = Some t → view_ok (mem h) t ∧ apart t s) as Hother.
  { intros j t Hj Ht. split; [by eapply Forall_lookup_1|by apply (Hp j i)]. }
  assert (∀ j t, <[i := s']> (objs h) !! j = Some t →
    (j = i ∧ t = s') ∨ (j ≠ i ∧ objs h !! j = Some t)) as Hcase.
  { intros j t [(-> & -> & _)|[? ?]]%list_lookup_insert_Some; [by left|by right]. }
  split; [split; cbn|].
  - apply Forall_insert; [|done]. eapply Forall_impl; [exact Ho|]. intros t. by apply view_ok_mono.
  - by apply (view_ok_mono (mem h)).
  - intros j k t t' Hjk [[-> ->]|[Hj Ht]]%Hcase [[-> ->]|[Hk Ht']]%Hcase.
    + done.
    + apply apart_sym. destruct (Hother k t' Hk Ht'). by apply Hapart.
    + destruct (Hother j t Hj Ht). by apply Hapart.
    + by apply (Hp j k).
  - intros j t [[-> ->]|[Hj Ht]]%Hcase; [|by eapply Hf].
    apply apart_sym, Hapart; [|apply apart_sym; by eapply Hf].
    destruct Hs as [H1 H2]. split; cbn; [lia|]. intros; apply H2; lia.
  - cbn [objs h']. rewrite list_fmap_insert, Hy. apply list_eq. intros j.
    destruct (decide (j = i)) as [->|Hj].
    + rewrite !list_lookup_insert_eq; [done|..]; rewrite length_fmap; by eapply lookup_lt_Some.
    + rewrite !list_lookup_insert_ne, !list_lookup_fmap by done.
      destruct (objs h !! j) as [t|] eqn:Ht; [|done]. cbn. f_equal.
      destruct (Hother j t Hj Ht). by apply Hread.
Qed.

Lemma read_set s k b m :
  Z.of_nat k < s_len s →
  read s (mkMem (<[(s_arr s, s_off s + Z.of_nat k) := b]> (cells m)) (next_array m))
  = <[k := b]> (read s m).
Proof.
  intros Hk. apply list_eq. intros i. unfold read at 1. rewrite list_lookup_fmap. cbn [cells].
  assert (zlen (read s m) = s_len s) as Hl by (rewrite length_read; lia).
  destruct (decide (i = k)) as [->|Hne].
  - rewrite lookup_seqZ_lt by lia. cbn. rewrite lookup_insert_eq.
    rewrite list_lookup_insert_eq by lia. done.
  - rewrite list_lookup_insert_ne by done. unfold read. rewrite list_lookup_fmap.
    destruct (decide (Z.of_nat i < s_len s)).
    + rewrite lookup_seqZ_lt by lia. cbn. rewrite lookup_insert_ne; [done|]. intros [=]. lia.
    + by rewrite lookup_seqZ_ge by lia.
Qed.

Lemma alter_as_insert {A} (f : A → A) (i : nat) (xs : list A) :
  alter f i xs = match xs !! i with Some x => <[i := f x]> xs | None => xs end.
Proof.
  revert i; induction xs as [|x xs IH]; intros [|i]; [done..|].
  change (alter f (S i) (x :: xs)) with (x :: alter f i xs). rewrite IH. cbn.
  by destruct (xs !! i).
Qed.

Lemma holder_append spare i bs h :
  separate h →
  let h' := use_step (Append spare i bs) h in
  separate h' ∧ (λ s, read s (mem h')) <$> objs h'
                = alter (λ x, x ++ bs) i ((λ s, read s (mem h)) <$> objs h).
Proof.
  intros Hh. cbn [use_step]. rewrite alter_as_insert, list_lookup_fmap.
  destruct (objs h !! i) as [s|] eqn:Hi; [|done].
  assert (view_ok (mem h) s) as Hs by (eapply Forall_lookup_1, Hi; by destruct Hh).
  pose proof (append_ok spare s bs (mem h) Hs) as H.
  destruct (append spare s bs (mem h)) as [s' m'] eqn:E. destruct H as (Hs' & Hn & Hr & Hf).
  apply (holder_update h i s s' m'); try done.
  - intros t Ht Ha. apply Hf; [done|]. intros a z Hz [-> Hz'].
    apply (Ha (s_arr s) z); [done|]. destruct Hs. cbn in *. split; [done|lia].
  - intros t Ht. by apply Hf.
Qed.

Lemma holder_set i k b h :
  separate h →
  let h' := use_step (SetByte i k b) h in
  separate h' ∧ (λ s, read s (mem h')) <$> objs h'
                = alter (<[k := b]>) i ((λ s, read s (mem h)) <$> objs h).
Proof.
  intros Hh. cbn [use_step]. rewrite alter_as_insert, list_lookup_fmap.
  destruct (objs h !! i) as [s|] eqn:Hi; [|done]. cbn [fmap option_fmap option_map].
  assert (view_ok (mem h) s) as Hs by (eapply Forall_lookup_1, Hi; by destruct Hh).
  destruct (Z.ltb_spec (Z.of_nat k) (s_len s)) as [Hk|Hk].
  - set (m' := mkMem _ _). rewrite <- (list_insert_id (objs h) i s Hi) at 1 2.
    apply (holder_update h i s s m'); try done; [|by apply read_set].
    intros t Ht Ha.
    apply (read_apart t s (s_off s + Z.of_nat k) [b] _ (mem h)); [done|done|lia|].
    destruct Hs. cbn. lia.
  - split; [done|]. rewrite list_insert_ge with (l := read s (mem h)).
    2: { pose proof (length_read s (mem h)). destruct Hs. lia. }
    rewrite list_insert_id; [done|]. by rewrite list_lookup_fmap, Hi.
Qed.

Lemma holder_step u h xs :
  separate h → (λ s, read s (mem h)) <$> objs h = xs →
  separate (use_step u h) ∧
  (λ s, read s (mem (use_step u h))) <$> objs (use_step u h) = use_spec u xs.
Proof.
  intros Hh Hx. destruct u; [by apply holder_receive|subst xs..].
  - by apply holder_append.
  - by apply holder_set.
Qed.

Lemma holder_steps us h xs :
  separate h → (λ s, read s (mem h)) <$> objs h = xs →
  let h' := foldl (λ h u, use_step u h) h us in
  separate h' ∧ (λ s, read s (mem h')) <$> objs h' = foldl (λ xs u, use_spec u xs) xs us.
Proof.
  revert h xs; induction us as [|u us IH]; intros h xs Hh Hx; [done|]. cbn [foldl].
  destruct (holder_step u h xs Hh Hx). by apply IH.
Qed.

(** C9: The slab cannot be observed: whatever objects a connection receives and
    however its handler keeps, appends to and overwrites them, every object
    reads as if it had been copied into an allocation of its own. *)
Theorem slab_refines_copies (us : list use) :
  let h := foldl (λ h u, use_step u h) holder0 us in
  (λ s, read s (mem h)) <$> objs h = foldl (λ xs u, use_spec u xs) [] us.
Proof.
  apply holder_steps; [|done]. split; cbn; [done| |done|done].
  split; cbn; lia.
Qed.
