(* ===== verification/Lanes.v ===== *)
(** * lanes: the per-class delivery listeners

    [src/lanes/lanes.go]: a lane accepts connections, reads whole objects from
    each and hands them to its handler. The connections of a lane run
    concurrently; the model interleaves their loop iterations as events
    ([lane_step], [lstep]). What a lane needs of its handler is the class
    [Session]: handle an object, flush before the network is read, both of
    which may wait. The transaction lane's session ([txSession] of
    [src/cmd/teranode-bridge/main.go]) is an instance.

    The stream reader ([objfmt.Reader]) is a separate module: which object or
    error its [Next] returns, and how many reads of the connection it makes
    first, is the environment's choice. The drain goroutine ([Drain.v])
    half-closes the socket and sets deadlines, which shows here in the events
    it provokes; the freshness stamp is in [Freshness.v]. *)

From Stdlib Require Import Strings.Byte.
From stdpp Require Import base list strings numbers gmap.
From S2P Require Import Prelude HashId Objfmt Generational TxWire TxBuild Handlers Slab.

(** [None] is a call that waits (a full queue). [others] is what the rest of
    the process does to the state the sessions share. *)
Class Session (G : Type) : Type := {
  NewSession : nat → G → G;
  Handle : nat → Z → list byte → G → option (res unit * G);
  Flush : nat → G → option (res unit * G);
  others : G → G → Prop
}.

Module lanes.
Record Config : Type := mkCfg {
  Name : gostring; MaxObject : Z; Owned : bool; DrainTimeout : Z
}.

Record Counters : Type := mkCounters {
  Conns : Z; Active : Z; Objects : Z; Bytes : Z; Errors : Z; Dropped : Z; Rejected : Z
}.
Definition counters0 : Counters := mkCounters 0 0 0 0 0 0 0.

Definition add_conns (k : Counters) : Counters :=
  mkCounters (u64 (Conns k + 1)) (Active k) (Objects k) (Bytes k) (Errors k) (Dropped k) (Rejected k).
Definition add_active (n : Z) (k : Counters) : Counters :=
  mkCounters (Conns k) (i64 (Active k + n)) (Objects k) (Bytes k) (Errors k) (Dropped k) (Rejected k).
Definition add_errors (k : Counters) : Counters :=
  mkCounters (Conns k) (Active k) (Objects k) (Bytes k) (u64 (Errors k + 1)) (Dropped k) (Rejected k).
Definition add_dropped (k : Counters) : Counters :=
  mkCounters (Conns k) (Active k) (Objects k) (Bytes k) (Errors k) (u64 (Dropped k + 1)) (Rejected k).
Definition add_rejected (k : Counters) : Counters :=
  mkCounters (Conns k) (Active k) (Objects k) (Bytes k) (Errors k) (Dropped k) (u64 (Rejected k + 1)).

(** One connection's totals, shared between its goroutine and [Stats]. *)
Record connCounts : Type := mkCC { objects : Z; bytes : Z }.
Abbreviation live_map := (gmap nat connCounts).

Definition addLive (c : nat) (live : live_map) : live_map := <[c := mkCC 0 0]> live.

Definition retireLive (c : nat) (k : Counters) (live : live_map) : Counters * live_map :=
  match live !! c with
  | Some cc =>
      (mkCounters (Conns k) (Active k) (u64 (Objects k + objects cc)) (u64 (Bytes k + bytes cc))
         (Errors k) (Dropped k) (Rejected k), delete c live)
  | None => (k, live)
  end.

Record Stats_t : Type := mkStats {
  st_Name : gostring; st_Conns : Z; st_Objects : Z; st_Bytes : Z; st_Errors : Z;
  st_Dropped : Z; st_Rejected : Z; st_Active : Z
}.
Definition Stats (cfg : Config) (k : Counters) (live : live_map) : Stats_t :=
  let sum f base := map_fold (λ _ cc acc, u64 (acc + f cc)) base live in
  mkStats (Name cfg) (Conns k) (sum objects (Objects k)) (sum bytes (Bytes k))
    (Errors k) (Dropped k) (Rejected k) (Active k).

(** What [Next] can fail with, and what the loop makes of it. *)
Inductive read_err : Type :=
| RdEOF | RdUnexpectedEOF | RdConnReset | RdNetError | RdOther.
Inductive verdict : Type :=
| Closed | ShuttingDown | ClosedBeforeAny | LostMidStream | FramingError.

Definition classify (cancelled : bool) (onConn : Z) (e : read_err) : verdict :=
  match e with
  | RdEOF => Closed
  | _ =>
      if cancelled then ShuttingDown else
      match e with
      | RdUnexpectedEOF => if onConn =? 0 then ClosedBeforeAny else LostMidStream
      | RdConnReset | RdNetError => LostMidStream
      | _ => FramingError
      end
  end.

(** A connection's goroutine: the objects it has read, its slab, and whether
    it is inside [Next]. *)
Record conn : Type := mkConn { onConn : Z; slab_of : gslice; in_next : bool }.

(** An object handed to the handler, and what the handler answered. *)
Record handoff : Type := mkHand { h_conn : nat; h_now : Z; h_obj : list byte; h_res : res unit }.

Record state (G : Type) : Type := mkState {
  counts : Counters; live : live_map; conns : gmap nat conn; heap : memory;
  cancelled : bool; shared : G; handed : list handoff
}.
Arguments mkState {G}. Arguments counts {G}. Arguments live {G}. Arguments conns {G}.
Arguments heap {G}. Arguments cancelled {G}. Arguments shared {G}. Arguments handed {G}.

(** What can happen: [Accept] returns a connection; a connection's reader
    reads the network; its [Next] returns an object (the clock reading is the
    handler's) or an error; the loop returns because the context is done; the
    context is cancelled. *)
Inductive event : Type :=
| EAccept (c : nat)
| ERead (c : nat)
| EObject (c : nat) (now spare : Z) (obj : list byte)
| EError (c : nat) (e : read_err)
| EReturn (c : nat)
| ECancel.

Section lane.
Context {G : Type} `{Session G}.
Variable cfg : Config.

Definition draining : bool := 0 <? DrainTimeout cfg.

(** [ctx.Err() != nil && !draining] at the top of the loop. *)
Definition must_return (s : state G) (k : conn) : bool :=
  negb (in_next k) && cancelled s && negb draining.

(** The deferred calls, last declared first: the totals are retired, the
    session is flushed, the connection is closed. *)
Definition finish (c : nat) (s : state G) : option (state G) :=
  let '(k, lv) := retireLive c (counts s) (live s) in
  match Flush c (shared s) with
  | Some (_, g) =>
      Some (mkState (add_active (-1) k) lv (delete c (conns s)) (heap s) (cancelled s) g (handed s))
  | None => None
  end.

Definition with_counts (f : Counters → Counters) (s : state G) : state G :=
  mkState (f (counts s)) (live s) (conns s) (heap s) (cancelled s) (shared s) (handed s).

(** [Next] returned an error. *)
Definition on_error (c : nat) (k : conn) (e : read_err) (s : state G) : option (state G) :=
  finish c (match classify (cancelled s) (onConn k) e with
            | FramingError => with_counts add_dropped s
            | _ => s
            end).

(** [errors.Is(err, ErrReject)]: refused on purpose, or failed. *)
Definition count_result (r : res unit) (k : Counters) : Counters :=
  match r with
  | Err (EReject _) => add_rejected k
  | Err _ => add_errors k
  | _ => k
  end.

(** [Next] returned an object. *)
Definition on_object (c : nat) (k : conn) (now spare : Z) (obj : list byte) (s : state G)
    : option (state G) :=
  if (0 <? MaxObject cfg) && (MaxObject cfg <? zlen obj) then
    finish c (with_counts add_dropped s)
  else
    let lv := alter (λ cc, mkCC (u64 (objects cc + 1)) (u64 (bytes cc + u64 (zlen obj)))) c (live s) in
    let '(obj, o, m) :=
      if Owned cfg then
        let '(v, o, m) := slab.own spare obj (slab_of k) (heap s) in (read v m, o, m)
      else (obj, slab_of k, heap s) in
    match Handle c now obj (shared s) with
    | None | Some (Panic, _) => None
    | Some (r, g) =>
        Some (mkState (count_result r (counts s)) lv (<[c := mkConn (u64 (onConn k + 1)) o false]> (conns s)) m
                (cancelled s) g (handed s ++ [mkHand c now obj r]))
    end.

Definition lane_step (ev : event) (s : state G) : option (state G) :=
  match ev with
  | ECancel =>
      Some (mkState (counts s) (live s) (conns s) (heap s) true (shared s) (handed s))
  | EAccept c =>
      match conns s !! c with
      | Some _ => None
      | None =>
          Some (mkState (add_active 1 (add_conns (counts s))) (addLive c (live s))
                  (<[c := mkConn 0 nil_slice false]> (conns s)) (heap s) (cancelled s)
                  (NewSession c (shared s)) (handed s))
      end
  | EReturn c =>
      k ← conns s !! c; if must_return s k then finish c s else None
  | ERead c =>
      k ← conns s !! c;
      if must_return s k then None else
      match Flush c (shared s) with
      | Some (Ok _, g) =>
          Some (mkState (counts s) (live s) (<[c := mkConn (onConn k) (slab_of k) true]> (conns s))
                  (heap s) (cancelled s) g (handed s))
      | Some (Err _, g) =>
          on_error c k RdOther
            (mkState (counts s) (live s) (conns s) (heap s) (cancelled s) g (handed s))
      | _ => None
      end
  | EObject c now spare obj =>
      k ← conns s !! c; if must_return s k then None else on_object c k now spare obj s
  | EError c e =>
      k ← conns s !! c; if must_return s k then None else on_error c k e s
  end.

Inductive lstep : state G → state G → Prop :=
| step_event ev s s' : lane_step ev s = Some s' → lstep s s'
| step_others s g :
    others (shared s) g →
    lstep s (mkState (counts s) (live s) (conns s) (heap s) (cancelled s) g (handed s)).
End lane.

Definition lane0 {G} (g : G) : state G := mkState counters0 ∅ ∅ (mkMem ∅ 0) false g [].
End lanes.

Import lanes.

(** ** Sums over the open connections *)

Definition live_sum (f : connCounts → Z) (m : live_map) : Z :=
  foldr (λ kv acc, f (snd kv) + acc) 0 (map_to_list m).

Lemma foldr_sum_perm (f : connCounts → Z) (l l' : list (nat * connCounts)) :
  l ≡ₚ l' → foldr (λ kv acc, f (snd kv) + acc) 0 l = foldr (λ kv acc, f (snd kv) + acc) 0 l'.
Proof. induction 1; simpl; lia. Qed.

Lemma live_sum_insert f c x m :
  m !! c = None → live_sum f (<[c := x]> m) = f x + live_sum f m.
Proof.
  intros H. unfold live_sum. by rewrite (foldr_sum_perm f _ _ (map_to_list_insert m c x H)).
Qed.

Lemma live_sum_delete f c x m :
  m !! c = Some x → live_sum f m = f x + live_sum f (delete c m).
Proof.
  intros H. rewrite <- (insert_delete_id m c x H) at 1.
  apply live_sum_insert, lookup_delete_eq.
Qed.

Lemma live_sum_alter f (g : connCounts → connCounts) c x m :
  m !! c = Some x → live_sum f (alter g c m) = live_sum f m - f x + f (g x).
Proof.
  intros H. rewrite (live_sum_delete f c (g x) (alter g c m)).
  2: by rewrite lookup_alter_eq, H.
  rewrite delete_alter_eq, (live_sum_delete f c x m H). lia.
Qed.

Lemma u64_add_l a b : u64 (u64 a + b) = u64 (a + b).
Proof. unfold u64. apply Z.add_mod_idemp_l. by compute. Qed.
Lemma u64_add_r a b : u64 (a + u64 b) = u64 (a + b).
Proof. unfold u64. apply Z.add_mod_idemp_r. by compute. Qed.
Lemma i64_add_l a b : i64 (i64 a + b) = i64 (a + b).
Proof.
  unfold i64. f_equal. replace ((a + two63) mod two64 - two63 + b + two63)
    with ((a + two63) mod two64 + b) by lia.
  rewrite Z.add_mod_idemp_l by (by compute). f_equal. lia.
Qed.

(** [Stats] sums modulo [2^64], in whatever order the map is ranged over. *)
Lemma fold_live f base (m : live_map) :
  base = u64 base →
  map_fold (λ _ cc acc, u64 (acc + f cc)) base m = u64 (base + live_sum f m).
Proof.
  intros Hb. rewrite map_fold_foldr. unfold live_sum.
  induction (map_to_list m) as [|[c x] l IH]; simpl; [by rewrite Z.add_0_r|].
  rewrite IH, u64_add_l. f_equal. lia.
Qed.

(** ** The invariant of a lane *)

Definition count (P : handoff → bool) (l : list handoff) : Z := zlen (filter (λ h, P h = true) l).
Definition is_reject (h : handoff) : bool :=
  match h_res h with Err (EReject _) => true | _ => false end.
Definition is_failure (h : handoff) : bool :=
  match h_res h with Err (EMsg _) => true | _ => false end.
Definition handed_bytes (l : list handoff) : Z := foldr (λ h acc, zlen (h_obj h) + acc) 0 l.

Lemma count_snoc P l h : count P (l ++ [h]) = count P l + (if P h then 1 else 0).
Proof.
  unfold count. rewrite filter_app, length_app. destruct (P h) eqn:E.
  - rewrite filter_cons_True by done. simpl. lia.
  - rewrite filter_cons_False by (by rewrite E). simpl. lia.
Qed.

Lemma handed_bytes_snoc l h : handed_bytes (l ++ [h]) = handed_bytes l + zlen (h_obj h).
Proof. unfold handed_bytes. induction l; simpl; lia. Qed.

Record lane_inv {G} (cfg : Config) (s : state G) : Prop := {
  li_live : ∀ c, live s !! c = None ↔ conns s !! c = None;
  li_slab : ∀ c k, conns s !! c = Some k → view_ok (heap s) (slab_of k);
  li_norm : Objects (counts s) = u64 (Objects (counts s)) ∧ Bytes (counts s) = u64 (Bytes (counts s));
  li_objects : u64 (Objects (counts s) + live_sum objects (live s)) = u64 (zlen (handed s));
  li_bytes : u64 (Bytes (counts s) + live_sum bytes (live s)) = u64 (handed_bytes (handed s));
  li_errors : Errors (counts s) = u64 (count is_failure (handed s));
  li_rejected : Rejected (counts s) = u64 (count is_reject (handed s));
  li_active : Active (counts s) = i64 (Z.of_nat (size (conns s)));
  li_max : 0 < MaxObject cfg → Forall (λ h, zlen (h_obj h) ≤ MaxObject cfg) (handed s)
}.

Section invariant.
Context {G : Type} `{Session G}.
Variable cfg : Config.

Lemma finish_inv c s s' :
  lane_inv cfg s → is_Some (conns s !! c) → finish c s = Some s' → lane_inv cfg s'.
Proof.
  intros [Hl Hs Hn Ho Hb He Hr Ha Hm] [k Hk]. unfold finish, retireLive.
  destruct (live s !! c) as [cc|] eqn:Ec; [|apply Hl in Ec; congruence].
  destruct (Flush c (shared s)) as [[r g]|]; [|done]. intros [= <-].
  split; cbn; try done.
  - intros c'. destruct (decide (c' = c)) as [->|Hne].
    + by rewrite !lookup_delete_eq.
    + by rewrite !lookup_delete_ne.
  - intros c' k' [_ Hk']%lookup_delete_Some. by eapply Hs.
  - unfold u64. by rewrite !Z.mod_mod.
  - rewrite u64_add_l, <- Z.add_assoc, <- (live_sum_delete objects c cc) by done. done.
  - rewrite u64_add_l, <- Z.add_assoc, <- (live_sum_delete bytes c cc) by done. done.
  - rewrite Ha, i64_add_l. f_equal. rewrite <- (insert_delete_id (conns s) c k Hk) at 1.
    rewrite map_size_insert_None by apply lookup_delete_eq. lia.
Qed.

Lemma with_counts_dropped_inv (s : state G) : lane_inv cfg s → lane_inv cfg (with_counts add_dropped s).
Proof. intros [???????? ?]. by split. Qed.

Lemma on_error_inv c k e (s s' : state G) :
  lane_inv cfg s → conns s !! c = Some k → on_error c k e s = Some s' → lane_inv cfg s'.
Proof.
  unfold on_error. intros Hi Hk. destruct (classify _ _ _); apply finish_inv; eauto.
  by apply with_counts_dropped_inv.
Qed.

(** What the object branch does to the slab: the bytes handed on are the bytes
    read, and every connection's slab stays usable. *)
Definition owned (c : nat) (k : conn) (spare : Z) (obj : list byte) (s : state G)
    : list byte * gslice * memory :=
  if Owned cfg then
    let '(v, o, m) := slab.own spare obj (slab_of k) (heap s) in (read v m, o, m)
  else (obj, slab_of k, heap s).

Lemma owned_same c k spare obj s obj' o m :
  view_ok (heap s) (slab_of k) → owned c k spare obj s = (obj', o, m) →
  obj' = obj ∧ view_ok m o ∧ (next_array (heap s) ≤ next_array m)%nat.
Proof.
  unfold owned. intros Hk. destruct (Owned cfg); [|by intros [= <- <- <-]].
  pose proof (own_ok spare obj (slab_of k) (heap s) Hk) as Ho.
  destruct (slab.own _ _ _ _) as [[v o1] m1]. destruct Ho as (_ & ? & ? & ? & _).
  by intros [= <- <- <-].
Qed.

(** The books after an object is handed on. *)
Lemma handed_on_inv c k cc now obj r o m (g : G) (s : state G) :
  lane_inv cfg s → conns s !! c = Some k → live s !! c = Some cc →
  view_ok m o → (next_array (heap s) ≤ next_array m)%nat →
  (0 < MaxObject cfg → zlen obj ≤ MaxObject cfg) →
  lane_inv cfg (mkState (count_result r (counts s))
    (alter (λ cc, mkCC (u64 (objects cc + 1)) (u64 (bytes cc + u64 (zlen obj)))) c (live s))
    (<[c := mkConn (u64 (onConn k + 1)) o false]> (conns s)) m (cancelled s) g
    (handed s ++ [mkHand c now obj r])).
Proof.
  intros [Hl Hs Hn Ho Hb He Hr Ha Hm] Hk Hc Hom Hnx Hmax.
  assert (∀ k, Objects (count_result r k) = Objects k ∧ Bytes (count_result r k) = Bytes k ∧
    Active (count_result r k) = Active k) as Hk'.
  { intros k'. by destruct r as [|[]|]. }
  destruct (Hk' (counts s)) as (E1 & E2 & E3). clear Hk'.
  split; cbn [live conns heap counts handed]; rewrite ?E1, ?E2, ?E3; [| |done|..].
  - intros c'. destruct (decide (c' = c)) as [->|Hne].
    + by rewrite lookup_alter_eq, Hc, lookup_insert_eq.
    + by rewrite lookup_alter_ne, lookup_insert_ne.
  - intros c' k' [[_ <-]|[_ Hk']]%lookup_insert_Some; [done|].
    eapply view_ok_mono; [exact Hnx|]. by eapply Hs.
  - rewrite (live_sum_alter _ _ c cc) by done. cbn [objects].
    rewrite length_app. cbn [length]. rewrite Nat2Z.inj_add, <- (u64_add_l (zlen (handed s))), <- Ho.
    rewrite Z.add_assoc, u64_add_r, u64_add_l. f_equal. lia.
  - rewrite (live_sum_alter _ _ c cc) by done. cbn [bytes].
    rewrite handed_bytes_snoc, <- (u64_add_l (handed_bytes _)), <- Hb.
    rewrite Z.add_assoc, u64_add_r, u64_add_l, Z.add_assoc, u64_add_r. f_equal. cbn [h_obj]. lia.
  - rewrite count_snoc. destruct r as [|[]|]; cbn; rewrite ?He, ?u64_add_l, ?Z.add_0_r; done.
  - rewrite count_snoc. destruct r as [|[]|]; cbn; rewrite ?Hr, ?u64_add_l, ?Z.add_0_r; done.
  - rewrite map_size_insert_Some by eauto. done.
  - intros Hp. rewrite Forall_app, Forall_singleton. auto.
Qed.

Lemma on_object_inv c k now spare obj (s s' : state G) :
  lane_inv cfg s → conns s !! c = Some k → on_object cfg c k now spare obj s = Some s' →
  lane_inv cfg s'.
Proof.
  intros Hi Hk. unfold on_object.
  destruct ((0 <? MaxObject cfg) && (MaxObject cfg <? zlen obj)) eqn:Emax.
  { apply finish_inv; [by apply with_counts_dropped_inv|by eexists]. }
  destruct (if Owned cfg then _ else _) as [[obj' o] m] eqn:Eo.
  destruct (owned_same c k spare obj s obj' o m (li_slab _ _ Hi _ _ Hk) Eo) as (-> & Hom & Hnx).
  destruct (live s !! c) as [cc|] eqn:Ec; [|apply (li_live _ _ Hi) in Ec; congruence].
  assert (0 < MaxObject cfg → zlen obj ≤ MaxObject cfg) as Hmax by lia.
  destruct (Handle c now obj (shared s)) as [[r g]|]; [|done].
  pose proof (handed_on_inv c k cc now obj r o m g s Hi Hk Ec Hom Hnx Hmax) as Hgoal.
  destruct r as [u|e|]; [| |done]; intros [= <-]; exact Hgoal.
Qed.

Lemma event_inv ev (s s' : state G) :
  lane_inv cfg s → lane_step cfg ev s = Some s' → lane_inv cfg s'.
Proof.
  intros Hi. destruct ev as [c|c|c now spare obj|c e|c|]; cbn [lane_step].
  - destruct (conns s !! c) eqn:Ec; [done|]. intros [= <-].
    assert (live s !! c = None) as El by (by apply (li_live _ _ Hi)).
    destruct Hi as [Hl Hs Hn Ho Hb He Hr Ha Hm]. split; cbn; try done.
    + intros c'. unfold addLive. destruct (decide (c' = c)) as [->|Hne].
      * by rewrite !lookup_insert_eq.
      * by rewrite !lookup_insert_ne.
    + intros c' k' [[_ <-]|[_ Hk']]%lookup_insert_Some; [split; cbn; lia|by eapply Hs].
    + unfold addLive. rewrite live_sum_insert by done. done.
    + unfold addLive. rewrite live_sum_insert by done. done.
    + rewrite Ha, i64_add_l. f_equal. rewrite map_size_insert_None by done. lia.
  - destruct (conns s !! c) as [k|] eqn:Ek; [|done]. cbn. destruct (must_return _ _ _); [done|].
    destruct (Flush c (shared s)) as [[[u|e|] g]|]; [| |done|done].
    + intros [= <-]. destruct Hi as [Hl Hs Hn Ho Hb He Hr Ha Hm]. split; cbn; try done.
      * intros c'. rewrite Hl. destruct (decide (c' = c)) as [->|Hne].
        -- by rewrite lookup_insert_eq, Ek.
        -- by rewrite lookup_insert_ne.
      * intros c' k' [[_ <-]|[_ Hk']]%lookup_insert_Some; [exact (Hs _ _ Ek)|by eapply Hs].
      * rewrite map_size_insert_Some by eauto. done.
    + apply on_error_inv; [|done]. destruct Hi. by split.
  - destruct (conns s !! c) as [k|] eqn:Ek; [|done]. cbn. destruct (must_return _ _ _); [done|].
    by apply on_object_inv.
  - destruct (conns s !! c) as [k|] eqn:Ek; [|done]. cbn. destruct (must_return _ _ _); [done|].
    by apply on_error_inv.
  - destruct (conns s !! c) as [k|] eqn:Ek; [|done]. cbn. destruct (must_return _ _ _); [|done].
    apply finish_inv; eauto.
  - intros [= <-]. destruct Hi. by split.
Qed.

Lemma lane0_inv (g : G) : lane_inv cfg (lane0 g).
Proof. split; cbn; done. Qed.

Lemma reachable_inv g s : rtc (lstep cfg) (lane0 g) s → lane_inv cfg s.
Proof.
  intros Hr. revert s Hr. apply rtc_ind_r; [apply lane0_inv|].
  intros y z _ [ev s1 s2 E|s1 g' _] Hi; [by eapply event_inv|]. destruct Hi. by split.
Qed.

(** C26: The books of a lane are exact under every interleaving: with connections
    opening, sending, failing and closing in any order, [Stats] reports as
    objects and bytes what was handed to the handler (modulo [2^64], also for
    the connections already gone), as errors and refusals how often the
    handler failed and refused, and as active the open connections; and
    nothing above the object ceiling is ever handed on. *)
Theorem lane_stats_exact (g : G) (s : state G) :
  rtc (lstep cfg) (lane0 g) s →
  let st := Stats cfg (counts s) (live s) in
  st_Objects st = u64 (zlen (handed s)) ∧
  st_Bytes st = u64 (handed_bytes (handed s)) ∧
  st_Errors st = u64 (count is_failure (handed s)) ∧
  st_Rejected st = u64 (count is_reject (handed s)) ∧
  st_Active st = i64 (Z.of_nat (size (conns s))) ∧
  (0 < MaxObject cfg → Forall (λ h, zlen (h_obj h) ≤ MaxObject cfg) (handed s)).
Proof.
  intros [Hl Hs [Hn1 Hn2] Ho Hb He Hr Ha Hm]%reachable_inv. cbn.
  rewrite !fold_live by done. by split_and!.
Qed.
End invariant.

(** ** The transaction lane *)

Module tx_lane.
(** What the sessions of the transaction lane share: the transaction cache,
    each connection's run, the pipe, and, to follow them after the queue, the
    transactions the builders have taken from it. *)
Record tx_state : Type := mkTx {
  txs : generational.Generational; runs : gmap nat (list txpipe.job);
  pipe : txpipe.Pipe; taken : list txpipe.job
}.

Definition run_of (c : nat) (g : tx_state) : list txpipe.job := default [] (runs g !! c).

Section session.
Context {O : Objfmt}.

Definition tx_Handle (c : nat) (now : Z) (obj : list byte) (g : tx_state)
    : option (res unit * tx_state) :=
  match bridge.session_Handle now obj (txs g) (run_of c g) (pipe g) with
  | (r, t, run, p, true) => Some (r, mkTx t (<[c := run]> (runs g)) p (taken g))
  | (_, _, _, _, false) => None
  end.

(** [Flush: run.Flush]; the context lane handlers run under is never done. *)
Definition tx_Flush (c : nat) (g : tx_state) : option (res unit * tx_state) :=
  match txpipe.Batch_Flush (run_of c g) (pipe g) with
  | (run, Some p) => Some (Ok tt, mkTx (txs g) (<[c := run]> (runs g)) p (taken g))
  | (_, None) => None
  end.

Definition tx_NewSession (c : nat) (g : tx_state) : tx_state :=
  mkTx (txs g) (<[c := []]> (runs g)) (pipe g) (taken g).

(** A builder receives a run from its channel. *)
Inductive builder_takes : tx_state → tx_state → Prop :=
| takes i js q g :
    txpipe.ins (pipe g) !! i = Some (js :: q) →
    builder_takes g (mkTx (txs g) (runs g)
      (txpipe.mkPipe (txpipe.cfg (pipe g)) (<[i := q]> (txpipe.ins (pipe g)))
         (txpipe.chan_cap (pipe g)) (txpipe.rr (pipe g)) (txpipe.queued (pipe g) - zlen js)
         (txpipe.enqueued (pipe g))) (taken g ++ js)).

#[export] Instance txSession : Session tx_state := {|
  NewSession := tx_NewSession; Handle := tx_Handle; Flush := tx_Flush; others := builder_takes
|}.
End session.
End tx_lane.

Import tx_lane.

Definition runs_all (m : gmap nat (list txpipe.job)) : list txpipe.job :=
  concat (snd <$> map_to_list m).

Lemma runs_all_insert c r m : runs_all (<[c := r]> m) ≡ₚ r ++ runs_all (delete c m).
Proof.
  unfold runs_all. rewrite <- insert_delete_eq.
  by rewrite (map_to_list_insert (delete c m) c r) by apply lookup_delete_eq.
Qed.

Lemma runs_all_split c m : runs_all m ≡ₚ default [] (m !! c) ++ runs_all (delete c m).
Proof.
  destruct (m !! c) as [r|] eqn:E; cbn.
  - rewrite <- (insert_delete_id m c r E) at 1. rewrite runs_all_insert. by rewrite delete_delete_eq.
  - by rewrite delete_id.
Qed.

Lemma runs_all_nil m : (∀ c r, m !! c = Some r → r = []) → runs_all m = [].
Proof.
  intros H. unfold runs_all. assert (∀ r, r ∈ snd <$> map_to_list m → r = []) as Hr.
  { intros r ([c r'] & -> & Hin%elem_of_map_to_list)%list_elem_of_fmap. by eapply H. }
  induction (snd <$> map_to_list m) as [|r l IH]; [done|]. cbn.
  rewrite (Hr r) by left. apply IH. intros r' ?. apply Hr. by right.
Qed.

(** Where the transactions admitted so far are. *)
Definition whereabouts (g : tx_state) : list txpipe.job :=
  queued_jobs (pipe g) ++ taken g ++ runs_all (runs g).

Definition delivered (l : list handoff) : list (Z * list byte) := (λ h, (h_now h, h_obj h)) <$> l.

Section tx_lane.
Context {O : Objfmt}.

Definition admitted (l : list (Z * list byte)) (t : generational.Generational)
    : generational.Generational :=
  foldl (λ t x, snd (bridge.admitTx (fst x) (snd x) t)) t l.

Definition admits (now : Z) (obj : list byte) (t : generational.Generational) : list txpipe.job :=
  match fst (bridge.admitTx now obj t) with Ok (id, true) => [txpipe.mkJob obj id] | _ => [] end.

Lemma fresh_jobs_snoc l now obj t :
  fresh_jobs (l ++ [(now, obj)]) t = fresh_jobs l t ++ admits now obj (admitted l t).
Proof.
  revert t; induction l as [|[now' obj'] l IH]; intros t;
    cbn [app fresh_jobs admitted foldl fst snd].
  - unfold admits. by destruct (bridge.admitTx now obj t) as [[[id []]| |] t'].
  - destruct (bridge.admitTx now' obj' t) as [[[id []]| |] t']; cbn [fst snd]; by rewrite IH.
Qed.

Lemma pending_update c run run' m (q q' tk x : list txpipe.job) :
  default [] (m !! c) = run → q' ++ run' ≡ₚ q ++ run ++ x →
  q' ++ tk ++ runs_all (<[c := run']> m) ≡ₚ (q ++ tk ++ runs_all m) ++ x.
Proof.
  intros <- Hq. rewrite runs_all_insert, (runs_all_split c m).
  transitivity ((q' ++ run') ++ tk ++ runs_all (delete c m)).
  { rewrite <- app_assoc. apply Permutation_app_head, Permutation_app_swap_app. }
  rewrite Hq, <- !app_assoc. apply Permutation_app_head.
  rewrite (Permutation_app_swap_app tk). apply Permutation_app_head.
  rewrite (app_assoc tk), (Permutation_app_comm x). by rewrite <- app_assoc.
Qed.

Lemma tx_Handle_spec c now obj g r g' :
  zlen (run_of c g) < txpipe.BatchCap → tx_Handle c now obj g = Some (r, g') →
  txs g' = snd (bridge.admitTx now obj (txs g)) ∧
  (∀ c', zlen (run_of c' g) < txpipe.BatchCap → zlen (run_of c' g') < txpipe.BatchCap) ∧
  (∀ c', c' ≠ c → run_of c' g' = run_of c' g) ∧
  whereabouts g' ≡ₚ whereabouts g ++ admits now obj (txs g).
Proof.
  intros Hr. unfold tx_Handle.
  pose proof (session_Handle_spec now obj (txs g) (run_of c g) (pipe g) Hr) as H.
  destruct (bridge.session_Handle _ _ _ _ _) as [[[[r' t] run] p] []]; [|done].
  destruct H as (-> & Hr' & Hq). intros [= <- <-]. cbn [txs]. split_and!; [done| | |].
  - intros c' Hc'. unfold run_of. cbn [runs]. destruct (decide (c' = c)) as [->|Hne].
    + by rewrite lookup_insert_eq.
    + by rewrite lookup_insert_ne.
  - intros c' Hne. unfold run_of. cbn [runs]. by rewrite lookup_insert_ne.
  - unfold whereabouts. cbn [pipe taken runs]. by eapply pending_update.
Qed.

Lemma Batch_Flush_queued run p run' p' :
  txpipe.Batch_Flush run p = (run', Some p') →
  run' = [] ∧ queued_jobs p' ≡ₚ queued_jobs p ++ run.
Proof.
  unfold txpipe.Batch_Flush. destruct (Z.eqb_spec (zlen run) 0) as [E|E].
  - destruct run; [|simpl in E; lia]. intros [= <- <-]. by rewrite app_nil_r.
  - intros [= <- Hs]. apply send_queued in Hs as [Hs _]. split; [done|exact Hs].
Qed.

Lemma tx_Flush_spec c g r g' :
  tx_Flush c g = Some (r, g') →
  r = Ok tt ∧ txs g' = txs g ∧ run_of c g' = [] ∧ (∀ c', c' ≠ c → run_of c' g' = run_of c' g) ∧
  whereabouts g' ≡ₚ whereabouts g.
Proof.
  unfold tx_Flush. destruct (txpipe.Batch_Flush _ _) as [run [p|]] eqn:E; [|done].
  apply Batch_Flush_queued in E as [-> Hq]. intros [= <- <-]. split_and!; [done|done| | |].
  - unfold run_of. cbn [runs]. by rewrite lookup_insert_eq.
  - intros c' Hne. unfold run_of. cbn [runs]. by rewrite lookup_insert_ne.
  - unfold whereabouts. cbn [pipe taken runs]. rewrite <- (app_nil_r (queued_jobs (pipe g) ++ _)).
    eapply pending_update; [done|]. rewrite !app_nil_r. exact Hq.
Qed.

Lemma builder_takes_spec g g' :
  builder_takes g g' → txs g' = txs g ∧ runs g' = runs g ∧ whereabouts g' ≡ₚ whereabouts g.
Proof.
  intros [i js q g0 Hi]. split_and!; [done..|]. unfold whereabouts, queued_jobs.
  cbn [pipe taken runs txpipe.ins].
  rewrite <- (take_drop_middle _ _ _ Hi) at 2.
  rewrite insert_take_drop by (by eapply lookup_lt_Some).
  rewrite !concat_app, !concat_cons, !concat_app, concat_cons, <- !app_assoc.
  apply Permutation_app_head. rewrite (Permutation_app_swap_app js).
  apply Permutation_app_head. rewrite (Permutation_app_swap_app js).
  apply Permutation_app_head. by rewrite Permutation_app_swap_app.
Qed.

Record tx_inv (t0 : generational.Generational) (p0 : txpipe.Pipe) (s : state tx_state) : Prop := {
  ti_txs : txs (shared s) = admitted (delivered (handed s)) t0;
  ti_jobs : whereabouts (shared s) ≡ₚ queued_jobs p0 ++ fresh_jobs (delivered (handed s)) t0;
  ti_short : ∀ c, zlen (run_of c (shared s)) < txpipe.BatchCap;
  ti_idle : ∀ c, (∀ k, conns s !! c = Some k → in_next k = true) → run_of c (shared s) = []
}.

Variables (cfg : Config) (t0 : generational.Generational) (p0 : txpipe.Pipe).

(** A flush of connection [c], whatever else happens to that connection. *)
Lemma tx_flush_inv c r g (s s' : state tx_state) :
  tx_inv t0 p0 s → tx_Flush c (shared s) = Some (r, g) →
  shared s' = g → handed s' = handed s → (∀ c', c' ≠ c → conns s' !! c' = conns s !! c') →
  tx_inv t0 p0 s'.
Proof.
  intros [Ht Hj Hs Hi] (_ & Htx & Hc & Hother & Hw)%tx_Flush_spec <- Hh Hconns.
  split; rewrite ?Hh.
  - by rewrite Htx.
  - by rewrite Hw.
  - intros c'. destruct (decide (c' = c)) as [->|Hne]; [by rewrite Hc|by rewrite Hother].
  - intros c'. destruct (decide (c' = c)) as [->|Hne]; [done|]. rewrite Hconns, Hother by done. apply Hi.
Qed.

Lemma tx_finish_inv c (s s' : state tx_state) :
  tx_inv t0 p0 s → finish c s = Some s' → tx_inv t0 p0 s'.
Proof.
  intros Hi. unfold finish. destruct (retireLive _ _ _) as [k lv].
  destruct (Flush c (shared s)) as [[r g]|] eqn:E; [|done]. intros [= <-].
  eapply (tx_flush_inv c r g s); try done. intros c' Hne. cbn. by rewrite lookup_delete_ne.
Qed.

Lemma tx_on_error_inv c k e (s s' : state tx_state) :
  tx_inv t0 p0 s → on_error c k e s = Some s' → tx_inv t0 p0 s'.
Proof.
  intros Hi. unfold on_error. destruct (classify _ _ _); apply tx_finish_inv; try done.
  destruct Hi. by split.
Qed.

Lemma tx_on_object_inv c k now spare obj (s s' : state tx_state) :
  tx_inv t0 p0 s → on_object cfg c k now spare obj s = Some s' → tx_inv t0 p0 s'.
Proof.
  intros Hi. unfold on_object. destruct (_ && _).
  { apply tx_finish_inv. destruct Hi. by split. }
  destruct (if Owned cfg then _ else _) as [[obj' o] m]. destruct Hi as [Ht Hj Hs Hi].
  destruct (Handle c now obj' (shared s)) as [[r g]|] eqn:E; [|done].
  destruct (tx_Handle_spec c now obj' (shared s) r g (Hs c) E) as (Htx & Hsh & Hother & Hw).
  assert (∀ ks lv m', tx_inv t0 p0 (mkState ks lv
    (<[c := mkConn (u64 (onConn k + 1)) o false]> (conns s)) m' (cancelled s) g
    (handed s ++ [mkHand c now obj' r]))) as Hgoal.
  { intros. split; cbn [shared handed conns]; unfold delivered in *; rewrite ?fmap_app.
    - unfold admitted in *. by rewrite foldl_app, Htx, Ht.
    - cbn [fmap list_fmap h_now h_obj]. by rewrite fresh_jobs_snoc, Hw, Hj, Ht, app_assoc.
    - intros c'. apply Hsh, Hs.
    - intros c' Hc'. destruct (decide (c' = c)) as [->|Hne].
      + specialize (Hc' _ (lookup_insert_eq _ _ _)). done.
      + rewrite Hother by done. apply Hi. intros k' Hk'. apply Hc'. by rewrite lookup_insert_ne. }
  destruct r as [u|e|]; [| |done]; intros [= <-]; apply Hgoal.
Qed.

Lemma tx_event_inv ev (s s' : state tx_state) :
  tx_inv t0 p0 s → lane_step cfg ev s = Some s' → tx_inv t0 p0 s'.
Proof.
  intros Hi. destruct ev as [c|c|c now spare obj|c e|c|]; cbn [lane_step];
    [|destruct (conns s !! c) as [k|] eqn:Ek; [|done]; cbn [mbind option_bind];
       destruct (must_return _ _ _); try done..|].
  - destruct (conns s !! c) eqn:Ec; [done|]. intros [= <-].
    assert (run_of c (shared s) = []) as Hrun by (apply Hi; by rewrite Ec).
    assert (∀ c', run_of c' (tx_NewSession c (shared s)) = run_of c' (shared s)) as Hrs.
    { intros c'. unfold run_of. cbn. destruct (decide (c' = c)) as [->|Hne].
      - rewrite lookup_insert_eq. symmetry. exact Hrun.
      - by rewrite lookup_insert_ne. }
    destruct Hi as [Ht Hj Hs Hi]. split; cbn [shared handed conns]; [done| |intros c'; by rewrite Hrs|].
    + rewrite <- Hj. unfold whereabouts. cbn. do 2 apply Permutation_app_head.
      rewrite runs_all_insert, (runs_all_split c (runs (shared s))).
      unfold run_of in Hrun. by rewrite Hrun.
    + intros c' Hc'. rewrite Hrs. apply Hi. intros k Hk. apply Hc'.
      rewrite lookup_insert_ne; [done|]. intros ->. congruence.
  - destruct (Flush c (shared s)) as [[[u|e|] g]|] eqn:E; [| |done|done].
    + intros [= <-]. eapply (tx_flush_inv c (Ok u) g s); try done.
      intros c' Hne. cbn. by rewrite lookup_insert_ne.
    + by apply tx_Flush_spec in E as [[=] _].
  - by apply tx_on_object_inv.
  - by apply tx_on_error_inv.
  - by apply tx_finish_inv.
  - intros [= <-]. destruct Hi. by split.
Qed.

Lemma tx_reachable_inv s :
  rtc (lstep cfg) (lane0 (mkTx t0 ∅ p0 [])) s → tx_inv t0 p0 s.
Proof.
  intros Hr. revert s Hr. apply rtc_ind_r.
  - split; cbn [lane0 shared handed conns]; [done| |done|done].
    unfold whereabouts. cbn. by rewrite !app_nil_r.
  - intros y z _ [ev s1 s2 E|s1 g' Hg] Hi; [by eapply tx_event_inv|].
    apply builder_takes_spec in Hg as (Htx & Hrun & Hw). destruct Hi as [Ht Hj Hs Hi].
    split; cbn [shared handed conns]; [by rewrite Htx|by rewrite Hw| |];
      unfold run_of in *; by rewrite Hrun.
Qed.

(** C8: The transaction lane loses and repeats nothing, under every interleaving
    of its connections and of the builders behind the queue: the transactions
    admitted as new are, each exactly once, on a builder's queue, taken by a
    builder, or in the run of a connection that is still busy; a connection
    that waits for the network, or has ended, keeps nothing back. *)
Theorem tx_lane_conserves (s : state tx_state) :
  rtc (lstep cfg) (lane0 (mkTx t0 ∅ p0 [])) s →
  queued_jobs (pipe (shared s)) ++ taken (shared s) ++ runs_all (runs (shared s))
    ≡ₚ queued_jobs p0 ++ fresh_jobs (delivered (handed s)) t0 ∧
  ((∀ c k, conns s !! c = Some k → in_next k = true) →
   queued_jobs (pipe (shared s)) ++ taken (shared s)
     ≡ₚ queued_jobs p0 ++ fresh_jobs (delivered (handed s)) t0).
Proof.
  intros [Ht Hj Hs Hi]%tx_reachable_inv. split; [done|]. intros Hidle.
  unfold whereabouts in Hj. rewrite runs_all_nil, app_nil_r in Hj; [done|].
  intros c r Hr. specialize (Hi c (Hidle c)). unfold run_of in Hi. by rewrite Hr in Hi.
Qed.
End tx_lane.

(** ** Witnesses *)

Fixpoint run_events {G} `{Session G} (cfg : Config) (evs : list event) (s : state G)
    : option (state G) :=
  match evs with
  | [] => Some s
  | ev :: evs => s ← lane_step cfg ev s; run_events cfg evs s
  end.

Lemma run_events_rtc {G} `{Session G} cfg evs (s s' : state G) :
  run_events cfg evs s = Some s' → rtc (lstep cfg) s s'.
Proof.
  revert s; induction evs as [|ev evs IH]; intros s; cbn [run_events].
  - intros [= ->]. apply rtc_refl.
  - destruct (lane_step cfg ev s) as [s1|] eqn:E; [|done]. cbn [mbind option_bind].
    intros Hr. eapply rtc_l; [by eapply step_event|by apply IH].
Qed.

Definition lx_cfg : Config := mkCfg (str "tx") 100 true 0.
Definition lx_start : state tx_state :=
  lane0 (mkTx (generational.NewGenerational 0 gx_opts) ∅ hx_pipe []).

(** Two connections deliver the same transaction and one that is refused; one
    connection closes and the other waits for more. *)
Definition lx_events : list event :=
  [EAccept 0; EAccept 1; ERead 0; ERead 1; EObject 0 1 0 hx_tx; EObject 1 2 0 hx_tx;
   EObject 1 3 0 (replicate 20 x01); ERead 1; EError 0 RdEOF].

Definition lx_end : option (state tx_state) :=
  run_events (H := @txSession ref_objfmt) lx_cfg lx_events lx_start.

Lemma lane_stats_exact_witness :
  match lx_end with
  | Some s => let st := Stats lx_cfg (counts s) (live s) in
              st_Objects st = 3 ∧ st_Rejected st = 1 ∧ st_Active st = 1
  | None => False
  end.
Proof.
  assert ((λ s, (zlen (handed s), count is_reject (handed s), size (conns s))) <$> lx_end
          = Some (3, 1, 1%nat)) as Hv by (vm_compute; reflexivity).
  destruct lx_end as [s|] eqn:E; [|discriminate Hv].
  destruct (lane_stats_exact lx_cfg _ s (run_events_rtc lx_cfg lx_events _ _ E))
    as (Ho & _ & _ & Hr & Ha & _).
  cbv zeta. rewrite Ho, Hr, Ha. injection Hv as -> -> ->. repeat split; reflexivity.
Defined.

Lemma tx_lane_conserves_witness :
  match lx_end with
  | Some s => queued_jobs (pipe (shared s)) ++ taken (shared s)
              ≡ₚ [txpipe.mkJob hx_tx (hashid.DoubleSHA256 hx_tx)]
  | None => False
  end.
Proof.
  assert ((λ s, (delivered (handed s),
                 bool_decide (map_Forall (λ _ k, in_next k = true) (conns s)))) <$> lx_end
          = Some ([(1, hx_tx); (2, hx_tx); (3, replicate 20 x01)], true)) as Hv
    by (vm_compute; reflexivity).
  destruct lx_end as [s|] eqn:E; [|discriminate Hv].
  destruct (tx_lane_conserves (O := ref_objfmt) lx_cfg _ _ s
    (run_events_rtc lx_cfg lx_events _ _ E)) as [_ H].
  injection Hv as Hd Hidle%bool_decide_eq_true_1.
  rewrite Hd in H. etransitivity; [apply H; intros c k; apply Hidle|].
  vm_compute. reflexivity.
Defined.
