(* ===== verification/UpTunnel.v ===== *)
(** * submit: the up-tunnel sender

    [src/internal/submit/uptunnel.go]. One connection per class, dialled from a
    failover list that is tried from the last address that worked. The network
    decides each dial and each write; the calls run under the mutex, so a run
    is a sequence of calls. [wire] lists what was written whole, in order. *)

From Stdlib Require Import Strings.Byte.
From stdpp Require Import base list strings numbers gmap.
From S2P Require Import Prelude.

Module uptunnel.
Record UpTunnel : Type := mkUp {
  Addrs : list gostring;
  conn : option gostring;
  cur : Z;
  sent : Z; nbytes : Z; failures : Z; redials : Z;
  wire : list (gostring * list byte)
}.

(** [for range u.Addrs { ... }] with [n] rounds left; [dial k] is the outcome
    of the [k]-th dial of this call. *)
Fixpoint dial_loop (n : nat) (dial : nat → bool) (k : nat) (u : UpTunnel) : res UpTunnel :=
  match n with
  | O => Ok u
  | S n =>
      addr ← index (Addrs u) (Z.rem (cur u) (zlen (Addrs u)));
      if dial k then
        Ok (mkUp (Addrs u) (Some addr) (cur u) (sent u) (nbytes u) (failures u) (redials u + 1) (wire u))
      else
        dial_loop n dial (S k)
          (mkUp (Addrs u) (conn u) (Z.rem (cur u + 1) (zlen (Addrs u)))
             (sent u) (nbytes u) (failures u + 1) (redials u) (wire u))
  end.

(** The write on an open connection. *)
Definition write (ok : bool) (obj : list byte) (u : UpTunnel) : res unit * UpTunnel :=
  match conn u with
  | None => (Panic, u)
  | Some addr =>
      if ok then
        (Ok tt, mkUp (Addrs u) (conn u) (cur u) (sent u + 1) (nbytes u + zlen obj)
                  (failures u) (redials u) (wire u ++ [(addr, obj)]))
      else
        (Err (EMsg "uptunnel: write"),
         mkUp (Addrs u) None (cur u) (sent u) (nbytes u) (failures u + 1) (redials u) (wire u))
  end.

Definition Send (dial : nat → bool) (wr : bool) (obj : list byte) (u : UpTunnel)
    : res unit * UpTunnel :=
  if zlen obj =? 0 then (Err (EMsg "uptunnel: empty object"), u) else
  match conn u with
  | Some _ => write wr obj u
  | None =>
      if zlen (Addrs u) =? 0 then (Err (EMsg "uptunnel: no addresses configured"), u) else
      match dial_loop (length (Addrs u)) dial 0 u with
      | Ok u =>
          match conn u with
          | None => (Err (EMsg "uptunnel: all addresses failed"), u)
          | Some _ => write wr obj u
          end
      | Err e => (Err e, u)
      | Panic => (Panic, u)
      end
  end.

Definition Close (u : UpTunnel) : UpTunnel :=
  mkUp (Addrs u) None (cur u) (sent u) (nbytes u) (failures u) (redials u) (wire u).
End uptunnel.

Import uptunnel.

(** The cursor points into the list. *)
Definition up_ok (u : UpTunnel) : Prop := 0 ≤ cur u < zlen (Addrs u).

(** The address [k] places after the cursor, and the first dial that succeeds. *)
Definition addr_at (u : UpTunnel) (k : Z) : option gostring :=
  Addrs u !! Z.to_nat ((cur u + k) mod zlen (Addrs u)).
Definition first_ok (dial : nat → bool) (n k : nat) : Prop :=
  (k < n)%nat ∧ dial k = true ∧ ∀ i, (i < k)%nat → dial i = false.

Lemma dial_loop_spec n dial k u :
  up_ok u →
  ∃ u', dial_loop n dial k u = Ok u' ∧ up_ok u' ∧ Addrs u' = Addrs u ∧ wire u' = wire u ∧
    ((∃ j, (j < n)%nat ∧ dial (k + j)%nat = true ∧ (∀ i, (i < j)%nat → dial (k + i)%nat = false) ∧
       conn u' = addr_at u (Z.of_nat j) ∧ is_Some (conn u') ∧
       cur u' = (cur u + Z.of_nat j) mod zlen (Addrs u) ∧ failures u' = failures u + Z.of_nat j) ∨
     ((∀ i, (i < n)%nat → dial (k + i)%nat = false) ∧ conn u' = conn u ∧
       cur u' = (cur u + Z.of_nat n) mod zlen (Addrs u) ∧ failures u' = failures u + Z.of_nat n)).
Proof.
  revert k u. induction n as [|n IH]; intros k u [Hc0 Hc1].
  { exists u. split_and!; [done..|]. right. split_and!; [intros i Hi; lia|done| |lia].
    cbn. rewrite Z.add_0_r. symmetry. by apply Z.mod_small. }
  cbn [dial_loop]. rewrite (Z.rem_small (cur u)) by lia. unfold index.
  rewrite (proj2 (Z.leb_le _ _)) by done.
  destruct (lookup_lt_is_Some_2 (Addrs u) (Z.to_nat (cur u))) as [a Ha]; [lia|].
  rewrite Ha. rstep. destruct (dial k) eqn:Hd.
  - eexists. split; [done|]. cbn. split_and!; [done..|]. left. exists 0%nat.
    rewrite Nat.add_0_r. unfold addr_at. change (Z.of_nat 0) with 0.
    rewrite Z.add_0_r, Z.mod_small by done.
    split_and!; [lia|done|intros i Hi; lia|done|by eexists|done|lia].
  - rewrite Z.rem_mod_nonneg by lia.
    set (u1 := mkUp _ _ _ _ _ _ _ _).
    assert (Hc : cur u1 = (cur u + 1) mod zlen (Addrs u)) by done.
    pose proof (Z.mod_pos_bound (cur u + 1) (zlen (Addrs u)) ltac:(lia)) as Hb.
    assert (Hmod : ∀ x, (cur u1 + x) mod zlen (Addrs u) = (cur u + (1 + x)) mod zlen (Addrs u)).
    { intros x. rewrite Hc, Zplus_mod_idemp_l. f_equal. lia. }
    destruct (IH (S k) u1) as (u' & E & Hok & Ea & Ew & H); [unfold up_ok; rewrite Hc; done|].
    exists u'. split_and!; [done..|]. destruct H as [(j & Hj & Hdj & Hdi & Hcn & Hs & Hcu & Hf)|(Hdi & Hcn & Hcu & Hf)].
    + left. exists (S j). rewrite <- Nat.add_succ_comm.
      split_and!; [lia|done| | |done| |].
      * intros [|i] Hi; [by rewrite Nat.add_0_r|]. rewrite <- Nat.add_succ_comm. apply Hdi. lia.
      * rewrite Hcn. unfold addr_at. change (Addrs u1) with (Addrs u). rewrite Hmod. do 3 f_equal. lia.
      * rewrite Hcu. change (Addrs u1) with (Addrs u). rewrite Hmod. f_equal. lia.
      * rewrite Hf. cbn. lia.
    + right. split_and!.
      * intros [|i] Hi; [by rewrite Nat.add_0_r|]. rewrite <- Nat.add_succ_comm. apply Hdi. lia.
      * done.
      * rewrite Hcu. change (Addrs u1) with (Addrs u). rewrite Hmod. f_equal. lia.
      * rewrite Hf. cbn. lia.
Qed.

(** C30: A send without a connection makes one failover pass: it dials the
    addresses from the cursor on, in order and at most once each; it uses the
    first that answers and leaves the cursor there, so the next send starts
    with it; when none answers it fails, nothing was written, and the cursor
    is back where it was. *)
Theorem send_failover (u : UpTunnel) (dial : nat → bool) (wr : bool) (obj : list byte) :
  up_ok u → conn u = None → obj ≠ [] →
  let '(r, u') := Send dial wr obj u in
  up_ok u' ∧
  (∀ k, first_ok dial (length (Addrs u)) k →
     cur u' = (cur u + Z.of_nat k) mod zlen (Addrs u) ∧
     ∃ addr, addr_at u (Z.of_nat k) = Some addr ∧
       if wr then r = Ok tt ∧ conn u' = Some addr ∧ wire u' = wire u ++ [(addr, obj)]
       else res_ok r = false ∧ conn u' = None ∧ wire u' = wire u) ∧
  ((∀ i, (i < length (Addrs u))%nat → dial i = false) →
     res_ok r = false ∧ conn u' = None ∧ wire u' = wire u ∧ cur u' = cur u).
Proof.
  intros Hok Hc Hne. unfold Send.
  rewrite (proj2 (Z.eqb_neq (zlen obj) 0)) by (destruct obj; simpl; [done|lia]).
  rewrite Hc, (proj2 (Z.eqb_neq (zlen (Addrs u)) 0)) by (destruct Hok; lia).
  destruct (dial_loop_spec (length (Addrs u)) dial 0 u Hok)
    as (u1 & -> & Hok1 & Ea & Ew & [(j & Hj & Hdj & Hdi & Hcn & [addr Hs] & Hcu & Hf)|(Hdi & Hcn & Hcu & Hf)]).
  - rewrite Hs. unfold write. rewrite Hs.
    assert (∀ k, first_ok dial (length (Addrs u)) k → k = j) as Huniq.
    { intros k (Hk & Hdk & Hik). destruct (Nat.lt_trichotomy k j) as [H|[H|H]]; [|done|].
      - specialize (Hdi k H). simpl in Hdi. congruence.
      - specialize (Hik j H). simpl in Hdj. congruence. }
    destruct wr; (split; [done|split]).
    + intros k Hk. rewrite (Huniq k Hk). split; [done|]. exists addr. cbn. rewrite <- Hcn, Hs, Ew. done.
    + intros Hall. specialize (Hall j Hj). simpl in Hdj. congruence.
    + intros k Hk. rewrite (Huniq k Hk). split; [done|]. exists addr. cbn. rewrite <- Hcn, Hs, Ew. done.
    + intros Hall. specialize (Hall j Hj). simpl in Hdj. congruence.
  - rewrite Hcn, Hc. split; [done|split].
    + intros k (Hk & Hdk & _). specialize (Hdi k Hk). simpl in Hdi. congruence.
    + intros _. rewrite Hcn, Hc, Ew, Hcu. split_and!; [done..|].
      destruct Hok. replace (cur u + zlen (Addrs u)) with (cur u + 1 * zlen (Addrs u)) by lia.
      rewrite Z.mod_add by lia. by apply Z.mod_small.
Qed.

(** The connection is sticky and whole objects only: on an open connection a
    send never dials; a failed write drops the connection without moving the
    cursor, so the next send dials the same address first. *)
Theorem send_sticky (u : UpTunnel) (addr : gostring) (dial dial' : nat → bool) (wr wr' : bool)
    (obj obj' : list byte) :
  up_ok u → conn u = Some addr → obj ≠ [] → obj' ≠ [] →
  let '(r, u1) := Send dial wr obj u in
  cur u1 = cur u ∧ redials u1 = redials u ∧
  (if wr then r = Ok tt ∧ conn u1 = Some addr ∧ wire u1 = wire u ++ [(addr, obj)]
   else conn u1 = None ∧ wire u1 = wire u ∧
        (dial' 0%nat = true →
         conn (snd (Send dial' true obj' u1)) = Addrs u !! Z.to_nat (cur u))).
Proof.
  intros Hok Hc Hne Hne'. unfold Send at 1.
  rewrite (proj2 (Z.eqb_neq (zlen obj) 0)) by (destruct obj; simpl; [done|lia]).
  rewrite Hc. unfold write at 1. rewrite Hc. destruct wr; [done|].
  split_and!; [done..|]. intros Hd.
  set (u1 := mkUp _ _ _ _ _ _ _ _). unfold Send.
  rewrite (proj2 (Z.eqb_neq (zlen obj') 0)) by (destruct obj'; simpl; [done|lia]).
  cbn [conn u1]. rewrite (proj2 (Z.eqb_neq (zlen (Addrs u1)) 0)) by (destruct Hok; cbn; lia).
  destruct (dial_loop_spec (length (Addrs u1)) dial' 0 u1 Hok)
    as (u2 & -> & _ & _ & _ & [(j & Hj & _ & Hdi & Hcn & [a Hs] & _)|(Hdi & _)]).
  - assert (j = 0%nat) as ->.
    { destruct j as [|j]; [done|]. specialize (Hdi 0%nat ltac:(lia)). simpl in Hdi. congruence. }
    rewrite Hs. unfold write. rewrite Hs. cbn [snd conn]. rewrite <- Hs, Hcn.
    unfold addr_at. cbn. destruct Hok. by rewrite Z.add_0_r, Z.mod_small.
  - specialize (Hdi 0%nat). simpl in Hdi. rewrite Hdi in Hd; [done|]. destruct Hok. cbn. lia.
Qed.

(** ** Witnesses *)

Definition ux : UpTunnel := mkUp [str "a:1"; str "b:1"] None 1 0 0 0 0 [].

Lemma send_failover_witness :
  let '(r, u') := Send (λ k, (k =? 1)%nat) true [x01] ux in cur u' = 0.
Proof.
  pose proof (send_failover ux (λ k, (k =? 1)%nat) true [x01]) as H.
  destruct (Send _ _ _ ux) as [r u'].
  destruct H as (_ & H & _).
  - vm_compute. split; [discriminate|reflexivity].
  - reflexivity.
  - discriminate.
  - destruct (H 1%nat) as [-> _]; [|reflexivity].
    split_and!; [simpl; lia|reflexivity|]. intros i Hi. destruct i; [reflexivity|lia].
Defined.

Lemma send_sticky_witness :
  let '(r, u1) := Send (λ _, true) true [x01] (mkUp [str "a:1"; str "b:1"] (Some (str "b:1")) 1 0 0 0 0 []) in
  cur u1 = 1.
Proof.
  pose proof (send_sticky (mkUp [str "a:1"; str "b:1"] (Some (str "b:1")) 1 0 0 0 0 []) (str "b:1")
    (λ _, true) (λ _, true) true true [x01] [x01]) as H.
  destruct (Send _ _ _ _) as [r u1].
  destruct H as [H _]; [vm_compute; split; [discriminate|reflexivity]|reflexivity|discriminate|discriminate|].
  exact H.
Defined.
