(* ===== verification/Retrieval.v ===== *)
(** * retrieval: the plane the cluster pulls from

    [src/retrieval/server.go]: the four routes served out of the caches, the
    catch-all, and the counters. A store is an interface, as in the source:
    [Store] is its class, with the object cache and the transaction cache as
    instances; the command wires one object cache for subtrees and blocks. A
    handler returns the status and body it writes, or panics (the HTTP server
    then drops the connection). *)

From Stdlib Require Import Strings.Byte.
From stdpp Require Import base list strings numbers gmap.
From S2P Require Import Prelude HashId Objfmt Encode TnWire Cache Generational TxBuild Submit.

(** The read side of a cache: a lookup at a clock reading. *)
Class Store (S : Type) : Type := {
  store_Get : Z → Hash → S → option (list byte * gostring) * S
}.
#[export] Instance cache_store : Store (list cache.shard) := {| store_Get := cache.Get |}.
#[export] Instance generational_store : Store (option (list generational.gshard)) :=
  {| store_Get _ := generational.Get |}.

Module retrieval.
(** [strings.Trim(s, "/")] and the prefix [New] settles on. *)
Definition Trim_slash (s : gostring) : gostring :=
  txpipe.TrimRight_slash (txpipe.drop_slashes s).
Definition api_prefix (p : gostring) : gostring :=
  str "/" ++ Trim_slash (if bool_decide (p = []) then str "/api/v1" else p).
Definition BaseURL (prefix advertise : gostring) : gostring :=
  txpipe.TrimRight_slash advertise ++ prefix.

Record response : Type := mkResp { status : Z; rbody : list byte }.

(** [http.Error] ends its text with a newline. *)
Definition http_Error (code : Z) (text : string) : response := mkResp code (str text ++ [x0a]).

Section server.
Context {O : Objfmt} {Objs Txs : Type} `{Store Objs} `{Store Txs}.

Record Server : Type := mkServer {
  objs : Objs;
  txs : Txs;
  hitSubtree : Z; hitSubtreeData : Z; hitTxs : Z; hitBlock : Z;
  miss : Z; errs : Z; missRoute : Z; missChainSync : Z;
  pulled : list gostring   (** the keys passed to [FirstPull.Pulled] *)
}.

Definition with_objs (o : Objs) (s : Server) : Server :=
  mkServer o (txs s) (hitSubtree s) (hitSubtreeData s) (hitTxs s) (hitBlock s)
    (miss s) (errs s) (missRoute s) (missChainSync s) (pulled s).
Definition with_txs (t : Txs) (s : Server) : Server :=
  mkServer (objs s) t (hitSubtree s) (hitSubtreeData s) (hitTxs s) (hitBlock s)
    (miss s) (errs s) (missRoute s) (missChainSync s) (pulled s).
Definition add_miss (s : Server) : Server :=
  mkServer (objs s) (txs s) (hitSubtree s) (hitSubtreeData s) (hitTxs s) (hitBlock s)
    (miss s + 1) (errs s) (missRoute s) (missChainSync s) (pulled s).
Definition add_hits (st sd tx bl : Z) (key : option gostring) (s : Server) : Server :=
  mkServer (objs s) (txs s) (hitSubtree s + st) (hitSubtreeData s + sd) (hitTxs s + tx)
    (hitBlock s + bl) (miss s) (errs s) (missRoute s) (missChainSync s)
    (match key with Some k => pulled s ++ [k] | None => pulled s end).

(** [fail]: a 500 and the error counter. *)
Definition fail (s : Server) : res response * Server :=
  (Ok (http_Error 500 "bridge error"),
   mkServer (objs s) (txs s) (hitSubtree s) (hitSubtreeData s) (hitTxs s) (hitBlock s)
     (miss s) (errs s + 1) (missRoute s) (missChainSync s) (pulled s)).

Definition bad_hash (s : Server) : res response * Server :=
  (Ok (http_Error 400 "bad hash"), s).

Definition toStandard (raw : list byte) : res (list byte) :=
  if negb (IsEF raw) then Ok raw else ToStandard raw.

Definition isPlaceholder (b : list byte) : bool :=
  forallb (λ x, bool_decide (x = xff)) b.

Definition getSubtree (now : Z) (hash : gostring) (s : Server) : res response * Server :=
  match hashid.ParseDisplay hash with
  | Err _ => bad_hash s
  | Panic => (Panic, s)
  | Ok h =>
      let '(r, o) := store_Get now h (objs s) in
      let s := with_objs o s in
      match r with
      | None => (Ok (http_Error 404 "unknown subtree"), add_miss s)
      | Some (obj, _) =>
          if zlen obj <? SubtreeHeaderSize then fail s else
          match slice_from obj SubtreeHeaderSize with
          | Ok nodes => (Ok (mkResp 200 nodes), add_hits 1 0 0 0 (Some (hashid.Display h)) s)
          | Err e => (Err e, s)
          | Panic => (Panic, s)
          end
      end
  end.

(** The member loop of [getSubtreeData] and [postSubtreeTxs]: the bodies of
    the listed transactions in standard form, or where it stopped. *)
Inductive collected : Type :=
| Collected (out : list byte)
| NotHeld
| Bad (panics : bool).

Fixpoint collect (now : Z) (skip : bool) (ids : list (list byte)) (out : list byte) (t : Txs)
    : collected * Txs :=
  match ids with
  | [] => (Collected out, t)
  | i :: ids =>
      if skip && isPlaceholder i then collect now skip ids out t else
      let '(r, t) := store_Get now (copy32 i) t in
      match r with
      | None => (NotHeld, t)
      | Some (raw, _) =>
          match toStandard raw with
          | Ok std => collect now skip ids (out ++ std) t
          | Err _ => (Bad false, t)
          | Panic => (Bad true, t)
          end
      end
  end.

(** [for i := 0; i+32 <= len(b); i += 32]: the whole 32-byte groups. *)
Definition groups (b : list byte) : list (list byte) := chunks32 (length b / 32) b.

Definition getSubtreeData (now : Z) (hash : gostring) (s : Server) : res response * Server :=
  match hashid.ParseDisplay hash with
  | Err _ => bad_hash s
  | Panic => (Panic, s)
  | Ok h =>
      let '(r, o) := store_Get now h (objs s) in
      let s := with_objs o s in
      match r with
      | None => (Ok (http_Error 404 "unknown subtree"), add_miss s)
      | Some (obj, _) =>
          match slice_from obj SubtreeHeaderSize with
          | Err e => (Err e, s)
          | Panic => (Panic, s)
          | Ok nodes =>
              match collect now true (groups nodes) [] (txs s) with
              | (Collected out, t) =>
                  (Ok (mkResp 200 out), add_hits 0 1 0 0 (Some (hashid.Display h)) (with_txs t s))
              | (NotHeld, t) =>
                  (Ok (http_Error 404 "member transaction not held"), add_miss (with_txs t s))
              | (Bad true, t) => (Panic, with_txs t s)
              | (Bad false, t) => fail (with_txs t s)
              end
          end
      end
  end.

(** [postSubtreeTxs]; [body] is what was read, at most 64 MiB, or the read
    failed. *)
Definition postSubtreeTxs (now : Z) (body : option (list byte)) (s : Server)
    : res response * Server :=
  match body with
  | None => fail s
  | Some b =>
      let b := take (Z.to_nat (64 * 2 ^ 20)) b in
      if negb (zlen b mod 32 =? 0) then
        (Ok (http_Error 400 "body is not a whole number of 32-byte txids"), s)
      else
        match collect now false (groups b) [] (txs s) with
        | (Collected out, t) => (Ok (mkResp 200 out), add_hits 0 0 1 0 None (with_txs t s))
        | (NotHeld, t) =>
            (Ok (http_Error 404 "transaction not held"), add_miss (with_txs t s))
        | (Bad true, t) => (Panic, with_txs t s)
        | (Bad false, t) => fail (with_txs t s)
        end
  end.

Definition getBlock (now : Z) (hash : gostring) (s : Server) : res response * Server :=
  match hashid.ParseDisplay hash with
  | Err _ => bad_hash s
  | Panic => (Panic, s)
  | Ok h =>
      let '(r, o) := store_Get now h (objs s) in
      let s := with_objs o s in
      match r with
      | None => (Ok (http_Error 404 "unknown block"), add_miss s)
      | Some (obj, _) =>
          match tnwire.ToTeranode obj with
          | Ok out => (Ok (mkResp 200 out), add_hits 0 0 0 1 (Some (hashid.Display h)) s)
          | Err _ => fail s
          | Panic => (Panic, s)
          end
      end
  end.

Definition notFound (path : gostring) (s : Server) : res response * Server :=
  let chain := contains (str "/headers_from_common_ancestor") path
               || contains (str "/block_locator") path || contains (str "/blocks") path in
  (Ok (http_Error 404 "not served by this bridge"),
   mkServer (objs s) (txs s) (hitSubtree s) (hitSubtreeData s) (hitTxs s) (hitBlock s)
     (miss s) (errs s) (missRoute s + 1) (missChainSync s + if chain then 1 else 0) (pulled s)).
End server.
Arguments Server : clear implicits.
End retrieval.

Import retrieval.

(** ** The batch body *)

Section collect.
Context {O : Objfmt} {Txs : Type} `{Store Txs}.

Lemma collect_out now skip ids out (t : Txs) :
  fst (collect now skip ids out t)
  = match fst (collect now skip ids [] t) with
    | Collected o => Collected (out ++ o)
    | r => r
    end.
Proof.
  assert (∀ ids out out' (t : Txs), fst (collect now skip ids (out ++ out') t)
    = match fst (collect now skip ids out' t) with Collected o => Collected (out ++ o) | r => r end) as Hgen.
  { clear. induction ids as [|i ids IH]; intros out out' t; cbn [collect]; [done|].
    destruct (skip && isPlaceholder i); [apply IH|].
    destruct (store_Get now (copy32 i) t) as [[[raw c]|] t']; [|done].
    destruct (toStandard raw); [|done..]. rewrite <- app_assoc. apply IH. }
  rewrite <- (app_nil_r out) at 1. apply Hgen.
Qed.
End collect.

(** The generations a lookup reads: it changes counters only. *)
Definition tx_held (k : Hash) (g : option (list generational.gshard)) : option (list byte) :=
  g ≫= λ ss, ss !! shard_index k ≫= generational.held k.

Lemma gen_Get_held k k' g :
  tx_held k' (snd (generational.Get k g)) = tx_held k' g ∧
  fst (generational.Get k g) = (λ b, (b, str "tx")) <$> tx_held k g.
Proof.
  unfold tx_held, generational.Get. destruct g as [ss|]; [|done]. cbn.
  destruct (ss !! shard_index k) as [s|] eqn:E; cbn; [|done].
  destruct (generational.shard_Get k s) as [r s'] eqn:Es. cbn.
  assert (r = (λ b, (b, str "tx")) <$> generational.held k s ∧
          (∀ j, generational.held j s' = generational.held j s)) as [-> Hh].
  { unfold generational.shard_Get in Es. destruct (generational.held k s); by injection Es as <- <-. }
  split; [|done]. destruct (decide (shard_index k = shard_index k')) as [<-|Hne].
  - rewrite list_lookup_insert_eq, E by (by eapply lookup_lt_Some). cbn. apply Hh.
  - by rewrite list_lookup_insert_ne.
Qed.

Lemma filter_all {A} (P : A → Prop) `{∀ x, Decision (P x)} (l : list A) :
  (∀ x, P x) → filter P l = l.
Proof. intros HP. induction l as [|x l IH]; [done|]. rewrite filter_cons_True by done. by rewrite IH. Qed.

(** ** The members of a frame *)

Lemma chunks32_hashes hs : chunks32 (length hs) (concat_hashes hs) = hbytes <$> hs.
Proof.
  induction hs as [|h hs IH]; [done|]. rewrite concat_hashes_cons. cbn [length chunks32].
  rewrite take_app_length', drop_app_length' by (by rewrite hash_length). by rewrite IH.
Qed.

Lemma copy_hbytes (hs : list Hash) : copy32 <$> (hbytes <$> hs) = hs.
Proof.
  rewrite <- list_fmap_compose. rewrite <- (list_fmap_id hs) at 2. apply list_fmap_ext.
  intros i h _. apply copy32_hbytes.
Qed.

Lemma isPlaceholder_spec h : isPlaceholder (hbytes h) = true ↔ h = encode.CoinbasePlaceholder.
Proof.
  unfold isPlaceholder. split; [|by intros ->].
  intros H. apply hash_eq. change (hbytes encode.CoinbasePlaceholder) with (replicate 32 xff).
  rewrite <- (hash_length h). symmetry. apply replicate_as_elem_of. split; [done|].
  intros x Hx. rewrite forallb_forall in H. specialize (H x (proj1 (list_elem_of_In _ _) Hx)). by apply bool_decide_eq_true_1 in H.
Qed.

Lemma members_of (hs : list Hash) :
  copy32 <$> filter (λ i, (true && isPlaceholder i) = false) (hbytes <$> hs)
  = filter (λ n, n ≠ encode.CoinbasePlaceholder) hs.
Proof.
  induction hs as [|h hs IH]; [done|]. rewrite fmap_cons.
  destruct (decide (h = encode.CoinbasePlaceholder)) as [E|E].
  - rewrite !filter_cons_False; [done|by intros ?|]. rewrite (proj2 (isPlaceholder_spec h) E). done.
  - rewrite !filter_cons_True; [|done|].
    + by rewrite fmap_cons, IH, copy32_hbytes.
    + cbn. destruct (isPlaceholder (hbytes h)) eqn:Ei; [|done]. by apply isPlaceholder_spec in Ei.
Qed.

Section members.
Context {O : Objfmt} {OL : ObjfmtLaws O}.

(** What a list of members is served as: each held one in standard form. *)
Definition served (g : option (list generational.gshard)) (h : Hash) : option (list byte) :=
  raw ← tx_held h g;
  match toStandard raw with Ok std => Some std | _ => None end.

Lemma collect_spec now skip ids (g : option (list generational.gshard)) :
  let wanted := copy32 <$> filter (λ i, (skip && isPlaceholder i) = false) ids in
  match fst (collect now skip ids [] g) with
  | Collected out => ∃ l, mapM (served g) wanted = Some l ∧ out = concat l
  | NotHeld => ∃ h, h ∈ wanted ∧ tx_held h g = None
  | Bad p => p = false ∧ ∃ h raw, h ∈ wanted ∧ tx_held h g = Some raw ∧ res_ok (toStandard raw) = false
  end.
Proof.
  enough (∀ g0, (∀ h, tx_held h g0 = tx_held h g) →
    match fst (collect now skip ids [] g0) with
    | Collected out => ∃ l, mapM (served g)
        (copy32 <$> filter (λ i, (skip && isPlaceholder i) = false) ids) = Some l ∧ out = concat l
    | NotHeld => ∃ h, h ∈ copy32 <$> filter (λ i, (skip && isPlaceholder i) = false) ids ∧ tx_held h g = None
    | Bad p => p = false ∧ ∃ h raw, h ∈ copy32 <$> filter (λ i, (skip && isPlaceholder i) = false) ids ∧
        tx_held h g = Some raw ∧ res_ok (toStandard raw) = false
    end) as Hall by (by apply Hall).
  induction ids as [|i ids IH]; intros g0 Hg0; [cbn; exists []; done|].
  cbn [collect]. rewrite filter_cons. destruct (skip && isPlaceholder i) eqn:Esk.
  { rewrite decide_False by done. by apply IH. }
  rewrite decide_True by done. rewrite fmap_cons.
  destruct (gen_Get_held (copy32 i) (copy32 i) g0) as [_ Ef].
  assert (Hs : ∀ h, tx_held h (snd (generational.Get (copy32 i) g0)) = tx_held h g).
  { intros h. by rewrite (proj1 (gen_Get_held (copy32 i) h g0)). }
  change (store_Get now (copy32 i) g0) with (generational.Get (copy32 i) g0).
  destruct (generational.Get (copy32 i) g0) as [r g1]. cbn [fst snd] in *. rewrite Ef, Hg0.
  destruct (tx_held (copy32 i) g) as [raw|] eqn:Eh; cbn [fmap option_fmap option_map].
  2: { exists (copy32 i). split; [by left|done]. }
  assert (Hsv : served g (copy32 i) = match toStandard raw with Ok std => Some std | _ => None end)
    by (unfold served; by rewrite Eh).
  destruct (toStandard raw) as [std|e|] eqn:Et.
  - rewrite collect_out. specialize (IH g1 Hs).
    destruct (fst (collect now skip ids [] g1)) as [out| |p].
    + destruct IH as (l & El & ->). exists (std :: l). cbn [mapM]. rewrite Hsv. cbn. by rewrite El.
    + destruct IH as (h & ? & ?). exists h. split; [by right|done].
    + destruct IH as (? & h & w & ? & ?). split; [done|]. exists h, w. split; [by right|done].
  - split; [done|]. exists (copy32 i), raw. split_and!; [by left|done|by rewrite Et].
  - exfalso. unfold toStandard in Et. destruct (negb (IsEF raw)); [done|]. by apply (to_standard_no_panic raw).
Qed.

(** The answer to a request for [ids]: 200 with the standard serializations in
    order when all are held and convert; 404 when one is not held, 500 when a
    held one does not convert. *)
Definition all_or_nothing (g : option (list generational.gshard)) (ids : list Hash)
    (resp : response) : Prop :=
  match mapM (served g) ids with
  | Some l => resp = mkResp 200 (concat l)
  | None =>
      (status resp = 404 ∧ ∃ h, h ∈ ids ∧ tx_held h g = None) ∨
      (status resp = 500 ∧ ∃ h raw, h ∈ ids ∧ tx_held h g = Some raw ∧
                                    res_ok (toStandard raw) = false)
  end.

Lemma not_served g ids h : h ∈ ids → served g h = None → mapM (served g) ids = None.
Proof.
  intros Hin Hh. destruct (mapM (served g) ids) as [l|] eqn:E; [|done].
  apply mapM_Some_1 in E. apply list_elem_of_lookup in Hin as [i Hi].
  destruct (Forall2_lookup_l _ _ _ _ _ E Hi) as (b & _ & Hb). congruence.
Qed.

Lemma collect_answer now skip ids g :
  let wanted := copy32 <$> filter (λ i, (skip && isPlaceholder i) = false) ids in
  match fst (collect now skip ids [] g) with
  | Collected out => all_or_nothing g wanted (mkResp 200 out)
  | NotHeld => ∀ b, all_or_nothing g wanted (mkResp 404 b)
  | Bad p => p = false ∧ ∀ b, all_or_nothing g wanted (mkResp 500 b)
  end.
Proof.
  intros wanted. pose proof (collect_spec now skip ids g) as Hc. cbv zeta in Hc. fold wanted in Hc.
  unfold all_or_nothing. destruct (fst (collect now skip ids [] g)) as [out| |p].
  - by destruct Hc as (l & -> & ->).
  - destruct Hc as (h & Hin & Hh). intros b. rewrite (not_served g wanted h) by (done || by unfold served; rewrite Hh).
    left. eauto.
  - destruct Hc as (-> & h & raw & Hin & Hh & Hr). split; [done|]. intros b.
    rewrite (not_served g wanted h); [|done|unfold served; rewrite Hh; cbn; by destruct (toStandard raw)].
    right. split; [done|]. eauto.
Qed.

(** ** Theorems *)

Abbreviation server := (Server (list cache.shard) (option (list generational.gshard))).

(** The batch route is all or nothing: on a body of whole txids it answers
    200 exactly when every requested transaction is held, with their
    standard serializations concatenated in request order; one that is not
    held makes the answer 404, and one that is held but cannot be converted
    makes it a 500. *)
Theorem txs_batch_exact (now : Z) (ids : list Hash) (s : server) :
  zlen (concat_hashes ids) ≤ 64 * 2 ^ 20 →
  ∃ resp, fst (postSubtreeTxs now (Some (concat_hashes ids)) s) = Ok resp ∧
          all_or_nothing (txs s) ids resp.
Proof.
  intros Hl. unfold postSubtreeTxs. rewrite take_ge by lia.
  rewrite length_concat_hashes, Nat2Z.inj_mul, Z.mul_comm, Z.mod_mul by done. cbn [negb Z.eqb].
  unfold groups. rewrite length_concat_hashes, (Nat.mul_comm 32), Nat.div_mul by done.
  rewrite (chunks32_hashes ids). pose proof (collect_answer now false (hbytes <$> ids) (txs s)) as Hc.
  cbv zeta in Hc. rewrite filter_all, copy_hbytes in Hc by done.
  destruct (collect now false _ [] (txs s)) as [[out| |p] t]; cbn [fst] in Hc; [by eauto..|].
  destruct Hc as [-> Hc]. by eauto.
Qed.

(** The whole-subtree route is all or nothing too: for a held subtree frame it
    answers 200 exactly when every member but the coinbase placeholder is
    held, with their standard serializations in node order. *)
Theorem subtree_data_exact (now : Z) (h root : Hash) (nodes : list Hash) (cl : gostring) (s : server) :
  fst (cache.Get now h (objs s)) = Some (subtree_layout root nodes, cl) →
  ∃ resp, fst (getSubtreeData now (hashid.Display h) s) = Ok resp ∧
          all_or_nothing (txs s) (filter (λ n, n ≠ encode.CoinbasePlaceholder) nodes) resp.
Proof.
  intros Hg. unfold getSubtreeData. rewrite ParseDisplay_Display.
  change (store_Get now h (objs s)) with (cache.Get now h (objs s)).
  destruct (cache.Get now h (objs s)) as [r o]. cbn [fst] in Hg. subst r.
  rewrite (slice_from_field _ (hbytes root ++ be_bytes 8 (zlen nodes)) (concat_hashes nodes))
    by (first [by unfold subtree_layout; rewrite <- app_assoc
              |rewrite length_app, hash_length, length_be_bytes; done]).
  unfold groups. rewrite length_concat_hashes, (Nat.mul_comm 32), Nat.div_mul by done.
  rewrite (chunks32_hashes nodes).
  pose proof (collect_answer now true (hbytes <$> nodes) (txs s)) as Hc.
  cbv zeta in Hc. rewrite members_of in Hc. cbn [txs with_objs].
  destruct (collect now true _ [] (txs s)) as [[out| |p] t]; cbn [fst] in Hc; [by eauto..|].
  destruct Hc as [-> Hc]. by eauto.
Qed.
End members.

(** ** Witnesses *)

Definition vx_server : Server (list cache.shard) (option (list generational.gshard)) :=
  mkServer [] (grun [GAdmit 1 (gx_key x01) [x0a; x0b]] (generational.NewGenerational 0 gx_opts))
    0 0 0 0 0 0 0 0 [].

Lemma txs_batch_exact_witness :
  ∃ resp, fst (postSubtreeTxs 3 (Some (concat_hashes [gx_key x01; gx_key x01])) vx_server) = Ok resp ∧
          resp = mkResp 200 [x0a; x0b; x0a; x0b].
Proof.
  destruct (txs_batch_exact 3 [gx_key x01; gx_key x01] vx_server) as (resp & H & Hr).
  - vm_compute. discriminate.
  - exists resp. split; [exact H|]. vm_compute in Hr. exact Hr.
Defined.

Definition vx_root : Hash := copy32 [x77].
Definition vx_data : Server (list cache.shard) (option (list generational.gshard)) :=
  with_objs (cache.Put 1 vx_root (str "subtree")
      (subtree_layout vx_root [encode.CoinbasePlaceholder; gx_key x01])
      (cache.New (cache.mkOptions 64000 1000))) vx_server.

Lemma subtree_data_exact_witness :
  ∃ resp, fst (getSubtreeData 3 (hashid.Display vx_root) vx_data) = Ok resp ∧
          resp = mkResp 200 [x0a; x0b].
Proof.
  destruct (subtree_data_exact 3 vx_root vx_root [encode.CoinbasePlaceholder; gx_key x01]
    (str "subtree") vx_data) as (resp & H & Hr).
  - vm_compute. reflexivity.
  - exists resp. split; [exact H|]. vm_compute in Hr. exact Hr.
Defined.
