(* ===== verification/TnAsset.v ===== *)
(** * tnasset: building push frames from the cluster's asset service

    [src/internal/tnasset/client.go]. The service answers each GET: [http url k]
    is its answer to the [k]-th request of a fetch of [url]; a rate-limited one
    is repeated on a four-step ladder. The
    result of a build is the source's triple: an error, not available
    ([None]), or the frame. *)

From Stdlib Require Import Strings.Byte.
From stdpp Require Import base list strings numbers gmap.
From S2P Require Import Prelude HashId Objfmt Encode TnWire TxBuild.

Module tnasset.
(** The answer to one request: an error (dial, request or read), or a status
    and the body. *)
Inductive answer : Type :=
| AErr
| AResp (status : Z) (body : list byte).

(** The client: its base URL, without trailing slashes, and its timeout. *)
Record Client : Type := mkClient { base : gostring; timeout : Z }.

Definition New (b : gostring) (t : Z) : Client :=
  mkClient (txpipe.TrimRight_slash b) (if t <=? 0 then 30 * 10 ^ 9 else t).

(** [rateLimitBackoff] has four steps. *)
Definition ladder : nat := 4.

(** The loop of [get]: [more] rounds after this one; [ans k] answers request
    [k], [cancel k] says the wait after it ends by cancellation. The last
    component counts the requests. *)
Fixpoint get_loop (more : nat) (ans : nat → answer) (cancel : nat → bool) (k : nat)
    : res (list byte * Z) * nat :=
  match ans k with
  | AErr => (Err (EMsg "GET"), S k)
  | AResp st body =>
      if negb (st =? 429) then (Ok (body, st), S k)
      else match more with
           | O => (Err (EMsg "GET: rate limited"), S k)
           | S more =>
               if cancel k then (Err (EMsg "context canceled"), S k)
               else get_loop more ans cancel (S k)
           end
  end.
Definition get (c : Client) (http : gostring → nat → answer) (cancel : nat → bool) (path : gostring)
    : res (list byte * Z) * nat :=
  get_loop ladder (http (base c ++ path)) cancel 0.

Section build.
Context {O : Objfmt}.

Definition BuildSubtree (c : Client) (http : gostring → nat → answer) (cancel : nat → bool) (hash : Hash)
    : res (option (list byte)) :=
  '(body, status) ← fst (get c http cancel (str "/subtree/" ++ hashid.Display hash));
  if status =? 404 then Ok None
  else if negb (status =? 200) then Err (EMsg "subtree: http")
  else
    _ ← guard_err ((zlen body =? 0) || negb (zlen body mod 32 =? 0))
          (EMsg "subtree: not a whole number of hashes");
    frame ← encode.Subtree hash (copy32 <$> chunks32 (length body / 32) body);
    Ok (Some frame).

Definition BuildBlock (c : Client) (http : gostring → nat → answer) (cancel : nat → bool) (hash : Hash)
    : res (option (list byte)) :=
  '(body, status) ← fst (get c http cancel (str "/block/" ++ hashid.Display hash));
  if status =? 404 then Ok None
  else if negb (status =? 200) then Err (EMsg "block: http")
  else
    blk ← tnwire.FromTeranode body;
    frame ← encode.Encode blk;
    Ok (Some frame).
End build.
End tnasset.

Import tnasset.

(** ** The rate-limit ladder *)

(** The answers up to [n] are all rate-limited and nothing cancels the waits. *)
Definition throttled (ans : nat → answer) (cancel : nat → bool) (n : nat) : Prop :=
  ∀ i, (i < n)%nat → (∃ b, ans i = AResp 429 b) ∧ cancel i = false.

Lemma get_loop_throttled more ans cancel k n :
  (n ≤ more)%nat →
  (∀ i, (i < n)%nat → (∃ b, ans (k + i)%nat = AResp 429 b) ∧ cancel (k + i)%nat = false) →
  get_loop more ans cancel k = get_loop (more - n) ans cancel (k + n).
Proof.
  revert more k. induction n as [|n IH]; intros more k Hn Ht.
  { by rewrite Nat.sub_0_r, Nat.add_0_r. }
  destruct more as [|more]; [lia|]. cbn [get_loop Nat.sub].
  destruct (Ht 0%nat ltac:(lia)) as [[b Hb] Hc]. rewrite Nat.add_0_r in Hb, Hc. rewrite Hb, Hc. cbn.
  rewrite (IH more (S k)); [f_equal; lia|lia|].
  intros i Hi. rewrite Nat.add_succ_comm. apply Ht. lia.
Qed.

(** A rate-limited fetch is retried and not lost: after up to four 429 answers
    the next answer is the result, in one request more than there were
    refusals; only a fifth refusal gives up, and no fetch makes more than five
    requests. *)
Theorem get_retries (c : Client) (http : gostring → nat → answer) (cancel : nat → bool) (path : gostring)
    (n : nat) (st : Z) (body : list byte) :
  let ans := http (base c ++ path) in
  (n ≤ 4)%nat → throttled ans cancel n → ans n = AResp st body → st ≠ 429 →
  get c http cancel path = (Ok (body, st), S n).
Proof.
  intros ans Hn Ht Ha Hs. unfold get, ladder. fold ans.
  rewrite (get_loop_throttled 4 ans cancel 0 n Hn); [|intros i Hi; by apply Ht].
  rewrite Nat.add_0_l. destruct (4 - n)%nat; cbn [get_loop]; rewrite Ha;
    by rewrite (proj2 (Z.eqb_neq st 429) Hs).
Qed.

Lemma get_first c http cancel path st body :
  http (base c ++ path) 0%nat = AResp st body → st ≠ 429 → fst (get c http cancel path) = Ok (body, st).
Proof.
  intros Ha Hs. unfold get, ladder. cbn [get_loop]. rewrite Ha.
  by rewrite (proj2 (Z.eqb_neq st 429) Hs).
Qed.

Section build.
Context {O : Objfmt} {OL : ObjfmtLaws O}.

Lemma BuildSubtree_layout (c : Client) (http : gostring → nat → answer) (cancel : nat → bool)
    (root : Hash) (nodes : list Hash) :
  http (base c ++ str "/subtree/" ++ hashid.Display root) 0%nat = AResp 200 (concat_hashes nodes) → nodes ≠ [] → fits nodes →
  SubtreeSize (subtree_layout root nodes) = Ok (zlen (subtree_layout root nodes)) →
  BuildSubtree c http cancel root = Ok (Some (subtree_layout root nodes)).
Proof.
  intros Ha Hn Hf Hs. unfold BuildSubtree. rewrite (get_first c http cancel _ 200 (concat_hashes nodes)) by done.
  rstep. change (200 =? 404) with false. change (200 =? 200) with true. cbn [negb].
  rewrite length_concat_hashes, Nat2Z.inj_mul, (Z.mul_comm (Z.of_nat 32)), Z.mod_mul by done.
  rewrite (proj2 (Z.eqb_neq _ 0)) by (destruct nodes; simpl; [done|lia]). rstep.
  cbn [Z.eqb orb negb]. rstep. rewrite (Nat.mul_comm 32), Nat.div_mul by done.
  pose proof (chunks32_concat nodes []) as E. rewrite app_nil_r in E. rewrite E.
  by rewrite (proj2 (Subtree_spec root nodes _ Hf) (conj Hn (conj eq_refl Hs))).
Qed.

(** A published subtree is exactly what the cluster served: on a 200 whose
    body is the concatenation of the node hashes, the frame built is the
    BRC-143 layout of the requested root and those nodes. *)
Theorem BuildSubtree_frame (c : Client) (http : gostring → nat → answer) (cancel : nat → bool)
    (root : Hash) (nodes : list Hash) :
  http (base c ++ str "/subtree/" ++ hashid.Display root) 0%nat = AResp 200 (concat_hashes nodes) → nodes ≠ [] → fits nodes →
  SubtreeSize (subtree_layout root nodes) = Ok (zlen (subtree_layout root nodes)) →
  BuildSubtree c http cancel root = Ok (Some (subtree_layout root nodes)).
Proof. apply BuildSubtree_layout. Qed.

(** The block of a frame, fetched in the cluster's serialization, is the
    frame again. *)
Lemma BuildBlock_layout c http cancel root b :
  http (base c ++ str "/block/" ++ hashid.Display root) 0%nat = AResp 200 (teranode_layout b) → frame_ok b →
  BuildBlock c http cancel root = Ok (Some (block_frame b)).
Proof.
  intros Ha Hb. unfold BuildBlock. rewrite (get_first c http cancel _ 200 (teranode_layout b)) by done.
  rstep. change (200 =? 404) with false. change (200 =? 200) with true. cbn [negb].
  destruct Hb as [Ht Hh Hc Hz Hs Hf]. rewrite FromTeranode_layout by done. rstep.
  by rewrite frame_ok_encode by (by constructor).
Qed.

(** What cannot be published is told apart from what failed: a 404 is not
    available, any other status but 200 is an error, and neither produces a
    frame. *)
Theorem build_unavailable (c : Client) (http : gostring → nat → answer) (cancel : nat → bool) (h : Hash)
    (st : Z) (body : list byte) :
  (∀ url, http url 0%nat = AResp st body) → st ≠ 200 → st ≠ 429 →
  if st =? 404 then BuildSubtree c http cancel h = Ok None ∧ BuildBlock c http cancel h = Ok None
  else res_ok (BuildSubtree c http cancel h) = false ∧ res_ok (BuildBlock c http cancel h) = false.
Proof.
  intros Ha Hs Hr. unfold BuildSubtree, BuildBlock. rewrite !(get_first c http cancel _ st body) by done.
  rstep. destruct (st =? 404); [done|]. by rewrite (proj2 (Z.eqb_neq st 200) Hs).
Qed.
End build.

(** ** Witnesses *)

Definition ax_client : Client := New (str "http://a/api/v1/") 0.
Definition ax_http (url : gostring) (k : nat) : answer :=
  match k with O => AResp 429 [] | _ => AResp 200 [x01] end.

Lemma get_retries_witness : get ax_client ax_http (λ _, false) (str "/x") = (Ok ([x01], 200), 2%nat).
Proof.
  apply get_retries.
  - lia.
  - intros i Hi. destruct i; [split; [by eexists|reflexivity]|lia].
  - reflexivity.
  - discriminate.
Defined.

Lemma BuildSubtree_frame_witness :
  BuildSubtree ax_client (λ _ _, AResp 200 (concat_hashes [copy32 [x02]])) (λ _, false) (copy32 [x01])
  = Ok (Some (subtree_layout (copy32 [x01]) [copy32 [x02]])).
Proof.
  apply BuildSubtree_frame.
  - reflexivity.
  - discriminate.
  - vm_compute. reflexivity.
  - vm_compute. reflexivity.
Defined.

Lemma build_unavailable_witness :
  BuildSubtree ax_client (λ _ _, AResp 404 []) (λ _, false) (copy32 [x01]) = Ok None.
Proof.
  apply (build_unavailable ax_client (λ _ _, AResp 404 []) (λ _, false) (copy32 [x01]) 404 []);
    [reflexivity|discriminate|discriminate].
Defined.
