(* ===== verification/Reverse.v ===== *)
(** * reverse: publishing what the cluster produces

    [src/reverse/reverse.go], [promoter.go] and the policy functions of
    [dial.go]. The subscriber shares the seen-registry and the object cache with
    the delivery lanes, so its state holds the same [plane]. What it asks of
    the outside for one notification (the builder's answer, whether the
    readiness gate is open, whether the send succeeds) is a [renv]. [up] lists
    the frames given to a publisher, with the outcome. *)

From Stdlib Require Import Strings.Byte.
From stdpp Require Import base list strings numbers gmap.
From S2P Require Import Prelude HashId Objfmt Encode TnWire Cache Registry TxBuild Submit Handlers.
Import bridge.

Module reverse.
Definition typeSubtree : Z := 1.
Definition typeBlock : Z := 2.

Record Notification : Type := mkNote { n_type : Z; n_hash : list byte }.

(** The configuration: which classes have a publisher, whether published
    frames are kept, whether a readiness gate is set, and the mine tag. *)
Record Config : Type := mkConfig {
  Subtrees : bool; Blocks : bool; Published : bool; HasReady : bool; MineTag : list byte
}.

Record Subscriber : Type := mkSub {
  pl : plane;
  active : bool;
  subtreesUp : Z; blocksUp : Z; remoteSkipped : Z; skipped : Z; failures : Z;
  gated : Z; standbyHeld : Z; foreignSkipped : Z; reconnects : Z;
  up : list (gostring * list byte * bool)
}.

Record renv : Type := mkRenv {
  r_now : Z;
  r_ready : bool;
  r_build_subtree : Hash → res (option (list byte));
  r_build_block : Hash → res (option (list byte));
  r_send : bool
}.

Definition SetActive (v : bool) (s : Subscriber) : Subscriber :=
  mkSub (pl s) v (subtreesUp s) (blocksUp s) (remoteSkipped s) (skipped s) (failures s)
    (gated s) (standbyHeld s) (foreignSkipped s) (reconnects s) (up s).

Definition bump (rs sk fl gt sb fg : Z) (s : Subscriber) : Subscriber :=
  mkSub (pl s) (active s) (subtreesUp s) (blocksUp s) (remoteSkipped s + rs) (skipped s + sk)
    (failures s + fl) (gated s + gt) (standbyHeld s + sb) (foreignSkipped s + fg)
    (reconnects s) (up s).

(** [seen.Mark(hash, Submitted)] and [Published.Put(hash, class, frame)]. *)
Definition register (c : Config) (now : Z) (class : gostring) (h : Hash) (frame : list byte)
    (s : Subscriber) : Subscriber :=
  let p := pl s in
  let objs := if Published c then cache.Put now h class frame (objects p) else objects p in
  mkSub (mkPlane objs (snd (registry.Mark now h registry.Submitted (seen p))) (announced p)
           (events p) (echoVerified p) (echoMismatch p))
    (active s) (subtreesUp s) (blocksUp s) (remoteSkipped s) (skipped s) (failures s)
    (gated s) (standbyHeld s) (foreignSkipped s) (reconnects s) (up s).

(** [pub.Send(ctx, frame)] and the counter of the class. *)
Definition send (ok : bool) (class : gostring) (is_block : bool) (frame : list byte)
    (s : Subscriber) : Subscriber :=
  let b2z (b : bool) := if b then 1 else 0 in
  mkSub (pl s) (active s)
    (subtreesUp s + b2z (ok && negb is_block)) (blocksUp s + b2z (ok && is_block))
    (remoteSkipped s) (skipped s) (failures s + b2z (negb ok))
    (gated s) (standbyHeld s) (foreignSkipped s) (reconnects s)
    (up s ++ [(class, frame, ok)]).

Section objfmt.
Context {O : Objfmt}.

(** The origin gate on a built frame. *)
Inductive origin : Type := Ours | Foreign | Unreadable | Crash.
Definition origin_of (c : Config) (is_block : bool) (frame : list byte) : origin :=
  if is_block && (0 <? zlen (MineTag c)) then
    match tnwire.CoinbaseOf frame with
    | Ok cb => if contains (MineTag c) cb then Ours else Foreign
    | Err _ => Unreadable
    | Panic => Crash
    end
  else Ours.

Definition publish (c : Config) (e : renv) (is_block : bool) (h : Hash) (s : Subscriber)
    : res unit * Subscriber :=
  let class := if is_block then str "block" else str "subtree" in
  if negb (if is_block then Blocks c else Subtrees c) then (Ok tt, s) else
  if negb (active s) then (Ok tt, bump 0 0 0 0 1 0 s) else
  if HasReady c && negb (r_ready e) then (Ok tt, bump 0 0 0 1 0 0 s) else
  match (if is_block then r_build_block e h else r_build_subtree e h) with
  | Panic => (Panic, s)
  | Err _ => (Ok tt, bump 0 0 1 0 0 0 s)
  | Ok None => (Ok tt, bump 0 1 0 0 0 0 s)
  | Ok (Some frame) =>
      match origin_of c is_block frame with
      | Crash => (Panic, s)
      | Unreadable => (Ok tt, bump 0 0 1 0 0 0 s)
      | Foreign => (Ok tt, bump 0 0 0 0 0 1 s)
      | Ours =>
          let s := register c (r_now e) class h frame s in
          (Ok tt, send (r_send e) class is_block frame s)
      end
  end.

Definition handle (c : Config) (e : renv) (n : Notification) (s : Subscriber)
    : res unit * Subscriber :=
  if negb (n_type n =? typeSubtree) && negb (n_type n =? typeBlock) then (Ok tt, s) else
  match hashid.FromWire (n_hash n) with
  | Err _ => (Ok tt, s)
  | Panic => (Panic, s)
  | Ok h =>
      match registry.Lookup h (seen (pl s)) with
      | Some _ => (Ok tt, bump 1 0 0 0 0 0 s)
      | None => publish c e (n_type n =? typeBlock) h s
      end
  end.
End objfmt.

(** ** The reconnect loop *)

(** [next]: doubling, up to 30 seconds. *)
Definition next (d : Z) : Z := if 30 * 10 ^ 9 <? d * 2 then 30 * 10 ^ 9 else d * 2.

(** Where [Run]'s loop is: about to subscribe, waiting out a backoff, or
    receiving; the backoff is the one the next wait will use. *)
Inductive rphase : Type := Subscribing | Waiting | Receiving | Returned.
Record run_state : Type := mkRun { rph : rphase; backoff : Z; losses : Z }.

Inductive run_event : Type :=
| Subscribed (ok : bool)   (** the [Subscribe] call returned *)
| Received                 (** [Recv] delivered a notification *)
| Lost                     (** [Recv] failed *)
| Slept                    (** the backoff timer fired *)
| Cancelled.               (** the context ended *)

Definition run_step (e : run_event) (s : run_state) : run_state :=
  match e, rph s with
  | Cancelled, _ => mkRun Returned (backoff s) (losses s)
  | Subscribed true, Subscribing => mkRun Receiving (10 ^ 9) (losses s)
  | Subscribed false, Subscribing => mkRun Waiting (backoff s) (losses s)
  | Lost, Receiving => mkRun Waiting (backoff s) (losses s + 1)
  | Slept, Waiting => mkRun Subscribing (next (backoff s)) (losses s)
  | _, _ => s
  end.
Definition run_init : run_state := mkRun Subscribing (10 ^ 9) 0.

(** ** Transport policy *)

Definition MinKeepaliveTime : Z := 10 * 10 ^ 9.
Definition DefaultKeepaliveTime : Z := 30 * 10 ^ 9.
Definition DefaultKeepaliveTimeout : Z := 20 * 10 ^ 9.

(** grpc's [keepalive.ClientParameters]. *)
Record ClientParameters : Type := mkKA { ka_Time : Z; ka_Timeout : Z; ka_PermitWithoutStream : bool }.

(** [keepaliveParams]: the policy, and whether the interval was raised. *)
Definition keepaliveParams (every timeout : Z) (permitWithoutStream : bool) : ClientParameters * bool :=
  let every := if every <=? 0 then DefaultKeepaliveTime else every in
  let timeout := if timeout <=? 0 then DefaultKeepaliveTimeout else timeout in
  let '(every, clamped) := if every <? MinKeepaliveTime then (MinKeepaliveTime, true) else (every, false) in
  (mkKA every timeout permitWithoutStream, clamped).

(** ** The promoter *)

Record PromoterConfig : Type := mkProm { Interval : Z; FailN : Z; OKN : Z }.
Definition prom_defaults (c : PromoterConfig) : PromoterConfig :=
  mkProm (if Interval c <=? 0 then 2 * 10 ^ 9 else Interval c)
    (if FailN c <=? 0 then 5 else FailN c) (if OKN c <=? 0 then 10 else OKN c).

Record promoter : Type := mkP { fails : Z; oks : Z; role : bool }.

(** One tick of [RunPromoter]'s loop. *)
Definition tick (c : PromoterConfig) (p : promoter) (probe : bool) : promoter :=
  if probe then
    let oks := oks p + 1 in
    mkP 0 oks (if (OKN c <=? oks) && role p then false else role p)
  else
    let fails := fails p + 1 in
    mkP fails 0 (if (FailN c <=? fails) && negb (role p) then true else role p).
Definition ticks (c : PromoterConfig) (ps : list bool) (p : promoter) : promoter :=
  foldl (tick c) p ps.
End reverse.

Import reverse.

(** ** Publishing *)

Section publishing.
Context {O : Objfmt}.

Definition sends (c : Config) (e : renv) (n : Notification) (s : Subscriber) : Prop :=
  up (snd (handle c e n s)) ≠ up s.

Lemma publish_cases c e is_block h s :
  let out := publish c e is_block h s in
  (up (snd out) = up s ∧ pl (snd out) = pl s) ∨
  ∃ frame,
    active s = true ∧ (HasReady c = true → r_ready e = true) ∧
    (if is_block then r_build_block e h else r_build_subtree e h) = Ok (Some frame) ∧
    origin_of c is_block frame = Ours ∧
    fst out = Ok tt ∧
    pl (snd out) = pl (register c (r_now e) (if is_block then str "block" else str "subtree") h frame s) ∧
    up (snd out) = up s ++ [(if is_block then str "block" else str "subtree", frame, r_send e)].
Proof.
  unfold publish.
  destruct (negb (if is_block then Blocks c else Subtrees c)); [by left|].
  destruct (active s) eqn:Ea; cbn [negb]; [|by left].
  destruct (HasReady c && negb (r_ready e)) eqn:Er; [by left|].
  destruct (if is_block then r_build_block e h else r_build_subtree e h) as [[frame|]| |] eqn:Eb;
    [|by left..].
  destruct (origin_of c is_block frame) eqn:Eo; [|by left..].
  right. exists frame. split_and!; [done| |done..].
  intros Hr. rewrite Hr in Er. cbn in Er. by destruct (r_ready e).
Qed.

Lemma handle_note c e n s h :
  (n_type n = typeSubtree ∨ n_type n = typeBlock) → hashid.FromWire (n_hash n) = Ok h →
  handle c e n s =
    match registry.Lookup h (seen (pl s)) with
    | Some _ => (Ok tt, bump 1 0 0 0 0 0 s)
    | None => publish c e (n_type n =? typeBlock) h s
    end.
Proof.
  intros Ht Hh. unfold handle. rewrite Hh.
  destruct Ht as [->| ->]; cbn; done.
Qed.

(** The origin filter holds: a notification for a hash that crossed the
    bridge in either direction publishes nothing and changes nothing but
    the skip counter, whatever the builder would return. *)
Theorem known_not_republished (c : Config) (e : renv) (n : Notification) (h : Hash)
    (d : registry.Direction) (s : Subscriber) :
  hashid.FromWire (n_hash n) = Ok h → registry.Lookup h (seen (pl s)) = Some d →
  fst (handle c e n s) = Ok tt ∧ up (snd (handle c e n s)) = up s ∧
  pl (snd (handle c e n s)) = pl s.
Proof.
  intros Hh Hd. unfold handle. rewrite Hh, Hd. by destruct (negb _ && _).
Qed.


(** A failed send is final: the hash was registered before the send, so when
    the send fails every later notification for it is skipped and the object
    is never offered to the tunnel again. *)
Theorem failed_send_not_retried (c : Config) (e e' : renv) (n : Notification) (s : Subscriber) (h : Hash) :
  registry_wf (seen (pl s)) → hashid.FromWire (n_hash n) = Ok h →
  sends c e n s → r_send e = false →
  let s1 := snd (handle c e n s) in
  failures s1 = failures s + 1 ∧ up (snd (handle c e' n s1)) = up s1.
Proof.
  intros Hw Hh Hs Hf. unfold sends in Hs.
  assert (Ht : n_type n = typeSubtree ∨ n_type n = typeBlock).
  { unfold handle in Hs. destruct (Z.eqb_spec (n_type n) typeSubtree); [by left|].
    destruct (Z.eqb_spec (n_type n) typeBlock); [by right|]. done. }
  cbv zeta. rewrite !(handle_note _ _ n _ h Ht Hh) in *.
  destruct (registry.Lookup h (seen (pl s))) as [d|] eqn:Hd; [done|].
  set (ib := n_type n =? typeBlock) in *.
  assert (Hfail : up (snd (publish c e ib h s)) ≠ up s →
            failures (snd (publish c e ib h s)) = failures s + 1).
  { unfold publish. destruct (negb (if ib then Blocks c else Subtrees c)); [done|].
    destruct (negb (active s)); [done|]. destruct (HasReady c && _); [done|].
    destruct (if ib then _ else _) as [[f|]| |]; [|done..].
    destruct (origin_of c ib f); [|done..]. intros _. cbn. rewrite Hf. done. }
  split; [by apply Hfail|].
  destruct (publish_cases c e ib h s) as [[Hu _]|(frame & _ & _ & _ & _ & _ & Hp & Hu)]; [done|].
  assert (is_Some (registry.Lookup h (seen (pl (snd (publish c e ib h s)))))) as [d' Hd'].
  { rewrite Hp. cbn [register pl seen]. rewrite Lookup_Mark by done. eauto. }
  by rewrite Hd'.
Qed.

(** A bridge's own object is recognised when it comes back: after a subtree is
    published, the delivery of the same frame at any later time is not
    announced to the cluster, and while the cache still holds the frame it is
    counted as verified byte for byte. *)
Theorem echo_recognised (c : Config) (e : renv) (h : Hash) (s : Subscriber) (frame : list byte)
    (o : cache.Options) (now : Z) (prod : producer) (url : gostring) :
  registry_wf (seen (pl s)) → registry_wf (announced (pl s)) →
  rtc cache_step (cache.New o) (objects (pl s)) →
  Subtrees c = true → Published c = true → active s = true → (HasReady c = true → r_ready e = true) →
  r_build_subtree e h = Ok (Some frame) →
  40 ≤ zlen frame ≤ shard_ceiling o → subtree_root frame = h →
  registry.Lookup h (seen (pl s)) = None → stored_entry h (objects (pl s)) = None →
  time_sub now (r_now e) ≤ cache_ttl o →
  let s1 := pl (snd (handle c e (mkNote typeSubtree (hbytes h)) s)) in
  let out := handleSubtree now prod url frame s1 in
  fst out = Ok tt ∧ events (snd out) = events (pl s) ∧
  echoVerified (snd out) = echoVerified (pl s) + 1 ∧ echoMismatch (snd out) = echoMismatch (pl s).
Proof.
  intros Hw Hwa Hr Hcs Hcp Ha Hrd Hb [Hl Hfit] Hroot Hn Hne Ht s1 out.
  assert (Hs1 : s1 = pl (register c (r_now e) (str "subtree") h frame s)).
  { unfold s1. assert (hashid.FromWire (hbytes h) = Ok h) as Hfw.
    { pose proof (FromWire_app h []) as E. by rewrite app_nil_r in E. }
    rewrite (handle_note c e (mkNote typeSubtree (hbytes h)) s h (or_introl eq_refl) Hfw), Hn. cbn [n_type].
    change (typeSubtree =? typeBlock) with false. unfold publish. rewrite Hcs, Ha. cbn [negb].
    assert (HasReady c && negb (r_ready e) = false) as ->.
    { destruct (HasReady c); [by rewrite (Hrd eq_refl)|done]. }
    rewrite Hb. cbn. done. }
  assert (Hsub : registry.Lookup h (seen s1) = Some registry.Submitted).
  { rewrite Hs1. cbn [register pl seen]. rewrite Lookup_Mark by done.
    destruct (fst (registry.Mark _ h _ _)) as [d|] eqn:E; [|done].
    apply Mark_known in E; [|done]. congruence. }
  assert (Hget : fst (cache.Get now h (objects s1)) = Some (frame, str "subtree")).
  { rewrite Hs1. cbn [register pl objects]. rewrite Hcp.
    rewrite (Get_after_Put o) by done. by rewrite Hne. }
  assert (Hwf1 : plane_wf s1).
  { rewrite Hs1. split; cbn; [by apply Mark_registry_wf|done]. }
  unfold out. rewrite handleSubtree_gate by done. rewrite Hroot.
  destruct (stored_frame now h (str "subtree") frame s1) as (E1 & E2 & E3).
  pose proof (gate_spec now prod url (str "subtree") h _ (stored_wf now h (str "subtree") frame s1 Hwf1)) as H.
  cbv zeta in H. rewrite E1, E2, E3 in H. destruct H as (_ & _ & He & _).
  destruct He as (Hok & Hev & _); [|].
  { rewrite Hs1. cbn [register pl seen]. rewrite Mark_again by done. f_equal.
    destruct (fst (registry.Mark _ h registry.Submitted _)) as [d|] eqn:E; [|done].
    apply Mark_known in E; [|done]. congruence. }
  split; [done|]. split; [by rewrite Hev, Hs1|].
  destruct (gate_echo now prod url (str "subtree") h (stored now h (str "subtree") frame s1)) as [-> ->].
  unfold stored, put_object, verifyEcho. rewrite Hsub.
  destruct (cache.Get now h (objects s1)) as [g c']. cbn [fst] in Hget. subst g.
  rewrite bool_decide_eq_true_2 by done. cbn. by rewrite Hs1.
Qed.
End publishing.

(** ** Reconnecting *)

Definition runs (es : list run_event) (s : run_state) : run_state := foldl (λ s e, run_step e s) s es.

(** The reconnect loop never spins and never sleeps away: whatever the stream
    does, the wait before the next subscription is between one and thirty
    seconds, a wait always ends in a new attempt until the context is
    cancelled, and a successful subscription resets it to one second. *)
Theorem backoff_bounded (es : list run_event) :
  let s := runs es run_init in
  10 ^ 9 ≤ backoff s ≤ 30 * 10 ^ 9 ∧
  (rph s = Waiting → rph (run_step Slept s) = Subscribing) ∧
  (rph s = Subscribing → backoff (run_step (Subscribed true) s) = 10 ^ 9).
Proof.
  intros s. assert (10 ^ 9 ≤ backoff s ≤ 30 * 10 ^ 9) as Hb.
  { unfold s, runs. clear s. induction es as [|e es IH] using rev_ind; [by cbn|].
    rewrite foldl_snoc. cbv beta. revert IH. generalize (foldl (λ s e, run_step e s) run_init es).
    intros r IH. unfold run_step. destruct e as [[]| | | |], (rph r); cbn [backoff]; try done.
    all: change (10 ^ 9) with 1000000000 in *; try lia.
    unfold next. change (10 ^ 9) with 1000000000 in *. bdestruct_guard; lia. }
  split; [done|]. unfold run_step. split; intros ->; done.
Qed.

(** ** The promoter *)

Lemma ticks_snoc c ps p b : ticks c (ps ++ [b]) p = tick c (ticks c ps p) b.
Proof. unfold ticks. by rewrite foldl_snoc. Qed.

Lemma ticks_app c ps qs p : ticks c (ps ++ qs) p = ticks c qs (ticks c ps p).
Proof. unfold ticks. by rewrite foldl_app. Qed.

(** The counters are the lengths of the current runs of equal probes. *)
Lemma ticks_counters c ps r :
  let p := ticks c ps (mkP 0 0 r) in
  0 ≤ fails p ∧ 0 ≤ oks p ∧
  (∃ l, ps = l ++ replicate (Z.to_nat (fails p)) false) ∧
  (∃ l, ps = l ++ replicate (Z.to_nat (oks p)) true).
Proof.
  induction ps as [|b ps IH] using rev_ind.
  - cbn. split_and!; [done|done|by exists []|by exists []].
  - rewrite ticks_snoc. cbv zeta in *. destruct IH as (Hf & Ho & (l1 & E1) & (l2 & E2)).
    unfold tick. destruct b; cbn [fails oks].
    + split_and!; [lia|lia|exists (ps ++ [true]); by rewrite app_nil_r|].
      exists l2. rewrite E2 at 1. rewrite <- app_assoc. f_equal.
      replace (Z.to_nat (oks (ticks c ps (mkP 0 0 r)) + 1))
        with (Z.to_nat (oks (ticks c ps (mkP 0 0 r))) + 1)%nat by lia.
      by rewrite replicate_add.
    + split_and!; [lia|lia| |exists (ps ++ [false]); by rewrite app_nil_r].
      exists l1. rewrite E1 at 1. rewrite <- app_assoc. f_equal.
      replace (Z.to_nat (fails (ticks c ps (mkP 0 0 r)) + 1))
        with (Z.to_nat (fails (ticks c ps (mkP 0 0 r))) + 1)%nat by lia.
      by rewrite replicate_add.
Qed.

Definition has_run (b : bool) (n : Z) (ps : list bool) : Prop :=
  ∃ l1 l2, ps = l1 ++ replicate (Z.to_nat n) b ++ l2.

Lemma has_run_end b n m l : n ≤ m → has_run b n (l ++ replicate (Z.to_nat m) b).
Proof.
  intros H. exists (l ++ replicate (Z.to_nat m - Z.to_nat n) b), [].
  rewrite app_nil_r, <- app_assoc. f_equal. rewrite <- replicate_add. f_equal. lia.
Qed.

Lemma has_run_snoc b n ps x : has_run b n ps → has_run b n (ps ++ [x]).
Proof. intros (l1 & l2 & ->). exists l1, (l2 ++ [x]). by rewrite <- !app_assoc. Qed.

Lemma tick_streak c n b p :
  let p' := ticks c (replicate n b) p in
  if b then 0 ≤ oks p → Z.of_nat n ≤ oks p' else 0 ≤ fails p → Z.of_nat n ≤ fails p'.
Proof.
  revert p. induction n as [|n IH]; intros p; [by destruct b|].
  cbn [replicate]. unfold ticks in *. cbn [foldl]. 
  assert (∀ m q, if b then oks q + Z.of_nat m ≤ oks (foldl (tick c) q (replicate m b))
            else fails q + Z.of_nat m ≤ fails (foldl (tick c) q (replicate m b))) as H.
  { induction m as [|m IHm]; intros q; [destruct b; cbn; lia|].
    cbn [replicate foldl]. specialize (IHm (tick c q b)).
    destruct b; cbn [tick fails oks] in *; lia. }
  specialize (H n (tick c p b)). destruct b; cbn [tick fails oks] in *; lia.
Qed.

Lemma prom_defaults_pos c0 : 1 ≤ FailN (prom_defaults c0) ∧ 1 ≤ OKN (prom_defaults c0).
Proof. unfold prom_defaults. cbn. split; bdestruct_guard; lia. Qed.

(** A run of equal probes of the right length settles the role. *)
Lemma streak_settles c n (b : bool) p :
  0 ≤ fails p → 0 ≤ oks p → (0 < n)%nat → (if b then OKN c else FailN c) ≤ Z.of_nat n →
  role (ticks c (replicate n b) p) = negb b.
Proof.
  intros Hf Ho Hn Hle. destruct n as [|n]; [lia|].
  replace (S n) with (n + 1)%nat by lia. rewrite replicate_add, ticks_app. cbn [replicate].
  unfold ticks at 1. cbn [foldl]. pose proof (tick_streak c n b p) as H. cbv zeta in H.
  destruct b; cbn [tick role negb]; [specialize (H Ho)|specialize (H Hf)];
    rewrite (proj2 (Z.leb_le _ _)) by lia; by destruct (role _).
Qed.

(** The role changes only after such a run. *)
Lemma role_change_run c ps (r : bool) :
  role (ticks c ps (mkP 0 0 r)) = negb r → has_run r (if r then OKN c else FailN c) ps.
Proof.
  induction ps as [|b ps IH] using rev_ind; [by destruct r|].
  destruct (ticks_counters c (ps ++ [b]) r) as (_ & _ & (l1 & E1) & (l2 & E2)).
  rewrite ticks_snoc in *. revert E1 E2. set (q := ticks c ps (mkP 0 0 r)) in *.
  destruct r, b; cbn [tick role fails oks negb]; intros E1 E2 Hr.
  - destruct (Z.leb_spec (OKN c) (oks q + 1)); [rewrite E2; by apply has_run_end|].
    apply has_run_snoc, IH. exact Hr.
  - apply has_run_snoc, IH. by destruct (role q), (_ <=? _).
  - apply has_run_snoc, IH. by destruct (role q), (_ <=? _).
  - destruct (Z.leb_spec (FailN c) (fails q + 1)); [rewrite E1; by apply has_run_end|].
    apply has_run_snoc, IH. exact Hr.
Qed.

(** Failover is prompt and does not flap: [FailN] failed probes in a row give
    the standby the submitter role and [OKN] good ones in a row take it away,
    from any state; and the role is never taken without [FailN] consecutive
    failures nor given back without [OKN] consecutive successes since the
    promoter started. *)
Theorem promoter_failover (c0 : PromoterConfig) (ps : list bool) (r : bool) :
  let c := prom_defaults c0 in
  let p := ticks c ps (mkP 0 0 r) in
  role (ticks c (replicate (Z.to_nat (FailN c)) false) p) = true ∧
  role (ticks c (replicate (Z.to_nat (OKN c)) true) p) = false ∧
  (r = false → role p = true → has_run false (FailN c) ps) ∧
  (r = true → role p = false → has_run true (OKN c) ps).
Proof.
  intros c p. destruct (prom_defaults_pos c0) as [HF HO]. fold c in HF, HO.
  destruct (ticks_counters c ps r) as (Hf0 & Ho0 & _). fold p in Hf0, Ho0.
  split_and!.
  - apply (streak_settles c _ false); [done..|lia|lia].
  - apply (streak_settles c _ true); [done..|lia|lia].
  - intros ->. by apply (role_change_run c ps false).
  - intros ->. by apply (role_change_run c ps true).
Qed.

(** ** Witnesses *)

Definition rx_cfg : Config := mkConfig true true true true (str "/t1/").
Definition rx_sub : Subscriber := mkSub hx_plane true 0 0 0 0 0 0 0 0 0 [].
Definition rx_frame : list byte := replicate 72 x01.
Definition rx_env (ok : bool) : renv :=
  mkRenv 5 true (λ _, Ok (Some rx_frame)) (λ _, Ok None) ok.
Definition rx_note : Notification := mkNote typeSubtree (hbytes (subtree_root rx_frame)).

Lemma known_not_republished_witness :
  up (snd (handle rx_cfg (rx_env true) rx_note
    (snd (handle rx_cfg (rx_env true) rx_note rx_sub)))) = [(str "subtree", rx_frame, true)].
Proof.
  destruct (known_not_republished rx_cfg (rx_env true) rx_note (subtree_root rx_frame)
    registry.Submitted (snd (handle rx_cfg (rx_env true) rx_note rx_sub))) as (_ & H & _).
  - vm_compute. reflexivity.
  - vm_compute. reflexivity.
  - rewrite H. vm_compute. reflexivity.
Defined.


Lemma failed_send_not_retried_witness :
  failures (snd (handle rx_cfg (rx_env false) rx_note rx_sub)) = 1.
Proof.
  destruct (failed_send_not_retried rx_cfg (rx_env false) (rx_env true) rx_note rx_sub
    (subtree_root rx_frame)) as [H _].
  - apply New_registry_wf.
  - vm_compute. reflexivity.
  - vm_compute. discriminate.
  - reflexivity.
  - exact H.
Defined.

Lemma echo_recognised_witness :
  echoVerified (snd (handleSubtree 9 (Announces None) (str "u") rx_frame
    (pl (snd (handle rx_cfg (rx_env true) rx_note rx_sub))))) = 1.
Proof.
  destruct (echo_recognised rx_cfg (rx_env true) (subtree_root rx_frame) rx_sub rx_frame
    (cache.mkOptions 64000 1000) 9 (Announces None) (str "u")) as (_ & _ & H & _).
  - apply New_registry_wf.
  - apply New_registry_wf.
  - apply rtc_refl.
  - reflexivity.
  - reflexivity.
  - reflexivity.
  - reflexivity.
  - reflexivity.
  - vm_compute. split; discriminate.
  - reflexivity.
  - vm_compute. reflexivity.
  - vm_compute. reflexivity.
  - vm_compute. discriminate.
  - exact H.
Defined.

Lemma backoff_bounded_witness :
  rph (run_step Slept (runs [Subscribed false] run_init)) = Subscribing.
Proof. apply (backoff_bounded [Subscribed false]). reflexivity. Defined.

Lemma promoter_failover_witness :
  has_run false 5 [true; false; false; false; false; false].
Proof.
  apply (promoter_failover (mkProm 0 0 0) [true; false; false; false; false; false] false);
    vm_compute; reflexivity.
Defined.
