(* ===== verification/EndToEnd.v ===== *)
(** * Across components: delivery, pull, publication

    The properties the bridge as a whole is for, over the models of its parts:
    an object pushed on a delivery lane is served to the cluster's pull in the
    form the cluster expects, a frame rebuilt from what the cluster serves is
    the frame that was pushed, and what was delivered is never published back.
    The retrieval plane and the lanes share the object cache; [plane_server]
    is the retrieval server over a plane's cache. *)

From Stdlib Require Import Strings.Byte.
From stdpp Require Import base list strings numbers gmap.
From S2P Require Import Prelude HashId Objfmt Encode TnWire Cache Generational Registry TxWire TxBuild.
From S2P Require Import Submit Handlers Retrieval TnAsset Reverse.
Import bridge retrieval tnasset reverse.

Abbreviation tx_store := (option (list generational.gshard)).

Definition plane_server (s : plane) (t : tx_store) : Server (list cache.shard) tx_store :=
  mkServer (objects s) t 0 0 0 0 0 0 0 0 [].

(** [cache.mkOptions], with the ceiling and TTL the hypotheses below name. *)
Definition cache_at (o : cache.Options) (s : plane) : Prop :=
  rtc cache_step (cache.New o) (objects s).

Section end_to_end.
Context {O : Objfmt} {OL : ObjfmtLaws O}.

Lemma subtree_root_layout root nodes : subtree_root (subtree_layout root nodes) = root.
Proof.
  unfold subtree_root, subtree_layout.
  rewrite take_app_length' by (by rewrite hash_length). apply copy32_hbytes.
Qed.

Lemma block_id_frame b :
  length (encode.Header b) = 80%nat → block_id (block_frame b) = hashid.DoubleSHA256 (encode.Header b).
Proof.
  intros H. unfold block_id, block_frame, block_layout. by rewrite take_app_length' by done.
Qed.

(** The answer of the two object routes, in terms of the cache's. *)
Lemma getSubtree_hit now h obj cl s t :
  fst (cache.Get now h (objects s)) = Some (obj, cl) → 40 ≤ zlen obj →
  fst (getSubtree now (hashid.Display h) (plane_server s t)) = Ok (mkResp 200 (drop 40 obj)).
Proof.
  intros Hg Hl. unfold getSubtree. rewrite ParseDisplay_Display.
  change (store_Get now h (objs (plane_server s t))) with (cache.Get now h (objects s)).
  destruct (cache.Get now h (objects s)) as [r c]. cbn [fst] in Hg. subst r.
  unfold SubtreeHeaderSize. rewrite (proj2 (Z.ltb_ge (zlen obj) 40)) by done.
  unfold slice_from. rewrite slice_ok by lia. cbn [fst]. do 2 f_equal.
  rewrite take_ge; [done|]. rewrite length_drop. lia.
Qed.

Lemma getBlock_hit now h obj cl out s t :
  fst (cache.Get now h (objects s)) = Some (obj, cl) → tnwire.ToTeranode obj = Ok out →
  fst (getBlock now (hashid.Display h) (plane_server s t)) = Ok (mkResp 200 out).
Proof.
  intros Hg Ho. unfold getBlock. rewrite ParseDisplay_Display.
  change (store_Get now h (objs (plane_server s t))) with (cache.Get now h (objects s)).
  destruct (cache.Get now h (objects s)) as [r c]. cbn [fst] in Hg. subst r. by rewrite Ho.
Qed.

(** What the cache answers for a delivered object. *)
Lemma delivered_subtree_cached o now now' prod url obj s :
  cache_at o s → 40 ≤ zlen obj ≤ shard_ceiling o → time_sub now' now ≤ cache_ttl o →
  stored_entry (subtree_root obj) (objects s) = None →
  fst (cache.Get now' (subtree_root obj) (objects (snd (handleSubtree now prod url obj s))))
  = Some (obj, str "subtree").
Proof.
  intros Hc [Hl Hf] Ht Hn. rewrite handleSubtree_gate, gate_objects by done.
  destruct (stored_servable o now now' (subtree_root obj) (str "subtree") obj s Hc Hf Ht)
    as (b & cl & E & H). destruct (H Hn) as [-> ->]. done.
Qed.

Lemma delivered_block_cached o now now' prod url obj s :
  cache_at o s → fits obj → 104 ≤ zlen obj ≤ shard_ceiling o → time_sub now' now ≤ cache_ttl o →
  stored_entry (block_id obj) (objects s) = None →
  fst (cache.Get now' (block_id obj) (objects (snd (handleBlock now prod url obj s))))
  = Some (obj, str "block").
Proof.
  intros Hc Hfit [Hl Hf] Ht Hn. rewrite handleBlock_gate, gate_objects by done.
  rewrite (proj1 (proj2 (proj2 (mark_roots_spec _ _ _)))).
  destruct (stored_servable o now now' (block_id obj) (str "block") obj s Hc Hf Ht)
    as (b & cl & E & H). destruct (H Hn) as [-> ->]. done.
Qed.

(** What the two object routes answer for a delivered frame. *)
Lemma delivered_subtree_served o now now' prod url s t root nodes :
  let frame := subtree_layout root nodes in
  cache_at o s → zlen frame ≤ shard_ceiling o → time_sub now' now ≤ cache_ttl o →
  stored_entry root (objects s) = None →
  fst (getSubtree now' (hashid.Display root) (plane_server (snd (handleSubtree now prod url frame s)) t))
  = Ok (mkResp 200 (concat_hashes nodes)).
Proof.
  intros frame Hc Hl Ht Hn.
  assert (Hlen : zlen frame = 40 + 32 * zlen nodes) by apply length_subtree_layout.
  assert (drop 40 frame = concat_hashes nodes) as <-.
  { unfold frame, subtree_layout. replace 40%nat with (32 + 8)%nat by lia.
    rewrite <- drop_drop, drop_app_length' by (by rewrite hash_length).
    by rewrite drop_app_length' by (by rewrite length_be_bytes). }
  apply (getSubtree_hit now' root frame (str "subtree")); [|lia].
  pose proof (delivered_subtree_cached o now now' prod url frame s) as H.
  assert (subtree_root frame = root) as E by apply subtree_root_layout.
  rewrite E in H. apply H; [done|lia|done|done].
Qed.

Lemma delivered_block_served o now now' prod url s t b :
  let frame := block_frame b in
  let id := hashid.DoubleSHA256 (encode.Header b) in
  cache_at o s → frame_ok b → zlen frame ≤ shard_ceiling o → time_sub now' now ≤ cache_ttl o →
  stored_entry id (objects s) = None →
  fst (getBlock now' (hashid.Display id) (plane_server (snd (handleBlock now prod url frame s)) t))
  = Ok (mkResp 200 (teranode_layout b)).
Proof.
  intros frame id Hc Hb Hl Ht Hn. pose proof Hb as [Hty Hh _ _ _ Hfit].
  apply (getBlock_hit now' id frame (str "block")); [|by apply ToTeranode_frame].
  pose proof (delivered_block_cached o now now' prod url frame s) as H.
  assert (block_id frame = id) as E by (by apply block_id_frame).
  rewrite E in H. apply H; [done|done| |done|done].
  split; [|done]. unfold frame. rewrite frame_lengths by done. lia.
Qed.


(** C2: A pushed block is pulled in the cluster's own serialization and rebuilt
    exactly: after a BRC-144 frame is delivered, the pull of its header hash
    is answered with Teranode's layout of the same block, and the frame
    built from that answer is the delivered frame, bit for bit. *)
Theorem block_push_pull (o : cache.Options) (now now' : Z) (prod : producer) (url : gostring)
    (s : plane) (t : tx_store) (b : encode.Block)
    (c : Client) (http : gostring → nat → answer) (cancel : nat → bool) :
  let frame := block_frame b in
  let id := hashid.DoubleSHA256 (encode.Header b) in
  cache_at o s → frame_ok b → zlen frame ≤ shard_ceiling o → time_sub now' now ≤ cache_ttl o →
  stored_entry id (objects s) = None →
  let served := plane_server (snd (handleBlock now prod url frame s)) t in
  ∃ resp, fst (getBlock now' (hashid.Display id) served) = Ok resp ∧
    resp = mkResp 200 (teranode_layout b) ∧
    (http (base c ++ str "/block/" ++ hashid.Display id) 0%nat = AResp (status resp) (rbody resp) →
     BuildBlock c http cancel id = Ok (Some frame)).
Proof.
  intros frame id Hc Hb Hl Ht Hn served. exists (mkResp 200 (teranode_layout b)).
  split_and!; [by apply (delivered_block_served o)|done|]. intros Ha. by apply BuildBlock_layout.
Qed.

(** C10: What the fabric delivered is never published back: after a subtree frame
    is handled, whatever the announce did, a notification of its root leads
    to no send. *)
Theorem delivered_not_republished (now : Z) (prod : producer) (url : gostring) (obj : list byte)
    (c : Config) (e : renv) (sub : Subscriber) :
  plane_wf (pl sub) → 40 ≤ zlen obj →
  let sub' := mkSub (snd (handleSubtree now prod url obj (pl sub))) (active sub) (subtreesUp sub)
    (blocksUp sub) (remoteSkipped sub) (skipped sub) (failures sub) (gated sub) (standbyHeld sub)
    (foreignSkipped sub) (reconnects sub) (up sub) in
  up (snd (handle c e (mkNote typeSubtree (hbytes (subtree_root obj))) sub')) = up sub.
Proof.
  intros Hw Hl sub'.
  assert (hashid.FromWire (hbytes (subtree_root obj)) = Ok (subtree_root obj)) as Hfw.
  { pose proof (FromWire_app (subtree_root obj) []) as E. by rewrite app_nil_r in E. }
  rewrite (handle_note c e (mkNote typeSubtree (hbytes (subtree_root obj))) sub' _ (or_introl eq_refl) Hfw).
  unfold sub'. cbn [pl]. rewrite handleSubtree_gate by done.
  pose proof (gate_spec now prod url (str "subtree") (subtree_root obj) _
    (stored_wf now (subtree_root obj) (str "subtree") obj (pl sub) Hw)) as H.
  cbv zeta in H. destruct H as (_ & Hs & _). by rewrite Hs.
Qed.

(** The retrieval plane does not keep its rule against empty and wrong
    bodies: a delivered subtree frame that lists no nodes is served as a 200
    with an empty body, and the hash of a delivered block is served on the
    subtree route as a 200 with the block's bytes from offset 40 on. *)
Theorem wrong_body_served (o : cache.Options) (now now' : Z) (prod : producer) (url : gostring)
    (s : plane) (t : tx_store) (root : Hash) (b : encode.Block) :
  cache_at o s → time_sub now' now ≤ cache_ttl o → frame_ok b →
  zlen (block_frame b) ≤ shard_ceiling o →
  stored_entry root (objects s) = None →
  stored_entry (hashid.DoubleSHA256 (encode.Header b)) (objects s) = None →
  fst (getSubtree now' (hashid.Display root)
    (plane_server (snd (handleSubtree now prod url (subtree_layout root []) s)) t))
  = Ok (mkResp 200 []) ∧
  fst (getSubtree now' (hashid.Display (hashid.DoubleSHA256 (encode.Header b)))
    (plane_server (snd (handleBlock now prod url (block_frame b) s)) t))
  = Ok (mkResp 200 (drop 40 (block_frame b))).
Proof.
  intros Hc Ht Hb Hl Hn1 Hn2. pose proof Hb as [Hty Hh _ _ _ Hfit].
  pose proof (frame_lengths b Hh) as HL.
  pose proof (length_subtree_layout root []) as L0. cbn [length] in L0.
  split.
  - assert (drop 40 (subtree_layout root []) = []) as <- by (apply drop_ge; lia).
    apply (getSubtree_hit now' root _ (str "subtree")); [|lia].
    pose proof (delivered_subtree_cached o now now' prod url (subtree_layout root []) s) as H.
    rewrite subtree_root_layout in H. apply H; [done|lia|done|done].
  - apply (getSubtree_hit now' _ _ (str "block")); [|lia].
    pose proof (delivered_block_cached o now now' prod url (block_frame b) s) as H.
    rewrite (block_id_frame b Hh) in H. apply H; [done|done|lia|done|done].
Qed.
End end_to_end.

(** ** Witnesses *)

Definition ee_root : Hash := copy32 [x21].
Definition ee_opts : cache.Options := cache.mkOptions 64000 1000.

Lemma ee_cache : cache_at ee_opts hx_plane.
Proof. apply rtc_refl. Qed.

Lemma ee_frame_ok : frame_ok hx_block.
Proof.
  split.
  - repeat split; vm_compute; congruence.
  - reflexivity.
  - vm_compute. reflexivity.
  - vm_compute. intros H. repeat (apply elem_of_cons in H as [H|H]; [discriminate H|]).
    by apply not_elem_of_nil in H.
  - vm_compute. reflexivity.
  - vm_compute. reflexivity.
Qed.


Lemma block_push_pull_witness :
  BuildBlock ax_client (λ _ _, AResp 200 (teranode_layout hx_block)) (λ _, false)
    (hashid.DoubleSHA256 (encode.Header hx_block))
  = Ok (Some (block_frame hx_block)).
Proof.
  destruct (block_push_pull ee_opts 5 7 (Announces None) (str "u") hx_plane None hx_block
    ax_client (λ _ _, AResp 200 (teranode_layout hx_block)) (λ _, false)) as (resp & _ & E & H).
  - apply ee_cache.
  - apply ee_frame_ok.
  - vm_compute. discriminate.
  - vm_compute. discriminate.
  - vm_compute. reflexivity.
  - apply H. rewrite E. reflexivity.
Defined.

Lemma delivered_not_republished_witness :
  let sub' := mkSub (snd (handleSubtree 5 NoProducer (str "u") hx_obj (pl rx_sub))) true 0 0 0 0 0 0 0 0 0 [] in
  up (snd (handle rx_cfg (rx_env true) (mkNote typeSubtree (hbytes (subtree_root hx_obj))) sub')) = [].
Proof.
  apply (delivered_not_republished 5 NoProducer (str "u") hx_obj rx_cfg (rx_env true) rx_sub).
  - apply hx_plane_wf.
  - vm_compute. discriminate.
Defined.

Lemma wrong_body_served_witness :
  fst (getSubtree 7 (hashid.Display ee_root)
    (plane_server (snd (handleSubtree 5 (Announces None) (str "u") (subtree_layout ee_root []) hx_plane)) None))
  = Ok (mkResp 200 []).
Proof.
  apply (wrong_body_served ee_opts 5 7 (Announces None) (str "u") hx_plane None ee_root hx_block).
  - apply ee_cache.
  - vm_compute. discriminate.
  - apply ee_frame_ok.
  - vm_compute. discriminate.
  - vm_compute. reflexivity.
  - vm_compute. reflexivity.
Defined.
