(* ===== verification/System.v ===== *)
(** * The bridge as one system

    The delivery lanes, the reverse path, the retrieval plane and the promoter
    act on one [plane] in any order. [sys_do] is the whole bridge taking one
    step; what it is seen to do with an object hash (receive it, tell the
    cluster of it, send it up) are its [action]s. The specification is a bridge
    with a perfect memory ([ideal_step]), and the refinement theorem says that
    within the registries' window the bridge acts exactly like it; from that
    follows that no object loops: nothing received is sent up, nothing is sent
    twice, and the cluster is told of an object at most once and never of its
    own. *)

From Stdlib Require Import Strings.Byte Sorting.Sorted.
From stdpp Require Import base list strings numbers gmap.
From S2P Require Import Prelude HashId Objfmt Encode TnWire Cache Registry Handlers Retrieval Reverse EndToEnd.
Import registry bridge retrieval reverse.

(** ** A registry within its window, as a map *)

(** Recording a hash keeps the direction it is already known in. *)
Definition note (k : Hash) (d : Direction) (m : gmap Hash Direction) : gmap Hash Direction :=
  match m !! k with Some _ => m | None => <[k := d]> m end.

Definition keys_on (i : nat) (ks : list Hash) : list Hash := filter (λ k, shard_index k = i) ks.

(** No shard is marked as often as it has room for. *)
Definition in_budget (n : Z) (ks : list Hash) : Prop := ∀ i, zlen (keys_on i ks) < reg_cap n.

Section window.
Variables (start t n lo : Z).
Hypothesis Ht : t < two63.
Local Abbreviation hi := (lo + Z.quot (reg_ttl t) 2).

(** Registry [r], in which marks of [ks] were made until [last], is [m]. *)
Definition reg_sim (ks : list Hash) (last : Z) (r : Registry) (m : gmap Hash Direction) : Prop :=
  ∃ ms, r = marks ms (New start t n) ∧ in_window lo (Z.quot (reg_ttl t) 2) ms ∧
    Forall (λ x, m_now x ≤ last) ms ∧
    (∀ i, zlen (marks_on i ms) ≤ zlen (keys_on i ks)) ∧
    ∀ k, m !! k = first_dir k ms.

Lemma first_dir_snoc k ms x :
  first_dir k (ms ++ [x])
  = match first_dir k ms with
    | Some d => Some d
    | None => if decide (m_key x = k) then Some (m_dir x) else None
    end.
Proof.
  unfold first_dir. rewrite filter_app. destruct (filter _ ms); [|done]. cbn [app].
  rewrite filter_cons. by case_decide.
Qed.

Lemma lookup_note k d m k' :
  note k d m !! k'
  = match m !! k' with Some e => Some e | None => if decide (k = k') then Some d else None end.
Proof.
  unfold note. destruct (m !! k) as [e|] eqn:E.
  - case_decide; [subst; by rewrite E|]. by destruct (m !! k').
  - case_decide as Hk; [subst; by rewrite lookup_insert_eq, E|].
    rewrite lookup_insert_ne by done. by destruct (m !! k').
Qed.

Lemma in_window_snoc h ms x :
  in_window lo h ms → Forall (λ y, m_now y ≤ m_now x) ms → lo ≤ m_now x < lo + h →
  in_window lo h (ms ++ [x]).
Proof.
  intros [Hs Hw] Hx Hb. split.
  - clear Hw Hb. induction Hs as [|y ms Hs IH Hy]; cbn; [by repeat constructor|].
    apply Forall_cons in Hx as [Hyx Hx]. constructor; [by apply IH|].
    apply Forall_app. split; [done|by constructor].
  - apply Forall_app. split; [done|]. by constructor.
Qed.

Lemma reg_sim_lookup ks last r m k : reg_sim ks last r m → in_budget n ks → Lookup k r = m !! k.
Proof.
  intros (ms & -> & Hw & _ & Hc & Hm) Hb. rewrite Hm.
  apply (window_exact start t n lo ms k Ht Hw). intros i. specialize (Hc i). specialize (Hb i). lia.
Qed.

Lemma reg_sim_mark ks last now k d r m :
  reg_sim ks last r m → last ≤ now → lo ≤ now < hi → in_budget n (ks ++ [k]) →
  fst (Mark now k d r) = m !! k ∧ reg_sim (ks ++ [k]) now (snd (Mark now k d r)) (note k d m).
Proof.
  intros (ms & -> & Hw & Hl & Hc & Hm) Hnow Hin Hb.
  assert (Forall (λ x, m_now x ≤ now) ms) as Hl'.
  { eapply Forall_impl; [exact Hl|]. cbn. lia. }
  split.
  - rewrite Hm. apply (window_exact start t n lo ms k Ht Hw); [|done|done].
    intros i. specialize (Hc i). specialize (Hb i). unfold keys_on in *.
    rewrite filter_app, length_app in Hb. lia.
  - exists (ms ++ [mkMark now k d]). split_and!.
    + unfold marks. by rewrite foldl_snoc.
    + by apply in_window_snoc.
    + apply Forall_app. split; [done|]. constructor; [cbn; lia|done].
    + intros i. rewrite marks_on_app, length_app. unfold keys_on. rewrite filter_app, length_app.
      specialize (Hc i). unfold keys_on in Hc. unfold marks_on at 2. rewrite !filter_cons. cbn [m_key].
      case_decide; cbn; lia.
    + intros k'. by rewrite lookup_note, first_dir_snoc, Hm.
Qed.

Lemma reg_sim_weaken ks ks' last last' r m :
  reg_sim ks last r m → last ≤ last' → reg_sim (ks ++ ks') last' r m.
Proof.
  intros (ms & -> & Hw & Hl & Hc & Hm) Hlast. exists ms. split_and!; [done|done| | |done].
  - eapply Forall_impl; [exact Hl|]. cbn. lia.
  - intros i. unfold keys_on. rewrite filter_app, length_app. specialize (Hc i). unfold keys_on in Hc. lia.
Qed.
End window.

(** ** The system *)

Record sys : Type := mkSys { sub : Subscriber; txst : tx_store }.

Inductive sys_event : Type :=
| DeliverSubtree (now : Z) (prod : producer) (url : gostring) (obj : list byte)
| DeliverBlock (now : Z) (prod : producer) (url : gostring) (obj : list byte)
| Notify (e : renv) (nt : Notification)
| PullSubtree (now : Z) (hash : gostring)
| PullBlock (now : Z) (hash : gostring)
| Role (v : bool).

(** What is seen to happen to an object: received from the fabric, told to the
    cluster (and whether the broker took it), sent up. *)
Inductive action : Type :=
| Received (h : Hash)
| Told (h : Hash) (ok : bool)
| Sent (h : Hash).

Definition with_plane (p : plane) (s : Subscriber) : Subscriber :=
  mkSub p (active s) (subtreesUp s) (blocksUp s) (remoteSkipped s) (skipped s) (failures s)
    (gated s) (standbyHeld s) (foreignSkipped s) (reconnects s) (up s).
Definition with_objects (o : list cache.shard) (p : plane) : plane :=
  mkPlane o (seen p) (announced p) (events p) (echoVerified p) (echoMismatch p).

(** The announcements a delivery of [h] made. *)
Definition told_since (h : Hash) (p p' : plane) : list action :=
  (λ e, Told h (a_ok e)) <$> drop (length (events p)) (events p').

Section system.
Context {O : Objfmt}.
Variable c : Config.

Definition delivered_to (h : Hash) (out : res unit * plane) (s : sys)
    : option (list action * sys) :=
  match out with
  | (Panic, _) => None
  | (_, p) => Some (Received h :: told_since h (pl (sub s)) p, mkSys (with_plane p (sub s)) (txst s))
  end.

Definition pulled_from (out : res response * Server (list cache.shard) tx_store) (s : sys)
    : option (list action * sys) :=
  match out with
  | (Panic, _) => None
  | (_, srv) => Some ([], mkSys (with_plane (with_objects (objs srv) (pl (sub s))) (sub s)) (txs srv))
  end.

(** One step of the bridge; a panic ends the process, and the run. *)
Definition sys_do (ev : sys_event) (s : sys) : option (list action * sys) :=
  match ev with
  | DeliverSubtree now prod url obj =>
      if zlen obj <? 40 then Some ([], s)
      else delivered_to (subtree_root obj) (handleSubtree now prod url obj (pl (sub s))) s
  | DeliverBlock now prod url obj =>
      if zlen obj <? 104 then Some ([], s)
      else delivered_to (block_id obj) (handleBlock now prod url obj (pl (sub s))) s
  | Notify e nt =>
      match handle c e nt (sub s) with
      | (Panic, _) => None
      | (_, sub') =>
          let sent := match hashid.FromWire (n_hash nt) with
                      | Ok h => if (length (up (sub s)) <? length (up sub'))%nat then [Sent h] else []
                      | _ => []
                      end in
          Some (sent, mkSys sub' (txst s))
      end
  | PullSubtree now hash => pulled_from (getSubtree now hash (plane_server (pl (sub s)) (txst s))) s
  | PullBlock now hash => pulled_from (getBlock now hash (plane_server (pl (sub s)) (txst s))) s
  | Role v => Some ([], mkSys (SetActive v (sub s)) (txst s))
  end.

Definition roots_of (obj : list byte) : list Hash :=
  match tnwire.SubtreeRootsOf obj with Ok roots => roots | _ => [] end.

(** The hashes an event may record, and its clock reading. *)
Definition event_keys (ev : sys_event) : list Hash :=
  match ev with
  | DeliverSubtree _ _ _ obj => [subtree_root obj]
  | DeliverBlock _ _ _ obj => roots_of obj ++ [block_id obj]
  | Notify _ nt => match hashid.FromWire (n_hash nt) with Ok h => [h] | _ => [] end
  | _ => []
  end.
Definition event_now (last : Z) (ev : sys_event) : Z :=
  match ev with
  | DeliverSubtree now _ _ _ | DeliverBlock now _ _ _ => now
  | Notify e _ => r_now e
  | _ => last
  end.

(** ** The specification *)

Record ideal : Type := mkIdeal { known : gmap Hash Direction; told : gset Hash }.

(** What an event asks of the bridge: take in an object (and the subtrees it
    names), or consider a hash the cluster announces, which the configuration
    and the surroundings would let it send. *)
Inductive request : Type :=
| Deliver (h : Hash) (roots : list Hash) (prod : producer)
| Consider (h : Hash) (would : bool)
| Nothing.

(** [publish] would reach its send. *)
Definition would_send (e : renv) (is_block : bool) (h : Hash) (s : Subscriber) : bool :=
  (if is_block then Blocks c else Subtrees c) && active s &&
  negb (HasReady c && negb (r_ready e)) &&
  match (if is_block then r_build_block e h else r_build_subtree e h) with
  | Ok (Some frame) => match origin_of c is_block frame with Ours => true | _ => false end
  | _ => false
  end.

Definition request_of (ev : sys_event) (s : sys) : request :=
  match ev with
  | DeliverSubtree _ prod _ obj =>
      if zlen obj <? 40 then Nothing else Deliver (subtree_root obj) [] prod
  | DeliverBlock _ prod _ obj =>
      if zlen obj <? 104 then Nothing else Deliver (block_id obj) (roots_of obj) prod
  | Notify e nt =>
      if negb (n_type nt =? typeSubtree) && negb (n_type nt =? typeBlock) then Nothing else
      match hashid.FromWire (n_hash nt) with
      | Ok h => Consider h (would_send e (n_type nt =? typeBlock) h (sub s))
      | _ => Nothing
      end
  | _ => Nothing
  end.

(** A bridge that never forgets. *)
Definition ideal_roots (roots : list Hash) (i : ideal) : ideal :=
  mkIdeal (foldl (λ m r, note r Delivered m) (known i) roots) (told i ∪ list_to_set roots).

Definition ideal_gate (h : Hash) (prod : producer) (i : ideal) : list action * ideal :=
  let kn := note h Delivered (known i) in
  if bool_decide (known i !! h = Some Submitted) || bool_decide (h ∈ told i) then ([], mkIdeal kn (told i))
  else match prod with
       | NoProducer => ([], mkIdeal kn ({[h]} ∪ told i))
       | Announces (Some _) => ([Told h false], mkIdeal kn (told i))
       | Announces None => ([Told h true], mkIdeal kn ({[h]} ∪ told i))
       end.

Definition ideal_step (r : request) (i : ideal) : list action * ideal :=
  match r with
  | Nothing => ([], i)
  | Consider h would =>
      match known i !! h with
      | Some _ => ([], i)
      | None => if would then ([Sent h], mkIdeal (<[h := Submitted]> (known i)) (told i)) else ([], i)
      end
  | Deliver h roots prod =>
      let '(acts, i) := ideal_gate h prod (ideal_roots roots i) in (Received h :: acts, i)
  end.

Fixpoint ideal_run (rs : list request) (i : ideal) : list (list action) :=
  match rs with
  | [] => []
  | r :: rs => let '(acts, i) := ideal_step r i in acts :: ideal_run rs i
  end.
End system.

(** ** Simulation *)

Section simulation.
Context {O : Objfmt}.
Variables (start t n lo : Z).
Hypothesis Ht : t < two63.
Local Abbreviation hi := (lo + Z.quot (reg_ttl t) 2).
Local Abbreviation rsim := (reg_sim start t n lo).

Definition plane_sim (ks : list Hash) (last : Z) (p : plane) (i : ideal) : Prop :=
  rsim ks last (seen p) (known i) ∧ ∃ ma, rsim ks last (announced p) ma ∧ dom ma = told i.

Lemma dom_note k d m : dom (note k d m) = {[k]} ∪ dom m.
Proof.
  unfold note. destruct (m !! k) as [e|] eqn:E.
  - assert (k ∈ dom m) by (by apply elem_of_dom). set_solver.
  - by rewrite dom_insert_L.
Qed.

Lemma in_budget_app_l ks ks' : in_budget n (ks ++ ks') → in_budget n ks.
Proof.
  intros H j. specialize (H j). unfold keys_on in *. rewrite filter_app, length_app in H. lia.
Qed.

Lemma plane_sim_root ks last now r p i :
  plane_sim ks last p i → last ≤ now → lo ≤ now < hi → in_budget n (ks ++ [r]) →
  plane_sim (ks ++ [r]) now (mark_announced now r (snd (mark_seen now r p))) (ideal_roots [r] i).
Proof.
  intros [Hs (ma & Ha & Hd)] Hn Hin Hb. unfold mark_seen.
  destruct (reg_sim_mark start t n lo Ht ks last now r Delivered _ _ Hs Hn Hin Hb) as [_ Hs'].
  destruct (reg_sim_mark start t n lo Ht ks last now r Delivered _ _ Ha Hn Hin Hb) as [_ Ha'].
  destruct (Mark now r Delivered (seen p)) as [d reg]. cbn [snd] in *. split; [done|].
  exists (note r Delivered ma). split; [done|]. rewrite dom_note, Hd. set_solver.
Qed.

Lemma ideal_roots_cons r roots i : ideal_roots (r :: roots) i = ideal_roots roots (ideal_roots [r] i).
Proof. unfold ideal_roots. cbn. f_equal. set_solver. Qed.

Lemma plane_sim_roots ks last now roots p i :
  plane_sim ks last p i → last ≤ now → lo ≤ now < hi → in_budget n (ks ++ roots) →
  plane_sim (ks ++ roots) now (mark_roots now roots p) (ideal_roots roots i).
Proof.
  revert ks last p i. induction roots as [|r roots IH]; intros ks last p i Hp Hn Hin Hb.
  - rewrite app_nil_r in *. destruct Hp as [Hs (ma & Ha & Hd)]. cbn.
    rewrite <- (app_nil_r ks). split; [by eapply reg_sim_weaken|].
    exists ma. split; [by eapply reg_sim_weaken|]. cbn. set_solver.
  - rewrite ideal_roots_cons. cbn [mark_roots foldl].
    replace (ks ++ r :: roots) with ((ks ++ [r]) ++ roots) in * by (by rewrite <- app_assoc).
    eapply (IH (ks ++ [r]) now); [|lia|done|done].
    apply (plane_sim_root ks last); [done..|by eapply in_budget_app_l].
Qed.

Lemma plane_sim_gate ks last now prod url class h p i :
  plane_sim ks last p i → last ≤ now → lo ≤ now < hi → in_budget n (ks ++ [h]) →
  let p' := snd (announce_gate now prod url class h p) in
  told_since h p p' = fst (ideal_gate h prod i) ∧
  plane_sim (ks ++ [h]) now p' (snd (ideal_gate h prod i)).
Proof.
  intros [Hs (ma & Ha & Hd)] Hn Hin Hb. unfold announce_gate, mark_seen, ideal_gate, told_since.
  destruct (reg_sim_mark start t n lo Ht ks last now h Delivered _ _ Hs Hn Hin Hb) as [Ed Hs'].
  destruct (reg_sim_mark start t n lo Ht ks last now h Delivered _ _ Ha Hn Hin Hb) as [_ Ha'].
  pose proof (reg_sim_lookup start t n lo Ht ks last (announced p) ma h Ha (in_budget_app_l _ _ Hb)) as El.
  pose proof (reg_sim_weaken start t n lo ks [h] last now _ _ Ha Hn) as Hw.
  destruct (Mark now h Delivered (seen p)) as [dir reg]. cbn [fst snd] in *. subst dir.
  assert (h ∈ told i ↔ is_Some (ma !! h)) as Htold by (rewrite <- Hd; apply elem_of_dom).
  case_bool_decide as Hq; cbn [orb].
  { cbn [fst snd events]. rewrite drop_all. split; [done|]. split; [done|]. by exists ma. }
  cbn [announced]. rewrite El. destruct (ma !! h) as [x|] eqn:Ex.
  - rewrite bool_decide_true by (apply Htold; eauto). cbn [fst snd events mark_announced].
    rewrite drop_all. split; [done|]. split; [done|]. exists (note h Delivered ma). split; [done|].
    rewrite dom_note, Hd. cbn. assert (h ∈ told i) by (apply Htold; eauto). set_solver.
  - rewrite bool_decide_false by (intros Hc%Htold; by destruct Hc).
    assert (dom (note h Delivered ma) = {[h]} ∪ told i) as Hdn by (by rewrite dom_note, Hd).
    destruct prod as [|[e|]]; cbn [fst snd events mark_announced add_event];
      rewrite ?drop_all, ?drop_app_length; (split; [done|]); (split; [done|]); cbn; eauto.
Qed.

(** ** One step *)

Variable c : Config.

Lemma plane_sim_same ks ks' last last' p p' i :
  plane_sim ks last p i → seen p' = seen p → announced p' = announced p → last ≤ last' →
  plane_sim (ks ++ ks') last' p' i.
Proof.
  intros [Hs (ma & Ha & Hd)] Es Ea Hl. split; [rewrite Es; by eapply reg_sim_weaken|].
  exists ma. split; [rewrite Ea; by eapply reg_sim_weaken|done].
Qed.

Lemma plane_sim_stored ks last now h class obj p i :
  plane_sim ks last p i → plane_sim ks last (stored now h class obj p) i.
Proof.
  intros Hp. destruct (stored_frame now h class obj p) as (Es & Ea & _).
  rewrite <- (app_nil_r ks). by apply (plane_sim_same ks [] last last p).
Qed.

Lemma delivered_sim ks last now h roots prod url class obj s i out acts s' :
  out = announce_gate now prod url class h (mark_roots now roots (stored now h class obj (pl (sub s)))) →
  plane_sim ks last (pl (sub s)) i → last ≤ now → lo ≤ now < hi → in_budget n (ks ++ roots ++ [h]) →
  delivered_to h out s = Some (acts, s') →
  acts = fst (ideal_step (Deliver h roots prod) i) ∧
  plane_sim (ks ++ roots ++ [h]) now (pl (sub s')) (snd (ideal_step (Deliver h roots prod) i)).
Proof.
  intros Ho Hp Hn Hin Hb Hd. rewrite app_assoc in *.
  apply (plane_sim_stored _ _ now h class obj) in Hp.
  apply (plane_sim_roots ks last now roots) in Hp; [|done..|by eapply in_budget_app_l].
  destruct (plane_sim_gate (ks ++ roots) now now prod url class h _ _ Hp) as [Ht' Hp']; [lia|done|done|].
  rewrite <- Ho in Ht', Hp'. cbn [ideal_step].
  destruct (ideal_gate h prod (ideal_roots roots i)) as [acts0 i']. cbn [fst snd] in *.
  assert (told_since h (pl (sub s)) (snd out) = acts0) as <-.
  { rewrite <- Ht'. unfold told_since.
    destruct (mark_roots_spec now roots (stored now h class obj (pl (sub s)))) as (_ & _ & _ & ->).
    by destruct (stored_frame now h class obj (pl (sub s))) as (_ & _ & ->). }
  unfold delivered_to in Hd. destruct out as [[u|e|] p]; [| |done]; injection Hd as <- <-; done.
Qed.

Lemma publish_would e ib h s :
  let out := publish c e ib h s in
  fst out ≠ Panic →
  if would_send c e ib h s then
    seen (pl (snd out)) = snd (Mark (r_now e) h Submitted (seen (pl s))) ∧
    announced (pl (snd out)) = announced (pl s) ∧ length (up (snd out)) = S (length (up s))
  else pl (snd out) = pl s ∧ up (snd out) = up s.
Proof.
  unfold publish, would_send. destruct (if ib then Blocks c else Subtrees c); cbn [negb andb]; [|done].
  destruct (active s); cbn [negb andb]; [|done].
  destruct (HasReady c && negb (r_ready e)); cbn [negb andb]; [done|].
  destruct (if ib then r_build_block e h else r_build_subtree e h) as [[frame|]| |]; [|done..].
  destruct (origin_of c ib frame); [|done..]. cbn. by rewrite length_app, Nat.add_comm.
Qed.

Lemma notify_sim ks last e nt s i acts s' :
  plane_sim ks last (pl (sub s)) i → last ≤ r_now e → lo ≤ r_now e < hi →
  in_budget n (ks ++ event_keys (Notify e nt)) →
  sys_do c (Notify e nt) s = Some (acts, s') →
  acts = fst (ideal_step (request_of c (Notify e nt) s) i) ∧
  plane_sim (ks ++ event_keys (Notify e nt)) (r_now e) (pl (sub s'))
    (snd (ideal_step (request_of c (Notify e nt) s) i)).
Proof.
  intros Hp Hn Hin Hb Hd. cbn [sys_do event_keys request_of] in *. unfold handle in Hd.
  destruct (negb (n_type nt =? typeSubtree) && negb (n_type nt =? typeBlock)).
  { injection Hd as <- <-. rewrite Nat.ltb_irrefl. split; [by destruct (hashid.FromWire _)|].
    by apply (plane_sim_same ks _ last _ (pl (sub s))). }
  destruct (hashid.FromWire (n_hash nt)) as [h| |]; [| |done].
  2: { injection Hd as <- <-. split; [done|]. by apply (plane_sim_same ks _ last _ (pl (sub s))). }
  pose proof Hp as [Hs (ma & Ha & Hdom)].
  rewrite (reg_sim_lookup start t n lo Ht ks last _ _ h Hs (in_budget_app_l _ _ Hb)) in Hd.
  cbn [ideal_step]. destruct (known i !! h) as [d|] eqn:Ek.
  { injection Hd as <- <-. cbn [bump up]. rewrite Nat.ltb_irrefl. split; [done|].
    by apply (plane_sim_same ks _ last _ (pl (sub s))). }
  set (ib := n_type nt =? typeBlock) in *.
  pose proof (publish_would e ib h (sub s)) as Hw. cbv zeta in Hw.
  destruct (publish c e ib h (sub s)) as [r sub']. cbn [fst snd] in Hw.
  assert (r ≠ Panic) as Hr by (by intros ->). specialize (Hw Hr).
  assert (acts = (if (length (up (sub s)) <? length (up sub'))%nat then [Sent h] else []) ∧
          s' = mkSys sub' (txst s)) as [-> ->] by (destruct r; [by injection Hd as <- <-..|done]).
  destruct (would_send c e ib h (sub s)).
  - destruct Hw as (Es & Ea & ->). rewrite (proj2 (Nat.ltb_lt _ _)) by lia. split; [done|].
    destruct (reg_sim_mark start t n lo Ht ks last (r_now e) h Submitted _ _ Hs Hn Hin Hb) as [_ Hs'].
    split; cbn [fst snd known told sub].
    + rewrite Es. unfold note in Hs'. by rewrite Ek in Hs'.
    + exists ma. split; [|done]. rewrite Ea. by eapply reg_sim_weaken.
  - destruct Hw as [Ep ->]. rewrite Nat.ltb_irrefl. split; [done|].
    apply (plane_sim_same ks _ last _ (pl (sub s))); [done|by cbn; rewrite Ep..|done].
Qed.

(** Objects are Go slices. *)
Definition event_fits (ev : sys_event) : Prop :=
  match ev with DeliverBlock _ _ _ obj => fits obj | _ => True end.

Lemma pull_sim ks last out s i acts s' :
  plane_sim ks last (pl (sub s)) i → pulled_from out s = Some (acts, s') →
  acts = [] ∧ plane_sim (ks ++ []) last (pl (sub s')) i.
Proof.
  intros Hp Hd. unfold pulled_from in Hd. destruct out as [[r|e|] srv]; [| |done];
    injection Hd as <- <-; (split; [done|]); by apply (plane_sim_same ks [] last last (pl (sub s))).
Qed.

Lemma step_sim ks last ev s i acts s' :
  plane_sim ks last (pl (sub s)) i → event_fits ev →
  last ≤ event_now last ev → lo ≤ event_now last ev < hi → in_budget n (ks ++ event_keys ev) →
  sys_do c ev s = Some (acts, s') →
  acts = fst (ideal_step (request_of c ev s) i) ∧
  plane_sim (ks ++ event_keys ev) (event_now last ev) (pl (sub s'))
    (snd (ideal_step (request_of c ev s) i)).
Proof.
  intros Hp Hf Hn Hin Hb Hd.
  destruct ev as [now prod url obj|now prod url obj|e nt|now hash|now hash|v].
  - cbn [sys_do event_keys event_now request_of] in *. destruct (Z.ltb_spec (zlen obj) 40).
    { injection Hd as <- <-. split; [done|]. by apply (plane_sim_same ks _ last _ (pl (sub s))). }
    apply (delivered_sim ks last now (subtree_root obj) [] prod url (str "subtree") obj s i
      (handleSubtree now prod url obj (pl (sub s))) acts s'); [|done..].
    by rewrite handleSubtree_gate.
  - cbn [sys_do event_keys event_now request_of event_fits] in *. destruct (Z.ltb_spec (zlen obj) 104).
    { injection Hd as <- <-. split; [done|]. by apply (plane_sim_same ks _ last _ (pl (sub s))). }
    apply (delivered_sim ks last now (block_id obj) (roots_of obj) prod url (str "block") obj s i
      (handleBlock now prod url obj (pl (sub s))) acts s'); [|done..].
    by rewrite handleBlock_gate.
  - by apply (notify_sim ks last).
  - by eapply pull_sim.
  - by eapply pull_sim.
  - injection Hd as <- <-. split; [done|]. by apply (plane_sim_same ks _ last _ (pl (sub s))).
Qed.

(** ** Runs *)

Fixpoint sys_run (evs : list sys_event) (s : sys) : option (list (request * list action) * sys) :=
  match evs with
  | [] => Some ([], s)
  | ev :: evs =>
      '(acts, s1) ← sys_do c ev s;
      '(tr, s2) ← sys_run evs s1;
      Some ((request_of c ev s, acts) :: tr, s2)
  end.

(** The clock does not run backwards and stays within the window. *)
Fixpoint clocked (last : Z) (evs : list sys_event) : Prop :=
  match evs with
  | [] => True
  | ev :: evs => last ≤ event_now last ev < hi ∧ clocked (event_now last ev) evs
  end.

Lemma run_sim evs ks last s i tr s' :
  plane_sim ks last (pl (sub s)) i → Forall event_fits evs → lo ≤ last → clocked last evs →
  in_budget n (ks ++ (evs ≫= event_keys)) →
  sys_run evs s = Some (tr, s') →
  snd <$> tr = ideal_run (fst <$> tr) i.
Proof.
  revert ks last s i tr. induction evs as [|ev evs IH]; intros ks last s i tr Hp Hf Hlo Hc Hb Hr;
    cbn [sys_run] in Hr.
  { by injection Hr as <- <-. }
  apply Forall_cons in Hf as [Hev Hf]. destruct Hc as [Hn Hc].
  rewrite bind_cons, app_assoc in Hb.
  destruct (sys_do c ev s) as [[acts s1]|] eqn:Ed; [|done]. cbn [mbind option_bind] in Hr.
  destruct (sys_run evs s1) as [[tr' s2]|] eqn:Er; [|done]. cbn in Hr. injection Hr as <- <-.
  destruct (step_sim ks last ev s i acts s1) as [-> Hp']; [done|done|lia|lia| |done|].
  { by eapply in_budget_app_l. }
  cbn [fmap list_fmap fst snd ideal_run].
  destruct (ideal_step (request_of c ev s) i) as [acts i']. cbn [fst snd] in *. f_equal.
  eapply IH; [exact Hp'|done|lia|done|done|done].
Qed.
End simulation.

(** ** No loops *)

(** What may follow the actions [past]: an object is sent only if it was
    neither received nor sent before; the cluster is told of it only if it was
    not sent up and the cluster has not been told. *)
Definition allowed (past : list action) (x : action) : Prop :=
  match x with
  | Received _ => True
  | Sent h => (Received h ∉ past) ∧ (Sent h ∉ past)
  | Told h _ => (Sent h ∉ past) ∧ (Told h true ∉ past)
  end.

Inductive loop_free : list action → Prop :=
| lf_nil : loop_free []
| lf_snoc past x : loop_free past → allowed past x → loop_free (past ++ [x]).

(** The ideal bridge remembers what it did. *)
Record remembers (past : list action) (i : ideal) : Prop := {
  rem_received h : Received h ∈ past → is_Some (known i !! h);
  rem_sent h : Sent h ∈ past → known i !! h = Some Submitted;
  rem_told h : Told h true ∈ past → h ∈ told i
}.

(** Memory only grows and never changes its mind. *)
Definition grows (i i' : ideal) : Prop :=
  (∀ h d, known i !! h = Some d → known i' !! h = Some d) ∧ told i ⊆ told i'.

Lemma note_keeps k d m h e : m !! h = Some e → note k d m !! h = Some e.
Proof. rewrite lookup_note. by intros ->. Qed.

Lemma note_known k d m : is_Some (note k d m !! k).
Proof. rewrite lookup_note, decide_True by done. destruct (m !! k); eauto. Qed.

Lemma roots_grow roots i : grows i (ideal_roots roots i).
Proof.
  split; [|cbn; set_solver]. cbn. intros h d. generalize (known i).
  induction roots as [|r roots IH]; intros m Hm; [done|]. cbn. by apply IH, note_keeps.
Qed.

Lemma remembers_grows past i i' : remembers past i → grows i i' → remembers past i'.
Proof.
  intros [Hr Hs Ht] [Hk Htd]. split.
  - intros h Hh. destruct (Hr h Hh) as [d Hd]. exists d. by apply Hk.
  - intros h Hh. by apply Hk, Hs.
  - intros h Hh. by apply Htd, Ht.
Qed.

Lemma remembers_snoc past i x :
  remembers past i →
  match x with
  | Received h => is_Some (known i !! h)
  | Sent h => known i !! h = Some Submitted
  | Told h ok => ok = true → h ∈ told i
  end → remembers (past ++ [x]) i.
Proof.
  intros [Hr Hs Ht] Hx.
  split; intros h [Hh|Hh%list_elem_of_singleton]%elem_of_app; subst; auto.
Qed.

Lemma gate_step past h prod i :
  remembers past i → loop_free past →
  let '(acts, i') := ideal_gate h prod i in
  grows i i' ∧ remembers (past ++ Received h :: acts) i' ∧ loop_free (past ++ Received h :: acts).
Proof.
  intros Hm Hl. assert (loop_free (past ++ [Received h])) as Hl1 by (by constructor).
  assert (∀ td, told i ⊆ td → grows i (mkIdeal (note h Delivered (known i)) td)) as Hg.
  { intros td Htd. split; [|done]. intros k d. apply note_keeps. }
  assert (∀ td, told i ⊆ td → remembers (past ++ [Received h]) (mkIdeal (note h Delivered (known i)) td)) as Hm1.
  { intros td Htd. apply remembers_snoc; [by eapply remembers_grows, Hg|apply note_known]. }
  unfold ideal_gate. case_bool_decide as Hsub; cbn [orb]; [by split_and!; auto|].
  case_bool_decide as Htd; [by split_and!; auto|].
  assert (∀ b, allowed (past ++ [Received h]) (Told h b)) as Hal.
  { intros b. cbn. rewrite !elem_of_app, !list_elem_of_singleton.
    split; (intros [H|H]; [|done]); [by apply Hm in H|by apply Hm in H]. }
  destruct prod as [|[e|]]; (split_and!; [apply Hg; set_solver| |]); try (by auto; apply Hm1; set_solver);
    change (Received h :: ?l) with ([Received h] ++ l); rewrite app_assoc.
  - apply remembers_snoc; [apply Hm1; set_solver|done].
  - by constructor.
  - apply remembers_snoc; [apply Hm1; set_solver|cbn; set_solver].
  - by constructor.
Qed.

Lemma ideal_step_free past r i :
  remembers past i → loop_free past →
  let '(acts, i') := ideal_step r i in remembers (past ++ acts) i' ∧ loop_free (past ++ acts).
Proof.
  intros Hm Hl. destruct r as [h roots prod|h would|]; cbn [ideal_step].
  - pose proof (gate_step past h prod (ideal_roots roots i)) as H.
    destruct (ideal_gate h prod (ideal_roots roots i)) as [acts i'].
    apply H; [|done]. by eapply remembers_grows, roots_grow.
  - destruct (known i !! h) as [d|] eqn:E; [by rewrite app_nil_r|].
    destruct would; [|by rewrite app_nil_r]. split.
    + apply remembers_snoc; [|apply lookup_insert_eq]. eapply remembers_grows; [done|].
      split; [|done]. intros k d Hk. cbn. rewrite lookup_insert_ne; [done|]. intros ->. congruence.
    + constructor; [done|]. cbn. split; intros H.
      * destruct (rem_received _ _ Hm h H). congruence.
      * pose proof (rem_sent _ _ Hm h H). congruence.
  - by rewrite app_nil_r.
Qed.

Lemma ideal_run_free rs past i :
  remembers past i → loop_free past → loop_free (past ++ concat (ideal_run rs i)).
Proof.
  revert past i. induction rs as [|r rs IH]; intros past i Hm Hl; cbn [ideal_run].
  { cbn. by rewrite app_nil_r. }
  pose proof (ideal_step_free past r i Hm Hl) as H. destruct (ideal_step r i) as [acts i'].
  destruct H as [Hm' Hl']. cbn [concat]. rewrite app_assoc. by apply IH.
Qed.

(** ** The process does not panic *)

(** The objects are Go slices, and the asset client returns, with frames the
    origin test can read. *)
Definition builds_safely (build : Hash → res (option (list byte))) : Prop :=
  ∀ h, no_panic (build h) ∧
  ∀ frame, build h = Ok (Some frame) → fits frame.
Definition event_safe `{O : Objfmt} (ev : sys_event) : Prop :=
  match ev with
  | DeliverSubtree _ _ _ obj | DeliverBlock _ _ _ obj => fits obj
  | Notify e _ =>
      builds_safely (r_build_subtree e) ∧ builds_safely (r_build_block e) ∧
      ∀ h frame, r_build_block e h = Ok (Some frame) → no_panic (tnwire.CoinbaseOf frame)
  | _ => True
  end.

Lemma FromWire_no_panic b : no_panic (hashid.FromWire b).
Proof.
  unfold hashid.FromWire. apply res_bind_no_panic; [auto with bridge|intros _ Hl%guard_err_ok%Z.ltb_ge].
  rewrite slice_ok by lia. rstep. done.
Qed.
Lemma ParseDisplay_no_panic s : no_panic (hashid.ParseDisplay s).
Proof.
  unfold hashid.ParseDisplay. apply res_bind_no_panic; [auto with bridge|intros _ _].
  apply res_bind_no_panic; [apply hex_decode_no_panic|done].
Qed.

Section survives.
Context {O : Objfmt} `{!ObjfmtLaws O}.
Variable c : Config.

Definition holds_slices (s : sys) : Prop := cache_all fits (objects (pl (sub s))).

Lemma stored_slices now h class obj p :
  cache_all fits (objects p) → fits obj → cache_all fits (objects (stored now h class obj p)).
Proof.
  intros Hp Hf. apply cache_all_Put; [|done]. unfold verifyEcho.
  destruct (Lookup h (seen p)) as [[]|]; [done| |done].
  pose proof (proj1 (cache_all_Get fits now h _ Hp)) as H.
  destruct (cache.Get now h (objects p)) as [[[body cl]|] k]; [case_bool_decide|]; exact H.
Qed.

Lemma gate_total now prod url class h p : fst (announce_gate now prod url class h p) ≠ Panic.
Proof.
  unfold announce_gate. destruct (mark_seen now h p) as [d p']. case_bool_decide; [done|].
  destruct (Lookup h (announced p')); [done|]. by destruct prod as [|[]].
Qed.

Lemma delivered_total h out s :
  fst out ≠ Panic → cache_all fits (objects (snd out)) →
  ∃ acts s', delivered_to h out s = Some (acts, s') ∧ holds_slices s'.
Proof. intros Hn Hp. destruct out as [[[]|e|] p]; [by eexists _, _|by eexists _, _|done]. Qed.

Lemma pulled_total out s :
  fst out ≠ Panic → cache_all fits (objs (snd out)) →
  ∃ acts s', pulled_from out s = Some (acts, s') ∧ holds_slices s'.
Proof. intros Hn Hp. destruct out as [[r|e|] p]; [by eexists _, _|by eexists _, _|done]. Qed.

Lemma getSubtree_total now hash (s : Server (list cache.shard) tx_store) :
  cache_all fits (objs s) →
  fst (getSubtree now hash s) ≠ Panic ∧ cache_all fits (objs (snd (getSubtree now hash s))).
Proof.
  intros Hs. unfold getSubtree. pose proof (ParseDisplay_no_panic hash) as Hn.
  destruct (hashid.ParseDisplay hash) as [h|e|]; [|done|done].
  change (store_Get now h (objs s)) with (cache.Get now h (objs s)).
  pose proof (cache_all_Get fits now h _ Hs) as [Hc _].
  destruct (cache.Get now h (objs s)) as [[[obj cl]|] k]; [|done]. cbn [snd] in Hc.
  destruct (Z.ltb_spec (zlen obj) SubtreeHeaderSize) as [|Hl]; [done|].
  unfold SubtreeHeaderSize, slice_from in *. by rewrite slice_ok by lia.
Qed.

Lemma getBlock_total now hash (s : Server (list cache.shard) tx_store) :
  cache_all fits (objs s) →
  fst (getBlock now hash s) ≠ Panic ∧ cache_all fits (objs (snd (getBlock now hash s))).
Proof.
  intros Hs. unfold getBlock. pose proof (ParseDisplay_no_panic hash) as Hn.
  destruct (hashid.ParseDisplay hash) as [h|e|]; [|done|done].
  change (store_Get now h (objs s)) with (cache.Get now h (objs s)).
  pose proof (cache_all_Get fits now h _ Hs) as [Hc Hf].
  destruct (cache.Get now h (objs s)) as [[[obj cl]|] k]; [|done]. cbn [fst snd] in Hc, Hf.
  destruct (TnWire.ToTeranode_cases obj (Hf _ _ eq_refl)) as [[e ->]|(b & _ & _ & ->)]; done.
Qed.

Lemma publish_total e (is_block : bool) h s :
  builds_safely (if is_block then r_build_block e else r_build_subtree e) →
  (∀ frame, is_block = true → r_build_block e h = Ok (Some frame) → no_panic (tnwire.CoinbaseOf frame)) →
  cache_all fits (objects (pl s)) →
  fst (publish c e is_block h s) ≠ Panic ∧ cache_all fits (objects (pl (snd (publish c e is_block h s)))).
Proof.
  intros Hb Hcb Hs. unfold publish. destruct (negb (if is_block then _ else _)); [done|].
  destruct (negb (active s)); [done|]. destruct (HasReady c && negb (r_ready e)); [done|]. destruct (Hb h) as [Hn Hf].
  assert ((if is_block then r_build_block e h else r_build_subtree e h)
          = (if is_block then r_build_block e else r_build_subtree e) h) as -> by (by destruct is_block).
  set (build := if is_block then r_build_block e else r_build_subtree e) in *.
  destruct (build h) as [[frame|]|x|] eqn:E; [|done|done|by destruct (Hn eq_refl)].
  assert (origin_of c is_block frame ≠ Crash) as Ho.
  { unfold origin_of, build in *. destruct is_block; [|done]. destruct (0 <? _); [|done]. cbn [andb].
    pose proof (Hcb frame eq_refl E) as Hp. destruct (tnwire.CoinbaseOf frame); [by case_match|done|done]. }
  destruct (origin_of c is_block frame); [|done..]. split; [done|]. cbn [snd].
  assert (∀ ok cl ib f x, pl (send ok cl ib f x) = pl x) as -> by (by intros [] ? [] ? ?).
  unfold register. cbn [pl objects]. destruct (Published c); [|done].
  apply cache_all_Put; [done|]. by apply Hf.
Qed.

Lemma sys_do_total ev s :
  event_safe ev → holds_slices s → ∃ acts s', sys_do c ev s = Some (acts, s') ∧ holds_slices s'.
Proof.
  intros He Hs. destruct ev as [now prod url obj|now prod url obj|e nt|now hash|now hash|v]; cbn [sys_do].
  - destruct (Z.ltb_spec (zlen obj) 40); [by eexists _, _|].
    apply delivered_total; rewrite handleSubtree_gate by done; [apply gate_total|].
    rewrite gate_objects. by apply stored_slices.
  - destruct (Z.ltb_spec (zlen obj) 104); [by eexists _, _|].
    apply delivered_total; rewrite handleBlock_gate by done; [apply gate_total|].
    rewrite gate_objects, (proj1 (proj2 (proj2 (mark_roots_spec _ _ _)))). by apply stored_slices.
  - destruct He as (Hbs & Hbb & Hcb).
    assert (fst (handle c e nt (sub s)) ≠ Panic ∧
            cache_all fits (objects (pl (snd (handle c e nt (sub s)))))) as [Hn Hp].
    { unfold handle. destruct (negb (n_type nt =? typeSubtree) && negb (n_type nt =? typeBlock)); [done|]. pose proof (FromWire_no_panic (n_hash nt)) as Hw.
      destruct (hashid.FromWire (n_hash nt)) as [h|x|]; [|done|done].
      destruct (Lookup h _); [done|]. apply publish_total; [by destruct (n_type nt =? typeBlock)|by eauto|done]. }
    destruct (handle c e nt (sub s)) as [[r|x|] sub']; [by eexists _, _|by eexists _, _|done].
  - apply pulled_total; by apply getSubtree_total.
  - apply pulled_total; by apply getBlock_total.
  - by eexists _, _.
Qed.

Lemma sys_run_total evs s :
  Forall event_safe evs → holds_slices s → ∃ tr s', sys_run c evs s = Some (tr, s').
Proof.
  intros He. revert s. induction He as [|ev evs Hev _ IH]; intros s Hs; [by eexists _, _|].
  destruct (sys_do_total ev s Hev Hs) as (acts & s1 & E & H1).
  destruct (IH s1 H1) as (tr & s2 & E2). cbn [sys_run]. rewrite E. cbn [mbind option_bind]. rewrite E2.
  by eexists _, _.
Qed.

Lemma safe_fits evs : Forall event_safe evs → Forall event_fits evs.
Proof. intros H. eapply Forall_impl; [exact H|]. by intros []. Qed.
End survives.

(** ** Theorems *)

(** A bridge that has just started: nothing registered, announced or held. *)
Definition started (start t n : Z) (s : sys) : Prop :=
  seen (pl (sub s)) = New start t n ∧ announced (pl (sub s)) = New start t n ∧
  ∃ o, objects (pl (sub s)) = cache.New o.

Lemma started_sim start t n lo s : started start t n s → plane_sim start t n lo [] lo (pl (sub s)) (mkIdeal ∅ ∅).
Proof.
  intros (Hs & Ha & _). assert (∀ r, r = New start t n → reg_sim start t n lo [] lo r ∅) as H.
  { intros r ->. exists []. split_and!; [done| |done|done|done]. by split; constructor. }
  split; [by apply H|]. exists ∅. split; [by apply H|done].
Qed.

Section theorems.
Context {O : Objfmt} `{!ObjfmtLaws O}.
Context (c : Config) (start t n lo : Z) (evs : list sys_event) (s : sys).
Context (Ht : t < two63) (Hs : started start t n s) (Hc : clocked t lo lo evs)
  (Hb : in_budget n (evs ≫= event_keys)) (Hf : Forall event_safe evs).

Lemma window_run : ∃ tr s', sys_run c evs s = Some (tr, s') ∧ snd <$> tr = ideal_run (fst <$> tr) (mkIdeal ∅ ∅).
Proof.
  destruct (sys_run_total c evs s Hf) as (tr & s' & Hr).
  { destruct Hs as (_ & _ & o & E). unfold holds_slices. rewrite E. apply cache_all_New. }
  exists tr, s'. split; [done|].
  eapply (run_sim start t n lo Ht c evs [] lo); [by apply started_sim|by apply safe_fits|lia|done|done|done].
Qed.


End theorems.

(** ** Witnesses *)

Definition sx_env (now : Z) : renv :=
  mkRenv now true (λ h, Ok (Some (subtree_layout h [copy32 [x02]]))) (λ _, Ok None) true.
Definition sx_note (h : Hash) : Notification := mkNote typeSubtree (hbytes h).

(** A subtree whose first announcement fails, its two redeliveries, the
    cluster's notification of it, a subtree of the cluster's own, its echo, and
    a pull. *)
Definition sx_events : list sys_event :=
  [DeliverSubtree 5 (Announces (Some (EMsg "down"))) (str "u") hx_obj;
   DeliverSubtree 6 (Announces None) (str "u") hx_obj;
   DeliverSubtree 7 (Announces None) (str "u") hx_obj;
   Notify (sx_env 8) (sx_note (subtree_root hx_obj));
   Notify (sx_env 9) (sx_note ee_root);
   DeliverSubtree 10 (Announces None) (str "u") (subtree_layout ee_root [copy32 [x02]]);
   PullSubtree 11 (hashid.Display ee_root)].

Definition sx_run : option (list (request * list action) * sys) :=
  sys_run (O := ref_objfmt) rx_cfg sx_events (mkSys rx_sub None).

Lemma sx_clocked : clocked 1000 5 5 sx_events.
Proof. repeat split; vm_compute; congruence. Qed.

Lemma sx_budget : in_budget 6400 (sx_events ≫= event_keys).
Proof.
  intros j. change (reg_cap 6400) with 50.
  pose proof (length_filter (λ k, shard_index k = j) (sx_events ≫= event_keys)) as H.
  unfold keys_on. assert (length (sx_events ≫= event_keys) = 6%nat) as E by (by vm_compute).
  lia.
Qed.

Lemma sx_env_safe now nt : event_safe (O := ref_objfmt) (Notify (sx_env now) nt).
Proof.
  split_and!; [|intros h; by split|done].
  intros h. split; [done|]. intros frame [= <-]. unfold fits.
  rewrite length_subtree_layout. reflexivity.
Qed.

Lemma sx_safe : Forall (event_safe (O := ref_objfmt)) sx_events.
Proof.
  unfold sx_events. rewrite !list.Forall_cons. split_and!; [..|by constructor];
    first [apply sx_env_safe | exact I | vm_compute; reflexivity].
Qed.

Lemma sx_started : started 0 1000 6400 (mkSys rx_sub None).
Proof. split_and!; [reflexivity..|]. by exists ee_opts. Qed.



(** The trace of that run. *)
Example sx_trace :
  (λ x, concat (snd <$> fst x)) <$> sx_run
  = Some [Received (subtree_root hx_obj); Told (subtree_root hx_obj) false;
          Received (subtree_root hx_obj); Told (subtree_root hx_obj) true;
          Received (subtree_root hx_obj); Sent ee_root; Received ee_root].
Proof. vm_compute. reflexivity. Qed.
