(* ===== verification/Routes.v ===== *)
(** * The retrieval plane's routes

    [Server.Handler] of [src/retrieval/server.go]: the patterns registered on
    the standard library's [ServeMux] and the handler each one names, down to
    the handlers of [Retrieval.v]. The mux is modelled for the patterns used:
    a pattern is a method and a list of segments, [{hash}] matches one
    non-empty segment, the segments of a request are unescaped one by one,
    a request whose path is not clean is redirected, and a pattern whose path
    is not clean cannot be registered. A prefix that holds a brace of its own
    is outside the model. The route timer and its pull stamp are in
    [Freshness.v]; the tracing wrapper does not change an answer. *)

From Stdlib Require Import Strings.Byte.
From stdpp Require Import base list strings numbers gmap.
From S2P Require Import Prelude HashId Objfmt Encode TnWire Cache Generational Registry TxBuild Submit Handlers Retrieval TnAsset Reverse EndToEnd.
Import bridge retrieval.

Module routes.
(** ** [net/http]'s mux, for the patterns used *)

Inductive seg_pat : Type := Lit (s : gostring) | Wild.
Record pattern : Type := mkPattern { p_method : string; p_segs : list seg_pat }.

(** [url.PathUnescape]; the mux keeps a string that is not a valid escape. *)
Fixpoint unescape_loop (s : gostring) : option gostring :=
  match s with
  | [] => Some []
  | c :: s' =>
      if bool_decide (c = x25) then
        match s' with
        | a :: b :: s'' =>
            match unhex a, unhex b, unescape_loop s'' with
            | Some x, Some y, Some r => Some (byte_of (16 * x + y) :: r)
            | _, _, _ => None
            end
        | _ => None
        end
      else option_map (cons c) (unescape_loop s')
  end.
Definition pathUnescape (s : gostring) : gostring := default s (unescape_loop s).

(** The segments after the leading slash, as written, and as the mux compares
    them: an empty segment, which only ends a clean path, stands as a slash. *)
Definition raw_segs (path : gostring) : list gostring := tl (split_on x2f path).
Definition firstSegment (s : gostring) : gostring :=
  if bool_decide (s = []) then str "/" else pathUnescape s.
Definition path_segs (path : gostring) : list gostring := firstSegment <$> raw_segs path.

Definition dotted (s : gostring) : bool := bool_decide (s = str ".") || bool_decide (s = str "..").

(** [cleanPath(path) == path]: a leading slash, no dot segments, and no empty
    segment but the last. *)
Fixpoint clean_segs (l : list gostring) : bool :=
  match l with
  | [] => true
  | [s] => negb (dotted s)
  | s :: l => negb (dotted s) && negb (bool_decide (s = [])) && clean_segs l
  end.
Definition clean (path : gostring) : bool :=
  bool_decide (head path = Some x2f) && clean_segs (raw_segs path).

Definition parse_seg (s : gostring) : seg_pat :=
  if bool_decide (s = str "{hash}") then Wild else Lit (firstSegment s).
Definition parsePattern (m : string) (path : gostring) : option pattern :=
  if clean path then Some (mkPattern m (parse_seg <$> raw_segs path)) else None.

(** A GET pattern also matches HEAD. *)
Definition method_ok (pat m : string) : bool :=
  String.eqb pat m || (String.eqb pat "GET" && String.eqb m "HEAD").

Fixpoint segs_match (ps : list seg_pat) (l : list gostring) (got : option gostring) : option (option gostring) :=
  match ps, l with
  | [], [] => Some got
  | Lit p :: ps, s :: l => if bool_decide (p = s) then segs_match ps l got else None
  | Wild :: ps, s :: l => if bool_decide (s = str "/") then None else segs_match ps l (Some s)
  | _, _ => None
  end.

Definition matches (p : pattern) (m : string) (path : gostring) : option (option gostring) :=
  if method_ok (p_method p) m then segs_match (p_segs p) (path_segs path) None else None.

(** ** [Handler] *)

Inductive route : Type := RSubtree | RSubtreeData | RTxs | RBlock.

(** The five calls of [HandleFunc] for the served routes, in order. *)
Definition table (p : gostring) : list (string * gostring * route) :=
  [("GET"%string, p ++ str "/subtree/{hash}", RSubtree);
   ("GET"%string, p ++ str "/subtree_data/{hash}", RSubtreeData);
   ("POST"%string, p ++ str "/subtree/{hash}/txs", RTxs);
   ("GET"%string, p ++ str "/block/{hash}", RBlock);
   ("GET"%string, p ++ p ++ str "/subtree_data/{hash}", RSubtreeData)].

(** [None]: a pattern is refused, and [HandleFunc] panics. *)
Fixpoint register (t : list (string * gostring * route)) : option (list (pattern * route)) :=
  match t with
  | [] => Some []
  | (m, path, r) :: t =>
      match parsePattern m path with
      | Some p => option_map (cons (p, r)) (register t)
      | None => None
      end
  end.

(** The route of a request and its wildcard; [None] is the catch-all. *)
Fixpoint lookup (ps : list (pattern * route)) (m : string) (path : gostring) : option (route * gostring) :=
  match ps with
  | [] => None
  | (p, r) :: ps =>
      match matches p m path with
      | Some w => Some (r, default [] w)
      | None => lookup ps m path
      end
  end.

(** What becomes of a request: the registration panicked, the mux redirected
    it to the cleaned path, or a handler answered it. *)
Inductive served : Type := Unregistered | Redirected | Answered (r : res response).

Section handler.
Context {O : Objfmt} {Objs Txs : Type} `{Store Objs} `{Store Txs}.

Definition answered (r : res response * Server Objs Txs) : served * Server Objs Txs :=
  (Answered (fst r), snd r).

(** The prefix is the one [New] settled on. *)
Definition Handler (prefix : gostring) (now : Z) (m : string) (path : gostring) (body : option (list byte))
    (s : Server Objs Txs) : served * Server Objs Txs :=
  match register (table prefix) with
  | None => (Unregistered, s)
  | Some ps =>
      if negb (clean path) then (Redirected, s) else
      answered
        match lookup ps m path with
        | Some (RSubtree, h) => getSubtree now h s
        | Some (RSubtreeData, h) => getSubtreeData now h s
        | Some (RTxs, _) => postSubtreeTxs now body s
        | Some (RBlock, h) => getBlock now h s
        | None => notFound (pathUnescape path) s
        end
  end.
End handler.
End routes.

Import routes.

(** ** Matching *)

Lemma segs_match_lits (pre : list gostring) ps l got :
  segs_match ((Lit <$> pre) ++ ps) l got
  = if bool_decide (take (length pre) l = pre) then segs_match ps (drop (length pre) l) got else None.
Proof.
  revert l got. induction pre as [|p pre IH]; intros l got; [by rewrite bool_decide_eq_true_2|].
  cbn [fmap list_fmap app length]. destruct l as [|s l]; [done|]. cbn [segs_match take drop].
  destruct (decide (p = s)) as [->|Hne].
  - rewrite (bool_decide_eq_true_2 (s = s)) by done. rewrite IH.
    destruct (decide (take (length pre) l = pre)) as [E|E].
    + by rewrite !bool_decide_eq_true_2 by congruence.
    + by rewrite !bool_decide_eq_false_2 by congruence.
  - rewrite (bool_decide_eq_false_2 (p = s)) by done. rewrite bool_decide_eq_false_2; [done|]. congruence.
Qed.

(** The shape of a matching path. *)
Lemma segs_match_inv ps l got w :
  segs_match ps l got = Some w →
  Forall2 (λ p s, match p with Lit x => x = s | Wild => s ≠ str "/" end) ps l.
Proof.
  revert l got. induction ps as [|[x|] ps IH]; intros [|s l] got; cbn [segs_match]; try done.
  - case_bool_decide; [|done]. intros Hm. constructor; [done|by eapply IH].
  - case_bool_decide; [done|]. intros Hm. constructor; [done|by eapply IH].
Qed.

Definition overlap (p q : pattern) : Prop :=
  ∃ m path w w', matches p m path = Some w ∧ matches q m path = Some w'.

Lemma overlap_methods p q m path w w' :
  matches p m path = Some w → matches q m path = Some w' →
  method_ok (p_method p) m = true ∧ method_ok (p_method q) m = true ∧ length (p_segs p) = length (p_segs q) ∧
  ∀ i a b, p_segs p !! i = Some (Lit a) → p_segs q !! i = Some (Lit b) → a = b.
Proof.
  unfold matches. destruct (method_ok (p_method p) m), (method_ok (p_method q) m); try done.
  intros H1%segs_match_inv H2%segs_match_inv. split_and!; [done..| |].
  - apply Forall2_length in H1, H2. congruence.
  - intros i a b Ha Hb. eapply Forall2_lookup_l in H1 as (s & Hs & E1); [|done].
    eapply Forall2_lookup_l in H2 as (s' & Hs' & E2); [|done]. cbn in E1, E2. congruence.
Qed.

(** Two patterns of the table that match the same request are the same. *)
Lemma apart_at p q i a b :
  p_segs p !! i = Some (Lit a) → p_segs q !! i = Some (Lit b) → a ≠ b → ¬ overlap p q.
Proof.
  intros Ha Hb Hne (m & path & w & w' & H1 & H2).
  destruct (overlap_methods _ _ _ _ _ _ H1 H2) as (_ & _ & _ & H). by eapply Hne, H.
Qed.
Lemma apart_length p q : length (p_segs p) ≠ length (p_segs q) → ¬ overlap p q.
Proof.
  intros Hne (m & path & w & w' & H1 & H2).
  by destruct (overlap_methods _ _ _ _ _ _ H1 H2) as (_ & _ & H & _).
Qed.
Lemma apart_method p q : p_method p = "GET"%string → p_method q = "POST"%string → ¬ overlap p q.
Proof.
  intros Hp Hq (m & path & w & w' & H1 & H2).
  destruct (overlap_methods _ _ _ _ _ _ H1 H2) as (Hm & Hm' & _ & _). rewrite Hp in Hm. rewrite Hq in Hm'.
  unfold method_ok in Hm, Hm'. destruct (String.eqb_spec "POST" m) as [<-|]; [vm_compute in Hm; discriminate Hm|].
  discriminate Hm'.
Qed.
Lemma overlap_sym p q : ¬ overlap p q → ¬ overlap q p.
Proof. intros H (m & path & w & w' & ? & ?). apply H. by exists m, path, w', w. Qed.

(** ** Plain segments *)

Definition plain_seg (s : gostring) : Prop :=
  s ≠ [] ∧ dotted s = false ∧ (x2f ∉ s) ∧ (x25 ∉ s) ∧ (x7b ∉ s).

Lemma unescape_plain s : x25 ∉ s → unescape_loop s = Some s.
Proof.
  induction s as [|c s IH]; intros Hs; [done|]. apply not_elem_of_cons in Hs as [Hc Hs].
  cbn [unescape_loop]. rewrite bool_decide_eq_false_2 by congruence. by rewrite IH.
Qed.

Lemma firstSegment_plain s : plain_seg s → firstSegment s = s.
Proof.
  intros (Hne & _ & _ & Hp & _). unfold firstSegment, pathUnescape.
  by rewrite bool_decide_eq_false_2, unescape_plain.
Qed.

Lemma plain_not_wild s : plain_seg s → s ≠ str "{hash}".
Proof. intros (_ & _ & _ & _ & H) ->. apply H. by left. Qed.
Lemma plain_not_slash s : plain_seg s → s ≠ str "/".
Proof. intros (_ & _ & H & _) ->. apply H. by left. Qed.

Lemma parse_plain l : Forall plain_seg l → parse_seg <$> l = Lit <$> l.
Proof.
  induction 1 as [|s l Hs _ IH]; [done|]. cbn [fmap list_fmap]. f_equal; [|exact IH].
  unfold parse_seg. rewrite bool_decide_eq_false_2 by (by apply plain_not_wild).
  by rewrite firstSegment_plain.
Qed.

(** A path from its segments; a pattern may end in wildcards, so the segments
    are only required to be non-empty, free of slashes and undotted. *)
Definition path_of (l : list gostring) : gostring := l ≫= (λ s, x2f :: s).
Definition seg_ok (s : gostring) : Prop := s ≠ [] ∧ dotted s = false ∧ (x2f ∉ s).

Lemma plain_ok s : plain_seg s → seg_ok s.
Proof. by intros (? & ? & ? & _). Qed.
Lemma plain_all_ok l : Forall plain_seg l → Forall seg_ok l.
Proof. intros H. eapply Forall_impl; [exact H|exact plain_ok]. Qed.

Lemma path_of_app l k : path_of (l ++ k) = path_of l ++ path_of k.
Proof. apply bind_app. Qed.

Lemma split_path s l : x2f ∉ s → Forall seg_ok l → split_on x2f (s ++ path_of l) = s :: l.
Proof.
  revert s. induction l as [|x l IH]; intros s Hs Hl.
  - cbn. rewrite app_nil_r. by apply split_on_none.
  - apply list.Forall_cons in Hl as [(_ & _ & Hx) Hl]. change (path_of (x :: l)) with ((x2f :: x) ++ path_of l).
    cbn [app]. rewrite split_on_app by done. f_equal. by apply IH.
Qed.

Lemma raw_segs_of l : Forall seg_ok l → raw_segs (path_of l) = l.
Proof.
  intros H. unfold raw_segs. pose proof (split_path [] l (not_elem_of_nil _) H) as E.
  cbn [app] in E. by rewrite E.
Qed.

Lemma path_segs_of l : Forall plain_seg l → path_segs (path_of l) = l.
Proof.
  intros H. unfold path_segs. rewrite raw_segs_of by (by apply plain_all_ok).
  induction H as [|s l Hs _ IH]; [done|]. cbn [fmap list_fmap]. by rewrite firstSegment_plain, IH.
Qed.

Lemma clean_path_of l : l ≠ [] → Forall seg_ok l → clean (path_of l) = true.
Proof.
  intros Hne Hl. unfold clean. rewrite raw_segs_of by done.
  rewrite bool_decide_eq_true_2 by (by destruct l). cbn [andb].
  induction Hl as [|x l (H1 & H2 & _) _ IH]; [done|]. destruct l as [|y l]; cbn [clean_segs]; rewrite H2; [done|].
  rewrite bool_decide_eq_false_2 by done. by apply IH.
Qed.

Lemma parsePattern_of m l : l ≠ [] → Forall seg_ok l → parsePattern m (path_of l) = Some (mkPattern m (parse_seg <$> l)).
Proof. intros Hne Hl. unfold parsePattern. by rewrite clean_path_of, raw_segs_of. Qed.

(** The digits of a displayed hash. *)
Lemma Display_digits h c : c ∈ hashid.Display h → c ∈ str "0123456789abcdef".
Proof.
  assert (∀ x, Forall (.∈ str "0123456789abcdef") (hex_EncodeToString [x])) as H
    by (intros x; apply (bool_decide_unpack _); destruct x; vm_compute; exact I).
  intros (x & Hx & _)%list_elem_of_bind. specialize (H x). rewrite list.Forall_forall in H. apply H.
  cbn [hex_EncodeToString] in *. by apply elem_of_app; left.
Qed.

Lemma Display_plain h : plain_seg (hashid.Display h).
Proof.
  pose proof (length_Display h) as Hl.
  assert (∀ c, bool_decide (c ∈ str "0123456789abcdef") = false → c ∉ hashid.Display h) as Hd
    by (intros c Hc%bool_decide_eq_false ?%Display_digits; done).
  split_and!; [by intros E; rewrite E in Hl| |by apply Hd..].
  unfold dotted. rewrite !bool_decide_eq_false_2; [done|by intros E; rewrite E in Hl..].
Qed.

(** ** The table *)

(** What [register] makes of the table, for a prefix of plain segments. *)
Definition patterns (l : list gostring) : list (pattern * route) :=
  let pre := Lit <$> l in
  [(mkPattern "GET" (pre ++ [Lit (str "subtree"); Wild]), RSubtree);
   (mkPattern "GET" (pre ++ [Lit (str "subtree_data"); Wild]), RSubtreeData);
   (mkPattern "POST" (pre ++ [Lit (str "subtree"); Wild; Lit (str "txs")]), RTxs);
   (mkPattern "GET" (pre ++ [Lit (str "block"); Wild]), RBlock);
   (mkPattern "GET" (pre ++ pre ++ [Lit (str "subtree_data"); Wild]), RSubtreeData)].

#[local] Instance seg_ok_dec s : Decision (seg_ok s).
Proof. unfold seg_ok. apply _. Defined.
#[local] Instance plain_seg_dec s : Decision (plain_seg s).
Proof. unfold plain_seg. apply _. Defined.

Lemma parse_under m l k : Forall plain_seg l → k ≠ [] → Forall seg_ok k →
  parsePattern m (path_of l ++ path_of k) = Some (mkPattern m ((Lit <$> l) ++ (parse_seg <$> k))).
Proof.
  intros Hl Hk Hs. rewrite <- path_of_app, parsePattern_of.
  - rewrite fmap_app, (parse_plain l) by done. reflexivity.
  - intros [_ E]%app_nil. done.
  - apply Forall_app. split; [by apply plain_all_ok|done].
Qed.

Lemma register_patterns l : Forall plain_seg l → register (table (path_of l)) = Some (patterns l).
Proof.
  intros Hl. unfold table. cbn [register].
  assert (Hu : ∀ m path k pk, path = path_of k → parse_seg <$> k = pk → k ≠ [] → bool_decide (Forall seg_ok k) = true →
    parsePattern m (path_of l ++ path) = Some (mkPattern m ((Lit <$> l) ++ pk))).
  { intros m path k pk -> <- Hk Hs%bool_decide_eq_true. by apply parse_under. }
  rewrite (Hu _ _ [str "subtree"; str "{hash}"] _ eq_refl eq_refl) by done.
  rewrite (Hu _ _ [str "subtree_data"; str "{hash}"] _ eq_refl eq_refl) by done.
  rewrite (Hu _ _ [str "subtree"; str "{hash}"; str "txs"] _ eq_refl eq_refl) by done.
  rewrite (Hu _ _ [str "block"; str "{hash}"] _ eq_refl eq_refl) by done.
  change (str "/subtree_data/{hash}") with (path_of [str "subtree_data"; str "{hash}"]).
  rewrite <- (path_of_app l [_; _]), parse_under; [|done|by destruct l|].
  - rewrite fmap_app, (parse_plain l) by done. reflexivity.
  - apply Forall_app. split; [by apply plain_all_ok|]. by apply (bool_decide_unpack _).
Qed.

Definition apart (ps : list (pattern * route)) : Prop :=
  ∀ i j x y, ps !! i = Some x → ps !! j = Some y → (i < j)%nat → ¬ overlap (fst x) (fst y).

Lemma patterns_apart l : l ≠ [] → apart (patterns l).
Proof.
  intros Hne. assert (Hl : (1 ≤ length (Lit <$> l))%nat).
  { rewrite length_fmap. destruct l; [done|cbn; lia]. }
  assert (Hlit : ∀ m m' a b r r', a ≠ b →
    ¬ overlap (mkPattern m ((Lit <$> l) ++ Lit a :: r)) (mkPattern m' ((Lit <$> l) ++ Lit b :: r'))).
  { intros m m' a b r r' Hab. by eapply (apart_at _ _ (length (Lit <$> l)) a b); [apply list_lookup_middle..|]. }
  intros i j x y Hi Hj Hij. unfold patterns in Hi, Hj.
  destruct i as [|[|[|[|i]]]]; [..|destruct j as [|[|[|[|[|j]]]]]; (lia || done)]; injection Hi as <-;
    (destruct j as [|[|[|[|[|j]]]]]; [try lia..|done]); injection Hj as <-; cbn [fst];
    first [by apply Hlit | by apply apart_method | by apply overlap_sym, apart_method
          | apply apart_length; cbn [p_segs]; rewrite !length_app; cbn [length]; lia].
Qed.

Lemma lookup_unique ps m path i pat r w :
  apart ps → ps !! i = Some (pat, r) → matches pat m path = Some w →
  lookup ps m path = Some (r, default [] w).
Proof.
  revert i. induction ps as [|[q r'] ps IH]; intros i Ha Hi Hm; [done|]. cbn [lookup].
  destruct i as [|i]; [injection Hi as -> ->; by rewrite Hm|].
  destruct (matches q m path) as [w'|] eqn:Eq.
  - destruct (Ha 0%nat (S i) (q, r') (pat, r)); [done..|lia|]. by exists m, path, w', w.
  - apply (IH i); [|done..]. intros a b x y Hx Hy Hab. apply (Ha (S a) (S b)); [done..|lia].
Qed.

(** A request for the segments [l ++ k] under the prefix [l] is dispatched by
    the pattern that matches it. *)
Lemma routed l m k i pat r w :
  l ≠ [] → Forall plain_seg l → k ≠ [] → Forall plain_seg k →
  patterns l !! i = Some (pat, r) → method_ok (p_method pat) m = true →
  segs_match (p_segs pat) (l ++ k) None = Some w →
  clean (path_of l ++ path_of k) = true ∧
  lookup (patterns l) m (path_of l ++ path_of k) = Some (r, default [] w).
Proof.
  intros Hne Hl Hk Hpk Hi Hm Hw. rewrite <- path_of_app.
  assert (Forall plain_seg (l ++ k)) as Hlk by (by apply Forall_app).
  split; [apply clean_path_of; [by destruct l|by apply plain_all_ok]|].
  apply (lookup_unique _ _ _ i pat); [by apply patterns_apart|done|].
  unfold matches. by rewrite Hm, path_segs_of.
Qed.

Lemma apart_unique ps i j x y :
  apart ps → ps !! i = Some x → ps !! j = Some y → overlap (fst x) (fst y) → i = j.
Proof.
  intros Ha Hi Hj Ho. destruct (Nat.lt_trichotomy i j) as [Hlt|[->|Hlt]]; [|done|]; exfalso.
  - by eapply (Ha i j).
  - eapply (Ha j i); [done..|]. destruct Ho as (m & path & w & w' & ? & ?). by exists m, path, w', w.
Qed.

Section dispatched.
Context {O : Objfmt} {Objs Txs : Type} `{Store Objs} `{Store Txs}.
Context (l : list gostring) (Hne : l ≠ []) (Hl : Forall plain_seg l).
Context (now : Z) (body : option (list byte)) (s : Server Objs Txs).

Lemma Handler_routed m k path i pat r w :
  path = path_of l ++ path_of k → k ≠ [] → Forall plain_seg k →
  patterns l !! i = Some (pat, r) → method_ok (p_method pat) m = true →
  segs_match (p_segs pat) (l ++ k) None = Some (Some w) →
  Handler (path_of l) now m path body s
  = answered match r with
             | RSubtree => getSubtree now w s
             | RSubtreeData => getSubtreeData now w s
             | RTxs => postSubtreeTxs now body s
             | RBlock => getBlock now w s
             end.
Proof.
  intros -> Hk Hpk Hi Hm Hw.
  destruct (routed l m k i pat r (Some w)) as [Hc Hlk]; [done..|].
  unfold Handler. rewrite register_patterns, Hc, Hlk by done. by destruct r.
Qed.

(** The segments after the prefix, matched. *)
Lemma match_prefix ps k got : segs_match ((Lit <$> l) ++ ps) (l ++ k) got = segs_match ps k got.
Proof.
  rewrite segs_match_lits, take_app_length, drop_app_length. by rewrite bool_decide_eq_true_2.
Qed.
Lemma match_wild ps d k got : plain_seg d → segs_match (Wild :: ps) (d :: k) got = segs_match ps k (Some d).
Proof. intros Hd. cbn [segs_match]. by rewrite bool_decide_eq_false_2 by (by apply plain_not_slash). Qed.
Lemma match_lit ps a k got : segs_match (Lit a :: ps) (a :: k) got = segs_match ps k got.
Proof. cbn [segs_match]. by rewrite bool_decide_eq_true_2. Qed.
End dispatched.

Lemma plain_words : Forall plain_seg [str "subtree"; str "subtree_data"; str "block"; str "txs"].
Proof. by apply (bool_decide_unpack _). Qed.

(** Hand a request to pattern [i] of the table, for segments [k]. *)
Ltac dispatch l Hne Hl i k r d :=
  eapply (Handler_routed l Hne Hl _ _ _ _ k _ i _ r d);
    [try rewrite path_of_app; cbn; by rewrite ?app_nil_r
    |try done; by intros [_ ?]%app_nil
    |rewrite ?list.Forall_app, ?list.Forall_cons; split_and?; done || by constructor
    |reflexivity|reflexivity
    |cbn [p_segs]; rewrite !match_prefix, match_lit, match_wild by done; rewrite ?match_lit; done].

(** The prefix [New] settles on, as segments. *)
Lemma path_of_split s : path_of (split_on x2f s) = x2f :: s.
Proof.
  induction s as [|c s IH]; [done|]. cbn [split_on]. case_bool_decide as Hc.
  - subst c. change (path_of ([] :: split_on x2f s)) with (x2f :: path_of (split_on x2f s)). by rewrite IH.
  - destruct (split_on x2f s) as [|y ys]; [discriminate IH|].
    change (path_of ((c :: y) :: ys)) with (x2f :: c :: y ++ path_of ys).
    change (path_of (y :: ys)) with (x2f :: y ++ path_of ys) in IH. congruence.
Qed.
Lemma split_on_nonempty sep s : split_on sep s ≠ [].
Proof. destruct s as [|c s]; [done|]. cbn. case_bool_decide; [done|]. by destruct (split_on sep s). Qed.

Definition prefix_segs (p : gostring) : list gostring := split_on x2f (drop 1 (api_prefix p)).
Lemma api_prefix_segs p : api_prefix p = path_of (prefix_segs p).
Proof. unfold prefix_segs. by rewrite path_of_split. Qed.

(** ** Theorems *)

Section theorems.
Context {O : Objfmt} {Objs Txs : Type} `{Store Objs} `{Store Txs}.

Lemma Handler_object p h now body (s : Server Objs Txs) :
  Forall plain_seg (prefix_segs p) →
  let get path := Handler (api_prefix p) now "GET" (api_prefix p ++ path ++ hashid.Display h) body s in
  get (str "/subtree/") = answered (getSubtree now (hashid.Display h) s) ∧
  get (str "/block/") = answered (getBlock now (hashid.Display h) s).
Proof.
  rewrite api_prefix_segs. intros Hl get.
  pose proof (split_on_nonempty x2f (drop 1 (api_prefix p))) as Hne. fold (prefix_segs p) in Hne.
  pose proof (Display_plain h) as Hd. set (d := hashid.Display h) in *.
  pose proof plain_words as Hw. rewrite !list.Forall_cons in Hw. destruct Hw as (Hw1 & Hw2 & Hw3 & Hw4 & _).
  split.
  - dispatch (prefix_segs p) Hne Hl 0%nat [str "subtree"; d] RSubtree d.
  - dispatch (prefix_segs p) Hne Hl 3%nat [str "block"; d] RBlock d.
Qed.

(** The retrieval plane's route table is registered, unambiguous and
    complete, for every configured prefix made of ordinary segments: [Handler]
    does not panic, no request matches two of its patterns, and every pull the
    cluster makes under the prefix, by GET for subtrees, their data and
    blocks, by POST for member transactions, and under the doubled prefix one
    caller uses, is handed to the handler of its kind with the hash asked
    for. *)
Theorem pulls_routed (p : gostring) (h : Hash) (now : Z) (body : option (list byte)) (s : Server Objs Txs) :
  Forall plain_seg (prefix_segs p) →
  let P := api_prefix p in
  let d := hashid.Display h in
  let serve m path := Handler P now m path body s in
  (∃ ps, register (table P) = Some ps ∧
     ∀ i j x y, ps !! i = Some x → ps !! j = Some y → overlap (fst x) (fst y) → i = j) ∧
  serve "GET"%string (P ++ str "/subtree/" ++ d) = answered (getSubtree now d s) ∧
  serve "GET"%string (P ++ str "/subtree_data/" ++ d) = answered (getSubtreeData now d s) ∧
  serve "GET"%string (P ++ P ++ str "/subtree_data/" ++ d) = answered (getSubtreeData now d s) ∧
  serve "GET"%string (P ++ str "/block/" ++ d) = answered (getBlock now d s) ∧
  serve "POST"%string (P ++ str "/subtree/" ++ d ++ str "/txs") = answered (postSubtreeTxs now body s).
Proof.
  intros Hl P d serve.
  destruct (Handler_object p h now body s Hl) as [Hsub Hblk]. revert Hsub Hblk.
  unfold serve, P. rewrite api_prefix_segs. intros Hsub Hblk.
  pose proof (split_on_nonempty x2f (drop 1 (api_prefix p))) as Hne. fold (prefix_segs p) in Hne.
  pose proof (Display_plain h) as Hd. fold d in Hd.
  pose proof plain_words as Hw. rewrite !list.Forall_cons in Hw. destruct Hw as (Hw1 & Hw2 & Hw3 & Hw4 & _).
  split_and!; [|exact Hsub| | |exact Hblk|].
  - exists (patterns (prefix_segs p)). split; [by apply register_patterns|].
    intros i j x y. by apply apart_unique, patterns_apart.
  - dispatch (prefix_segs p) Hne Hl 1%nat [str "subtree_data"; d] RSubtreeData d.
  - dispatch (prefix_segs p) Hne Hl 4%nat (prefix_segs p ++ [str "subtree_data"; d]) RSubtreeData d.
  - dispatch (prefix_segs p) Hne Hl 2%nat [str "subtree"; d; str "txs"] RTxs d.
Qed.

(** A prefix of slashes alone is trimmed to the root and every pattern under
    it is unclean: the table cannot be registered and the retrieval plane
    panics when it is started. *)
Theorem root_prefix_panics (p : gostring) now m path body (s : Server Objs Txs) :
  p ≠ [] → Forall (eq x2f) p → Handler (api_prefix p) now m path body s = (Unregistered, s).
Proof.
  intros Hne Hp. assert (api_prefix p = str "/") as ->; [|reflexivity].
  unfold api_prefix. rewrite bool_decide_eq_false_2 by done. unfold Trim_slash.
  assert (txpipe.drop_slashes p = []) as ->; [|done].
  clear Hne. induction Hp as [|c p <- _ IH]; [done|]. exact IH.
Qed.
End theorems.

(** ** From the announcement to the pull *)

Section announced.
Context `{O : Objfmt} `{!ObjfmtLaws O} (p adv : gostring) (Hp : Forall plain_seg (prefix_segs p)).
Context (o : cache.Options) (now now' : Z) (prod : producer) (s : plane) (t : tx_store) (body : option (list byte)).
Context (Hc : cache_at o s) (Ht : time_sub now' now ≤ cache_ttl o).

(** What the bridge stamps into its announcements, and the answer to a GET
    of the URL [url]: the path is what follows the advertised address. *)
Let base : gostring := BaseURL (api_prefix p) adv.
Definition GET_url (url : gostring) (srv : Server (list cache.shard) tx_store) : served :=
  fst (Handler (api_prefix p) now' "GET" (drop (length (txpipe.TrimRight_slash adv)) url) body srv).

Lemma url_path rest : drop (length (txpipe.TrimRight_slash adv)) (base ++ rest) = api_prefix p ++ rest.
Proof. unfold base, BaseURL. by rewrite <- app_assoc, drop_app_length. Qed.

(** An announcement leads to the object: after a subtree or block frame is
    delivered and announced under the base URL, the GET of that URL with the
    class and the hash appended, as the cluster makes it, is answered 200 with
    the delivered nodes, or the block in the cluster's layout. *)
Theorem announced_pull_served (root : Hash) (nodes : list Hash) (b : encode.Block) :
  let id := hashid.DoubleSHA256 (encode.Header b) in
  (zlen (subtree_layout root nodes) ≤ shard_ceiling o → stored_entry root (objects s) = None →
   GET_url (base ++ str "/subtree/" ++ hashid.Display root)
     (plane_server (snd (handleSubtree now prod base (subtree_layout root nodes) s)) t)
   = Answered (Ok (mkResp 200 (concat_hashes nodes)))) ∧
  (frame_ok b → zlen (block_frame b) ≤ shard_ceiling o → stored_entry id (objects s) = None →
   GET_url (base ++ str "/block/" ++ hashid.Display id)
     (plane_server (snd (handleBlock now prod base (block_frame b) s)) t)
   = Answered (Ok (mkResp 200 (teranode_layout b)))).
Proof.
  intros id. unfold GET_url. rewrite !url_path. split.
  - intros Hl Hn. rewrite (proj1 (Handler_object p _ _ _ _ Hp)). cbn [answered fst]. f_equal.
    by apply (delivered_subtree_served o).
  - intros Hb Hl Hn. rewrite (proj2 (Handler_object p _ _ _ _ Hp)). cbn [answered fst]. f_equal.
    by apply (delivered_block_served o).
Qed.
End announced.

(** ** Witnesses *)

(** The default prefix, and one with slashes to trim. *)
Lemma default_prefix_plain : Forall plain_seg (prefix_segs []).
Proof. by apply (bool_decide_unpack _). Qed.
Lemma slashed_prefix_plain : Forall plain_seg (prefix_segs (str "//api/v2/")).
Proof. by apply (bool_decide_unpack _). Qed.

Definition rt_server : Server (list cache.shard) tx_store := plane_server hx_plane None.

Lemma pulls_routed_witness :
  Handler (api_prefix (str "//api/v2/")) 7 "GET"
    (str "/api/v2/api/v2/subtree_data/" ++ hashid.Display ee_root) None rt_server
  = answered (getSubtreeData 7 (hashid.Display ee_root) rt_server).
Proof. apply (pulls_routed (str "//api/v2/") ee_root 7 None rt_server slashed_prefix_plain). Defined.

Lemma root_prefix_panics_witness :
  Handler (api_prefix (str "/")) 7 "GET" (str "/subtree/00") None rt_server = (Unregistered, rt_server).
Proof. apply (root_prefix_panics (str "/")); [discriminate|by repeat constructor]. Defined.

Definition rt_adv : gostring := str "http://10.0.0.1:9145/".
Definition rt_base : gostring := BaseURL (api_prefix []) rt_adv.

Example rt_base_value : rt_base = str "http://10.0.0.1:9145/api/v1".
Proof. reflexivity. Qed.

Lemma announced_pull_served_witness :
  GET_url [] rt_adv 7 None (rt_base ++ str "/subtree/" ++ hashid.Display ee_root)
    (plane_server (snd (handleSubtree 5 (Announces None) rt_base
       (subtree_layout ee_root [copy32 [x02]]) hx_plane)) None)
  = Answered (Ok (mkResp 200 (concat_hashes [copy32 [x02]]))).
Proof.
  apply (proj1 (announced_pull_served [] rt_adv default_prefix_plain ee_opts 5 7
    (Announces None) hx_plane None None ee_cache ltac:(vm_compute; discriminate) ee_root [copy32 [x02]] hx_block)).
  - vm_compute. discriminate.
  - vm_compute. reflexivity.
Defined.

(** Unclean paths, unknown routes, wrong methods, escapes. *)
Example routes_edges :
  fst (Handler (api_prefix []) 7 "GET" (str "/api/v1//subtree/00") None rt_server) = Redirected ∧
  fst (Handler (api_prefix []) 7 "POST" (str "/api/v1/block/00") None rt_server)
    = Answered (Ok (http_Error 404 "not served by this bridge")) ∧
  fst (Handler (api_prefix []) 7 "HEAD" (str "/api/v1/s%75btree/00") None rt_server)
    = fst (answered (getSubtree 7 (str "00") rt_server)) ∧
  fst (Handler (api_prefix []) 7 "GET" (str "/api/v1/subtree/") None rt_server)
    = Answered (Ok (http_Error 404 "not served by this bridge")).
Proof. split_and!; vm_compute; reflexivity. Qed.
