(* ===== verification/TnBench.v ===== *)
(** * tnbench: the saturation rig

    [src/hack/tnbench/main.go]: the stand-in for the propagation service the
    bridge is measured against, and the feeder of the transaction lane. The
    faithful mock splits a batch body into transactions, walks their inputs
    with a walk of its own and answers as propagation does when a member of a
    batch spends another; its report is what [Submit.v] parses. The feeder
    rewrites one 86-byte buffer in place. [mock] is the mock's state: its
    counters and the set of accepted txids, shared by all requests. *)

From Stdlib Require Import Strings.Byte Classes.Morphisms.
From stdpp Require Import base list strings numbers gmap relations.
From S2P Require Import Prelude Sha256 HashId Objfmt TnWire TxWire TxBuild Submit.
Import txpipe submission.

(** ** Outcomes up to the text of the error *)

#[global] Instance res_equiv {A} : Equiv (res A) := λ r s,
  match r, s with
  | Ok a, Ok b => a = b
  | Err _, Err _ => True
  | Panic, Panic => True
  | _, _ => False
  end.

#[global] Instance res_equivalence {A} : Equivalence (≡@{res A}).
Proof.
  split.
  - by intros [].
  - intros [] []; unfold equiv, res_equiv; by auto.
  - intros [] [] []; unfold equiv, res_equiv; by try intros -> || auto.
Qed.

#[global] Instance res_bind_proper {A B} :
  Proper (pointwise_relation A (≡) ==> (≡) ==> (≡)) (@mbind res _ A B).
Proof. intros f g Hfg [] [] H; try done. cbv in H. subst. apply Hfg. Qed.

(** Two calls that start with the same guard, or the same read. *)
Lemma guard_same {B} c e e' (f g : unit → res B) :
  (∀ u, f u ≡ g u) → (u ← guard_err c e; f u) ≡ (u ← guard_err c e'; g u).
Proof. intros H. destruct c; [done|]. apply H. Qed.

Lemma read_same {A B} (m : res A) (f g : A → res B) :
  (∀ a, f a ≡ g a) → (a ← m; f a) ≡ (a ← m; g a).
Proof. intros H. by apply res_bind_proper. Qed.

Module tnbench.
(** ** The mock's walk of a transaction *)

Definition varInt (b : list byte) (off : Z) : res (Z * Z) :=
  _ ← guard_err (zlen b <=? off) (EMsg "short varint");
  v ← index b off;
  if byte_val v <? 0xfd then Ok (byte_val v, 1)
  else if byte_val v =? 0xfd then
    _ ← guard_err (zlen b <? off +i 3) (EMsg "short varint16");
    b1 ← index b (off +i 1);
    b2 ← index b (off +i 2);
    Ok (Z.lor (byte_val b1) (Z.shiftl (byte_val b2) 8), 3)
  else if byte_val v =? 0xfe then
    _ ← guard_err (zlen b <? off +i 5) (EMsg "short varint32");
    b1 ← index b (off +i 1);
    b2 ← index b (off +i 2);
    b3 ← index b (off +i 3);
    b4 ← index b (off +i 4);
    Ok (Z.lor (Z.lor (Z.lor (byte_val b1) (Z.shiftl (byte_val b2) 8))
          (Z.shiftl (byte_val b3) 16)) (Z.shiftl (byte_val b4) 24), 5)
  else
    _ ← guard_err (zlen b <? off +i 9) (EMsg "short varint64");
    x ← txwire.or_bytes b off 8 0 0;
    Ok (x, 9).

(** [tx[4] == 0 && ... && tx[9] == 0xEF]. *)
Definition is_ef (tx : list byte) : bool :=
  forallb (λ i, bool_decide (tx !! i = Some x00)) [4; 5; 6; 7; 8]%nat
  && bool_decide (tx !! 9%nat = Some xef).

Section inputRefs.
Context {A : Type} (fn : A → Hash → A).

(** What follows the callback in a round of the loop: the offset of the next
    input. *)
Definition input_rest (tx : list byte) (ef : bool) (off : Z) : res Z :=
  let off := off +i 36 in
  '(sLen, n) ← varInt tx off;
  let off := off +i (n +i i64 sLen +i 4) in
  off ← (if ef then
           _ ← guard_err (zlen tx <? off +i 8) (EMsg "truncated EF input");
           let off := off +i 8 in
           '(lLen, n) ← varInt tx off;
           Ok (off +i (n +i i64 lLen))
         else Ok off);
  _ ← guard_err (zlen tx <? off) (EMsg "input overruns tx");
  Ok off.

Definition input_body (tx : list byte) (ef : bool) (s : Z * A) : (Z * A) + (A * res unit) :=
  let '(off, a) := s in
  if zlen tx <? off +i 36 then inr (a, Err (EMsg "truncated input")) else
  match slice tx off (off +i 32) with
  | Ok h =>
      let a := fn a (copy32 h) in
      match input_rest tx ef off with
      | Ok off => inl (off, a)
      | Err e => inr (a, Err e)
      | Panic => inr (a, Panic)
      end
  | Err e => inr (a, Err e)
  | Panic => inr (a, Panic)
  end.

Definition inputRefs (tx : list byte) (a : A) : A * res unit :=
  if zlen tx <? 10 then (a, Err (EMsg "short tx")) else
  let off := 4 in
  let ef := is_ef tx in
  let off := if ef then off +i 6 else off in
  match varInt tx off with
  | Panic => (a, Panic)
  | Err _ => (a, Err (EMsg "bad input count"))
  | Ok (inCount, n) =>
      if inCount =? 0 then (a, Err (EMsg "bad input count")) else
      match loop_Z (input_body tx ef) inCount (off +i n, a) with
      | inl (_, a) => (a, Ok tt)
      | inr r => r
      end
  end.
End inputRefs.

(** ** Identifiers *)

Definition txid (tx : list byte) : Hash := copy32 (Sum256 (Sum256 tx)).

(** [rev[i] = id[31-i]] for every [i], then hex. *)
Definition displayHex (id : Hash) : gostring :=
  hex_EncodeToString ((λ i, default x00 (hbytes id !! (31 - i)%nat)) <$> seq 0 32).

(** ** The mock *)

Record mock : Type := mkMock {
  m_batches : Z; m_bytes : Z; m_txs : Z; m_rejected : Z;
  seen : gset Hash
}.

(** [batches.Add(1)], [bytes.Add(n)]. *)
Definition count_request (n : Z) (m : mock) : mock :=
  mkMock (m_batches m + 1) (m_bytes m + n) (m_txs m) (m_rejected m) (seen m).
(** [seen.add(id)]. *)
Definition seenSet_add (id : Hash) (m : mock) : mock :=
  mkMock (m_batches m) (m_bytes m) (m_txs m) (m_rejected m) ({[ id ]} ∪ seen m).
Definition add_txs (m : mock) : mock :=
  mkMock (m_batches m) (m_bytes m) (m_txs m + 1) (m_rejected m) (seen m).
Definition add_rejected (m : mock) : mock :=
  mkMock (m_batches m) (m_bytes m) (m_txs m) (m_rejected m + 1) (seen m).

Definition error_text (e : error) : gostring :=
  match e with EMsg s | EReject s => str s end.

(** [http.Error]: the text and a newline. *)
Definition http_Error (text : gostring) (code : Z) : response := RStatus code (text ++ [x0a]).

(** The default handler: the body is read and dropped. *)
Definition blind (body : list byte) (m : mock) : mock * response :=
  (count_request (zlen body) m, RStatus 200 (str "OK")).

Definition bad_line (id : Hash) : gostring :=
  str "[ProcessTransaction][" ++ displayHex id ++ str "] missing parent".

(** [strings.Join(bad, "\n")]. *)
Definition join_lines (bad : list gostring) : gostring := join_on x0a bad.

Section strict.
Context `{Objfmt}.

Definition invalid (e : error) : response :=
  http_Error (str "Invalid request body: " ++ error_text e) 400.

(** The loop of the faithful handler: [inl] the refused members' lines, [inr]
    an answer given early. [None] is fuel spent with bytes left; a codec that
    returns positive sizes cannot spend one unit of fuel per byte. *)
Fixpoint strict_loop (fuel : nat) (body : list byte) (off : Z) (inBatch : gset Hash)
    (bad : list gostring) (m : mock) : option (mock * res (list gostring + response)) :=
  if off <? zlen body then
    match fuel with
    | O => None
    | S fuel =>
        match (rest ← slice_from body off; TxSize rest) with
        | Panic => Some (m, Panic)
        | Err e => Some (m, Ok (inr (invalid e)))
        | Ok n =>
            match slice body off (off +i n) with
            | Ok tx =>
                let off := off +i n in
                match TxID tx with
                | Panic => Some (m, Panic)
                | Err e => Some (m, Ok (inr (invalid e)))
                | Ok id =>
                    match inputRefs (λ missing prev, missing || bool_decide (prev ∈ inBatch)) tx false with
                    | (_, Panic) => Some (m, Panic)
                    | (true, _) =>
                        strict_loop fuel body off ({[ id ]} ∪ inBatch) (bad ++ [bad_line id]) (add_rejected m)
                    | (false, _) =>
                        strict_loop fuel body off ({[ id ]} ∪ inBatch) bad (add_txs (seenSet_add id m))
                    end
                end
            | _ => Some (m, Panic)
            end
        end
    end
  else Some (m, Ok (inl bad)).

Definition strict (body : list byte) (m : mock) : option (mock * res response) :=
  let m := count_request (zlen body) m in
  match strict_loop (length body) body 0 ∅ [] m with
  | None => None
  | Some (m, Panic) => Some (m, Panic)
  | Some (m, Err e) => Some (m, Err e)
  | Some (m, Ok (inr r)) => Some (m, Ok r)
  | Some (m, Ok (inl bad)) =>
      Some (m, Ok (if 0 <? zlen bad
                   then RStatus 500 (str "Failed to process transactions:" ++ [x0a] ++ join_lines bad ++ [x0a])
                   else RStatus 200 (str "OK")))
  end.
End strict.

(** ** The feeder *)

(** [copy(tx[off:off+n], x)] and [PutUint64(tx[off:], v)] for an [x] of the
    field's width, within the buffer. *)
Definition put (off : nat) (x tx : list byte) : list byte :=
  take off tx ++ x ++ drop (off + length x) tx.

(** The template: 86 zero bytes and the fixed fields. *)
Definition template : list byte :=
  foldl (λ tx '(i, v), <[i := v]> tx) (replicate 86 x00)
    [(0, x01); (9, xef); (10, x01); (47, x09); (57, xff); (58, xff); (59, xff); (60, xff);
     (61, x01); (69, x01); (70, x51); (71, x01); (72, x01); (80, x01); (81, x51)]%nat.

(** A connection's buffer, counter and last txid. *)
Record feeder : Type := mkFeeder { f_tx : list byte; f_ctr : Z; f_prev : Hash }.

Definition feeder0 : feeder := mkFeeder template 0 zero_hash.

Definition txFrame (tx : list byte) : list byte := tx.

(** One round of the inner loop; the frame written is [txFrame] of the buffer. *)
Definition feed_round (chain : bool) (cid : byte) (f : feeder) : feeder :=
  let ctr := u64 (f_ctr f + 1) in
  let tx :=
    if chain && (1 <? ctr) then put 11 (hbytes (f_prev f)) (f_tx f)
    else <[19%nat := cid]> (put 11 (le_bytes 8 ctr) (f_tx f)) in
  let tx := <[56%nat := cid]> (put 48 (le_bytes 8 ctr) tx) in
  mkFeeder tx ctr (if chain then txid tx else f_prev f).

(** The frames of [n] rounds. *)
Fixpoint feed (chain : bool) (cid : byte) (n : nat) (f : feeder) : list (list byte) :=
  match n with
  | O => []
  | S n => let f := feed_round chain cid f in txFrame (f_tx f) :: feed chain cid n f
  end.
End tnbench.

Import tnbench.

(** ** The two walks *)

Lemma iadd_assoc a b c : a +i b +i c = a +i (b + c).
Proof.
  unfold iadd, i64. f_equal.
  replace ((a + b + two63) mod two64 - two63 + c + two63) with ((a + b + two63) mod two64 + c) by lia.
  rewrite Zplus_mod_idemp_l. f_equal. lia.
Qed.

(** Reading a little-endian field byte by byte or in a loop. *)
Lemma or_bytes_S b off n i x :
  0 ≤ i < 8 →
  txwire.or_bytes b off (S n) i x
  = (c ← index b (off +i (1 + i));
     txwire.or_bytes b off n (i + 1) (Z.lor x (Z.shiftl (byte_val c) (8 * i)))).
Proof.
  intros Hi. cbn [txwire.or_bytes]. rewrite iadd_assoc. destruct (index b (off +i (1 + i))) as [c| |]; [|done..].
  rstep. pose proof (byte_val_range c). rewrite u64_small; [done|].
  rewrite Z.shiftl_mul_pow2 by lia. assert (0 < 2 ^ (8 * i)) by (apply Z.pow_pos_nonneg; lia).
  assert (2 ^ (8 * (i + 1)) ≤ two64) as Hle by (apply Z.pow_le_mono_r; lia).
  rewrite Z.mul_add_distr_l, Z.pow_add_r in Hle by lia. change (2 ^ (8 * 1)) with 256 in Hle. nia.
Qed.

Lemma or_bytes_2 b off :
  txwire.or_bytes b off 2 0 0
  = (b1 ← index b (off +i 1); b2 ← index b (off +i 2);
     Ok (Z.lor (byte_val b1) (Z.shiftl (byte_val b2) 8))).
Proof.
  rewrite or_bytes_S by lia. change (1 + 0) with 1.
  destruct (index b (off +i 1)); [|done..]. rstep. rewrite or_bytes_S by lia.
  change (1 + (0 + 1)) with 2. by destruct (index b (off +i 2)).
Qed.

Lemma or_bytes_4 b off :
  txwire.or_bytes b off 4 0 0
  = (b1 ← index b (off +i 1); b2 ← index b (off +i 2);
     b3 ← index b (off +i 3); b4 ← index b (off +i 4);
     Ok (Z.lor (Z.lor (Z.lor (byte_val b1) (Z.shiftl (byte_val b2) 8))
          (Z.shiftl (byte_val b3) 16)) (Z.shiftl (byte_val b4) 24))).
Proof.
  rewrite or_bytes_S by lia. change (1 + 0) with 1.
  destruct (index b (off +i 1)); [|done..]. rstep. rewrite or_bytes_S by lia.
  change (1 + (0 + 1)) with 2. destruct (index b (off +i 2)); [|done..]. rstep.
  rewrite or_bytes_S by lia. change (1 + (0 + 1 + 1)) with 3.
  destruct (index b (off +i 3)); [|done..]. rstep. rewrite or_bytes_S by lia.
  change (1 + (0 + 1 + 1 + 1)) with 4. by destruct (index b (off +i 4)).
Qed.

(** Peels the guards and reads two calls have in common. *)
Ltac same := repeat (first [apply guard_same | apply read_same]; intro).

Lemma varInt_same b off : varInt b off ≡ txwire.varInt b off.
Proof.
  unfold varInt, txwire.varInt. same.
  destruct (_ <? 0xfd); [done|]. destruct (_ =? 0xfd); [|destruct (_ =? 0xfe)].
  - same. rewrite or_bytes_2. by destruct (index b (off +i 1)), (index b (off +i 2)).
  - same. rewrite or_bytes_4. destruct (index b (off +i 1)); [|done..].
    destruct (index b (off +i 2)); [|done..]. by destruct (index b (off +i 3)), (index b (off +i 4)).
  - same. done.
Qed.

Lemma is_ef_marker tx : 10 ≤ zlen tx → is_ef tx = txwire.ef_marker tx.
Proof.
  intros H. unfold is_ef, txwire.ef_marker.
  do 10 (destruct tx as [|? tx]; [simpl in H; lia|]). cbn [take drop lookup list_lookup forallb].
  apply eq_true_iff_eq. rewrite !andb_true_iff, !bool_decide_eq_true. naive_solver.
Qed.

Section walks.
Context {A : Type} (fn : A → Hash → A).

(** The two ways a round of either loop ends, up to the error's text. *)
Definition round_sim (r s : (Z * A) + (A * res unit)) : Prop :=
  match r, s with
  | inl x, inl y => x = y
  | inr (a, r), inr (b, s) => a = b ∧ r ≡ s
  | _, _ => False
  end.

Lemma input_body_same tx ef s : round_sim (input_body fn tx ef s) (txwire.input_body fn tx ef s).
Proof.
  destruct s as [off a]. unfold input_body, txwire.input_body.
  destruct (_ <? _); [done|]. destruct (slice _ _ _) as [h| |]; [|done..]. cbv zeta.
  match goal with |- round_sim (match ?r with _ => _ end) (match ?s with _ => _ end) =>
    assert (r ≡ s) as E; [|destruct r, s; try done; by rewrite E] end.
  unfold input_rest. cbv zeta. apply res_bind_proper; [|apply varInt_same]. intros [sLen n].
  apply res_bind_proper; [intros off'; by same|].
  destruct ef; [|done]. apply guard_same. intros _. apply res_bind_proper; [|apply varInt_same].
  by intros [].
Qed.

Lemma input_loop_same tx ef n s :
  round_sim (loop_nat (input_body fn tx ef) n s) (loop_nat (txwire.input_body fn tx ef) n s).
Proof.
  revert s. induction n as [|n IH]; intros s; [done|]. cbn [loop_nat].
  pose proof (input_body_same tx ef s) as H. unfold round_sim in H.
  destruct (input_body _ _ _ s) as [s1|[]], (txwire.input_body _ _ _ s) as [s2|[]]; try done.
  subst. apply IH.
Qed.

Lemma inputRefs_same tx a :
  fst (inputRefs fn tx a) = fst (txwire.inputRefs fn tx a) ∧
  snd (inputRefs fn tx a) ≡ snd (txwire.inputRefs fn tx a).
Proof.
  unfold inputRefs, txwire.inputRefs. destruct (Z.ltb_spec (zlen tx) 10) as [|Hlen]; [done|]. cbv zeta.
  rewrite is_ef_marker by done. set (off := if txwire.ef_marker tx then _ else _).
  pose proof (varInt_same tx off) as Hv.
  destruct (varInt tx off) as [[c n]| |], (txwire.varInt tx off) as [[c' n']| |]; try done.
  injection Hv as <- <-. destruct (c =? 0); [done|]. rewrite !loop_Z_nat.
  pose proof (input_loop_same tx (txwire.ef_marker tx) (Z.to_nat c) (off +i n, a)) as H.
  destruct (loop_nat (input_body _ _ _) _ _) as [[]|[]],
    (loop_nat (txwire.input_body _ _ _) _ _) as [[]|[]]; try done. cbn in H. by simplify_eq.
Qed.
End walks.

(** The mock's test for one member, in terms of the bridge's own walk. *)
Lemma mock_missing tx (inBatch : gset Hash) :
  walkable tx = true →
  ∃ r, inputRefs (λ missing prev, missing || bool_decide (prev ∈ inBatch)) tx false
       = (existsb (λ prev, bool_decide (prev ∈ inBatch)) (refs tx), r) ∧ r ≠ Panic.
Proof.
  intros Hw. destruct (inputRefs_same (λ missing prev, missing || bool_decide (prev ∈ inBatch)) tx false) as [H1 H2].
  rewrite inputRefs_fold in H1, H2. cbn [fst snd] in H1, H2. rewrite foldl_hit in H1. fold (refs tx) in H1.
  destruct (inputRefs _ tx false) as [b r]. cbn [fst snd] in *. subst b. exists r. split; [done|].
  intros ->. unfold walkable in Hw. by destruct (snd (txwire.inputRefs _ tx [])).
Qed.

Lemma displayHex_same h : displayHex h = hashid.Display h.
Proof.
  unfold displayHex, hashid.Display. f_equal. pose proof (hash_length h) as Hl.
  apply list_eq. intros i. rewrite list_lookup_fmap.
  destruct (decide (i < 32)%nat).
  - rewrite lookup_seq_lt by done. rewrite reverse_lookup by lia. rewrite Hl. cbn [fmap option_fmap option_map].
    replace (31 - (0 + i))%nat with (32 - S i)%nat by lia.
    destruct (lookup_lt_is_Some_2 (hbytes h) (32 - S i)) as [x ->]; [lia|done].
  - rewrite lookup_seq_ge by lia. symmetry. apply lookup_ge_None_2. rewrite length_reverse. lia.
Qed.

(** ** What the mock answers *)

(** A member spends a transaction of [before]. *)
Definition spends (before : gset Hash) (j : job) : bool :=
  existsb (λ prev, bool_decide (prev ∈ before)) (refs (raw j)).

(** The members of a batch that do ([true]) or do not ([false]) spend an
    earlier one, in order. *)
Fixpoint members (want : bool) (before : gset Hash) (js : list job) : list job :=
  match js with
  | [] => []
  | j :: js =>
      (if Bool.eqb (spends before j) want then [j] else [])
      ++ members want ({[ id j ]} ∪ before) js
  end.

Definition report (js : list job) : gostring :=
  str "Failed to process transactions:" ++ [x0a] ++ join_lines ((λ j, bad_line (id j)) <$> js) ++ [x0a].

Definition answer (js : list job) : response :=
  match members true ∅ js with
  | [] => RStatus 200 (str "OK")
  | bad => RStatus 500 (report bad)
  end.

Definition mock_after (before : gset Hash) (js : list job) (m : mock) : mock :=
  mkMock (m_batches m) (m_bytes m) (m_txs m + zlen (members false before js))
    (m_rejected m + zlen (members true before js))
    (list_to_set (id <$> members false before js) ∪ seen m).

Section mock_answers.
Context `{O : Objfmt}.

(** [r] is what the strict mock answers to a request with this body. *)
Definition mock_answers (body : list byte) (r : response) : Prop :=
  ∃ m m', strict body m = Some (m', Ok r).
End mock_answers.

Section mock.
Context `{O : Objfmt} {OL : ObjfmtLaws O}.

(** A member as the lane queues it: one whole transaction with its txid. *)
Definition whole (j : job) : Prop :=
  TxSize (raw j) = Ok (zlen (raw j)) ∧ TxID (raw j) = Ok (id j) ∧ walkable (raw j) = true.

Lemma strict_loop_spec js p inB bad m fuel :
  Forall whole js → fits (p ++ raws js) → (length (raws js) ≤ fuel)%nat →
  strict_loop fuel (p ++ raws js) (zlen p) inB bad m
  = Some (mock_after inB js m, Ok (inl (bad ++ ((λ j, bad_line (id j)) <$> members true inB js)))).
Proof.
  revert p inB bad m fuel. induction js as [|j js IH]; intros p inB bad m fuel Hw Hf Hfuel.
  { cbn [raws mbind list_bind members fmap list_fmap]. rewrite !app_nil_r.
    unfold strict_loop. destruct fuel; rewrite Z.ltb_irrefl; unfold mock_after; cbn [members length fmap list_fmap list_to_set];
      rewrite !Z.add_0_r, (left_id_L ∅ (∪)); by destruct m. }
  apply Forall_cons in Hw as [(Hs & Hid & Hwalk) Hw].
  destruct (tx_size_bounds _ _ Hs) as [Hj _].
  assert (Er : raws (j :: js) = raw j ++ raws js) by (unfold raws; by rewrite bind_cons).
  rewrite Er in *. rewrite length_app in Hfuel. destruct fuel as [|fuel]; [lia|].
  pose proof Hf as Hf'. unfold fits in Hf'. num_bounds. rewrite !length_app in Hf'.
  cbn [strict_loop]. rewrite (proj2 (Z.ltb_lt _ _)) by (rewrite !length_app; lia).
  rewrite (slice_from_app p _ (zlen p) eq_refl). rstep. rewrite (tx_size_app _ _ Hs).
  rewrite (iadd_small (zlen p)) by lia. rewrite slice_app by lia. rewrite Hid.
  destruct (mock_missing (raw j) inB Hwalk) as (r & -> & Hr). fold (spends inB j).
  assert (Eo : zlen p + zlen (raw j) = zlen (p ++ raw j)) by (rewrite length_app; lia).
  rewrite Eo. rewrite app_assoc in *. assert (length (raws js) ≤ fuel)%nat as Hfuel' by lia.
  assert (IH' := λ bad m, IH (p ++ raw j) ({[id j]} ∪ inB) bad m fuel Hw Hf Hfuel').
  destruct (spends inB j) eqn:Esp; destruct r; try done; rewrite IH'; unfold mock_after;
    cbn [members]; rewrite Esp; cbn [Bool.eqb app fmap list_fmap length add_rejected add_txs seenSet_add
      m_batches m_bytes m_txs m_rejected seen list_to_set]; do 3 f_equal; try lia; try done.
  all: first [by rewrite <- app_assoc | set_solver].
Qed.

Lemma strict_spec js m :
  Forall whole js → fits (raws js) →
  strict (raws js) m = Some (mock_after ∅ js (count_request (zlen (raws js)) m), Ok (answer js)).
Proof.
  intros Hw Hf. unfold strict. rewrite (strict_loop_spec js []) by done. cbn [app].
  unfold answer, report. by destruct (members true ∅ js).
Qed.
End mock.

Lemma spends_elem before j : spends before j = true ↔ ∃ prev, prev ∈ refs (raw j) ∧ prev ∈ before.
Proof.
  unfold spends. rewrite existsb_exists. setoid_rewrite bool_decide_eq_true.
  by setoid_rewrite list_elem_of_In.
Qed.

(** A batch in which no member spends an earlier one has none to refuse. *)
Lemma independent_members js before :
  independent js → (∀ j, j ∈ js → spends before j = false) →
  members true before js = [] ∧ members false before js = js.
Proof.
  revert before. induction js as [|j js IH]; intros before Hi Hb; [done|]. cbn [members].
  rewrite (Hb j) by left. cbn [Bool.eqb app].
  destruct (IH ({[id j]} ∪ before)) as [-> ->]; [..|done].
  - intros pre x post E k Hk. apply (Hi (j :: pre) x post); [by rewrite E|by right].
  - intros x Hx. apply not_true_is_false. intros (prev & Hp & [->%elem_of_singleton|He]%elem_of_union)%spends_elem.
    + apply list_elem_of_split in Hx as (l1 & l2 & ->).
      eapply (Hi (j :: l1) x l2); [done|left|exact Hp].
    + enough (spends before x = true) by (rewrite Hb in *; [done|by right]). apply spends_elem. eauto.
Qed.

(** ** Reading the report back *)

Lemma hex_digit_lower x :
  is_lower_hex (hex_digit (Z.shiftr (byte_val x) 4)) = true ∧
  is_lower_hex (hex_digit (Z.land (byte_val x) 15)) = true.
Proof. by destruct x. Qed.

Lemma Display_lower h : forallb is_lower_hex (hashid.Display h) = true.
Proof.
  unfold hashid.Display, hex_EncodeToString. induction (reverse (hbytes h)) as [|x l IH]; [done|].
  rewrite bind_cons. cbn [app forallb]. destruct (hex_digit_lower x) as [-> ->]. done.
Qed.

Lemma lower_hex_plain c : is_lower_hex c = true → c ≠ x0a ∧ ascii_lower c = c ∧ c ≠ xc4 ∧ c ≠ xe2.
Proof. destruct c; try discriminate; by intros _. Qed.

Lemma split_lines_join ls :
  ls ≠ [] → Forall (λ l, x0a ∉ l) ls → split_lines (join_lines ls ++ [x0a]) = ls ++ [[]].
Proof.
  unfold split_lines, join_lines.
  induction ls as [|l ls IH]; intros Hne Hf; [done|]. apply Forall_cons in Hf as [Hl Hf].
  destruct ls as [|l' ls]; [by cbn [join_on]; rewrite split_on_app|].
  cbn [join_on]. rewrite <- app_assoc. cbn [app]. rewrite split_on_app by done.
  f_equal. by apply IH.
Qed.

Lemma ToLower_plain s :
  Forall (λ c, c ≠ xc4 ∧ c ≠ xe2) s → ToLower_ascii s = ascii_lower <$> s.
Proof.
  induction 1 as [|c s [H1 H2] _ IH]; [done|].
  rewrite fmap_cons, <- IH. destruct c; try done.
Qed.

Lemma contains_suffix p needle : contains needle (p ++ needle) = true.
Proof.
  induction p as [|c p IH].
  - cbn [app]. assert (has_prefix needle needle = true) as E
      by (induction needle as [|x n IHn]; [done|cbn [has_prefix]; by rewrite bool_decide_eq_true_2]).
    destruct needle; [done|]. unfold contains. fold contains. by rewrite E.
  - cbn [app]. unfold contains. fold contains. rewrite IH. by destruct (has_prefix _ _).
Qed.

Lemma txid_at_bracket c s : is_lower_hex c = false → txid_at (x5b :: c :: s) = None.
Proof. intros H. cbn [txid_at take forallb]. by rewrite H, andb_false_r. Qed.

Lemma subject_skip c s : c ≠ x5b → subjectTxID (c :: s) = subjectTxID s.
Proof. intros H. cbn [subjectTxID]. by destruct c. Qed.

Lemma subject_bracket c s : is_lower_hex c = false → subjectTxID (x5b :: c :: s) = subjectTxID (c :: s).
Proof.
  intros H. change (subjectTxID (x5b :: c :: s)) with
    (match txid_at (x5b :: c :: s) with Some t => Some t | None => subjectTxID (c :: s) end).
  by rewrite txid_at_bracket.
Qed.

Lemma subject_skip_app p s : Forall (λ c, c ≠ x5b) p → subjectTxID (p ++ s) = subjectTxID s.
Proof. intros Hp. induction Hp; [done|]. cbn [app]. by rewrite subject_skip. Qed.

Lemma bad_line_subject h : subjectTxID (bad_line h) = Some (hashid.Display h).
Proof.
  unfold bad_line. rewrite displayHex_same.
  assert (txid_at (x5b :: hashid.Display h ++ str "] missing parent") = Some (hashid.Display h)) as E.
  { apply txid_at_spec. exists (str " missing parent").
    split_and!; [done|apply length_Display|apply Display_lower]. }
  change (str "[ProcessTransaction][") with (x5b :: x50 :: str "rocessTransaction]" ++ [x5b]).
  rewrite <- !app_comm_cons, subject_bracket, subject_skip, <- app_assoc by done.
  rewrite subject_skip_app by (by repeat constructor). rewrite <- app_comm_cons, app_nil_l.
  generalize dependent (hashid.Display h ++ str "] missing parent"). intros s E.
  cbn [subjectTxID]. by rewrite E.
Qed.

Lemma bad_line_plain h : Forall (λ c, c ≠ xc4 ∧ c ≠ xe2) (bad_line h) ∧ x0a ∉ bad_line h.
Proof.
  unfold bad_line. rewrite displayHex_same. pose proof (proj1 (forallb_forall _ _) (Display_lower h)) as Hd.
  split.
  - rewrite !Forall_app. split_and!; [by repeat constructor| |by repeat constructor].
    apply list.Forall_forall. intros c Hc%list_elem_of_In. by apply Hd, lower_hex_plain in Hc as (_ & _ & ? & ?).
  - rewrite !not_elem_of_app. split_and!; [by apply (bool_decide_unpack _)| |by apply (bool_decide_unpack _)].
    intros Hin%list_elem_of_In%Hd. done.
Qed.

Lemma bad_line_retryable h : isRetryable (bad_line h) = true.
Proof.
  unfold isRetryable, isMissingParent. rewrite (ToLower_plain _ (proj1 (bad_line_plain h))).
  unfold bad_line. rewrite !fmap_app.
  change (ascii_lower <$> str "] missing parent") with (str "] " ++ str "missing parent").
  rewrite !app_assoc, contains_suffix. by rewrite orb_true_r.
Qed.

Lemma report_lines bad :
  bad ≠ [] →
  split_lines (report bad)
  = str "Failed to process transactions:" :: ((λ j, bad_line (id j)) <$> bad) ++ [[]].
Proof.
  intros Hne. unfold report. cbn [app].
  unfold split_lines. rewrite (split_on_app x0a (str "Failed to process transactions:")) by (by apply (bool_decide_unpack _)).
  f_equal. apply split_lines_join; [by destruct bad|].
  apply Forall_fmap, Forall_forall. intros j _. apply bad_line_plain.
Qed.

(** What the report says of a member: a missing parent exactly if it is named. *)
Lemma report_verdict (bad : list job) j :
  bad ≠ [] →
  isRetryable <$> last (filter (λ line, subjectTxID line = Some (hashid.Display (id j))) (split_lines (report bad)))
  = if decide (id j ∈ id <$> bad) then Some true else None.
Proof.
  intros Hne. set (about := filter _ _).
  assert (Hab : ∀ line, line ∈ about ↔ ∃ k, k ∈ bad ∧ id k = id j ∧ line = bad_line (id k)).
  { intros line. unfold about. rewrite list_elem_of_filter, report_lines by done. split.
    - intros [Hs [->|[(k & -> & Hk)%list_elem_of_fmap| ->%list_elem_of_singleton]%elem_of_app]%elem_of_cons];
        [by vm_compute in Hs| |done].
      exists k. split_and!; [done| |done]. rewrite bad_line_subject in Hs. injection Hs as Hs.
      by apply Display_inj.
    - intros (k & Hk & <- & ->). split; [apply bad_line_subject|].
      apply elem_of_cons; right. apply elem_of_app; left. apply list_elem_of_fmap. eauto. }
  case_decide as Hd.
  - apply list_elem_of_fmap in Hd as (k & Ek & Hk).
    destruct (last about) as [line|] eqn:El.
    + apply last_Some_elem_of, Hab in El as (k' & _ & _ & ->).
      cbn [fmap option_fmap option_map]. by rewrite bad_line_retryable.
    + apply last_None in El. assert (bad_line (id k) ∈ about) as Hin by (apply Hab; eauto).
      rewrite El in Hin. by apply elem_of_nil in Hin.
  - destruct (last about) as [line|] eqn:El; [|done].
    apply last_Some_elem_of, Hab in El as (k & Hk & Ek & _). destruct Hd. apply list_elem_of_fmap. eauto.
Qed.

Lemma members_sublist want before js : members want before js `sublist_of` js.
Proof.
  revert before. induction js as [|j js IH]; intros before; [done|]. cbn [members].
  destruct (Bool.eqb _ _); cbn [app]; constructor; apply IH.
Qed.

Lemma members_count before js :
  zlen (members true before js) + zlen (members false before js) = zlen js.
Proof.
  revert before. induction js as [|j js IH]; intros before; [done|]. cbn [members].
  specialize (IH ({[id j]} ∪ before)). destruct (spends before j); cbn [Bool.eqb app length]; lia.
Qed.

Lemma filter_sublist_ids (l js : list job) :
  l `sublist_of` js → NoDup (id <$> js) → filter (λ j, id j ∈ id <$> l) js = l.
Proof.
  induction 1 as [|j l js Hs IH|j l js Hs IH]; intros Hn; [done|..].
  - rewrite fmap_cons in Hn. apply NoDup_cons in Hn as [Hj Hn].
    rewrite filter_cons_True by (rewrite fmap_cons; left). f_equal.
    etrans; [|exact (IH Hn)]. apply filter_ext_in. intros x Hx.
    rewrite fmap_cons, elem_of_cons. split; [intros [E|?]; [|done]|by right].
    destruct Hj. rewrite <- E. apply list_elem_of_fmap. eauto.
  - rewrite fmap_cons in Hn. apply NoDup_cons in Hn as [Hj Hn].
    rewrite filter_cons_False; [by apply IH|].
    intros (k & Ek & Hk)%list_elem_of_fmap. destruct Hj. apply list_elem_of_fmap. exists k.
    split; [done|]. by eapply elem_of_submseteq, sublist_submseteq.
Qed.

(** The mock's report, read back: exactly the reported members are retried. *)
Lemma report_triage keep js :
  (∀ j, j ∈ js → keep (hashid.Display (id j)) = true) →
  NoDup (id <$> js) → members true ∅ js ≠ [] →
  triage (failures keep (report (members true ∅ js))) js = (members true ∅ js, 0).
Proof.
  intros Hk Hnd Hne. set (bad := members true ∅ js) in *.
  assert (Hv : ∀ j, j ∈ js → state_of (failures keep (report bad)) j
                    = if decide (id j ∈ id <$> bad) then Some true else None).
  { intros j Hj. rewrite failures_verdict by auto. by apply report_verdict. }
  rewrite triage_spec.
  rewrite (filter_ext_in _ (λ j, id j ∈ id <$> bad)), filter_sublist_ids; [|apply members_sublist|done|].
  2: { intros j Hj. rewrite Hv by done. by case_decide. }
  destruct (filter _ js) as [|j l] eqn:E; [done|].
  assert (j ∈ j :: l) as Hj by left. rewrite <- E in Hj. apply list_elem_of_filter in Hj as [Hs Hj].
  rewrite Hv in Hs by done. by case_decide.
Qed.

Lemma report_foreign (mine : gset gostring) (bad : list job) :
  bad ≠ [] → (∀ j, j ∈ bad → hashid.Display (id j) ∈ mine) → count_foreign mine (report bad) = 0.
Proof.
  intros Hne Hm. unfold count_foreign. rewrite report_lines by done. clear Hne. cbn [foldl].
  change (subjectTxID (str _)) with (@None gostring). cbv iota. rewrite foldl_app. cbn [foldl].
  change (subjectTxID []) with (@None gostring). cbv iota.
  induction bad as [|j l IH]; [done|]. rewrite fmap_cons. cbn [foldl].
  rewrite bad_line_subject, bool_decide_eq_true_2 by (apply Hm; left).
  apply IH. intros x Hx. apply Hm. by right.
Qed.

Lemma report_settled c js k :
  NoDup (id <$> js) → members true ∅ js ≠ [] → 0 < RetryAttempts c →
  settlePartial c js (report (members true ∅ js)) k
  = (submission.add_accepted (zlen (members false ∅ js)) k, Some (members true ∅ js)).
Proof.
  intros Hnd Hne Hra. unfold settlePartial. set (mine := list_to_set _).
  assert (Hmine : ∀ j, j ∈ js → hashid.Display (id j) ∈ mine).
  { intros j Hj. apply elem_of_list_to_set, list_elem_of_fmap. eauto. }
  rewrite report_foreign, report_triage; [|by intros; apply bool_decide_eq_true_2; auto|done..|].
  2: { intros j Hj. apply Hmine. by eapply elem_of_submseteq, sublist_submseteq, members_sublist. }
  cbv zeta. change (0 <? 0) with false. cbv iota.
  assert (0 < zlen (members true ∅ js)) by (destruct (members true ∅ js); cbn [length]; [done|lia]).
  pose proof (members_count ∅ js) as Hc.
  rewrite (proj2 (Z.leb_gt _ _)), (proj2 (Z.eqb_neq _ _)), (proj2 (Z.ltb_ge _ _)) by lia. cbn [orb].
  do 3 f_equal. lia.
Qed.

(** A report of at most 1023 members is within what the bridge reads. *)
Lemma length_report bad : zlen (report bad) ≤ 33 + 102 * zlen bad.
Proof.
  unfold report. rewrite !length_app. change (length (str _)) with 31%nat. cbn [length].
  assert (zlen (join_lines ((λ j, bad_line (id j)) <$> bad)) ≤ 102 * zlen bad); [|lia]. unfold join_lines.
  assert (∀ h, length (bad_line h) = 101%nat) as Hl.
  { intros h. unfold bad_line. rewrite displayHex_same, !length_app, length_Display. done. }
  induction bad as [|j bad IH]; [done|]. rewrite fmap_cons. cbn [length].
  destruct ((λ j, bad_line (id j)) <$> bad) as [|l ls] eqn:E; cbn [join_on].
  - rewrite Hl. lia.
  - rewrite !length_app, Hl. cbn [length join_on] in *. lia.
Qed.

Lemma answer_report js :
  members true ∅ js ≠ [] → zlen js ≤ maxServerBatchTxs →
  post (answer js) = RStatus 500 (report (members true ∅ js)) ∧
  is_partial 500 (report (members true ∅ js)) = true.
Proof.
  intros Hne Hn. unfold maxServerBatchTxs in Hn. pose proof (members_count ∅ js) as Hc.
  pose proof (length_report (members true ∅ js)) as Hl.
  unfold answer. destruct (members true ∅ js) as [|j l] eqn:E; [done|]. split; [|done].
  unfold post. rewrite take_ge; [done|]. change (2 ^ 20) with 1048576. lia.
Qed.

(** ** The bridge against the mock *)

(** What a settled batch leaves in the books when nothing is lost. *)
Definition all_accepted (n : Z) (k k' : counters) : Prop :=
  accepted k' = accepted k + n ∧ rejected k' = rejected k ∧ failed k' = failed k ∧
  unattributed k' = unattributed k.

Lemma submit_answer c e b k :
  env_ok c e → 0 < RetryAttempts c → NoDup (id <$> jobs b) → zlen (jobs b) ≤ maxServerBatchTxs →
  e_resp e 0 = answer (jobs b) →
  ∃ k', submit c e b k
        = Ok (k', match members true ∅ (jobs b) with [] => None | l => Some l end) ∧
    all_accepted (zlen (members false ∅ (jobs b))) k k' ∧
    ∃ ep, ep ∈ Endpoints c ∧ posted k' = posted k ++ [(ep ++ str "/txs", body b)].
Proof.
  intros He Hra Hnd Hn Hr. unfold submit. cbn [submit_loop].
  change (Z.of_nat 0 - 0 <? 2) with true. cbv iota.
  destruct (endpoint_ok c e 0 He) as (ep & -> & Hep). rstep. rewrite Hr.
  destruct (decide (members true ∅ (jobs b) = [])) as [E|Hne].
  - pose proof (members_count ∅ (jobs b)) as Hc. unfold answer. rewrite E in *. cbn [length] in Hc. cbn [post].
    change (200 =? 200) with true. rstep. eexists. split; [done|]. split; [|by exists ep].
    unfold all_accepted. cbn. split_and!; lia.
  - destruct (answer_report (jobs b) Hne Hn) as [-> Hp]. change (500 =? 200) with false. cbv iota.
    rewrite Hp. rstep. rewrite report_settled by done. cbn [fst snd]. eexists.
    split; [by destruct (members true ∅ (jobs b))|]. split; [|by exists ep].
    unfold all_accepted. cbn. split_and!; lia.
Qed.

(** Each round of the retries against the mock leaves fewer members pending:
    the first one of a request spends none of it. *)
Lemma members_shrink js : js ≠ [] → zlen (members true ∅ js) < zlen js.
Proof.
  destruct js as [|j js]; [done|]. intros _. cbn [members].
  assert (spends ∅ j = false) as ->.
  { apply not_true_is_false. intros (? & _ & ?%elem_of_empty)%spends_elem. done. }
  cbn [Bool.eqb app length]. pose proof (members_count ({[id j]} ∪ ∅) js). lia.
Qed.

Lemma members_NoDup want before js : NoDup (id <$> js) → NoDup (id <$> members want before js).
Proof.
  intros H. eapply sublist_NoDup; [exact H|].
  generalize (members_sublist want before js). generalize (members want before js). clear H.
  induction 1; rewrite ?fmap_cons; by try constructor.
Qed.

(** The members still pending after [i] requests, each answered by the mock. *)
Definition pending_after (i : nat) (js : list job) : list job := Nat.iter i (members true ∅) js.

Lemma pending_after_S i js : pending_after (S i) js = pending_after i (members true ∅ js).
Proof. unfold pending_after. by rewrite Nat.iter_succ_r. Qed.

Lemma pending_seq js n :
  (λ i, raws (pending_after i js)) <$> seq 0 (S n)
  = raws js :: ((λ i, raws (pending_after i (members true ∅ js))) <$> seq 0 n).
Proof.
  rewrite <- cons_seq, <- fmap_S_seq. cbn [fmap list_fmap]. f_equal. rewrite <- list_fmap_compose.
  apply list_fmap_ext. intros _ i _. unfold compose. by rewrite pending_after_S.
Qed.

Lemma retry_loop_answers rounds c e a js k :
  env_ok c e → NoDup (id <$> js) → zlen js ≤ maxServerBatchTxs → zlen js ≤ Z.of_nat rounds →
  (∀ i, e_cancel_wait e i = false ∧ e_cancel_sem e i = false) →
  (∀ i, e_resp e (a + i) = answer (pending_after i js)) →
  ∃ k' n, retry_loop rounds c e a js k = Ok (k', []) ∧ all_accepted (zlen js) k k' ∧ (n ≤ rounds)%nat ∧
    snd <$> posted k' = (snd <$> posted k) ++ ((λ i, raws (pending_after i js)) <$> seq 0 n).
Proof.
  intros He. revert a js k. induction rounds as [|n IH]; intros a js k Hnd Hn Hr Hc Ha; cbn [retry_loop].
  { destruct js; cbn [length] in Hr; [|lia]. exists k, 0%nat. rewrite app_nil_r. unfold all_accepted. cbn. split_and!; lia || done. }
  destruct (Z.eqb_spec (zlen js) 0) as [E|Hne].
  { destruct js; [|cbn in E; lia]. exists k, 0%nat. rewrite app_nil_r. unfold all_accepted. cbn. split_and!; lia || done. }
  destruct (Hc a) as [-> ->]. destruct (endpoint_ok c e a He) as (ep & -> & Hep). rstep.
  pose proof (Ha 0%nat) as H0. rewrite Nat.add_0_r in H0. rewrite H0. cbn [pending_after Nat.iter].
  pose proof (members_count ∅ js) as Hcount.
  assert (js ≠ []) as Hjs by (by destruct js). pose proof (members_shrink js Hjs) as Hlt.
  change (pending_after 0 js) with js.
  destruct (decide (members true ∅ js = [])) as [E|Hbad].
  - unfold answer. rewrite E. cbn [post]. change (200 =? 200) with true. rstep.
    eexists _, 1%nat. split; [done|]. unfold all_accepted. cbn. split_and!; try lia. by rewrite fmap_app.
  - destruct (answer_report js Hbad Hn) as [-> Hp]. change (500 =? 200) with false. cbv iota. rewrite Hp.
    rewrite report_triage by done. cbv zeta. change (0 <? 0) with false. cbv iota.
    rewrite (proj2 (Z.ltb_lt 0 _)) by lia.
    edestruct (IH (S a) (members true ∅ js)) as (k' & r & E & (H1 & H2 & H3 & H4) & Hrn & Hpo);
      [by apply members_NoDup|lia|lia|done| |].
    + intros i. specialize (Ha (S i)). rewrite Nat.add_succ_r in Ha. cbn [Nat.add] in *. rewrite Ha.
      by rewrite pending_after_S.
    + exists k', (S r). split; [exact E|]. cbn in H1, H2, H3, H4, Hpo. unfold all_accepted. split_and!; try lia.
      rewrite Hpo, fmap_app, <- app_assoc. f_equal. by rewrite pending_seq.
Qed.

Lemma pending_sublist i js : pending_after i js `sublist_of` js.
Proof.
  revert js. induction i as [|i IH]; intros js; [done|]. rewrite pending_after_S.
  etrans; [apply IH|apply members_sublist].
Qed.

Lemma raws_sublist l k : l `sublist_of` k → (length (raws l) ≤ length (raws k))%nat.
Proof.
  induction 1 as [|j l k _ IH|j l k _ IH]; [done|..]; unfold raws in *; rewrite ?bind_cons, ?length_app; lia.
Qed.

(** What the mock answers to a pending part of a batch. *)
Lemma mock_answers_inv `{O : Objfmt} `{!ObjfmtLaws O} i js r :
  Forall whole js → fits (raws js) → mock_answers (raws (pending_after i js)) r → r = answer (pending_after i js).
Proof.
  intros Hw Hf (m & m' & E). pose proof (pending_sublist i js) as Hs.
  rewrite strict_spec in E; [congruence| |].
  - rewrite list.Forall_forall in *. intros j Hj. apply Hw. by eapply elem_of_submseteq, sublist_submseteq.
  - unfold fits in *. assert (length (raws (pending_after i js)) ≤ length (raws js))%nat; [|lia].
    by apply raws_sublist.
Qed.

(** ** The feeder's frames *)

(** The buffer with its prevout txid and script fields filled in. *)
Definition feed_tail : list byte :=
  [x01] ++ x01 :: replicate 7 x00 ++ [x01; x51] ++ replicate 4 x00.
Definition feed_in (prev : Hash) (script : list byte) : txin :=
  mkTxin prev (replicate 4 x00) script (replicate 4 xff) (x01 :: replicate 7 x00) [x51].
Definition frame (prev : Hash) (script : list byte) : list byte :=
  ser_tx true (x01 :: replicate 3 x00) [feed_in prev script] feed_tail.

Definition frame_pre : list byte := x01 :: replicate 3 x00 ++ ef_bytes ++ [x01].
Definition frame_mid : list byte := replicate 4 x00 ++ [x09].
Definition frame_end : list byte :=
  replicate 4 xff ++ x01 :: replicate 7 x00 ++ [x01; x51] ++ feed_tail.

Lemma frame_shape prev script :
  length script = 9%nat →
  frame prev script = frame_pre ++ hbytes prev ++ frame_mid ++ script ++ frame_end.
Proof.
  intros Hs. unfold frame, ser_tx. rewrite bind_cons, bind_nil. unfold ser_in, var_bytes, feed_in.
  cbn [in_prev in_index in_script in_seq in_value in_lock]. rewrite Hs.
  rewrite <- !app_assoc. reflexivity.
Qed.

Lemma put_app (p x y s : list byte) n :
  n = length p → length x = length y → put n x (p ++ y ++ s) = p ++ x ++ s.
Proof.
  intros -> Hl. unfold put. rewrite take_app_length. do 2 f_equal.
  rewrite Hl, drop_app_add, drop_app_length. done.
Qed.

Lemma insert_put i x (l : list byte) : (i < length l)%nat → <[i := x]> l = put i [x] l.
Proof. intros H. rewrite insert_take_drop by done. unfold put. by rewrite Nat.add_1_r. Qed.

(** A prevout field of the feeder's own: counter, connection, zeroes. *)
Definition own_prev (ctr : Z) (cid : byte) : Hash := copy32 (le_bytes 8 ctr ++ [cid]).
Definition own_script (ctr : Z) (cid : byte) : list byte := le_bytes 8 ctr ++ [cid].

Lemma length_own_script ctr cid : length (own_script ctr cid) = 9%nat.
Proof. unfold own_script. by rewrite length_app, length_le_bytes. Qed.

Lemma put_script prev script ctr cid :
  length script = 9%nat →
  <[56%nat := cid]> (put 48 (le_bytes 8 ctr) (frame prev script)) = frame prev (own_script ctr cid).
Proof.
  intros Hs. rewrite !frame_shape by (done || apply length_own_script).
  rewrite <- (take_drop 8 script), <- !app_assoc.
  rewrite (app_assoc frame_pre), (app_assoc _ frame_mid).
  set (p := (frame_pre ++ hbytes prev) ++ frame_mid).
  assert (Lp : length p = 48%nat) by (unfold p; rewrite !length_app, hash_length; done).
  rewrite put_app by (rewrite ?length_le_bytes, ?length_take; lia).
  rewrite insert_put by (rewrite !length_app, length_le_bytes, length_drop; lia).
  rewrite (app_assoc p), put_app by (rewrite ?length_app, ?length_le_bytes, ?length_drop; cbn [length]; lia).
  unfold own_script, p. by rewrite <- !app_assoc.
Qed.

Lemma put_prev (h prev : Hash) script :
  length script = 9%nat → put 11 (hbytes h) (frame prev script) = frame h script.
Proof.
  intros Hs. rewrite !frame_shape by done. by rewrite put_app by (rewrite ?hash_length; done).
Qed.

(** The field is zero past its first nine bytes unless a txid was put there. *)
Lemma put_own prev script ctr cid :
  length script = 9%nat → drop 9 (hbytes prev) = replicate 23 x00 →
  <[19%nat := cid]> (put 11 (le_bytes 8 ctr) (frame prev script)) = frame (own_prev ctr cid) script.
Proof.
  intros Hs Hz. rewrite !frame_shape by done.
  assert (hbytes (own_prev ctr cid) = le_bytes 8 ctr ++ [cid] ++ replicate 23 x00) as ->.
  { change (hbytes (own_prev ctr cid)) with (resize 32 x00 (le_bytes 8 ctr ++ [cid])).
    rewrite resize_ge by (rewrite length_app, length_le_bytes; cbn; lia).
    rewrite length_app, length_le_bytes. by rewrite <- app_assoc. }
  pose proof (hash_length prev) as Hl.
  rewrite <- (take_drop 8 (hbytes prev)), <- !app_assoc.
  rewrite put_app by (rewrite ?length_le_bytes, ?length_take, ?hash_length; done).
  rewrite insert_put by (rewrite !length_app, length_le_bytes, length_drop; cbn; lia).
  rewrite <- (take_drop 1 (drop 8 (hbytes prev))), drop_drop. change (8 + 1)%nat with 9%nat. rewrite Hz, <- !app_assoc.
  rewrite (app_assoc frame_pre), put_app by
    (rewrite ?length_app, ?length_le_bytes, ?length_take, ?length_drop, ?Hl; done).
  by rewrite <- !app_assoc.
Qed.

(** The frames as fresh values: each spends an output of the feeder's own
    making, or, in a chain, the frame before it. *)
Definition next_prev (chain : bool) (cid : byte) (ctr : Z) (last : option (list byte)) : Hash :=
  match last with
  | Some tx => if chain then txid tx else own_prev ctr cid
  | None => own_prev ctr cid
  end.

Fixpoint stream (chain : bool) (cid : byte) (n : nat) (ctr : Z) (last : option (list byte)) : list (list byte) :=
  match n with
  | O => []
  | S n =>
      let tx := frame (next_prev chain cid ctr last) (own_script ctr cid) in
      tx :: stream chain cid n (ctr + 1) (Some tx)
  end.

Definition sent_last (f : feeder) : option (list byte) :=
  if 0 <? f_ctr f then Some (f_tx f) else None.

(** The buffer between two rounds. *)
Record feed_inv (chain : bool) (f : feeder) (prev : Hash) (script : list byte) : Prop := {
  fi_tx : f_tx f = frame prev script;
  fi_script : length script = 9%nat;
  fi_zero : chain = false ∨ f_ctr f = 0 → drop 9 (hbytes prev) = replicate 23 x00;
  fi_prev : chain = true → 0 < f_ctr f → f_prev f = txid (f_tx f)
}.

Lemma own_prev_zero ctr cid : drop 9 (hbytes (own_prev ctr cid)) = replicate 23 x00.
Proof.
  change (hbytes (own_prev ctr cid)) with (resize 32 x00 (own_script ctr cid)).
  rewrite resize_ge by (rewrite length_own_script; lia). rewrite drop_app_length' by (by rewrite length_own_script).
  by rewrite length_own_script.
Qed.

Lemma feed_round_spec chain cid f prev script :
  feed_inv chain f prev script → 0 ≤ f_ctr f → f_ctr f + 1 < two64 →
  f_ctr (feed_round chain cid f) = f_ctr f + 1 ∧
  f_tx (feed_round chain cid f)
  = frame (next_prev chain cid (f_ctr f + 1) (sent_last f)) (own_script (f_ctr f + 1) cid) ∧
  feed_inv chain (feed_round chain cid f)
    (next_prev chain cid (f_ctr f + 1) (sent_last f)) (own_script (f_ctr f + 1) cid).
Proof.
  intros [Htx Hs Hz Hp] H0 H1. set (ctr := f_ctr f + 1) in *.
  assert (Hc : f_ctr (feed_round chain cid f) = ctr).
  { unfold feed_round. cbn [f_ctr]. apply u64_small. unfold ctr. lia. }
  assert (Ht : f_tx (feed_round chain cid f)
    = frame (next_prev chain cid ctr (sent_last f)) (own_script ctr cid)).
  { unfold feed_round. cbn [f_tx]. fold ctr. rewrite u64_small by (unfold ctr; lia).
    unfold next_prev, sent_last. rewrite Htx.
    destruct (Z.ltb_spec 0 (f_ctr f)) as [Hpos|Hpos], chain; cbn [andb].
    - rewrite (proj2 (Z.ltb_lt 1 ctr)) by (unfold ctr; lia). rewrite Hp, Htx by done.
      by rewrite put_prev, put_script.
    - rewrite put_own by auto. by rewrite put_script.
    - rewrite (proj2 (Z.ltb_ge 1 ctr)) by (unfold ctr; lia). rewrite put_own by (try done; apply Hz; right; lia).
      by rewrite put_script.
    - rewrite put_own by auto. by rewrite put_script. }
  split_and!; [done..|]. split; [done|apply length_own_script| |].
  - intros [->|E]; [|rewrite Hc in E; unfold ctr in E; lia].
    unfold next_prev. destruct (sent_last f); apply own_prev_zero.
  - intros -> _. done.
Qed.

Lemma feed_stream chain cid n f prev script :
  feed_inv chain f prev script → 0 ≤ f_ctr f → f_ctr f + Z.of_nat n < two64 →
  feed chain cid n f = stream chain cid n (f_ctr f + 1) (sent_last f).
Proof.
  revert f prev script. induction n as [|n IH]; intros f prev script Hi H0 Hn; [done|].
  destruct (feed_round_spec chain cid f prev script Hi H0) as (Hc & Ht & Hi'); [lia|].
  cbn [feed stream]. unfold txFrame. rewrite (IH _ _ _ Hi') by lia. rewrite Hc, Ht. do 2 f_equal.
  unfold sent_last. rewrite Hc, (proj2 (Z.ltb_lt _ _)), Ht by lia. done.
Qed.

Lemma feed_inv0 chain : feed_inv chain feeder0 zero_hash (replicate 9 x00).
Proof. split; [by vm_compute|done|done|]. cbn. lia. Qed.

Lemma frame_refs prev script :
  length script = 9%nat → refs (frame prev script) = [prev] ∧ walkable (frame prev script) = true.
Proof.
  intros Hs. assert (length (frame prev script) = 86%nat) as Hl.
  { rewrite frame_shape, !length_app, hash_length, Hs by done. reflexivity. }
  apply (refs_ser true (x01 :: replicate 3 x00) [feed_in prev script] feed_tail); [done..| |].
  - by repeat constructor.
  - unfold fits. fold (frame prev script). rewrite Hl. done.
Qed.

(** ** A chain through the builder *)

Definition link (tx : list byte) : job := mkJob tx (txid tx).

(** The open batch holds at most the frame sent last, and every sealed one
    holds one. *)
Record one_each (last : option (list byte)) (b : builder) : Prop := {
  oe_sealed : Forall (λ x, zlen (jobs (snd x)) = 1) (sealed b);
  oe_open : jobs (cur b) = [] ∧ ids (cur b) = ∅ ∨
            ∃ tx, last = Some tx ∧ jobs (cur b) = [link tx] ∧ ids (cur b) = {[ txid tx ]}
}.

Lemma one_each_seal last r b : one_each last b → one_each last (seal r b).
Proof.
  intros [Hs Ho]. unfold seal. destruct (Z.eqb_spec (zlen (jobs (cur b))) 0); [done|].
  destruct Ho as [[E _]|(tx & _ & E & _)]; [rewrite E in *; done|].
  split; cbn [sealed cur]; [|by left]. apply Forall_app. split; [done|]. constructor; [|done].
  cbn [snd]. by rewrite E.
Qed.

Lemma one_each_add c now last tx b :
  one_each last b → walkable tx = true →
  (∀ tx0, last = Some tx0 → txid tx0 ∈ refs tx) →
  ∃ b', add c now (link tx) b = Ok b' ∧ one_each (Some tx) b'.
Proof.
  intros Ho Hw Hl. unfold add. cbn [raw link id]. rewrite dependsOnBatch_refs, Hw. rstep.
  set (dep := existsb _ _).
  cbv zeta. assert (∃ b1, (if dep then seal SealDep b else b) = b1 ∧ jobs (cur b1) = [] ∧ ids (cur b1) = ∅ ∧
    Forall (λ x, zlen (jobs (snd x)) = 1) (sealed b1)) as (b1 & -> & Ej & Ei & Hs).
  { eexists. split; [done|]. destruct Ho as [Hs [[Ej Ei]|(tx0 & -> & Ej & Ei)]].
    - assert (dep = false) as ->; [|done]. apply not_true_is_false. unfold dep. rewrite Ei.
      intros (x & _ & Hx%bool_decide_eq_true)%existsb_exists. by apply elem_of_empty in Hx.
    - assert (dep = true) as ->.
      { apply existsb_exists. exists (txid tx0). split; [by apply list_elem_of_In, Hl|].
        apply bool_decide_eq_true_2. rewrite Ei. by apply elem_of_singleton. }
      unfold seal. rewrite Ej. cbn. split_and!; [done..|]. apply Forall_app. split; [done|].
      constructor; [|done]. cbn [snd]. by rewrite Ej. }
  rewrite Ej. change (zlen [] =? 0) with true. cbn [cur jobs ids linger sealed append_job body born].
  rewrite Ei. cbn [app].
  match goal with |- ∃ b', Ok (if _ then seal _ ?x else _) = Ok b' ∧ _ => assert (one_each (Some tx) x) as Hx end.
  { split; [done|]. right. exists tx. cbn. split_and!; [done..|]. set_solver. }
  eexists. split; [done|]. repeat case_match; by try apply one_each_seal.
Qed.

Lemma stream_chain c now cid n ctr last b :
  one_each last b →
  ∃ b', addRun c now (link <$> stream true cid n ctr last) b = Ok b' ∧
    Forall (λ x, zlen (jobs (snd x)) = 1) (sealed b') ∧ zlen (jobs (cur b')) ≤ 1.
Proof.
  revert ctr last b. induction n as [|n IH]; intros ctr last b Ho.
  { exists b. split; [done|]. destruct Ho as [Hs [[-> _]|(tx & _ & -> & _)]]; done. }
  cbn [stream]. rewrite fmap_cons. cbn [addRun].
  set (tx := frame _ _). destruct (frame_refs (next_prev true cid ctr last) (own_script ctr cid)) as [Hr Hw];
    [apply length_own_script|]. fold tx in Hr, Hw.
  destruct (one_each_add c now last tx b Ho Hw) as (b1 & -> & Ho1).
  { intros tx0 ->. rewrite Hr. by left. }
  rstep. by apply IH.
Qed.

(** ** Theorems *)

(** The mock and the code under test agree on what a dependency is: on every
    byte string the mock's walk calls back with the same prevouts in the same
    order as [txpipe]'s and has the same outcome, success, error or panic. *)
Theorem mock_walk_agrees (tx : list byte) {A} (fn : A → Hash → A) (a : A) :
  fst (inputRefs fn tx a) = fst (txwire.inputRefs fn tx a) ∧
  snd (inputRefs fn tx a) ≡ snd (txwire.inputRefs fn tx a).
Proof. apply inputRefs_same. Qed.

(** No batch a running builder seals trips the parent-before-child rule: the
    faithful mock accepts every member of it and answers 200. *)
Theorem mock_accepts_builder `{OL : ObjfmtLaws} (c : Config) (cap : Z) (s : bstate) (r : reason) (b : batch) (m : mock) :
  rtc (bstep (defaults c) cap) binit s → ph s ≠ Stopped → (r, b) ∈ sealed (bld s) →
  Forall whole (jobs b) → fits (body b) →
  strict (body b) m
  = Some (mkMock (m_batches m + 1) (m_bytes m + zlen (body b)) (m_txs m + zlen (jobs b)) (m_rejected m)
            (list_to_set (id <$> jobs b) ∪ seen m), Ok (RStatus 200 (str "OK"))).
Proof.
  intros Hr Hp Hb Hw Hf.
  assert (good_batch (defaults c) b) as [Eb _ _ Hi].
  { destruct (reachable_binv _ _ _ (defaults_usable c) Hr) as [_ _ _ Hg _].
    specialize (Hg Hp). rewrite list.Forall_forall in Hg. apply (Hg _ Hb). }
  rewrite Eb in *. rewrite strict_spec by done.
  destruct (independent_members (jobs b) ∅ Hi) as [E1 E2].
  { intros j _. apply not_true_is_false. intros (? & _ & ?%elem_of_empty)%spends_elem. done. }
  unfold answer, mock_after. rewrite E1, E2. cbn. by rewrite Z.add_0_r.
Qed.


(** The feeder's in-place buffer writes what the rig's description says: the
    frames of a run are the extended-format transactions of the reference
    stream, one input each, spending a fresh output or, in a chain, the frame
    before. *)
Theorem feed_reference (chain : bool) (cid : byte) (n : nat) :
  Z.of_nat n < two64 →
  feed chain cid n feeder0 = stream chain cid n 1 None ∧
  Forall (λ tx, length tx = 86%nat ∧ txwire.ef_marker tx = true ∧ walkable tx = true ∧ length (refs tx) = 1%nat)
    (feed chain cid n feeder0).
Proof.
  intros Hn. assert (feed chain cid n feeder0 = stream chain cid n 1 None) as E.
  { by apply (feed_stream chain cid n feeder0 _ _ (feed_inv0 chain)). }
  split; [done|]. rewrite E. clear E Hn. generalize (@None (list byte)), 1.
  induction n as [|n IH]; intros last ctr; cbn [stream]; constructor; [|apply IH].
  set (prev := next_prev _ _ _ _). pose proof (length_own_script ctr cid) as Hl.
  destruct (frame_refs prev _ Hl) as [-> ->]. rewrite frame_shape by done.
  split_and!; [|done..]. rewrite !length_app, hash_length, Hl. done.
Qed.

(** The chained feed exercises dependency sealing at every step: however
    large the batches may be, the builder puts every frame of a chain in a
    batch of its own. *)
Theorem chain_sealed (c : Config) (now : Z) (cid : byte) (n : nat) :
  Z.of_nat n < two64 →
  ∃ b, addRun c now (link <$> feed true cid n feeder0) (bld binit) = Ok b ∧
    Forall (λ x, zlen (jobs (snd x)) = 1) (sealed b) ∧ zlen (jobs (cur b)) ≤ 1.
Proof.
  intros Hn. rewrite (feed_stream true cid n feeder0 _ _ (feed_inv0 true)) by done.
  apply stream_chain. split; [done|by left].
Qed.

(** ** Witnesses *)

Definition bx_tx (prev : Hash) : list byte :=
  ser_tx false [x27; x00; x00; x00]
    [mkTxin prev (replicate 4 x00) [x51; x52] (replicate 4 xff) (replicate 8 x01) [x76]] [x00].
Definition bx_parent : job := mkJob (bx_tx (copy32 [x09])) (hashid.DoubleSHA256 (bx_tx (copy32 [x09]))).
Definition bx_child : job := mkJob (bx_tx (id bx_parent)) (hashid.DoubleSHA256 (bx_tx (id bx_parent))).
Definition bx_cfg : Config := mkConfig [str "http://a"] 10 0 0 0 3 0 0 1.
Definition bx_both : batch := mkBatch (raws [bx_parent; bx_child]) [bx_parent; bx_child] ∅ 5.
Definition bx_mock : mock := mkMock 0 0 0 0 ∅.

Definition bx_sealed (b : builder) : list (reason * list job * list byte) :=
  (λ x, (fst x, jobs (snd x), body (snd x))) <$> sealed b.

Lemma bx_run : bx_sealed <$> (match addRun (defaults bx_cfg) 5 [bx_parent; bx_child] (bld binit) with
    Ok b => Some b | _ => None end) = Some [(SealDep, [bx_parent], raw bx_parent)].
Proof. vm_compute. reflexivity. Qed.

Lemma mock_accepts_builder_witness :
  strict (raw bx_parent) bx_mock
  = Some (mkMock 1 49 1 0 (list_to_set [id bx_parent] ∪ ∅), Ok (RStatus 200 (str "OK"))).
Proof.
  pose proof bx_run as H.
  destruct (addRun (defaults bx_cfg) 5 [bx_parent; bx_child] (bld binit)) as [b'| |] eqn:E; [|done..].
  cbn [fmap option_fmap option_map] in H. unfold bx_sealed in H. destruct (sealed b') as [|[r b] [|]] eqn:Es; [done| |done].
  cbn [fmap list_fmap option_fmap option_map fst snd] in H.
  pose proof (f_equal (λ o, match o with Some ((_, j, _) :: _) => j | _ => [] end) H) as Ej.
  pose proof (f_equal (λ o, match o with Some ((_, _, x) :: _) => x | _ => [] end) H) as Eb.
  cbv beta iota in Ej, Eb.
  pose proof (mock_accepts_builder bx_cfg 4 (mkB [] Running b' [bx_parent; bx_child]) r b bx_mock) as T.
  rewrite Ej, Eb in T. apply T.
  - eapply rtc_l; [apply (s_send _ _ [bx_parent; bx_child]); simpl; lia|].
    apply rtc_once. by apply (s_recv _ _ 5).
  - discriminate.
  - cbn [bld]. rewrite Es. by left.
  - constructor; [|constructor]. split_and!; vm_compute; reflexivity.
  - vm_compute. reflexivity.
Defined.

Definition bx_env (n : nat) : env :=
  mkEnv (λ i, answer (pending_after (n + i) [bx_parent; bx_child])) (λ _, 0) (λ _, false) (λ _, false).

Lemma bx_whole : Forall (whole (O := ref_objfmt)) [bx_parent; bx_child].
Proof. constructor; [|constructor; [|constructor]]; split_and!; vm_compute; reflexivity. Qed.

Lemma bx_answers i : mock_answers (O := ref_objfmt) (raws (pending_after i [bx_parent; bx_child]))
                       (answer (pending_after i [bx_parent; bx_child])).
Proof.
  pose proof (pending_sublist i [bx_parent; bx_child]) as Hs. exists bx_mock. eexists. apply strict_spec.
  - pose proof bx_whole as Hw. rewrite list.Forall_forall in *. intros j Hj. apply Hw.
    by eapply elem_of_submseteq, sublist_submseteq.
  - unfold fits. pose proof (raws_sublist _ _ Hs) as Hl.
    assert (fits (raws [bx_parent; bx_child])) as Hf by (vm_compute; reflexivity). unfold fits in Hf. lia.
Qed.


Lemma feed_reference_witness :
  feed true x07 3 feeder0 = stream true x07 3 1 None.
Proof. apply (feed_reference true x07 3). reflexivity. Defined.

Lemma chain_sealed_witness :
  ∃ b, addRun bx_cfg 5 (link <$> feed true x07 3 feeder0) (bld binit) = Ok b ∧ zlen (jobs (cur b)) ≤ 1.
Proof.
  destruct (chain_sealed bx_cfg 5 x07 3) as (b & E & _ & H); [reflexivity|].
  exists b. split; [exact E|exact H].
Defined.
