(* ===== verification/Metrics.v ===== *)
(** * metrics: the scrape-time collector

    [src/internal/metrics/collector.go] and the recorder of
    [src/internal/metrics/metrics.go]: every subsystem's [Stats] snapshot is
    turned into Prometheus series, under the modern name and, when configured,
    under the legacy one. A scrape is the list of the [MustNewConstMetric] calls
    it makes: descriptor, type, value and label values; the values are the
    integers handed to the [float64] conversion. The client library itself is
    not modelled: what it demands of the calls (the right number of label
    values, no series twice, only described names) is what the theorems show.
    Help texts are left out. *)

From Stdlib Require Import Strings.Byte.
From stdpp Require Import base list strings numbers gmap pretty relations.
From S2P Require Import Prelude Cache Registry TxBuild Submit FirstPull Announce Lanes UpTunnel Retrieval Reverse.

Module metrics.
(** ** Descriptors *)

Record desc : Type := mkDesc { fqName : string; labelNames : list string }.

Definition modernPrefix : string := "teranode_bridge_".
Definition legacyPrefix : string := "btb_".

(** The legacy descriptor is nil for series that never had the old name. *)
Record pair : Type := mkPair { modern : desc; legacy : option desc }.

Definition newPair (name : string) (labels : list string) : pair :=
  mkPair (mkDesc (modernPrefix +:+ name) labels) (Some (mkDesc (legacyPrefix +:+ name) labels)).
Definition newModern (name : string) (labels : list string) : pair :=
  mkPair (mkDesc (modernPrefix +:+ name) labels) None.

Definition descs (legacyOn : bool) (p : pair) : list desc :=
  match legacy p with
  | Some l => if legacyOn then [modern p; l] else [modern p]
  | None => [modern p]
  end.

Definition laneConns : pair := newPair "lane_connections_total" ["lane"].
Definition laneActive : pair := newModern "lane_connections_active" ["lane"].
Definition laneObjects : pair := newPair "lane_objects_total" ["lane"].
Definition laneBytes : pair := newPair "lane_bytes_total" ["lane"].
Definition laneErrors : pair := newPair "lane_handler_errors_total" ["lane"].
Definition laneDropped : pair := newPair "lane_connections_dropped_total" ["lane"].
Definition laneRejected : pair := newPair "lane_objects_rejected_total" ["lane"].
Definition cacheEntries : pair := newPair "cache_entries" ["kind"].
Definition cacheBytes : pair := newPair "cache_bytes" ["kind"].
Definition cacheStored : pair := newPair "cache_stored_total" ["kind"].
Definition cacheHits : pair := newPair "cache_hits_total" ["kind"].
Definition cacheMisses : pair := newPair "cache_misses_total" ["kind"].
Definition cacheEvicted : pair := newPair "cache_evicted_total" ["kind"].
Definition cacheExpired : pair := newPair "cache_expired_total" ["kind"].
Definition registryEntries : pair := newPair "registry_entries" [].
Definition registryDups : pair := newPair "registry_duplicates_total" [].
Definition submitTotal : pair := newPair "submit_total" ["outcome"].
Definition pipeEnqueued : pair := newModern "txpipe_enqueued_total" [].
Definition pipeBatches : pair := newPair "txpipe_batches_total" [].
Definition pipeSeals : pair := newPair "txpipe_batch_seals_total" ["reason"].
Definition pipeRetried : pair := newPair "txpipe_retried_total" [].
Definition pipeRetryOK : pair := newPair "txpipe_retry_accepted_total" [].
Definition pipeUnattributed : pair := newPair "txpipe_unattributed_total" [].
Definition pipeRateLimited : pair := newPair "txpipe_rate_limited_total" [].
Definition pipeQueue : pair := newPair "txpipe_queue_depth" [].
Definition announceTotal : pair := newPair "announce_total" ["class"].
Definition announceFailures : pair := newPair "announce_failures_total" [].
Definition announceBuffered : pair := newModern "kafka_producer_buffered_records" [].
Definition announceAwaitingPull : pair := newModern "announce_awaiting_pull" [].
Definition retrievalServed : pair := newPair "retrieval_served_total" ["route"].
Definition retrievalMisses : pair := newPair "retrieval_misses_total" [].
Definition retrievalErrors : pair := newPair "retrieval_errors_total" [].
Definition retrievalUnserved : pair := newPair "retrieval_unserved_route_total" ["class"].
Definition reversePublished : pair := newPair "reverse_published_total" ["class"].
Definition reverseSkipped : pair := newPair "reverse_skipped_total" ["reason"].
Definition reverseFailures : pair := newPair "reverse_failures_total" [].
Definition submitterActive : pair := newPair "submitter_active" [].
Definition reverseReconnects : pair := newPair "reverse_reconnects_total" [].
Definition upObjects : pair := newPair "uptunnel_objects_total" ["class"].
Definition upBytes : pair := newPair "uptunnel_bytes_total" ["class"].
Definition upFailures : pair := newPair "uptunnel_failures_total" ["class"].
Definition upRedials : pair := newPair "uptunnel_redials_total" ["class"].
Definition echoVerified : pair := newPair "echo_verified_total" [].
Definition echoMismatch : pair := newPair "echo_mismatch_total" [].
Definition buildInfo : pair := newPair "build_info" ["version"; "instance"].
Definition hostInfoDesc : pair := newPair "host_info" [
  "hostname"; "kernel_version"; "cpu_logical"; "mem_bytes"; "nic"; "speed_mbps"; "version"].

Definition allPairs : list pair := [
  laneConns; laneActive; laneObjects; laneBytes; laneErrors; laneDropped; laneRejected;
  cacheEntries; cacheBytes; cacheStored; cacheHits; cacheMisses; cacheEvicted; cacheExpired;
  registryEntries; registryDups; submitTotal; announceTotal; announceFailures;
  announceBuffered; announceAwaitingPull;
  pipeEnqueued; pipeBatches; pipeSeals; pipeRetried; pipeRetryOK;
  pipeUnattributed; pipeRateLimited; pipeQueue;
  retrievalServed; retrievalMisses; retrievalErrors; retrievalUnserved;
  reversePublished; reverseSkipped; reverseFailures; reverseReconnects; submitterActive;
  upObjects; upBytes; upFailures; upRedials;
  echoVerified; echoMismatch; buildInfo; hostInfoDesc
].

Definition Describe (legacyOn : bool) : list desc := allPairs ≫= descs legacyOn.

(** ** The snapshots it reads *)

(** [txpipe.Stats]: the queue counters, the submission counters and the
    reasons of the seals so far. *)
Record pipe_Stats_t : Type := mkPipeStats {
  ps_Enqueued : Z; ps_Accepted : Z; ps_Rejected : Z; ps_Failed : Z;
  ps_Retried : Z; ps_RetryAccepted : Z; ps_Unattributed : Z; ps_Batches : Z; ps_RateLimited : Z;
  ps_SealSize : Z; ps_SealBytes : Z; ps_SealLinger : Z; ps_SealDep : Z; ps_Queue : Z
}.
#[global] Instance reason_eq_decision : EqDecision txpipe.reason.
Proof. solve_decision. Defined.
Definition seals_for (r : txpipe.reason) (l : list txpipe.reason) : Z := zlen (filter (λ x, x = r) l).
Definition pipe_Stats (p : txpipe.Pipe) (k : submission.counters) (seals : list txpipe.reason) : pipe_Stats_t :=
  mkPipeStats (txpipe.enqueued p) (submission.accepted k) (submission.rejected k) (submission.failed k)
    (submission.retried k) (submission.retryAccepted k) (submission.unattributed k)
    (submission.batches k) (submission.rateLimited k)
    (seals_for txpipe.SealSize seals) (seals_for txpipe.SealBytes seals)
    (seals_for txpipe.SealLinger seals) (seals_for txpipe.SealDep seals)
    (Z.max (txpipe.queued p) 0).

(** [announce.Stats]; [buffered] is the Kafka client's level. *)
Record announce_Stats_t : Type := mkAnnounceStats {
  as_Subtrees : Z; as_Blocks : Z; as_Failures : Z; as_Buffered : Z; as_AwaitingPull : Z
}.
Definition announce_Stats (buffered : Z) (p : announce.Producer) : announce_Stats_t :=
  mkAnnounceStats (announce.subtrees p) (announce.blocks p) (announce.failures p) buffered
    (obs.Len (announce.firstPull p)).

(** [retrieval.Stats]: eight atomic loads; [at i] is the server at the [i]-th. *)
Record retrieval_Stats_t : Type := mkRetrievalStats {
  rs_Subtree : Z; rs_SubtreeData : Z; rs_Txs : Z; rs_Block : Z; rs_Miss : Z; rs_Errors : Z;
  rs_UnservedRoute : Z; rs_UnservedChainSync : Z
}.
Definition retrieval_Stats {Objs Txs} (at_ : nat → retrieval.Server Objs Txs) : retrieval_Stats_t :=
  mkRetrievalStats (retrieval.hitSubtree (at_ 0%nat)) (retrieval.hitSubtreeData (at_ 1%nat))
    (retrieval.hitTxs (at_ 2%nat)) (retrieval.hitBlock (at_ 3%nat)) (retrieval.miss (at_ 4%nat))
    (retrieval.errs (at_ 5%nat)) (retrieval.missRoute (at_ 6%nat)) (retrieval.missChainSync (at_ 7%nat)).

Record reverse_Stats_t : Type := mkReverseStats {
  vs_SubtreesUp : Z; vs_BlocksUp : Z; vs_RemoteSkipped : Z; vs_Skipped : Z; vs_Failures : Z;
  vs_Reconnects : Z; vs_Gated : Z; vs_ForeignSkipped : Z; vs_StandbyHeld : Z; vs_Active : bool
}.
Definition reverse_Stats (s : reverse.Subscriber) : reverse_Stats_t :=
  mkReverseStats (reverse.subtreesUp s) (reverse.blocksUp s) (reverse.remoteSkipped s)
    (reverse.skipped s) (reverse.failures s) (reverse.reconnects s) (reverse.gated s)
    (reverse.foreignSkipped s) (reverse.standbyHeld s) (reverse.active s).

Record UpStats : Type := mkUpStats {
  us_Class : gostring; us_Sent : Z; us_Bytes : Z; us_Failures : Z; us_Redials : Z
}.
Definition up_Stats (class : gostring) (u : uptunnel.UpTunnel) : UpStats :=
  mkUpStats class (uptunnel.sent u) (uptunnel.nbytes u) (uptunnel.failures u) (uptunnel.redials u).

(** ** The recorder *)

(** The results of the [Stats] calls of one scrape; a nil subsystem is [None].
    The transaction cache is asked twice, once for its own series and once for
    the duplicates. *)
Record Sources : Type := mkSources {
  Lanes : list lanes.Stats_t;
  Objects : option cache.Stats_t;
  Txs : option (cache.Stats_t * cache.Stats_t);
  Seen : option registry.Stats_t;
  Tx : option pipe_Stats_t;
  Announce : option announce_Stats_t;
  Retrieval : option retrieval_Stats_t;
  Reverse : option reverse_Stats_t;
  UpTunnels : list (option UpStats)
}.
Definition no_sources : Sources := mkSources [] None None None None None None None [].

(** The fields of the host inventory the recorder reads. *)
Record iface : Type := mkIface {
  OperState : gostring; IPv4 : list gostring; IPv6 : list gostring; if_Name : gostring; SpeedMbps : Z
}.
Record Inventory : Type := mkInv {
  Hostname : gostring; KernelVersion : gostring; CPULogical : Z; MemTotalBytes : Z;
  inv_Version : gostring; Interfaces : list iface
}.

(** [strconv.Itoa] and [strconv.FormatUint]. *)
Definition itoa (v : Z) : gostring := str (pretty v).

Definition newHostLabels (inv : Inventory) (nic speed : gostring) : list gostring :=
  [Hostname inv; KernelVersion inv; itoa (CPULogical inv); itoa (MemTotalBytes inv);
   nic; speed; inv_Version inv].

Record Recorder : Type := mkRecorder {
  src : Sources;
  version : gostring; instance : gostring;
  ready : bool;
  host : option (list gostring);
  echoOK : Z; echoBad : Z;
  strict : bool;
  legacyOn : bool
}.

Definition New (version instance : gostring) (legacyPrefix strict : bool) : Recorder :=
  mkRecorder no_sources version instance false None 0 0 strict legacyPrefix.
Definition SetSources (s : Sources) (r : Recorder) : Recorder :=
  mkRecorder s (version r) (instance r) (ready r) (host r) (echoOK r) (echoBad r) (strict r) (legacyOn r).
Definition EchoVerified (r : Recorder) : Recorder :=
  mkRecorder (src r) (version r) (instance r) (ready r) (host r) (u64 (echoOK r + 1)) (echoBad r) (strict r) (legacyOn r).
Definition EchoMismatch (r : Recorder) : Recorder :=
  mkRecorder (src r) (version r) (instance r) (ready r) (host r) (echoOK r) (u64 (echoBad r + 1)) (strict r) (legacyOn r).
Definition SetReady (v : bool) (r : Recorder) : Recorder :=
  mkRecorder (src r) (version r) (instance r) v (host r) (echoOK r) (echoBad r) (strict r) (legacyOn r).

(** The first interface that is up and has an address, and its speed if known. *)
Fixpoint pick_nic (l : list iface) : gostring * gostring :=
  match l with
  | [] => ([], [])
  | i :: l =>
      if bool_decide (OperState i = str "up") && ((0 <? zlen (IPv4 i)) || (0 <? zlen (IPv6 i)))
      then (if_Name i, if 0 <? SpeedMbps i then itoa (SpeedMbps i) else [])
      else pick_nic l
  end.
Definition SetHostInfo (inv : Inventory) (r : Recorder) : Recorder :=
  let '(nic, speed) := pick_nic (Interfaces inv) in
  mkRecorder (src r) (version r) (instance r) (ready r) (Some (newHostLabels inv nic speed))
    (echoOK r) (echoBad r) (strict r) (legacyOn r).

(** ** A scrape *)

Inductive valueType : Type := CounterValue | GaugeValue.

(** One call of [counter] or [gauge]. *)
Record call : Type := mkCall { c_type : valueType; c_pair : pair; c_value : Z; c_labels : list gostring }.
Definition counter (p : pair) (v : Z) (labels : list gostring) : call := mkCall CounterValue p v labels.
Definition gauge (p : pair) (v : Z) (labels : list gostring) : call := mkCall GaugeValue p v labels.

(** One call of [MustNewConstMetric]. *)
Record metric : Type := mkMetric {
  m_desc : desc; m_type : valueType; m_value : Z; m_labels : list gostring
}.

Definition emit (dual : bool) (c : call) : list metric :=
  mkMetric (modern (c_pair c)) (c_type c) (c_value c) (c_labels c) ::
  match legacy (c_pair c) with
  | Some l => if dual then [mkMetric l (c_type c) (c_value c) (c_labels c)] else []
  | None => []
  end.

Definition emitCache (kind : string) (s : cache.Stats_t) : list call :=
  let kind := [str kind] in
  [gauge cacheEntries (cache.Entries s) kind; gauge cacheBytes (cache.Bytes s) kind;
   counter cacheStored (cache.Stored s) kind; counter cacheHits (cache.Hits s) kind;
   counter cacheMisses (cache.Misses s) kind; counter cacheEvicted (cache.Evicted s) kind;
   counter cacheExpired (cache.Expired s) kind].

Definition collect_lane (s : lanes.Stats_t) : list call :=
  let name := [lanes.st_Name s] in
  [counter laneConns (lanes.st_Conns s) name; gauge laneActive (lanes.st_Active s) name;
   counter laneObjects (lanes.st_Objects s) name; counter laneBytes (lanes.st_Bytes s) name;
   counter laneErrors (lanes.st_Errors s) name; counter laneDropped (lanes.st_Dropped s) name;
   counter laneRejected (lanes.st_Rejected s) name].

Definition collect_seen (txs : option (cache.Stats_t * cache.Stats_t)) (s : registry.Stats_t) : list call :=
  let dups := registry.Hits s in
  let dups := match txs with Some (_, t) => u64 (dups + cache.Duplicates t) | None => dups end in
  [gauge registryEntries (registry.Entries s) []; counter registryDups dups []].

Definition collect_pipe (s : pipe_Stats_t) : list call :=
  [counter submitTotal (ps_Accepted s) [str "accepted"];
   counter submitTotal (ps_Rejected s) [str "rejected"];
   counter submitTotal (ps_Failed s) [str "failed"];
   counter pipeEnqueued (ps_Enqueued s) [];
   counter pipeBatches (ps_Batches s) [];
   counter pipeSeals (ps_SealSize s) [str "size"];
   counter pipeSeals (ps_SealBytes s) [str "bytes"];
   counter pipeSeals (ps_SealLinger s) [str "linger"];
   counter pipeSeals (ps_SealDep s) [str "dependency"];
   counter pipeRetried (ps_Retried s) [];
   counter pipeRetryOK (ps_RetryAccepted s) [];
   counter pipeUnattributed (ps_Unattributed s) [];
   counter pipeRateLimited (ps_RateLimited s) [];
   gauge pipeQueue (ps_Queue s) []].

Definition collect_announce (s : announce_Stats_t) : list call :=
  [counter announceTotal (as_Subtrees s) [str "subtree"];
   counter announceTotal (as_Blocks s) [str "block"];
   counter announceFailures (as_Failures s) [];
   gauge announceBuffered (as_Buffered s) [];
   gauge announceAwaitingPull (as_AwaitingPull s) []].

(** [s.UnservedRoute-s.UnservedChainSync] is a [uint64] subtraction. *)
Definition collect_retrieval (s : retrieval_Stats_t) : list call :=
  [counter retrievalServed (rs_Subtree s) [str "subtree"];
   counter retrievalServed (rs_SubtreeData s) [str "subtree_data"];
   counter retrievalServed (rs_Txs s) [str "txs"];
   counter retrievalServed (rs_Block s) [str "block"];
   counter retrievalMisses (rs_Miss s) [];
   counter retrievalErrors (rs_Errors s) [];
   counter retrievalUnserved (rs_UnservedChainSync s) [str "chain_sync"];
   counter retrievalUnserved (u64 (rs_UnservedRoute s - rs_UnservedChainSync s)) [str "other"]].

Definition collect_reverse (s : reverse_Stats_t) : list call :=
  [counter reversePublished (vs_SubtreesUp s) [str "subtree"];
   counter reversePublished (vs_BlocksUp s) [str "block"];
   counter reverseSkipped (vs_RemoteSkipped s) [str "remote_origin"];
   counter reverseSkipped (vs_Skipped s) [str "unavailable"];
   counter reverseSkipped (vs_ForeignSkipped s) [str "foreign_origin"];
   counter reverseSkipped (vs_Gated s) [str "not_ready"];
   counter reverseSkipped (vs_StandbyHeld s) [str "standby"];
   gauge submitterActive (if vs_Active s then 1 else 0) [];
   counter reverseFailures (vs_Failures s) [];
   counter reverseReconnects (vs_Reconnects s) []].

Definition collect_up (u : option UpStats) : list call :=
  match u with
  | None => []
  | Some s =>
      let class := [us_Class s] in
      [counter upObjects (us_Sent s) class; counter upBytes (us_Bytes s) class;
       counter upFailures (us_Failures s) class; counter upRedials (us_Redials s) class]
  end.

Definition optional {A} (f : A → list call) (o : option A) : list call :=
  match o with Some a => f a | None => [] end.

Definition collect_identity (r : Recorder) : list call :=
  gauge buildInfo 1 [version r; instance r]
  :: optional (λ labels, [gauge hostInfoDesc 1 labels]) (host r)
  ++ [counter echoVerified (echoOK r) []; counter echoMismatch (echoBad r) []].

(** The calls of one scrape, in order. *)
Definition calls (r : Recorder) : list call :=
  collect_identity r
  ++ (Lanes (src r) ≫= collect_lane)
  ++ optional (emitCache "object") (Objects (src r))
  ++ optional (λ t, emitCache "tx" (fst t)) (Txs (src r))
  ++ optional (collect_seen (Txs (src r))) (Seen (src r))
  ++ optional collect_pipe (Tx (src r))
  ++ optional collect_announce (Announce (src r))
  ++ optional collect_retrieval (Retrieval (src r))
  ++ optional collect_reverse (Reverse (src r))
  ++ (UpTunnels (src r) ≫= collect_up).

Definition Collect (r : Recorder) : list metric := calls r ≫= emit (legacyOn r).

(** [/healthz] and [/readyz]. *)
Definition healthz : Z * gostring := (200, str "ok" ++ [x0a]).
Definition readyz (r : Recorder) : Z * gostring :=
  if negb (ready r) then (503, str "not ready" ++ [x0a]) else (200, str "ready" ++ [x0a]).
End metrics.

Import metrics.

(** ** Descriptors *)

#[global] Instance desc_eq_decision : EqDecision desc.
Proof. solve_decision. Defined.
#[global] Instance pair_eq_decision : EqDecision pair.
Proof. solve_decision. Defined.
#[global] Instance valueType_eq_decision : EqDecision valueType.
Proof. solve_decision. Defined.

(** The naming rule of the descriptor table: counters, and only they, end in
    [_total]. *)
Definition ends_total (n : string) : bool :=
  bool_decide (drop (length (str n) - 6) (str n) = str "_total").

Definition type_of (n : string) : valueType := if ends_total n then CounterValue else GaugeValue.

(** A call the client library accepts: a described series, the right number of
    label values, the type its name says. *)
Definition call_ok (c : call) : bool :=
  bool_decide (c_pair c ∈ allPairs)
  && (length (c_labels c) =? length (labelNames (modern (c_pair c))))%nat
  && bool_decide (c_type c = type_of (fqName (modern (c_pair c)))).

(** Both names of a pair have the same labels and the same suffix. *)
Definition alias_ok (p : pair) : bool :=
  match legacy p with
  | Some l => bool_decide (labelNames l = labelNames (modern p))
              && bool_decide (type_of (fqName l) = type_of (fqName (modern p)))
  | None => true
  end.

Lemma aliases_ok : forallb alias_ok allPairs = true.
Proof. vm_compute. reflexivity. Qed.

Ltac calls_ok := repeat (constructor; [vm_compute; reflexivity|]); constructor.

Lemma optional_Forall {A} (P : call → Prop) f (o : option A) :
  (∀ a, o = Some a → Forall P (f a)) → Forall P (optional f o).
Proof. destruct o; cbn; [auto|constructor]. Qed.

Lemma bind_Forall {A} (P : call → Prop) (f : A → list call) l :
  (∀ a, Forall P (f a)) → Forall P (l ≫= f).
Proof. intros H. induction l as [|a l IH]; [constructor|]. rewrite bind_cons. apply Forall_app. auto. Qed.

(** The recorder's host labels, when set, are the seven of [newHostLabels]. *)
Definition host_ok (r : Recorder) : Prop := ∀ l, host r = Some l → length l = 7%nat.

Lemma calls_ok_all r : host_ok r → Forall (λ c, call_ok c = true) (calls r).
Proof.
  intros Hh. unfold calls. rewrite !Forall_app. split_and!.
  - unfold collect_identity. constructor; [vm_compute; reflexivity|]. apply Forall_app. split; [|calls_ok].
    apply optional_Forall. intros l Hl. constructor; [|constructor]. unfold call_ok.
    cbn [c_labels gauge c_pair c_type]. rewrite (Hh l Hl). vm_compute. reflexivity.
  - apply bind_Forall. intros s. calls_ok.
  - apply optional_Forall. intros s _. calls_ok.
  - apply optional_Forall. intros s _. calls_ok.
  - apply optional_Forall. intros s _. unfold collect_seen. destruct (Txs (src r)) as [[]|]; calls_ok.
  - apply optional_Forall. intros s _. calls_ok.
  - apply optional_Forall. intros s _. calls_ok.
  - apply optional_Forall. intros s _. calls_ok.
  - apply optional_Forall. intros s _. unfold collect_reverse. calls_ok.
  - apply bind_Forall. intros [s|]; calls_ok.
Qed.

Lemma elem_of_emit dual c m :
  m ∈ emit dual c ↔
  ∃ d, d ∈ descs dual (c_pair c) ∧ m = mkMetric d (c_type c) (c_value c) (c_labels c).
Proof.
  unfold emit, descs. destruct (legacy (c_pair c)) as [l|], dual;
    setoid_rewrite elem_of_cons; setoid_rewrite elem_of_cons || idtac; setoid_rewrite elem_of_nil; naive_solver.
Qed.

(** ** No series twice *)

Definition key (c : call) : pair * list gostring := (c_pair c, c_labels c).
Definition series (m : metric) : string * list gostring := (fqName (m_desc m), m_labels m).

(** No two of the names in the table, modern or legacy, coincide. *)
Definition names_apart (p q : pair) : bool :=
  bool_decide (p = q) ||
  forallb (λ d, forallb (λ d', negb (bool_decide (fqName d = fqName d'))) (descs true q)) (descs true p).

Lemma table_apart : forallb (λ p, forallb (names_apart p) allPairs) allPairs = true.
Proof. vm_compute. reflexivity. Qed.

Lemma descs_dual dual p d : d ∈ descs dual p → d ∈ descs true p.
Proof. unfold descs. destruct (legacy p), dual; set_solver. Qed.

Lemma name_pair p q d d' :
  p ∈ allPairs → q ∈ allPairs → d ∈ descs true p → d' ∈ descs true q → fqName d = fqName d' → p = q.
Proof.
  intros Hp Hq Hd Hd' E. pose proof table_apart as H. rewrite forallb_forall in H.
  apply list_elem_of_In in Hp, Hq, Hd, Hd'. specialize (H p Hp). rewrite forallb_forall in H.
  specialize (H q Hq). unfold names_apart in H. apply orb_true_iff in H as [H%bool_decide_eq_true|H]; [done|].
  rewrite forallb_forall in H. specialize (H d Hd). rewrite forallb_forall in H. specialize (H d' Hd').
  apply negb_true_iff, bool_decide_eq_false in H. done.
Qed.

Lemma pair_names dual p : p ∈ allPairs → NoDup (fqName <$> descs dual p).
Proof.
  intros Hp. assert (forallb (λ p, bool_decide (NoDup (fqName <$> descs true p))) allPairs = true) as H
    by (vm_compute; reflexivity).
  rewrite forallb_forall in H. apply list_elem_of_In, H, bool_decide_eq_true in Hp.
  revert Hp. unfold descs. destruct (legacy p), dual; try done. intros _. apply NoDup_singleton.
Qed.

Lemma emit_series dual c : series <$> emit dual c = (λ d, (fqName d, c_labels c)) <$> descs dual (c_pair c).
Proof. unfold emit, descs. by destruct (legacy (c_pair c)), dual. Qed.

Lemma emit_apart dual cs :
  Forall (λ c, c_pair c ∈ allPairs) cs → NoDup (key <$> cs) → NoDup (series <$> (cs ≫= emit dual)).
Proof.
  induction cs as [|c cs IH]; intros Hp Hn; [constructor|].
  apply Forall_cons in Hp as [Hc Hp]. rewrite fmap_cons in Hn. apply NoDup_cons in Hn as [Hk Hn].
  rewrite bind_cons, fmap_app. apply NoDup_app. split_and!; [| |by apply IH].
  - rewrite emit_series. pose proof (pair_names dual (c_pair c) Hc) as H.
    change (NoDup ((λ n, (n, c_labels c)) ∘ fqName <$> descs dual (c_pair c))). rewrite list_fmap_compose.
    apply NoDup_fmap_2; [|done]. by intros ? ? [= ?].
  - intros s H1 H2. rewrite emit_series in H1. apply list_elem_of_fmap in H1 as (d & -> & Hd).
    apply list_elem_of_fmap in H2 as (m & E & Hm).
    apply list_elem_of_bind in Hm as (c' & Hm & Hc').
    apply elem_of_emit in Hm as (d' & Hd' & ->). unfold series in E. cbn in E. injection E as En El.
    destruct Hk. apply list_elem_of_fmap. exists c'. split; [|done]. unfold key. f_equal; [|done].
    rewrite list.Forall_forall in Hp.
    by eapply (name_pair _ _ d d'); [..|by apply (descs_dual dual)|by apply (descs_dual dual)|]; auto.
Qed.

(** The table, by the part of the scrape that uses it. *)
Definition groups : list (list pair) := [
  [buildInfo; hostInfoDesc; echoVerified; echoMismatch];
  [laneConns; laneActive; laneObjects; laneBytes; laneErrors; laneDropped; laneRejected];
  [cacheEntries; cacheBytes; cacheStored; cacheHits; cacheMisses; cacheEvicted; cacheExpired];
  [registryEntries; registryDups];
  [submitTotal; pipeEnqueued; pipeBatches; pipeSeals; pipeRetried; pipeRetryOK; pipeUnattributed;
   pipeRateLimited; pipeQueue];
  [announceTotal; announceFailures; announceBuffered; announceAwaitingPull];
  [retrievalServed; retrievalMisses; retrievalErrors; retrievalUnserved];
  [reversePublished; reverseSkipped; submitterActive; reverseFailures; reverseReconnects];
  [upObjects; upBytes; upFailures; upRedials]
].

Fixpoint group_of (gs : list (list pair)) (p : pair) : nat :=
  match gs with
  | [] => 0
  | g :: gs => if bool_decide (p ∈ g) then 0 else S (group_of gs p)
  end.

Definition in_group (i : nat) (c : call) : Prop := group_of groups (c_pair c) = i.

Lemma mjoin_cons {A} (g : list A) gs : mjoin (g :: gs) = g ++ mjoin gs.
Proof. done. Qed.

Lemma concat_groups k gs :
  (∀ i g, gs !! i = Some g → Forall (in_group (k + i)) g ∧ NoDup (key <$> g)) →
  NoDup (key <$> mjoin gs).
Proof.
  revert k. induction gs as [|g gs IH]; intros k H; [constructor|]. rewrite mjoin_cons, fmap_app.
  destruct (H 0%nat g eq_refl) as [Hg Hn]. rewrite Nat.add_0_r in Hg. rewrite list.Forall_forall in Hg.
  apply NoDup_app. split_and!; [done| |apply (IH (S k)); intros i g' Hi; rewrite Nat.add_succ_comm; by apply (H (S i))].
  intros x (c & -> & Hc)%list_elem_of_fmap (c' & E & (g' & Hc' & Hg')%list_elem_of_join)%list_elem_of_fmap.
  apply list_elem_of_lookup in Hg' as [i Hi]. destruct (H (S i) g' Hi) as [Hf _].
  rewrite list.Forall_forall in Hf. apply Hf in Hc'. apply Hg in Hc. unfold in_group, key in *.
  injection E as Ep _. rewrite Ep in Hc. lia.
Qed.

(** Calls with distinct descriptors are distinct series. *)
Lemma distinct_pairs cs : NoDup (c_pair <$> cs) → NoDup (key <$> cs).
Proof.
  intros H. apply (NoDup_fmap_1 fst). rewrite <- list_fmap_compose.
  by rewrite (list_fmap_ext _ c_pair) by done.
Qed.

(** One group per member of a list: distinct when the members' labels are. *)
Lemma per_member {A} (f : A → list call) (lab : A → gostring) l :
  (∀ a, Forall (λ c, c_labels c = [lab a]) (f a)) → (∀ a, NoDup (key <$> f a)) → NoDup (lab <$> l) →
  NoDup (key <$> (l ≫= f)).
Proof.
  intros Hl Hk. induction l as [|a l IH]; intros Hn; [constructor|].
  rewrite fmap_cons in Hn. apply NoDup_cons in Hn as [Ha Hn].
  rewrite bind_cons, fmap_app. apply NoDup_app. split_and!; [done| |by apply IH].
  intros x (c & -> & Hc)%list_elem_of_fmap (c' & E & (b & Hc' & Hb)%list_elem_of_bind)%list_elem_of_fmap.
  pose proof (Hl a) as H1. rewrite list.Forall_forall in H1. apply H1 in Hc.
  pose proof (Hl b) as H2. rewrite list.Forall_forall in H2. apply H2 in Hc'.
  injection E as _ E. rewrite Hc, Hc' in E. injection E as E. destruct Ha. rewrite E.
  apply list_elem_of_fmap. eauto.
Qed.

Definition up_classes (s : Sources) : list gostring := us_Class <$> omap (λ u, u) (UpTunnels s).

Lemma collect_up_omap l : l ≫= collect_up = omap (λ u, u) l ≫= λ s, collect_up (Some s).
Proof.
  induction l as [|[s|] l IH]; [done|..]; rewrite bind_cons, IH; [|done].
  cbn [omap list_omap]. by rewrite bind_cons.
Qed.

Ltac in_groups := repeat (constructor; [vm_compute; reflexivity|]); constructor.
Ltac concrete := apply (bool_decide_unpack _); vm_compute; exact I.

Lemma lanes_group (l : list lanes.Stats_t) :
  NoDup (lanes.st_Name <$> l) →
  Forall (in_group 1) (l ≫= collect_lane) ∧ NoDup (key <$> (l ≫= collect_lane)).
Proof.
  intros Hn. split; [apply bind_Forall; intros s; in_groups|].
  apply (per_member _ lanes.st_Name); [|intros s; apply distinct_pairs; concrete|done].
  intros s. by repeat constructor.
Qed.

Lemma up_group s :
  NoDup (up_classes s) →
  Forall (in_group 8) (UpTunnels s ≫= collect_up) ∧ NoDup (key <$> (UpTunnels s ≫= collect_up)).
Proof.
  intros Hn. rewrite collect_up_omap. split; [apply bind_Forall; intros u; in_groups|].
  apply (per_member _ us_Class); [|intros u; apply distinct_pairs; concrete|done].
  intros u. by repeat constructor.
Qed.

Lemma calls_distinct r :
  NoDup (lanes.st_Name <$> Lanes (src r)) → NoDup (up_classes (src r)) → NoDup (key <$> calls r).
Proof.
  intros Hl Hu. destruct (lanes_group _ Hl) as [L1 L2], (up_group _ Hu) as [U1 U2].
  set (gs := [collect_identity r; Lanes (src r) ≫= collect_lane;
    optional (emitCache "object") (Objects (src r)) ++ optional (λ t, emitCache "tx" (fst t)) (Txs (src r));
    optional (collect_seen (Txs (src r))) (Seen (src r)); optional collect_pipe (Tx (src r));
    optional collect_announce (Announce (src r)); optional collect_retrieval (Retrieval (src r));
    optional collect_reverse (Reverse (src r)); UpTunnels (src r) ≫= collect_up]).
  assert (calls r = mjoin gs) as ->.
  { unfold calls, gs. rewrite !mjoin_cons. change (mjoin []) with (@nil call).
    by rewrite app_nil_r, <- !app_assoc. }
  apply (concat_groups 0). unfold gs. intros i g Hg. cbn [Nat.add].
  destruct i as [|[|[|[|[|[|[|[|[|i]]]]]]]]]; [injection Hg as <-..|done]; try done.
  - unfold collect_identity. destruct (host r) as [h|]; cbn [optional app];
      (split; [in_groups|apply distinct_pairs; concrete]).
  - destruct (Objects (src r)), (Txs (src r)) as [[]|]; cbn [optional app]; (split; [in_groups|concrete]).
  - destruct (Seen (src r)), (Txs (src r)) as [[]|]; (split; [in_groups|concrete]).
  - destruct (Tx (src r)); (split; [in_groups|concrete]).
  - destruct (Announce (src r)); (split; [in_groups|concrete]).
  - destruct (Retrieval (src r)); (split; [in_groups|concrete]).
  - destruct (Reverse (src r)); (split; [in_groups|concrete]).
Qed.

(** ** The unserved-route counters

    [notFound] counts a chain-sync request in two atomic steps, and [Stats]
    loads the two counters one after the other. *)

(** The two counters, the chain-sync requests between their two steps, and the
    other requests so far. *)
Record unserved : Type := mkUnserved { u_route : Z; u_chain : Z; u_open : Z; u_other : Z }.
Definition unserved0 : unserved := mkUnserved 0 0 0 0.

Inductive unserved_step : unserved → unserved → Prop :=
| chain_first s :   (** [s.missChainSync.Add(1)] *)
    unserved_step s (mkUnserved (u_route s) (u_chain s + 1) (u_open s + 1) (u_other s))
| chain_second s :  (** its [s.missRoute.Add(1)] *)
    0 < u_open s →
    unserved_step s (mkUnserved (u_route s + 1) (u_chain s) (u_open s - 1) (u_other s))
| other_request s :
    unserved_step s (mkUnserved (u_route s + 1) (u_chain s) (u_open s) (u_other s + 1)).

(** The value of the [other] series when the route counter is loaded in state
    [s1] and the chain-sync counter in state [s2]. *)
Definition other_value (s1 s2 : unserved) : Z := u64 (u_route s1 - u_chain s2).

Lemma unserved_balance s : rtc unserved_step unserved0 s →
  u_route s = u_chain s - u_open s + u_other s ∧ 0 ≤ u_open s ∧ 0 ≤ u_other s ∧ u_open s ≤ u_chain s.
Proof.
  revert s. apply (rtc_ind_r (λ s, u_route s = u_chain s - u_open s + u_other s ∧ 0 ≤ u_open s
    ∧ 0 ≤ u_other s ∧ u_open s ≤ u_chain s)); [cbn; lia|].
  intros s1 s2 _ Hs IH. destruct Hs; cbn in *; lia.
Qed.

(** ** Theorems *)

(** C37: Every metric of a scrape is one the client library accepts: its
    descriptor is among those [Describe] announces, it carries one label value
    per label name, and it is a counter exactly when its name ends in
    [_total]; so [MustNewConstMetric] never panics in a scrape. *)
Theorem scrape_well_typed (r : Recorder) :
  (∀ l, host r = Some l → length l = 7%nat) →
  Forall (λ m, m_desc m ∈ Describe (legacyOn r) ∧
               length (m_labels m) = length (labelNames (m_desc m)) ∧
               (m_type m = CounterValue ↔ ends_total (fqName (m_desc m)) = true)) (Collect r).
Proof.
  intros Hh. apply list.Forall_forall. intros m (c & Hm & Hc)%list_elem_of_bind.
  pose proof (calls_ok_all r Hh) as Hok. rewrite list.Forall_forall in Hok. apply Hok in Hc.
  unfold call_ok in Hc. apply andb_true_iff in Hc as [[Hp%bool_decide_eq_true Hl%Nat.eqb_eq]%andb_true_iff Ht%bool_decide_eq_true].
  apply elem_of_emit in Hm as (d & Hd & ->). cbn [m_desc m_labels m_type].
  assert (labelNames d = labelNames (modern (c_pair c)) ∧ type_of (fqName d) = type_of (fqName (modern (c_pair c)))) as [El Et].
  { pose proof aliases_ok as Ha. rewrite forallb_forall in Ha.
    pose proof (Ha _ (proj1 (list_elem_of_In _ _) Hp)) as Hal. unfold alias_ok in Hal. unfold descs in Hd.
    destruct (legacy (c_pair c)) as [l|], (legacyOn r); rewrite ?andb_true_iff, ?bool_decide_eq_true in Hal; set_solver. }
  split_and!; [|congruence|].
  - unfold Describe. apply list_elem_of_bind. eauto.
  - rewrite Ht, <- Et. unfold type_of. by destruct (ends_total _).
Qed.

(** C36: A scrape never reports a series twice, which the registry would refuse as
    a whole: with distinct lane names and distinct tunnel classes, no two
    metrics of it share name and label values, modern and legacy names
    together. *)
Theorem scrape_unique (r : Recorder) :
  (∀ l, host r = Some l → length l = 7%nat) →
  NoDup (lanes.st_Name <$> Lanes (src r)) → NoDup (up_classes (src r)) →
  NoDup (series <$> Collect r).
Proof.
  intros Hh Hl Hu. apply emit_apart; [|by apply calls_distinct].
  eapply Forall_impl; [by apply calls_ok_all|]. intros c Hc. unfold call_ok in Hc.
  by apply andb_true_iff in Hc as [[Hp%bool_decide_eq_true _]%andb_true_iff _].
Qed.

Definition with_legacy (b : bool) (r : Recorder) : Recorder :=
  mkRecorder (src r) (version r) (instance r) (ready r) (host r) (echoOK r) (echoBad r) (strict r) b.

Definition is_modern (m : metric) : bool := String.prefix modernPrefix (fqName (m_desc m)).

(** The legacy prefix only adds aliases: a scrape with it is the plain scrape
    with, after each series that existed under the old name, the same value
    under that name; dropping the aliases gives the plain scrape back. *)
Theorem legacy_only_adds (r : Recorder) :
  (∀ l, host r = Some l → length l = 7%nat) →
  filter (λ m, is_modern m = true) (Collect (with_legacy true r)) = Collect (with_legacy false r).
Proof.
  intros Hh. unfold Collect. change (calls (with_legacy ?b r)) with (calls r).
  cbn [legacyOn with_legacy]. pose proof (calls_ok_all r Hh) as Hok.
  induction Hok as [|c cs Hc _ IH]; [done|]. rewrite !bind_cons, filter_app, IH. f_equal.
  unfold call_ok in Hc. apply andb_true_iff in Hc as [[Hp%bool_decide_eq_true%list_elem_of_In _]%andb_true_iff _].
  assert (forallb (λ p, String.prefix modernPrefix (fqName (modern p)) &&
    match legacy p with Some l => negb (String.prefix modernPrefix (fqName l)) | None => true end) allPairs = true) as H
    by (vm_compute; reflexivity).
  rewrite forallb_forall in H. apply H, andb_true_iff in Hp as [H1 H2].
  unfold emit. rewrite filter_cons_True by done. f_equal.
  destruct (legacy (c_pair c)) as [l|]; [|done]. rewrite filter_cons_False, filter_nil; [done|].
  apply negb_true_iff in H2. unfold is_modern. cbn [m_desc]. by rewrite H2.
Qed.

(** When no unserved request is in progress, a scrape splits the unserved
    requests exactly: the [other] series counts those that were not for a
    chain-sync route. *)
Theorem unserved_split_exact (s : unserved) :
  rtc unserved_step unserved0 s → u_open s = 0 → u_route s < two64 → other_value s s = u_other s.
Proof.
  intros Hr Ho Hb. destruct (unserved_balance s Hr) as (E & _ & H0 & Hc). unfold other_value.
  rewrite u64_small by lia. lia.
Qed.

(** A chain-sync request in progress makes the [other] counter wrap: it is
    counted in one counter before the other, and the series is an unsigned
    difference of the two, so a scrape in between reports [2^64 - 1] requests
    for other routes where there was none. *)
Theorem unserved_split_wraps :
  ∃ s, rtc unserved_step unserved0 s ∧ u_other s = 0 ∧ other_value s s = two64 - 1 ∧
       last (collect_retrieval (mkRetrievalStats 0 0 0 0 0 0 (u_route s) (u_chain s)))
       = Some (counter retrievalUnserved (two64 - 1) [str "other"]).
Proof.
  exists (mkUnserved 0 1 1 0). split_and!; [|done..]. apply rtc_once, (chain_first unserved0).
Qed.

(** ** Witnesses *)

Definition mx_lane (n : gostring) : lanes.Stats_t := lanes.mkStats n 1 2 3 0 0 0 1.
Definition mx_rec : Recorder :=
  SetHostInfo (mkInv (str "h") (str "6.1") 8 1024 (str "v1")
                 [mkIface (str "down") [] [] (str "lo") 0; mkIface (str "up") [str "10.0.0.1"] [] (str "eth0") 1000])
    (SetSources (mkSources [mx_lane (str "tx"); mx_lane (str "subtree"); mx_lane (str "block")]
       (Some (cache.mkStats 1 2 3 4 5 6 7 8 9)) (Some (cache.mkStats 1 2 3 4 5 6 7 8 9, cache.mkStats 1 2 3 4 5 6 7 8 10))
       (Some (registry.mkStats 1 2 3 4)) None None None None
       [Some (mkUpStats (str "subtree") 1 2 0 1); None; Some (mkUpStats (str "block") 1 2 0 1)])
      (metrics.New (str "v1") (str "i0") true false)).

Lemma mx_host l : host mx_rec = Some l → length l = 7%nat.
Proof. vm_compute. intros [= <-]. reflexivity. Qed.

Lemma scrape_well_typed_witness :
  Forall (λ m, length (m_labels m) = length (labelNames (m_desc m))) (Collect mx_rec) ∧
  length (Collect mx_rec) = 95%nat.
Proof.
  split; [|vm_compute; reflexivity].
  eapply Forall_impl; [apply (scrape_well_typed mx_rec mx_host)|]. by intros m (_ & H & _).
Defined.

Lemma scrape_unique_witness : NoDup (series <$> Collect mx_rec).
Proof.
  apply (scrape_unique mx_rec mx_host).
  - apply (bool_decide_unpack _). vm_compute. exact I.
  - apply (bool_decide_unpack _). vm_compute. exact I.
Defined.

Lemma legacy_only_adds_witness :
  filter (λ m, is_modern m = true) (Collect mx_rec) = Collect (with_legacy false mx_rec).
Proof. apply (legacy_only_adds mx_rec mx_host). Defined.

Lemma unserved_split_exact_witness : other_value (mkUnserved 2 1 0 1) (mkUnserved 2 1 0 1) = 1.
Proof.
  apply (unserved_split_exact (mkUnserved 2 1 0 1)); [|reflexivity|vm_compute; reflexivity].
  eapply rtc_l; [apply (chain_first unserved0)|].
  eapply rtc_l; [apply chain_second; reflexivity|]. apply rtc_once. apply (other_request (mkUnserved 1 1 0 0)).
Defined.
