(* ===== verification/Startup.v ===== *)
(** * Start-up: from flags to running components

    The construction half of [main] in [src/cmd/teranode-bridge/main.go], the
    socket activation it uses ([src/internal/activation]), the health probe of
    the propagation endpoints, and the transport credentials of the blockchain
    connection ([src/reverse/dial.go], [reverse.New]). [start] is a function
    from the flags and what the operating system answers to an exit code or to
    a [plan]: which components exist, how they are wired and which tasks run.
    Listening sockets, files, certificates and the gRPC client are the
    operating system's and the libraries'; they are arguments. *)

From Stdlib Require Import Strings.Byte.
From stdpp Require Import base list strings numbers gmap pretty.
From S2P Require Import Prelude HashId Objfmt Generational Registry TxBuild Submit Handlers FirstPull Announce Health Retrieval Reverse Metrics.
Import bridge.

(** ** Socket activation *)

(** [strconv.Atoi]: an optional sign and decimal digits, in range. *)
Definition digit (c : byte) : option Z :=
  let v := byte_val c in if (48 <=? v) && (v <=? 57) then Some (v - 48) else None.
Fixpoint digits (s : gostring) (acc : Z) : option Z :=
  match s with
  | [] => Some acc
  | c :: s => match digit c with Some d => digits s (10 * acc + d) | None => None end
  end.
Definition Atoi (s : gostring) : option Z :=
  let '(neg, d) := match s with
                   | x2d :: d => (true, d)
                   | x2b :: d => (false, d)
                   | _ => (false, s)
                   end in
  match d with
  | [] => None
  | _ =>
      match digits d 0 with
      | Some v =>
          let v := if neg : bool then - v else v in
          if (- two63 <=? v) && (v <? two63) then Some v else None
      | None => None
      end
  end.

(** [strings.Split(v, ":")]. *)
Definition split_colons (s : gostring) : list gostring := split_on x3a s.

Module activation.
Definition listenFdsStart : Z := 3.

Section activation.
(** [FileListener]: the listener behind a descriptor, or an error. *)
Context {L : Type} (FileListener : Z → option L).

(** The name of socket [i], at descriptor [fd]. *)
Definition socket_name (names : list gostring) (i : nat) (fd : Z) : gostring :=
  match names !! i with
  | Some n => if bool_decide (n = []) then str "fd" ++ str (pretty fd) else n
  | None => str "fd" ++ str (pretty fd)
  end.

(** The loop from socket [i] with [k] to go. *)
Fixpoint adopt (k : nat) (i : nat) (names : list gostring) (start : Z) (out : gmap gostring L)
    : res unit * gmap gostring L :=
  match k with
  | O => (Ok tt, out)
  | S k =>
      let fd := start +i Z.of_nat i in
      let name := socket_name names i fd in
      match FileListener fd with
      | None => (Err (EMsg "activation: socket"), out)
      | Some l => adopt k (S i) names start (<[name := l]> out)
      end
  end.

Definition fromEnv (getenv : string → gostring) (pid start : Z) : res unit * gmap gostring L :=
  if bool_decide (getenv "LISTEN_PID" = []) then (Ok tt, ∅) else
  match Atoi (getenv "LISTEN_PID") with
  | None => (Ok tt, ∅)
  | Some p =>
      if negb (p =? pid) then (Ok tt, ∅) else
      match Atoi (getenv "LISTEN_FDS") with
      | None => (Err (EMsg "activation: LISTEN_FDS"), ∅)
      | Some n =>
          if n <? 0 then (Err (EMsg "activation: LISTEN_FDS"), ∅) else
          let v := getenv "LISTEN_FDNAMES" in
          let names := if bool_decide (v = []) then [] else split_colons v in
          adopt (Z.to_nat n) 0 names start ∅
      end
  end.

(** [Listeners]: the result, and the environment without the three variables. *)
Definition Listeners (env : gmap string gostring) (pid : Z) : res unit * gmap gostring L * gmap string gostring :=
  (fromEnv (λ k, default [] (env !! k)) pid listenFdsStart,
   delete "LISTEN_PID" (delete "LISTEN_FDS" (delete "LISTEN_FDNAMES" env))).
End activation.
End activation.

(** ** The blockchain connection *)

Module dial.
Record TLSConfig : Type := mkTLS {
  SecurityLevel : Z; CertFile : gostring; KeyFile : gostring; CACertFile : gostring
}.

(** The transport credentials: plaintext, TLS without verifying the server, or
    TLS presenting a client certificate and verifying against a pool. *)
Inductive creds (Cert : Type) : Type :=
| Plaintext
| TLSUnverified
| TLSMutual (cert : Cert) (rootCAs : list byte).
Arguments Plaintext {Cert}.
Arguments TLSUnverified {Cert}.
Arguments TLSMutual {Cert} cert rootCAs.

Section credentials.
Context {Cert : Type} (ReadFile : gostring → option (list byte)) (AppendCertsFromPEM : list byte → bool)
  (LoadX509KeyPair : gostring → gostring → option Cert).

Definition credentials (t : TLSConfig) : res (creds Cert) :=
  if SecurityLevel t =? 0 then Ok Plaintext
  else if SecurityLevel t =? 1 then Ok TLSUnverified
  else if (SecurityLevel t =? 2) || (SecurityLevel t =? 3) then
    _ ← guard_err (bool_decide (CACertFile t = []) || bool_decide (CertFile t = []) || bool_decide (KeyFile t = []))
          (EMsg "security level needs -blockchain-ca-cert, -blockchain-cert and -blockchain-key");
    match ReadFile (CACertFile t) with
    | None => Err (EMsg "read ca cert")
    | Some caCert =>
        _ ← guard_err (negb (AppendCertsFromPEM caCert)) (EMsg "ca cert contains no usable certificate");
        match LoadX509KeyPair (CertFile t) (KeyFile t) with
        | None => Err (EMsg "read key pair")
        | Some cert => Ok (TLSMutual cert caCert)
        end
    end
  else Err (EMsg "unknown security level (want 0-3)").

(** [reverse.New] as far as the connection: the source name, the credentials
    and the keepalive policy it dials with. [NewClient] is grpc's. *)
Context (NewClient : gostring → bool).

Record connection : Type := mkConn { c_source : gostring; c_creds : creds Cert; c_keepalive : reverse.ClientParameters }.

Definition New (addr source : gostring) (t : TLSConfig) (every timeout : Z) (permit : bool) : res connection :=
  _ ← guard_err (bool_decide (addr = [])) (EMsg "reverse: no blockchain address configured");
  let source := if bool_decide (source = []) then str "teranode-bridge" else source in
  match credentials t with
  | Panic => Panic
  | Err _ => Err (EMsg "reverse: blockchain transport security")
  | Ok c =>
      let '(ka, _) := reverse.keepaliveParams every timeout permit in
      if NewClient addr then Ok (mkConn source c ka) else Err (EMsg "reverse: dial")
  end.
End credentials.
End dial.

(** ** [main] *)

Module startup.
(** [probeHealth]: nil as soon as one endpoint answers 200, else the last
    failure. *)
Fixpoint probe_loop (http : gostring → health.get_outcome) (endpoints : list gostring) (lastErr : option error)
    : option error :=
  match endpoints with
  | [] => lastErr
  | ep :: endpoints =>
      match http (txpipe.TrimRight_slash ep ++ str "/health") with
      | health.GetError e => probe_loop http endpoints (Some e)
      | health.GetStatus code =>
          if code =? 200 then None else 
          probe_loop http endpoints (Some (health.Errorf (ep ++ str "/health: http " ++ health.itoa code)))
      end
  end.
Definition probeHealth (http : gostring → health.get_outcome) (endpoints : list gostring) : option error :=
  probe_loop http endpoints None.

(** The flags that decide what is built. *)
Record flags : Type := mkFlags {
  f_mode : gostring; f_propagation : list gostring; f_brokers : list gostring;
  f_advertise : gostring; f_peerID : gostring; f_apiPrefix : gostring;
  f_subtreeTopic : gostring; f_blockTopic : gostring;
  f_blockchain : gostring; f_localAsset : gostring; f_edgeIngress : gostring;
  f_subtreePort : Z; f_blockPort : Z;
  f_submitter : bool; f_submitProbe : gostring;
  f_tls : dial.TLSConfig; f_keepalive : Z; f_keepaliveTimeout : Z; f_pingIdle : bool;
  f_cacheBytes : Z; f_cacheTTL : Z; f_txCache : Z; f_drainFor : Z;
  f_pipe : txpipe.Config;    (** the batching flags; its endpoints are [f_propagation] *)
  f_clusterPoll : Z; f_metricsAddr : gostring; f_statsEvery : Z
}.

(** A delivery lane: its name, and the held listener if systemd passed one. *)
Record lane {L : Type} : Type := mkLane { l_Name : gostring; l_Listener : option L; l_Drain : Z }.
Arguments lane : clear implicits.
Arguments mkLane {L}.

Record tunnel : Type := mkTunnel { t_Class : gostring; t_Addrs : list gostring }.

(** The reverse path: its connection, publishers and role. *)
Record rev_plan {Cert : Type} : Type := mkRev {
  v_conn : dial.connection (Cert := Cert); v_subtrees : tunnel; v_blocks : tunnel; v_active : bool
}.
Arguments rev_plan : clear implicits.

(** The tasks started in the group, by what they run. *)
Inductive task : Type :=
| ServeLane (name : gostring) | ServeRetrieval | RunPipe | RunReverse | RunClusterState
| RunPromoter | ServeMetrics | AwaitReady | LogStats.

Record plan {L Cert : Type} : Type := mkPlan {
  p_txs : generational.Generational;
  p_pipe : option txpipe.Pipe;
  p_producer : option announce.Producer;
  p_baseURL : option gostring;    (** of the retrieval plane, when there is one *)
  p_lanes : list (lane L);
  p_rev : option (rev_plan Cert);
  p_tasks : list task
}.
Arguments plan : clear implicits.

Inductive outcome {L Cert : Type} : Type := Exit (code : Z) | Started (p : plan L Cert).
Arguments outcome : clear implicits.

Section main.
Context {L Cert : Type} (held : res unit * gmap gostring L)
  (ReadFile : gostring → option (list byte)) (AppendCertsFromPEM : list byte → bool)
  (LoadX509KeyPair : gostring → gostring → option Cert) (NewClient : gostring → bool)
  (KafkaClient : list gostring → bool).

Definition with_endpoints (c : txpipe.Config) (eps : list gostring) : txpipe.Config :=
  txpipe.mkConfig eps (txpipe.BatchTxs c) (txpipe.BatchBytes c) (txpipe.Linger c) (txpipe.Inflight c)
    (txpipe.RetryAttempts c) (txpipe.Timeout c) (txpipe.Queue c) (txpipe.Builders c).

Definition is_sink (f : flags) : bool := bool_decide (f_mode f = str "sink").
Definition is_txOnly (f : flags) : bool := bool_decide (f_mode f = str "tx").

(** [if !sink { txpipe.New(...) }]. *)
Definition build_pipe (f : flags) : res (option txpipe.Pipe) :=
  if is_sink f then Ok None else
  p ← txpipe.New (with_endpoints (f_pipe f) (f_propagation f)); Ok (Some p).

(** [if !sink && !txOnly { announce.New(...); retrieval.New(...) }]. *)
Definition build_announce (f : flags) : res (option (announce.Producer * gostring)) :=
  if is_sink f || is_txOnly f then Ok None else
  p ← announce.New KafkaClient (announce.mkConfig (f_brokers f) (f_subtreeTopic f) (f_blockTopic f) (f_peerID f) 0);
  Ok (Some (announce.SetFirstPull (Some (obs.NewFirstPull (2 ^ 16) (f_cacheTTL f))) p,
            retrieval.BaseURL (retrieval.api_prefix (f_apiPrefix f)) (f_advertise f))).

Definition lane_names (f : flags) : list gostring :=
  let all := [str "tx"; str "subtree"; str "block"] in
  if is_txOnly f then take 1 all else all.

Definition build_lanes (f : flags) (socks : gmap gostring L) : list (lane L) :=
  (λ n, mkLane n (socks !! n) (f_drainFor f)) <$> lane_names f.

Definition build_reverse (f : flags) : res (option (rev_plan Cert)) :=
  if is_sink f || bool_decide (f_blockchain f = []) then Ok None else
  c ← dial.New ReadFile AppendCertsFromPEM LoadX509KeyPair NewClient (f_blockchain f) (str "teranode-bridge")
        (f_tls f) (f_keepalive f) (f_keepaliveTimeout f) (f_pingIdle f);
  Ok (Some (mkRev Cert c
    (mkTunnel (str "subtree") (ingressAddrs (f_edgeIngress f) (f_subtreePort f)))
    (mkTunnel (str "block") (ingressAddrs (f_edgeIngress f) (f_blockPort f)))
    (f_submitter f))).

Definition tasks (f : flags) (lanes : list (lane L)) (ret pipe rev : bool) : list task :=
  (ServeLane ∘ l_Name <$> lanes)
  ++ (if ret then [ServeRetrieval] else [])
  ++ (if pipe then [RunPipe] else [])
  ++ (if rev then
        RunReverse :: (if 0 <? f_clusterPoll f then [RunClusterState] else [])
        ++ (if negb (bool_decide (f_submitProbe f = [])) && negb (f_submitter f) then [RunPromoter] else [])
      else [])
  ++ (if negb (bool_decide (f_metricsAddr f = [])) then [ServeMetrics] else [])
  ++ [AwaitReady]
  ++ (if 0 <? f_statsEvery f then [LogStats] else []).

(** The start-up sequence; each refusal is the exit code it ends with. *)
Definition start (now : Z) (f : flags) : outcome L Cert :=
  if negb (bool_decide (modeFlagsErr (f_mode f) (zlen (f_propagation f)) (zlen (f_brokers f))
             (f_advertise f) (f_peerID f) (f_blockchain f) = ""%string)) then Exit 2 else
  let txs := tx_cache now (f_txCache f) (f_cacheBytes f) (f_cacheTTL f) (is_txOnly f) in
  match build_pipe f with
  | Ok pipe =>
      match build_announce f with
      | Ok ann =>
          match held with
          | (Ok _, socks) =>
              let lanes := build_lanes f socks in
              if negb (is_sink f) && negb (bool_decide (f_blockchain f = []))
                 && (bool_decide (f_localAsset f = []) || bool_decide (f_edgeIngress f = []))
              then Exit 2 else
              match build_reverse f with
              | Ok rev =>
                  Started (mkPlan L Cert txs pipe (fst <$> ann) (snd <$> ann) lanes rev
                    (tasks f lanes (bool_decide (is_Some ann)) (bool_decide (is_Some pipe)) (bool_decide (is_Some rev))))
              | _ => Exit 1
              end
          | _ => Exit 1
          end
      | _ => Exit 1
      end
  | _ => Exit 1
  end.
End main.
End startup.

Import startup.

(** ** Socket activation *)

Section activation_facts.
Context {L : Type} (FileListener : Z → option L) (names : list gostring) (start : Z).

Let name (i : nat) : gostring := activation.socket_name names i (start +i Z.of_nat i).

Lemma adopt_spec k i out :
  (∀ j, (i ≤ j < i + k)%nat → is_Some (FileListener (start +i Z.of_nat j))) →
  (∀ j j', (i ≤ j < i + k)%nat → (i ≤ j' < i + k)%nat → name j = name j' → j = j') →
  ∃ m, activation.adopt FileListener k i names start out = (Ok tt, m) ∧
    (∀ j, (i ≤ j < i + k)%nat → m !! name j = FileListener (start +i Z.of_nat j)) ∧
    (∀ n, (∀ j, (i ≤ j < i + k)%nat → name j ≠ n) → m !! n = out !! n).
Proof.
  revert i out. induction k as [|k IH]; intros i out Hl Hn.
  { exists out. split_and!; [done|intros; lia|done]. }
  cbn [activation.adopt]. destruct (Hl i) as [l El]; [lia|]. rewrite El. fold (name i).
  destruct (IH (S i) (<[name i := l]> out)) as (m & E & Hm & Hr);
    [intros; apply Hl; lia|intros; apply Hn; (lia || done)|].
  exists m. split_and!; [done| |].
  - intros j Hj. destruct (decide (j = i)) as [->|]; [|apply Hm; lia].
    rewrite Hr, lookup_insert_eq; [done|]. intros j' Hj' E'. apply Hn in E'; lia.
  - intros n Hne. rewrite Hr, lookup_insert_ne; [done|apply Hne; lia|intros; apply Hne; lia].
Qed.

(** A descriptor that is not a listening socket stops the loop there. *)
Lemma adopt_error k i out j :
  (i ≤ j < i + k)%nat → FileListener (start +i Z.of_nat j) = None →
  ∃ m e, activation.adopt FileListener k i names start out = (Err e, m).
Proof.
  revert i out. induction k as [|k IH]; intros i out Hj Hf; [lia|]. cbn [activation.adopt].
  destruct (decide (j = i)) as [->|]; [rewrite Hf; eauto|].
  destruct (FileListener (start +i Z.of_nat i)); [|eauto]. apply IH; [lia|done].
Qed.
End activation_facts.

(** ** What the flags build *)

Section plans.
Context {L Cert : Type} (held : res unit * gmap gostring L)
  (ReadFile : gostring → option (list byte)) (AppendCertsFromPEM : list byte → bool)
  (LoadX509KeyPair : gostring → gostring → option Cert) (NewClient : gostring → bool)
  (KafkaClient : list gostring → bool).

Abbreviation run := (start held ReadFile AppendCertsFromPEM LoadX509KeyPair NewClient KafkaClient).
Abbreviation build_ann := (build_announce KafkaClient).
Abbreviation rev := (build_reverse ReadFile AppendCertsFromPEM LoadX509KeyPair NewClient).

(** The flags pass validation. *)
Definition flags_ok (f : flags) : Prop :=
  modeFlagsErr (f_mode f) (zlen (f_propagation f)) (zlen (f_brokers f))
    (f_advertise f) (f_peerID f) (f_blockchain f) = ""%string.

(** What validation settles, mode by mode. *)
Lemma flags_ok_modes f :
  flags_ok f →
  f_mode f = str "sink" ∨
  f_mode f = str "tx" ∧ f_propagation f ≠ [] ∧ f_blockchain f = [] ∨
  f_mode f = str "all" ∧ f_propagation f ≠ [] ∧ f_brokers f ≠ [] ∧ f_advertise f ≠ [] ∧ f_peerID f ≠ [].
Proof.
  unfold flags_ok, modeFlagsErr, announceFlagsErr. intros H.
  destruct (bool_decide (f_mode f = str "sink")) eqn:E1; [left; by apply bool_decide_eq_true in E1|right].
  destruct (bool_decide (f_mode f = str "tx")) eqn:E2.
  { left. apply bool_decide_eq_true in E2. destruct (f_propagation f); [done|]. split_and!; [done..|].
    cbn in H. by destruct (f_blockchain f). }
  right. destruct (bool_decide (f_mode f = str "all")) eqn:E3; [|done]. apply bool_decide_eq_true in E3.
  by destruct (f_propagation f), (f_brokers f), (f_advertise f), (f_peerID f).
Qed.

Lemma build_pipe_ok f : flags_ok f →
  ∃ p, build_pipe f = Ok p ∧ (is_Some p ↔ f_mode f ≠ str "sink").
Proof.
  intros H. unfold build_pipe, is_sink. destruct (flags_ok_modes f H) as [->|Hm].
  { exists None. split; [done|]. split; [by intros []|done]. }
  assert (f_mode f ≠ str "sink" ∧ f_propagation f ≠ []) as [Hne Hp] by (destruct Hm as [(-> & ? & ?)|(-> & ? & ?)]; done).
  rewrite bool_decide_eq_false_2 by done. unfold txpipe.New. cbn [with_endpoints txpipe.Endpoints].
  rewrite (proj2 (Z.eqb_neq _ _)) by (destruct (f_propagation f); cbn [length]; [done|lia]). rstep.
  eexists. split; [reflexivity|]. split; [done|eauto].
Qed.

(** The Kafka client can be made, where one is. *)
Definition kafka_ok (f : flags) : Prop := f_mode f = str "all" → KafkaClient (f_brokers f) = true.

Lemma build_announce_modes f : flags_ok f → f_mode f ≠ str "all" → build_ann f = Ok None.
Proof.
  intros H Hm. unfold build_announce, is_sink, is_txOnly.
  by destruct (flags_ok_modes f H) as [->|[(-> & _)|(? & _)]].
Qed.

Lemma build_announce_all f : flags_ok f → f_mode f = str "all" →
  match build_ann f with
  | Ok a => is_Some a ∧ KafkaClient (f_brokers f) = true
  | Err _ => KafkaClient (f_brokers f) = false
  | Panic => False
  end.
Proof.
  intros H Hm. unfold build_announce, is_sink, is_txOnly. rewrite Hm.
  change (bool_decide (str "all" = str "sink") || bool_decide (str "all" = str "tx")) with false. cbv iota.
  destruct (flags_ok_modes f H) as [E|[(E & _)|(_ & _ & Hb & _)]]; [by rewrite Hm in E..|].
  unfold announce.New. cbn [announce.Brokers announce.Timeout Z.leb Z.compare].
  rewrite (proj2 (Z.eqb_neq _ _)) by (destruct (f_brokers f); cbn [length]; [done|lia]). rstep.
  destruct (KafkaClient (f_brokers f)); cbn [negb]; rstep; eauto.
Qed.

Lemma build_announce_ok f : flags_ok f → kafka_ok f →
  ∃ a, build_ann f = Ok a ∧ (is_Some a ↔ f_mode f = str "all").
Proof.
  intros H Hk. destruct (decide (f_mode f = str "all")) as [Hm|Hm].
  - pose proof (build_announce_all f H Hm) as Ha. rewrite (Hk Hm) in Ha.
    destruct (build_ann f) as [a| |]; [|done..]. destruct Ha as [Hs _]. by exists a.
  - exists None. rewrite (build_announce_modes f H Hm). split; [done|]. by split; [intros []|].
Qed.

Lemma build_announce_inv f a : flags_ok f → build_ann f = Ok a → kafka_ok f ∧ (is_Some a ↔ f_mode f = str "all").
Proof.
  intros H E. destruct (decide (f_mode f = str "all")) as [Hm|Hm].
  - pose proof (build_announce_all f H Hm) as Ha. rewrite E in Ha.
    destruct Ha as [Hs Hc]. by split; [intros _|].
  - rewrite (build_announce_modes f H Hm) in E. injection E as <-.
    split; [by intros Hm'|]. by split; [intros []|].
Qed.

(** The reverse path is asked for: a cluster to subscribe to, outside sink mode. *)
Definition wants_reverse (f : flags) : Prop := f_mode f ≠ str "sink" ∧ f_blockchain f ≠ [].

Lemma build_reverse_spec f r :
  rev f = Ok r →
  (is_Some r ↔ wants_reverse f) ∧
  (∀ v, r = Some v → v_active v = f_submitter f ∧ t_Class (v_subtrees v) = str "subtree" ∧ t_Class (v_blocks v) = str "block").
Proof.
  unfold build_reverse, is_sink, wants_reverse.
  destruct (bool_decide (f_mode f = str "sink")) eqn:E1; cbn [orb].
  { intros [= <-]. apply bool_decide_eq_true in E1. split; [|done]. split; [by intros []|by intros []]. }
  apply bool_decide_eq_false in E1. destruct (bool_decide (f_blockchain f = [])) eqn:E2.
  { intros [= <-]. apply bool_decide_eq_true in E2. split; [|done]. split; [by intros []|by intros []]. }
  apply bool_decide_eq_false in E2. intros (c & _ & H)%res_bind_ok. injection H as <-.
  split; [split; [done|eauto]|]. by intros v [= <-].
Qed.

Lemma start_inv now f p :
  run now f = Started p →
  flags_ok f ∧ fst held = Ok tt ∧
  ∃ pipe ann r, build_pipe f = Ok pipe ∧ build_ann f = Ok ann ∧ rev f = Ok r ∧
    (wants_reverse f → f_localAsset f ≠ [] ∧ f_edgeIngress f ≠ []) ∧
    p = mkPlan L Cert (tx_cache now (f_txCache f) (f_cacheBytes f) (f_cacheTTL f) (is_txOnly f)) pipe
          (fst <$> ann) (snd <$> ann) (build_lanes f (snd held)) r
          (tasks f (build_lanes f (snd held)) (bool_decide (is_Some ann)) (bool_decide (is_Some pipe))
             (bool_decide (is_Some r))).
Proof.
  unfold start. fold (flags_ok f).
  destruct (bool_decide (flags_ok f)) eqn:Ef; [|done]. apply bool_decide_eq_true in Ef. cbn [negb].
  destruct (build_pipe f) as [pipe| |]; [|done..]. destruct (build_ann f) as [ann| |]; [|done..].
  destruct held as [[[]| |] socks]; [|done..].
  destruct (negb (is_sink f) && _ && _) eqn:Eg; [done|].
  destruct (rev f) as [r| |] eqn:Er; [|done..]. intros [= <-].
  split_and!; [done..|]. exists pipe, ann, r. split_and!; try done.
  intros [H1 H2]. unfold is_sink in Eg. rewrite !bool_decide_eq_false_2 in Eg by done. cbn [negb andb] in Eg.
  by apply orb_false_iff in Eg as [?%bool_decide_eq_false ?%bool_decide_eq_false].
Qed.
End plans.

Lemma elem_of_if {A} (b : bool) (l : list A) x : x ∈ (if b then l else []) ↔ b = true ∧ x ∈ l.
Proof. destruct b; [|rewrite elem_of_nil]; naive_solver. Qed.

Lemma elem_of_tasks {L} f (ls : list (lane L)) ret pipe rev t :
  t ∈ tasks f ls ret pipe rev ↔
  match t with
  | ServeLane n => n ∈ l_Name <$> ls
  | ServeRetrieval => ret = true
  | RunPipe => pipe = true
  | RunReverse => rev = true
  | RunClusterState => rev = true ∧ 0 < f_clusterPoll f
  | RunPromoter => rev = true ∧ f_submitProbe f ≠ [] ∧ f_submitter f = false
  | ServeMetrics => f_metricsAddr f ≠ []
  | AwaitReady => True
  | LogStats => 0 < f_statsEvery f
  end.
Proof.
  unfold tasks. repeat first [rewrite elem_of_app | rewrite elem_of_if | rewrite elem_of_cons].
  rewrite !elem_of_nil, !Z.ltb_lt, andb_true_iff, !negb_true_iff, !bool_decide_eq_false, list_elem_of_fmap.
  destruct t; rewrite ?list_elem_of_fmap; unfold compose; naive_solver.
Qed.

(** ** Theorems *)

(** What start-up needs is enough. *)
Lemma start_succeeds {L Cert : Type} (held : res unit * gmap gostring L)
    (ReadFile : gostring → option (list byte)) (AppendCertsFromPEM : list byte → bool)
    (LoadX509KeyPair : gostring → gostring → option Cert) (NewClient : gostring → bool)
    (KafkaClient : list gostring → bool) (now : Z) (f : flags) :
  flags_ok f → kafka_ok KafkaClient f → fst held = Ok tt →
  (wants_reverse f →
     f_localAsset f ≠ [] ∧ f_edgeIngress f ≠ [] ∧
     ∃ c, dial.New ReadFile AppendCertsFromPEM LoadX509KeyPair NewClient (f_blockchain f) (str "teranode-bridge")
            (f_tls f) (f_keepalive f) (f_keepaliveTimeout f) (f_pingIdle f) = Ok c) →
  ∃ p, start held ReadFile AppendCertsFromPEM LoadX509KeyPair NewClient KafkaClient now f = Started p.
Proof.
  intros Hf Hk Hh Hrev.
  destruct (build_pipe_ok f Hf) as (pipe & Ep & _), (build_announce_ok KafkaClient f Hf Hk) as (ann & Ea & _).
  unfold start. fold (flags_ok f). rewrite bool_decide_eq_true_2 by done. cbn [negb].
  rewrite Ep, Ea. destruct held as [[[]| |] socks]; [|done..].
  unfold build_reverse, is_sink. destruct (bool_decide (f_mode f = str "sink")) eqn:E1; cbn [negb andb orb]; [eauto|].
  destruct (bool_decide (f_blockchain f = [])) eqn:E2; cbn [negb andb]; [eauto|].
  apply bool_decide_eq_false in E1, E2. destruct Hrev as (H1 & H2 & c & Hc); [done|].
  rewrite !bool_decide_eq_false_2 by done. cbn [orb]. rewrite Hc. rstep. eauto.
Qed.

(** C35: Start-up refuses exactly what it should: the process starts if and only if
    the flags are valid for the mode, the sockets systemd passed are usable,
    the Kafka client can be made in full mode, and, when a reverse path is asked for outside sink mode, its asset and
    ingress flags are set and its connection can be made. *)
Theorem startup_exact {L Cert : Type} (held : res unit * gmap gostring L)
    (ReadFile : gostring → option (list byte)) (AppendCertsFromPEM : list byte → bool)
    (LoadX509KeyPair : gostring → gostring → option Cert) (NewClient : gostring → bool)
    (KafkaClient : list gostring → bool) (now : Z) (f : flags) :
  (∃ p, start held ReadFile AppendCertsFromPEM LoadX509KeyPair NewClient KafkaClient now f = Started p) ↔
  flags_ok f ∧ kafka_ok KafkaClient f ∧ fst held = Ok tt ∧
  (wants_reverse f →
     f_localAsset f ≠ [] ∧ f_edgeIngress f ≠ [] ∧
     ∃ c, dial.New ReadFile AppendCertsFromPEM LoadX509KeyPair NewClient (f_blockchain f) (str "teranode-bridge")
            (f_tls f) (f_keepalive f) (f_keepaliveTimeout f) (f_pingIdle f) = Ok c).
Proof.
  split.
  - intros (p & H). apply start_inv in H as (Hf & Hh & pipe & ann & r & _ & Ha & Hr & Hflags & _).
    apply build_announce_inv in Ha as [Hk _]; [|done]. split_and!; [done..|]. intros Hw. destruct (Hflags Hw) as [? ?]. split_and!; [done..|].
    destruct Hw as [H1 H2]. unfold build_reverse, is_sink in Hr. rewrite !bool_decide_eq_false_2 in Hr by done.
    cbn [orb] in Hr. apply res_bind_ok in Hr as (c & Hc & _). eauto.
  - intros (Hf & Hk & Hh & Hrev). by apply start_succeeds.
Qed.

(** A started bridge has what its mode needs and nothing else: transactions
    are submitted outside sink mode only, announcing and serving pulls happen
    in full mode only, the reverse path only where asked for and in full mode,
    and the lanes are the three delivery lanes, or the transaction lane alone;
    every component has its task, and the promoter runs only on a standby. *)
Theorem startup_wiring {L Cert : Type} (held : res unit * gmap gostring L)
    (ReadFile : gostring → option (list byte)) (AppendCertsFromPEM : list byte → bool)
    (LoadX509KeyPair : gostring → gostring → option Cert) (NewClient : gostring → bool)
    (KafkaClient : list gostring → bool) (now : Z) (f : flags) (p : plan L Cert) :
  start held ReadFile AppendCertsFromPEM LoadX509KeyPair NewClient KafkaClient now f = Started p →
  (is_Some (p_pipe p) ↔ f_mode f ≠ str "sink") ∧
  (is_Some (p_producer p) ↔ f_mode f = str "all") ∧ (is_Some (p_baseURL p) ↔ f_mode f = str "all") ∧
  (is_Some (p_rev p) ↔ f_mode f = str "all" ∧ f_blockchain f ≠ []) ∧
  l_Name <$> p_lanes p = (if decide (f_mode f = str "tx") then [str "tx"] else [str "tx"; str "subtree"; str "block"]) ∧
  (∀ n, ServeLane n ∈ p_tasks p ↔ n ∈ l_Name <$> p_lanes p) ∧
  (RunPipe ∈ p_tasks p ↔ is_Some (p_pipe p)) ∧ (ServeRetrieval ∈ p_tasks p ↔ is_Some (p_baseURL p)) ∧
  (RunReverse ∈ p_tasks p ↔ is_Some (p_rev p)) ∧
  (RunPromoter ∈ p_tasks p ↔ is_Some (p_rev p) ∧ f_submitProbe f ≠ [] ∧ f_submitter f = false).
Proof.
  intros H. apply start_inv in H as (Hf & _ & pipe & ann & r & Ep & Ea & Er & _ & ->).
  destruct (build_pipe_ok f Hf) as (? & Ep' & Hp). rewrite Ep' in Ep. injection Ep as ->.
  destruct (build_announce_inv _ f ann Hf Ea) as [_ Ha].
  destruct (build_reverse_spec _ _ _ _ f r Er) as [Hr _].
  cbn [p_pipe p_producer p_baseURL p_rev p_lanes p_tasks]. setoid_rewrite elem_of_tasks.
  rewrite !fmap_is_Some, !bool_decide_eq_true. split_and!; try done.
  - rewrite Hr. unfold wants_reverse. destruct (flags_ok_modes f Hf) as [->|[(-> & _ & ->)|(-> & _)]]; naive_solver.
  - unfold build_lanes, lane_names, is_txOnly. rewrite <- list_fmap_compose.
    destruct (bool_decide (f_mode f = str "tx")) eqn:E.
    + apply bool_decide_eq_true in E. by rewrite decide_True.
    + apply bool_decide_eq_false in E. by rewrite decide_False.
Qed.

(** Sockets are adopted under their own names: when [LISTEN_PID] names this
    process and every passed descriptor is a listening socket, each socket is
    returned under its name and no other name appears; when it names another
    process, none is; and a descriptor that is no socket is an error. *)
Theorem activation_exact {L : Type} (FileListener : Z → option L) (getenv : string → gostring)
    (pid start n : Z) :
  let names := if bool_decide (getenv "LISTEN_FDNAMES" = []) then [] else split_colons (getenv "LISTEN_FDNAMES") in
  let name i := activation.socket_name names i (start +i Z.of_nat i) in
  let out := activation.fromEnv FileListener getenv pid start in
  (Atoi (getenv "LISTEN_PID") ≠ Some pid → out = (Ok tt, ∅)) ∧
  (Atoi (getenv "LISTEN_PID") = Some pid → Atoi (getenv "LISTEN_FDS") = Some n → 0 ≤ n →
   ((∀ i, Z.of_nat i < n → is_Some (FileListener (start +i Z.of_nat i))) →
    (∀ i j, Z.of_nat i < n → Z.of_nat j < n → name i = name j → i = j) →
    fst out = Ok tt ∧
    (∀ i, Z.of_nat i < n → snd out !! name i = FileListener (start +i Z.of_nat i)) ∧
    (∀ k, (∀ i, Z.of_nat i < n → name i ≠ k) → snd out !! k = None)) ∧
   (∀ i, Z.of_nat i < n → FileListener (start +i Z.of_nat i) = None → ∃ e, fst out = Err e)).
Proof.
  intros names name out. unfold out, activation.fromEnv. split.
  { intros Hp. destruct (bool_decide (getenv "LISTEN_PID" = [])); [done|]. destruct (Atoi (getenv "LISTEN_PID")) as [p|]; [|done].
    destruct (Z.eqb_spec p pid) as [->|]; [done|]. done. }
  intros Hp Hn H0. destruct (bool_decide (getenv "LISTEN_PID" = [])) eqn:E.
  { apply bool_decide_eq_true in E. by rewrite E in Hp. }
  rewrite Hp, Z.eqb_refl, Hn. cbn [negb]. rewrite (proj2 (Z.ltb_ge n 0)) by done. cbv zeta. fold names. split.
  - intros Hl Hd. destruct (adopt_spec FileListener names start (Z.to_nat n) 0 ∅) as (m & -> & Hm & Hr).
    + intros j Hj. apply Hl. lia.
    + intros j j' Hj Hj' Ej. apply Hd; [lia..|exact Ej].
    + split_and!; [done| |].
      * intros i Hi. apply Hm. lia.
      * intros k Hk. cbn [snd]. rewrite Hr; [apply lookup_empty|]. intros j Hj. apply Hk. lia.
  - intros i Hi Hf. destruct (adopt_error FileListener names start (Z.to_nat n) 0 ∅ i) as (m & e & ->); [lia|done|].
    by exists e.
Qed.

(** The security level decides the transport: plaintext at 0 only, an
    unverified server at 1 only, a client certificate and a usable pool at 2
    and 3, and an error at every other level. *)
Theorem credentials_levels {Cert} (ReadFile : gostring → option (list byte)) (AppendCertsFromPEM : list byte → bool)
    (LoadX509KeyPair : gostring → gostring → option Cert) (t : dial.TLSConfig) (c : dial.creds Cert) :
  dial.credentials ReadFile AppendCertsFromPEM LoadX509KeyPair t = Ok c →
  match c with
  | dial.Plaintext => dial.SecurityLevel t = 0
  | dial.TLSUnverified => dial.SecurityLevel t = 1
  | dial.TLSMutual cert pool =>
      (dial.SecurityLevel t = 2 ∨ dial.SecurityLevel t = 3) ∧
      ReadFile (dial.CACertFile t) = Some pool ∧ AppendCertsFromPEM pool = true ∧
      LoadX509KeyPair (dial.CertFile t) (dial.KeyFile t) = Some cert
  end.
Proof.
  unfold dial.credentials. destruct (Z.eqb_spec (dial.SecurityLevel t) 0); [by intros [= <-]|].
  destruct (Z.eqb_spec (dial.SecurityLevel t) 1); [by intros [= <-]|].
  destruct ((_ =? 2) || _) eqn:E; [|done]. apply orb_true_iff in E. rewrite !Z.eqb_eq in E.
  intros (? & _ & H)%res_bind_ok. destruct (ReadFile (dial.CACertFile t)) as [pem|]; [|done].
  apply res_bind_ok in H as (? & Hp%guard_err_ok%negb_false_iff & H).
  destruct (LoadX509KeyPair _ _); [|done]. by injection H as <-.
Qed.

(** The probe at start-up succeeds exactly when an endpoint answers 200, or
    when there is none to ask. *)
Theorem probeHealth_spec (http : gostring → health.get_outcome) (eps : list gostring) :
  probeHealth http eps = None ↔
  eps = [] ∨ ∃ ep, ep ∈ eps ∧ http (txpipe.TrimRight_slash ep ++ str "/health") = health.GetStatus 200.
Proof.
  assert (∀ last, probe_loop http eps last = None ↔
    (eps = [] ∧ last = None) ∨ ∃ ep, ep ∈ eps ∧ http (txpipe.TrimRight_slash ep ++ str "/health") = health.GetStatus 200) as H.
  { induction eps as [|ep eps IH]; intros last; cbn [probe_loop].
    - split; [by left|]. intros [[_ ?]|(? & []%elem_of_nil & _)]. done.
    - assert (http (txpipe.TrimRight_slash ep ++ str "/health") ≠ health.GetStatus 200 → ∀ e,
        probe_loop http eps (Some e) = None ↔ (ep :: eps = [] ∧ last = None) ∨ ∃ ep0, ep0 ∈ ep :: eps ∧
          http (txpipe.TrimRight_slash ep0 ++ str "/health") = health.GetStatus 200) as Hnext.
      { intros Hne e. rewrite IH. split.
        - intros [[_ ?]|(e' & He & Hs)]; [done|]. right. exists e'. split; [by right|done].
        - intros [[? _]|(e' & [->|He]%elem_of_cons & Hs)]; [done|done|]. right. eauto. }
      destruct (http (txpipe.TrimRight_slash ep ++ str "/health")) as [e|code] eqn:E; [by apply Hnext|].
      destruct (Z.eqb_spec code 200) as [->|]; [|apply Hnext; congruence].
      split; [|done]. intros _. right. exists ep. split; [by left|done]. }
  unfold probeHealth. rewrite H. naive_solver.
Qed.

(** ** Witnesses *)

Definition sx_flags : flags :=
  mkFlags (str "all") [str "http://p/"] [str "k:9092"] (str "http://b:9145") (str "12D3") (str "/api/v1")
    (str "s") (str "b") (str "c:8087") (str "http://a/api/v1") (str "e1, e2") 8726 8727
    false (str "http://primary/readyz") (dial.mkTLS 0 [] [] []) 0 0 true 1024 600 (-1) 5
    (txpipe.mkConfig [] 512 0 0 0 6 0 0 4) 15 (str ":9146") 60.

Definition sx_start : outcome nat unit :=
  start (Ok tt, {[ str "tx" := 7%nat ]}) (λ _, None) (λ _, false) (λ _ _, None) (λ _, true) (λ _, true) 0 sx_flags.

Lemma startup_wiring_witness :
  match sx_start with
  | Started p => is_Some (p_rev p) ∧ RunPromoter ∈ p_tasks p
  | Exit _ => False
  end.
Proof.
  destruct sx_start as [code|p] eqn:E.
  - assert (match sx_start with Exit _ => false | Started _ => true end = true) as H by (vm_compute; reflexivity).
    rewrite E in H. discriminate H.
  - destruct (startup_wiring (Ok tt, {[ str "tx" := 7%nat ]}) (λ _, None) (λ _, false) (λ _ _, None) (λ _, true) (λ _, true)
      0 sx_flags p E) as (_ & _ & _ & Hr & _ & _ & _ & _ & _ & Hp).
    assert (is_Some (p_rev p)) as Hs by (apply Hr; split; [reflexivity|discriminate]).
    split; [exact Hs|]. apply Hp. split; [exact Hs|]. split; [discriminate|reflexivity].
Defined.

Definition sx_env (k : string) : gostring :=
  if String.eqb k "LISTEN_PID" then str "42" else if String.eqb k "LISTEN_FDS" then str "2"
  else if String.eqb k "LISTEN_FDNAMES" then str "tx:subtree" else [].

Lemma activation_exact_witness :
  snd (activation.fromEnv (λ fd, Some fd) sx_env 42 3) !! str "subtree" = Some 4.
Proof.
  destruct (activation_exact (λ fd, Some fd) sx_env 42 3 2) as [_ H].
  destruct H as [H _]; [reflexivity|reflexivity|lia|].
  destruct H as (_ & H & _).
  - intros i _. eauto.
  - intros [|[|i]] [|[|j]] Hi Hj E; try lia; vm_compute in E; discriminate E.
  - etrans; [|exact (H 1%nat ltac:(lia))]. reflexivity.
Defined.

Lemma credentials_levels_witness :
  ∃ c, dial.credentials (λ _, Some [x01]) (λ _, true) (λ _ _, Some tt) (dial.mkTLS 3 (str "c") (str "k") (str "ca")) = Ok c ∧
  c = dial.TLSMutual tt [x01] ∧ 3 = 3.
Proof.
  eexists. split; [reflexivity|]. split; [reflexivity|].
  destruct (credentials_levels (λ _, Some [x01]) (λ _, true) (λ _ _, Some tt)
    (dial.mkTLS 3 (str "c") (str "k") (str "ca")) _ eq_refl) as [[H|H] _]; [discriminate H|exact H].
Defined.
