(* ===== verification/Shutdown.v ===== *)
(** * Shutdown: the lanes drain before the pipe stops

    The order in which [main] ([src/cmd/teranode-bridge/main.go]) stops its
    tasks: the signal cancels the group's context, each lane's [Serve]
    ([src/lanes/lanes.go]) stops accepting and returns once its connections
    have, and only when every lane has returned is the pipe's own context
    cancelled, upon which its builders ([TxBuild.v]) drain their queues and
    stop. A connection can queue transactions for as long as it is served. The
    state is every lane's phase and number of connections, the two
    cancellations and the builders; a step is one action of one of them, and a
    run is any interleaving. *)

From Stdlib Require Import Strings.Byte.
From stdpp Require Import base list strings numbers gmap relations.
From S2P Require Import Prelude TxWire TxBuild.
Import txpipe.

Module shutdown.
(** A lane: whether [Serve] has not returned, and its connections' goroutines. *)
Record lane_st : Type := mkLaneSt { serving : bool; conns : nat }.

Record state : Type := mkSd {
  lanes : list lane_st;
  cancelled : bool;      (** the group's context is done *)
  pipe_done : bool;      (** the pipe's context is done *)
  builders : list bstate
}.

Definition set_lane (i : nat) (l : lane_st) (s : state) : state :=
  mkSd (<[i := l]> (lanes s)) (cancelled s) (pipe_done s) (builders s).
Definition set_builder (i : nat) (b : bstate) (s : state) : state :=
  mkSd (lanes s) (cancelled s) (pipe_done s) (<[i := b]> (builders s)).

(** [lanesUp.Wait()] returns. *)
Definition all_returned (s : state) : bool := forallb (λ l, negb (serving l)) (lanes s).

(** A builder's own step, as opposed to a lane's send: it leaves [Running]
    only once the pipe's context is done. *)
Definition own_step (c : Config) (cap : Z) (done : bool) (b b' : bstate) : Prop :=
  bstep c cap b b' ∧ sent b' = sent b ∧ (length (chan b') ≤ length (chan b))%nat ∧
  (ph b = Running → ph b' ≠ Running → done = true).

(** [may_fail] admits the accept error that ends a lane's [Serve] at once. *)
Inductive step (c : Config) (cap : Z) (may_fail : bool) : state → state → Prop :=
| d_accept i l s :
    lanes s !! i = Some l → serving l = true → cancelled s = false →
    step c cap may_fail s (set_lane i (mkLaneSt true (S (conns l))) s)
| d_close i l n s :
    lanes s !! i = Some l → conns l = S n →
    step c cap may_fail s (set_lane i (mkLaneSt (serving l) n) s)
| d_send i l k b js s :    (** a connection queues a run *)
    lanes s !! i = Some l → (0 < conns l)%nat →
    builders s !! k = Some b → zlen (chan b) < cap →
    step c cap may_fail s (set_builder k (mkB (chan b ++ [js]) (ph b) (bld b) (sent b ++ js)) s)
| d_signal s :
    step c cap may_fail s (mkSd (lanes s) true (pipe_done s) (builders s))
| d_return i l s :         (** cancelled: [wg.Wait()], then return *)
    lanes s !! i = Some l → serving l = true → cancelled s = true → conns l = 0%nat →
    step c cap may_fail s (set_lane i (mkLaneSt false 0) s)
| d_fail i l s :           (** an accept error: return, and the group is cancelled *)
    may_fail = true → lanes s !! i = Some l → serving l = true → cancelled s = false →
    step c cap may_fail s
      (mkSd (<[i := mkLaneSt false (conns l)]> (lanes s)) true (pipe_done s) (builders s))
| d_pipe_stop s :
    all_returned s = true →
    step c cap may_fail s (mkSd (lanes s) (cancelled s) true (builders s))
| d_build k b b' s :
    builders s !! k = Some b → own_step c cap (pipe_done s) b b' →
    step c cap may_fail s (set_builder k b' s).

Definition init (n k : nat) : state :=
  mkSd (replicate n (mkLaneSt true 0)) false false (replicate k binit).
End shutdown.

Import shutdown.

#[global] Instance phase_eq_decision : EqDecision phase.
Proof. solve_decision. Defined.

(** ** The invariant *)

Record sd_inv (c : Config) (cap : Z) (s : state) : Prop := {
  si_lanes : Forall (λ l, serving l = false → conns l = 0%nat) (lanes s);
  si_done : pipe_done s = true → Forall (λ l, serving l = false) (lanes s);
  si_builders : Forall (λ b, rtc (bstep c cap) binit b ∧
                             (ph b ≠ Running → pipe_done s = true) ∧
                             (ph b = Stopped → chan b = [])) (builders s)
}.

Lemma init_inv c cap n k : sd_inv c cap (init n k).
Proof.
  split; cbn [init lanes pipe_done builders].
  - apply Forall_replicate. by intros [=].
  - by intros [=].
  - apply Forall_replicate. split_and!; [apply rtc_refl|done|done].
Qed.

Lemma own_step_phase c cap done b b' :
  own_step c cap done b b' →
  (ph b ≠ Running → done = true) → (ph b = Stopped → chan b = []) →
  (ph b' ≠ Running → done = true) ∧ (ph b' = Stopped → chan b' = []).
Proof.
  intros (Hs & Hsent & Hlen & Hdone) H1 H2. split.
  - intros H'. destruct (decide (ph b = Running)); [by apply Hdone|by apply H1].
  - destruct Hs; cbn in *; try done. rewrite length_app in Hlen. cbn in Hlen. lia.
Qed.

Lemma step_inv c cap s s' : step c cap false s s' → sd_inv c cap s → sd_inv c cap s'.
Proof.
  intros Hs [Hl Hd Hb]. destruct Hs as [i l s Hi Hsv Hc|i l n s Hi Hn|i l k b js s Hi Hn Hk Hcap|s
    |i l s Hi Hsv Hc Hn|i l s ? _ _ _|s Hall|k b b' s Hk Ho]; [..|done| |].
  - split; cbn; [by apply Forall_insert| |done]. intros Hp. specialize (Hd Hp).
    rewrite list.Forall_forall in Hd. apply list_elem_of_lookup_2, Hd in Hi. congruence.
  - split; cbn; [| |done].
    + apply Forall_insert; [done|]. cbn. intros Hs. rewrite list.Forall_forall in Hl.
      specialize (Hl l (list_elem_of_lookup_2 _ _ _ Hi) Hs). lia.
    + intros Hp. specialize (Hd Hp). apply Forall_insert; [done|]. cbn.
      rewrite list.Forall_forall in Hd. by apply list_elem_of_lookup_2, Hd in Hi.
  - split; cbn; [done..|]. pose proof Hb as Hb'. rewrite list.Forall_forall in Hb'.
    apply Forall_insert; [done|]. cbn. destruct (Hb' b) as (Hr & Hp & Hst); [by eapply list_elem_of_lookup_2|].
    assert (pipe_done s = false) as Epd.
    { apply not_true_is_false. intros E. specialize (Hd E). rewrite list.Forall_forall in Hd, Hl.
      apply list_elem_of_lookup_2 in Hi. specialize (Hl l Hi (Hd l Hi)). lia. }
    split_and!; [|done|].
    + eapply rtc_r; [exact Hr|]. by apply s_send.
    + intros E. rewrite Hp in Epd; [done|]. congruence.
  - by split.
  - split; cbn; [by apply Forall_insert| |done]. intros Hp. apply Forall_insert; [by apply Hd|done].
  - split; cbn; [done| |].
    + intros _. apply list.Forall_forall. intros l Hin%list_elem_of_In.
      unfold all_returned in Hall. rewrite forallb_forall in Hall. apply Hall in Hin. by apply negb_true_iff.
    + eapply Forall_impl; [exact Hb|]. by intros b (? & ? & ?).
  - split; cbn; [done..|]. apply Forall_insert; [done|]. rewrite list.Forall_forall in Hb.
    destruct (Hb b) as (Hr & Hp & Hst); [by eapply list_elem_of_lookup_2|].
    destruct (own_step_phase _ _ _ _ _ Ho Hp Hst). destruct Ho as (Hbs & _).
    split_and!; [by eapply rtc_r|done..].
Qed.

Lemma reachable_sd c cap n k s : rtc (step c cap false) (init n k) s → sd_inv c cap s.
Proof.
  intros H. pose proof (init_inv c cap n k) as Hi. induction H as [|s1 s2 s3 H _ IH]; [done|].
  eauto using step_inv.
Qed.

(** ** Getting there *)

(** What completion leaves alone: the queue of what every builder was sent. *)
Definition same_sent (s s' : state) : Prop := sent <$> builders s' = sent <$> builders s.

Lemma close_conns c cap i n s :
  lanes s !! i = Some (mkLaneSt true n) → cancelled s = true →
  rtc (step c cap false) s (set_lane i (mkLaneSt false 0) s).
Proof.
  revert s. induction n as [|n IH]; intros s Hi Hc.
  - apply rtc_once. by eapply (d_return _ _ _ i (mkLaneSt true 0)).
  - eapply rtc_l; [by eapply (d_close _ _ _ i (mkLaneSt true (S n)) n)|].
    replace (set_lane i (mkLaneSt false 0) s) with (set_lane i (mkLaneSt false 0) (set_lane i (mkLaneSt true n) s))
      by (unfold set_lane; cbn; by rewrite list_insert_insert_eq).
    apply IH; [|done]. cbn. apply list_lookup_insert_eq. by eapply lookup_lt_Some.
Qed.

(** The lanes from [i] on can be brought to return. *)
Lemma lanes_return c cap i s :
  cancelled s = true → (i ≤ length (lanes s))%nat →
  Forall (λ l, serving l = false) (take i (lanes s)) →
  ∃ s', rtc (step c cap false) s s' ∧ all_returned s' = true ∧ cancelled s' = true ∧ builders s' = builders s.
Proof.
  intros Hc Hi Hf. remember (length (lanes s) - i)%nat as m eqn:Em. revert i s Hc Hi Hf Em.
  induction m as [|m IH]; intros i s Hc Hi Hf Em.
  - exists s. split_and!; [done| |done..]. rewrite take_ge in Hf by lia. apply forallb_forall.
    intros l Hl%list_elem_of_In. rewrite list.Forall_forall in Hf. by rewrite Hf.
  - destruct (lookup_lt_is_Some_2 (lanes s) i) as [l Hl]; [lia|].
    assert (∃ s1, rtc (step c cap false) s s1 ∧ cancelled s1 = true ∧ builders s1 = builders s ∧
      length (lanes s1) = length (lanes s) ∧ Forall (λ l, serving l = false) (take (S i) (lanes s1))) as (s1 & H1 & H2 & H3 & H4 & H5).
    { destruct l as [[] n].
      - exists (set_lane i (mkLaneSt false 0) s). split_and!; [by apply (close_conns _ _ _ n)|done|done|by apply length_insert|].
        cbn. rewrite (take_S_r _ _ (mkLaneSt false 0)) by (apply list_lookup_insert_eq; lia).
        rewrite take_insert_ge by lia. apply Forall_app. split; [done|by constructor].
      - exists s. split_and!; [done..|]. rewrite (take_S_r _ _ _ Hl). apply Forall_app. split; [done|by constructor]. }
    destruct (IH (S i) s1) as (s' & Hr & ? & ? & E); [done|lia|done|lia|].
    exists s'. split_and!; [by etrans|done|done|congruence].
Qed.

(** A builder's own steps, taken in the whole. *)
Lemma lift_own c cap k b b' s :
  builders s !! k = Some b → rtc (own_step c cap (pipe_done s)) b b' →
  rtc (step c cap false) s (set_builder k b' s).
Proof.
  intros Hk Hr. remember (pipe_done s) as done eqn:Hd. symmetry in Hd. revert s Hd Hk.
  induction Hr as [b|b1 b2 b3 H1 _ IH]; intros s Hd Hk.
  - replace (set_builder k b s) with s; [apply rtc_refl|]. unfold set_builder. rewrite list_insert_id by done. by destruct s.
  - eapply rtc_l; [eapply (d_build _ _ _ k b1 b2); [done|by rewrite Hd]|].
    replace (set_builder k b3 s) with (set_builder k b3 (set_builder k b2 s))
      by (unfold set_builder; cbn; by rewrite list_insert_insert_eq).
    apply IH; [done|]. cbn. apply list_lookup_insert_eq. by eapply lookup_lt_Some.
Qed.

Lemma builder_stops c cap b :
  ∃ b', rtc (own_step c cap true) b b' ∧ ph b' = Stopped ∧ sent b' = sent b.
Proof.
  destruct b as [ch p bl l].
  assert (∀ ch bl, rtc (own_step c cap true) (mkB ch Draining bl l)
    (mkB [] Draining (foldl (λ b js, drain_run js b) bl ch) l)) as Hd.
  { intros ch'. induction ch' as [|js ch' IH]; intros bl'; [apply rtc_refl|].
    eapply rtc_l; [|apply IH]. split_and!; [apply s_drain|done|cbn; lia|done]. }
  assert (∀ bl, rtc (own_step c cap true) (mkB [] Draining bl l) (mkB [] Stopped (seal SealLinger bl) l)) as He.
  { intros bl'. apply rtc_once. split_and!; [apply s_exit|done|done|done]. }
  set (out := mkB [] Stopped (seal SealLinger (foldl (λ b js, drain_run js b) bl ch)) l).
  assert (rtc (own_step c cap true) (mkB ch Draining bl l) out) as Ho by (etrans; [apply Hd|apply He]).
  destruct p; [exists out..|eexists; split; [apply rtc_refl|done]]; (split; [|done]); [|done].
  eapply rtc_l; [|exact Ho]. split_and!; [apply s_done|done|done|done].
Qed.

(** The builders from [k] on can be brought to stop. *)
Lemma builders_stop c cap k s :
  pipe_done s = true → (k ≤ length (builders s))%nat →
  Forall (λ b, ph b = Stopped) (take k (builders s)) →
  ∃ s', rtc (step c cap false) s s' ∧ Forall (λ b, ph b = Stopped) (builders s') ∧ same_sent s s' ∧ lanes s' = lanes s.
Proof.
  intros Hd Hk Hf. remember (length (builders s) - k)%nat as m eqn:Em. revert k s Hd Hk Hf Em.
  induction m as [|m IH]; intros k s Hd Hk Hf Em.
  { exists s. rewrite take_ge in Hf by lia. by split_and!. }
  destruct (lookup_lt_is_Some_2 (builders s) k) as [b Hb]; [lia|].
  destruct (builder_stops c cap b) as (b' & Hr & Hp & Hs). rewrite <- Hd in Hr.
  pose proof (lift_own c cap k b b' s Hb Hr) as H1. set (s1 := set_builder k b' s) in *.
  destruct (IH (S k) s1) as (s' & H2 & H3 & H4 & H5); [done|cbn; rewrite length_insert; lia| |cbn; rewrite length_insert; lia|].
  { cbn. rewrite (take_S_r _ _ b') by (apply list_lookup_insert_eq; lia).
    rewrite take_insert_ge by lia. apply Forall_app. split; [done|by constructor]. }
  exists s'. split_and!; [by etrans|done| |done]. unfold same_sent in *. rewrite H4. cbn.
  rewrite list_fmap_insert, Hs. apply list_insert_id. rewrite list_lookup_fmap, Hb. done.
Qed.

(** ** Theorems *)

(** C17: A shutdown loses nothing: in every run in which no lane fails, whatever
    the interleaving of connections, lanes, signal and builders, a stopped
    builder has handed every transaction ever queued for it to submission and
    its queue is empty; so nothing is queued behind a builder that has gone. *)
Theorem lossless_shutdown (c : Config) (cap : Z) (n k : nat) (s : state) (b : bstate) :
  rtc (step (defaults c) cap false) (init n k) s → b ∈ builders s → ph b = Stopped →
  sent b = submitted (bld b) ∧ chan b = [] ∧
  Forall (λ l, serving l = false ∧ conns l = 0%nat) (lanes s).
Proof.
  intros Hr Hb Hp. destruct (reachable_sd _ _ _ _ _ Hr) as [Hl Hd Hbs].
  rewrite list.Forall_forall in Hbs. destruct (Hbs b Hb) as (Hrb & Hdone & Hch).
  destruct (reachable_binv _ _ _ (defaults_usable c) Hrb) as [Hc _ _ _ Hs].
  rewrite (Hs Hp), (Hch Hp) in Hc. cbn in Hc. rewrite app_nil_r in Hc. split_and!; [done|by apply Hch|].
  rewrite Hp in Hdone. specialize (Hd (Hdone ltac:(done))).
  apply list.Forall_forall. intros l Hin. rewrite list.Forall_forall in Hl, Hd. auto.
Qed.


(** An accept error breaks this: [Serve] then returns without waiting for its
    connections, so the pipe can be stopped while one of them still reads, and
    what it queues afterwards stays in a queue no builder reads. *)
Theorem failed_lane_loses (c : Config) (j : job) :
  ∃ s b, rtc (step (defaults c) 4 true) (init 1 1) s ∧ builders s = [b] ∧ ph b = Stopped ∧
    sent b = [j] ∧ submitted (bld b) = [].
Proof.
  exists (mkSd [mkLaneSt false 1] true true [mkB [[j]] Stopped (bld binit) [j]]). eexists.
  split; [|by split_and!].
  eapply rtc_l; [apply (d_accept _ _ _ 0 (mkLaneSt true 0)); done|]. cbn.
  eapply rtc_l; [apply (d_fail _ _ _ 0 (mkLaneSt true 1)); done|]. cbn.
  eapply rtc_l; [apply d_pipe_stop; done|]. cbn.
  eapply rtc_l; [eapply (d_build _ _ _ 0 binit); [done|split_and!; [apply s_done|done..]]|]. cbn.
  eapply rtc_l; [eapply (d_build _ _ _ 0 (mkB [] Draining (bld binit) [])); [done|split_and!; [apply s_exit|done..]]|]. cbn.
  apply rtc_once. apply (d_send _ _ _ 0 (mkLaneSt false 1) 0 (mkB [] Stopped (bld binit) []) [j]);
    [done|cbn; lia|done|cbn; lia].
Qed.

(** ** Witnesses *)

Definition dx_job : job := ex_parent.
Definition dx_end : state := mkSd [mkLaneSt false 0] true true
  [mkB [] Stopped (seal SealLinger (drain_run [dx_job] (bld binit))) [dx_job]].

(** One lane queues a transaction just before the signal. *)
Lemma dx_run : rtc (step (defaults ex_cfg) 4 false) (init 1 1) dx_end.
Proof.
  eapply rtc_l; [apply (d_accept _ _ _ 0 (mkLaneSt true 0)); done|]. cbn.
  eapply rtc_l; [apply (d_send _ _ _ 0 (mkLaneSt true 1) 0 binit [dx_job]); [done|cbn; lia|done|cbn; lia]|]. cbn.
  eapply rtc_l; [apply d_signal|]. cbn.
  eapply rtc_l; [apply (d_close _ _ _ 0 (mkLaneSt true 1) 0); done|]. cbn.
  eapply rtc_l; [apply (d_return _ _ _ 0 (mkLaneSt true 0)); done|]. cbn.
  eapply rtc_l; [apply d_pipe_stop; done|]. cbn.
  eapply rtc_l; [eapply (d_build _ _ _ 0 (mkB [[dx_job]] Running (bld binit) [dx_job]));
    [done|split_and!; [apply s_done|done..]]|]. cbn.
  eapply rtc_l; [eapply (d_build _ _ _ 0 (mkB [[dx_job]] Draining (bld binit) [dx_job]));
    [done|split_and!; [apply s_drain|done|cbn; lia|done]]|].
  eapply rtc_l; [eapply (d_build _ _ _ 0 (mkB [] Draining (drain_run [dx_job] (bld binit)) [dx_job]));
    [done|split_and!; [apply s_exit|done..]]|].
  exact (rtc_refl _ dx_end).
Qed.

Lemma lossless_shutdown_witness :
  ∃ b, b ∈ builders dx_end ∧ sent b = submitted (bld b) ∧ chan b = [].
Proof.
  eexists. split; [left|].
  edestruct (lossless_shutdown ex_cfg 4 1 1 dx_end) as (H1 & H2 & _); [exact dx_run|left|reflexivity|].
  split; [exact H1|exact H2].
Defined.

