(* ===== verification/ClusterState.v ===== *)
(** * The cluster-state poll and its gauges

    [src/reverse/clusterstate.go] ([RunClusterState], [pollClusterState],
    [ClusterState]) and the gauges of [src/internal/obs/obs.go] it publishes
    ([Preset], [SetFSMState], [Stamp]). A gauge vector is its value per label,
    keyed by the vector's name and the label value; a vector without labels has
    the empty one. The two answers of a poll are arguments: a state or height,
    or a failed call. Gauge values are the integers set. *)

From Stdlib Require Import Strings.Byte.
From stdpp Require Import base list strings numbers gmap.
From S2P Require Import Prelude TxBuild Health.

Module gauges.
(** Gauge values, and the histogram series that exist. *)
Record obs_t : Type := mkObs {
  values : gmap (string * string) Z;
  counts : gmap (string * string) Z;
  hists : gset (string * string)
}.
Definition obs0 : obs_t := mkObs ∅ ∅ ∅.

(** [vec.WithLabelValues(l).Set(v)], [counter.WithLabelValues(l).Inc()] and
    [hist.WithLabelValues(l)]. *)
Definition set (vec l : string) (v : Z) (o : obs_t) : obs_t :=
  mkObs (<[(vec, l) := v]> (values o)) (counts o) (hists o).
Definition inc (vec l : string) (o : obs_t) : obs_t :=
  mkObs (values o) (<[(vec, l) := default 0 (counts o !! (vec, l)) + 1]> (counts o)) (hists o).
Definition touch (vec l : string) (o : obs_t) : obs_t :=
  mkObs (values o) (counts o) ({[ (vec, l) ]} ∪ hists o).

Definition SubmitDuration := "submit_duration_seconds"%string.
Definition RetrievalDuration := "retrieval_duration_seconds"%string.
Definition AnnounceDuration := "announce_duration_seconds"%string.
Definition AssetFetchDuration := "asset_fetch_duration_seconds"%string.
Definition AnnounceToFirstPull := "announce_to_first_pull_seconds"%string.
Definition UpTunnelWriteDuration := "uptunnel_write_duration_seconds"%string.
Definition ObjectBytes := "object_bytes"%string.
Definition LastObjectTime := "last_object_timestamp_seconds"%string.
Definition LastAnnounceTime := "last_announce_timestamp_seconds"%string.
Definition LastPullTime := "last_pull_timestamp_seconds"%string.
Definition LastSubmitTime := "last_submit_timestamp_seconds"%string.
Definition LastNotificationTime := "last_notification_timestamp_seconds"%string.
Definition ClusterFSMState := "cluster_fsm_state"%string.
Definition ClusterFSMStateInfo := "cluster_fsm_state_info"%string.
Definition ClusterBlockHeight := "cluster_block_height"%string.
Definition ClusterProbeErrors := "cluster_probe_errors_total"%string.

Definition FSMStates : list string := ["IDLE"; "RUNNING"; "CATCHINGBLOCKS"; "UNKNOWN"].

(** [Stamp]: [now] in seconds. *)
Definition Stamp (vec l : string) (now : Z) (o : obs_t) : obs_t := set vec l now o.

Definition each (f : string → obs_t → obs_t) (ls : list string) (o : obs_t) : obs_t :=
  foldl (λ o l, f l o) o ls.

Definition Preset (t0 : Z) (lanes : list string) (reverse : bool) (o : obs_t) : obs_t :=
  let o := each (λ l o, touch ObjectBytes l (set LastObjectTime l t0 o)) lanes o in
  let o := each (touch SubmitDuration) ["ok"; "rejected"; "failed"; "rate_limited"]%string o in
  let o := each (touch RetrievalDuration) ["subtree"; "subtree_data"; "txs"; "block"; "unserved"]%string o in
  let o := each (λ c o, touch UpTunnelWriteDuration c (touch AssetFetchDuration c
             (touch AnnounceToFirstPull c (touch AnnounceDuration c o)))) ["subtree"; "block"]%string o in
  let o := each (λ c, set LastAnnounceTime c t0) ["subtree"; "block"]%string o in
  let o := set LastPullTime "" t0 o in
  let o := set LastSubmitTime "" t0 o in
  if reverse then
    let o := set LastNotificationTime "" t0 o in
    let o := set ClusterFSMState "" (-1) o in
    let o := each (λ s, set ClusterFSMStateInfo s 0) FSMStates o in
    set ClusterFSMStateInfo "UNKNOWN" 1 o
  else o.

Definition SetFSMState (name : string) (code : Z) (o : obs_t) : obs_t :=
  let o := set ClusterFSMState "" code o in
  each (λ s, set ClusterFSMStateInfo s (if String.eqb s name then 1 else 0)) FSMStates o.
End gauges.

Module cluster.
Import gauges.

(** [FSMStateType.String] of the generated enum: the names of its table, and
    the runtime's rendering of a value the table does not have. *)
Definition state_name (other : Z → string) (st : Z) : string :=
  if st =? 0 then "IDLE" else if st =? 1 then "RUNNING" else if st =? 2 then "CATCHINGBLOCKS" else other st.

(** The subscriber's last readings, and the gauges. *)
Record poll_st : Type := mkPoll { fsmState : option string; height : Z; obs : obs_t }.

Section poll.
Context (other : Z → string).

(** The answer to [GetFSMCurrentState] and to [GetBestBlockHeader]. *)
Definition pollClusterState (fsm header : option Z) (s : poll_st) : poll_st :=
  let s :=
    match fsm with
    | None => mkPoll (fsmState s) (height s)
                (SetFSMState "UNKNOWN" (-1) (inc ClusterProbeErrors "fsm" (obs s)))
    | Some st =>
        let name := state_name other st in
        mkPoll (Some name) (height s) (SetFSMState name st (obs s))
    end in
  match header with
  | None => mkPoll (fsmState s) (height s) (inc ClusterProbeErrors "best_block_header" (obs s))
  | Some h => mkPoll (fsmState s) h (set ClusterBlockHeight "" h (obs s))
  end.

(** [RunClusterState]: nothing when the interval is off; else one poll at once
    and one per tick until cancelled, [polls] being their answers. *)
Definition RunClusterState (every : Z) (polls : list (option Z * option Z)) (s : poll_st) : poll_st :=
  if every <=? 0 then s else foldl (λ s '(fsm, header), pollClusterState fsm header s) s polls.
End poll.

Definition ClusterState (s : poll_st) : string * Z := (default ""%string (fsmState s), height s).
End cluster.

Import gauges cluster.

(** ** Gauges *)

Definition gauge (vec l : string) (o : obs_t) : option Z := values o !! (vec, l).

Lemma gauge_set vec l v vec' l' o :
  gauge vec' l' (set vec l v o) = if decide (vec = vec' ∧ l = l') then Some v else gauge vec' l' o.
Proof.
  unfold gauge, set. cbn [values]. destruct (decide _) as [[-> ->]|Hne]; [apply lookup_insert_eq|].
  apply lookup_insert_ne. intros [= -> ->]. by apply Hne.
Qed.
Lemma gauge_touch vec l vec' l' o : gauge vec' l' (touch vec l o) = gauge vec' l' o.
Proof. done. Qed.
Lemma gauge_inc vec l vec' l' o : gauge vec' l' (inc vec l o) = gauge vec' l' o.
Proof. done. Qed.

Lemma each_cons f l ls o : each f (l :: ls) o = each f ls (f l o).
Proof. done. Qed.

Lemma gauge_each_touch vec ls vec' l' o : gauge vec' l' (each (touch vec) ls o) = gauge vec' l' o.
Proof. revert o. induction ls as [|l ls IH]; intros o; [done|]. by rewrite each_cons, IH. Qed.

Lemma gauge_each_set vec (v : string → Z) ls vec' l' o :
  gauge vec' l' (each (λ l, set vec l (v l)) ls o)
  = if decide (vec = vec' ∧ l' ∈ ls) then Some (v l') else gauge vec' l' o.
Proof.
  revert o. induction ls as [|l ls IH]; intros o.
  { cbn. rewrite decide_False; [done|]. intros [_ []%elem_of_nil]. }
  rewrite each_cons, IH, gauge_set.
  destruct (decide (vec = vec' ∧ l' ∈ ls)) as [[-> Hl]|Hn].
  { by rewrite decide_True by (split; [done|by right]). }
  destruct (decide (vec = vec' ∧ l = l')) as [[-> ->]|Hm].
  { by rewrite decide_True by (split; [done|by left]). }
  rewrite decide_False; [done|]. intros [-> [->|Hl]%elem_of_cons]; [by apply Hm|by apply Hn].
Qed.

(** The one-hot encoding of a state name over the published states. *)
Definition one_hot (name : string) (o : obs_t) : Prop :=
  ∀ s, s ∈ FSMStates → gauge ClusterFSMStateInfo s o = Some (if String.eqb s name then 1 else 0).

(** The numeric gauge and the info gauges say the same. *)
Definition code_of (name : string) : Z :=
  if String.eqb name "IDLE" then 0 else if String.eqb name "RUNNING" then 1
  else if String.eqb name "CATCHINGBLOCKS" then 2 else -1.

Definition fsm_agree (o : obs_t) : Prop :=
  ∃ name, name ∈ FSMStates ∧ one_hot name o ∧ gauge ClusterFSMState "" o = Some (code_of name).

Lemma SetFSMState_gauges name code o :
  one_hot name (SetFSMState name code o) ∧ gauge ClusterFSMState "" (SetFSMState name code o) = Some code.
Proof.
  unfold SetFSMState. split.
  - intros s Hs. rewrite (gauge_each_set _ (λ s, if String.eqb s name then 1 else 0)).
    by rewrite decide_True.
  - rewrite (gauge_each_set _ (λ s, if String.eqb s name then 1 else 0)).
    rewrite decide_False by (intros [? _]; discriminate). rewrite gauge_set, decide_True; done.
Qed.

Lemma fsm_agree_other vec l v o : vec ≠ ClusterFSMState → vec ≠ ClusterFSMStateInfo → fsm_agree o → fsm_agree (set vec l v o).
Proof.
  intros H1 H2 (name & Hn & Ho & Hc). exists name. split_and!; [done| |].
  - intros s Hs. rewrite gauge_set, decide_False by (by intros [? _]). by apply Ho.
  - by rewrite gauge_set, decide_False by (by intros [? _]).
Qed.

Definition known_state (st : Z) : Prop := 0 ≤ st ≤ 2.

Lemma state_name_known other st :
  known_state st → state_name other st ∈ FSMStates ∧ code_of (state_name other st) = st.
Proof.
  intros H. unfold known_state in H.
  assert (st = 0 ∨ st = 1 ∨ st = 2) as [->|[->| ->]] by lia; (split; [apply (bool_decide_unpack _); exact I|reflexivity]).
Qed.

Lemma poll_agree other fsm header s :
  (∀ st, fsm = Some st → known_state st) → fsm_agree (obs (pollClusterState other fsm header s)).
Proof.
  intros Hk. unfold pollClusterState.
  set (s1 := match fsm with None => _ | Some _ => _ end).
  assert (fsm_agree (obs s1)) as H1.
  { unfold s1. destruct fsm as [st|]; cbn [obs].
    - destruct (state_name_known other st (Hk st eq_refl)) as [Hn Hc].
      destruct (SetFSMState_gauges (state_name other st) st (obs s)) as [Ho Hg].
      exists (state_name other st). split_and!; [done..|]. by rewrite Hc.
    - destruct (SetFSMState_gauges "UNKNOWN" (-1) (inc ClusterProbeErrors "fsm" (obs s))) as [Ho Hg].
      exists "UNKNOWN"%string. split_and!; [apply (bool_decide_unpack _); exact I|done|done]. }
  destruct header; [by apply fsm_agree_other|done].
Qed.

Lemma polls_agree other polls s :
  Forall (λ p, ∀ st, fst p = Some st → known_state st) polls → fsm_agree (obs s) →
  fsm_agree (obs (foldl (λ s '(fsm, header), pollClusterState other fsm header s) s polls)).
Proof.
  intros Hk. revert s. induction Hk as [|[fsm header] polls Hp _ IH]; intros s Hs; [done|].
  cbn [foldl]. apply IH, poll_agree, Hp.
Qed.

Lemma preset_agree t0 lanes o : fsm_agree (Preset t0 lanes true o).
Proof.
  unfold Preset. exists "UNKNOWN"%string. split_and!; [apply (bool_decide_unpack _); exact I| |].
  - intros s Hs. rewrite gauge_set. case_decide as Hd; [by destruct Hd as [_ <-]|].
    rewrite (gauge_each_set _ (λ _, 0)), decide_True by done.
    destruct (String.eqb_spec s "UNKNOWN") as [->|]; [by destruct Hd|done].
  - rewrite gauge_set, decide_False by (by intros [? _]).
    rewrite (gauge_each_set _ (λ _, 0)), decide_False by (by intros [? _]).
    by rewrite gauge_set, decide_True.
Qed.

(** ** Theorems *)

(** The cluster-state gauges never disagree: from the preset on, after any
    sequence of polls, answered or failed, exactly one of the published states
    carries a one, the others a zero, and the numeric gauge is that state's
    code; [-1] and [UNKNOWN] while the cluster cannot be read. *)
Theorem fsm_gauges_agree (other : Z → string) (t0 every : Z) (lanes : list string)
    (polls : list (option Z * option Z)) (o : obs_t) (f : option string) (h : Z) :
  Forall (λ p, ∀ st, fst p = Some st → 0 ≤ st ≤ 2) polls →
  let s := RunClusterState other every polls (mkPoll f h (Preset t0 lanes true o)) in
  ∃ name, name ∈ FSMStates ∧ gauge ClusterFSMState "" (obs s) = Some (code_of name) ∧
    ∀ s', s' ∈ FSMStates → gauge ClusterFSMStateInfo s' (obs s) = Some (if String.eqb s' name then 1 else 0).
Proof.
  intros Hk s. assert (fsm_agree (obs s)) as (name & Hn & Ho & Hc); [|exists name; by split_and!].
  unfold s, RunClusterState. destruct (every <=? 0); [apply preset_agree|].
  apply polls_agree; [done|apply preset_agree].
Qed.

(** A poll publishes each fact on its own: the state it read, or the sentinel
    and an error count, whatever became of the height; and the height it read,
    or the last one and an error count, whatever became of the state. *)
Theorem poll_independent (other : Z → string) (fsm header : option Z) (s : poll_st) :
  let s' := pollClusterState other fsm header s in
  gauge ClusterFSMState "" (obs s') = Some (default (-1) fsm) ∧
  fsmState s' = match fsm with Some st => Some (state_name other st) | None => fsmState s end ∧
  height s' = default (height s) header ∧
  gauge ClusterBlockHeight "" (obs s')
  = match header with Some h => Some h | None => gauge ClusterBlockHeight "" (obs s) end.
Proof.
  cbv zeta. unfold pollClusterState.
  assert (∀ name code o, gauge ClusterBlockHeight "" (SetFSMState name code o) = gauge ClusterBlockHeight "" o) as Hh.
  { intros name code o. unfold SetFSMState. rewrite (gauge_each_set _ (λ s, if String.eqb s name then 1 else 0)).
    by rewrite decide_False, gauge_set, decide_False by (by intros [? _]). }
  destruct fsm as [st|], header as [h|]; cbn [obs fsmState height]; split_and!; try done;
    rewrite ?gauge_inc, ?gauge_set, ?decide_True by done;
    rewrite ?decide_False by (by intros [? _]);
    rewrite ?(proj2 (SetFSMState_gauges _ _ _)), ?Hh; done.
Qed.

(** A state outside the table is nobody's: the numeric gauge shows its code and
    every published state, [UNKNOWN] included, shows zero. *)
Theorem unlisted_state_all_zero (other : Z → string) (st h : Z) (s : poll_st) :
  2 < st → other st ∉ FSMStates →
  let o := obs (pollClusterState other (Some st) (Some h) s) in
  gauge ClusterFSMState "" o = Some st ∧
  ∀ n, n ∈ FSMStates → gauge ClusterFSMStateInfo n o = Some 0.
Proof.
  intros Hst Ho. cbv zeta. unfold pollClusterState. cbn [obs].
  assert (state_name other st = other st) as ->.
  { unfold state_name. by rewrite !(proj2 (Z.eqb_neq _ _)) by lia. }
  destruct (SetFSMState_gauges (other st) st (cluster.obs s)) as [H1 H2]. split.
  - by rewrite gauge_set, decide_False by (by intros [? _]).
  - intros n Hn. rewrite gauge_set, decide_False by (by intros [? _]). rewrite (H1 n Hn).
    destruct (String.eqb_spec n (other st)) as [->|]; done.
Qed.

(** A cluster that stops answering still passes its health check: the check
    reads the last state that could be read, so after one good poll any number
    of failed ones leave it at 200 while the gauge shows [-1]. *)
Theorem stale_state_healthy (other : Z → string) (s : poll_st) (name : string) (n : nat) :
  fsmState s = Some name → name ∈ ["RUNNING"; "IDLE"; "CATCHINGBLOCKS"]%string → (0 < n)%nat →
  let s' := RunClusterState other 1 (replicate n (None, None)) s in
  fst (fst (health.fsm_check (str (fst (ClusterState s'))) (snd (ClusterState s')) false)) = 200 ∧
  gauge ClusterFSMState "" (obs s') = Some (-1).
Proof.
  intros Hf Hn Hpos s'.
  assert (fsmState s' = Some name ∧ gauge ClusterFSMState "" (obs s') = Some (-1)) as [E G].
  { unfold s', RunClusterState. change (1 <=? 0) with false. cbv iota. clear s' Hn.
    revert s Hf. induction n as [|n IH]; intros s Hf; [lia|]. cbn [replicate foldl].
    destruct (decide (n = 0%nat)) as [->|]; [|apply IH; [lia|done]]. cbn [replicate foldl].
    split; [done|]. unfold pollClusterState. cbn [obs]. rewrite gauge_inc. apply SetFSMState_gauges. }
  split; [|done]. unfold ClusterState. rewrite E. cbn [default fst].
  rewrite !elem_of_cons, elem_of_nil in Hn. by destruct Hn as [->|[->|[->|[]]]].
Qed.

(** ** Witnesses *)

Definition kx_other (st : Z) : string := "3".
Definition kx_start : poll_st := mkPoll None 0 (Preset 5 ["tx"; "subtree"]%string true obs0).

Lemma fsm_gauges_agree_witness :
  ∃ name, name ∈ FSMStates ∧
    gauge ClusterFSMState "" (obs (RunClusterState kx_other 15 [(Some 1, Some 7); (None, None); (Some 2, None)] kx_start))
    = Some (code_of name).
Proof.
  destruct (fsm_gauges_agree kx_other 5 15 ["tx"; "subtree"]%string
    [(Some 1, Some 7); (None, None); (Some 2, None)] obs0 None 0) as (name & Hn & Hg & _).
  - repeat (apply Forall_cons; split; [intros st; cbn; intros [= <-]; lia|]). apply Forall_nil. exact I.
  - exists name. split; [exact Hn|exact Hg].
Defined.

Lemma unlisted_state_all_zero_witness :
  gauge ClusterFSMStateInfo "UNKNOWN" (obs (pollClusterState kx_other (Some 3) (Some 9) kx_start)) = Some 0.
Proof.
  apply (unlisted_state_all_zero kx_other 3 9 kx_start); [lia| |]; apply (bool_decide_unpack _); exact I.
Defined.

Lemma stale_state_healthy_witness :
  let s := RunClusterState kx_other 1 (replicate 4 (None, None)) (mkPoll (Some "RUNNING"%string) 7 obs0) in
  fst (fst (health.fsm_check (str (fst (ClusterState s))) (snd (ClusterState s)) false)) = 200.
Proof.
  apply (stale_state_healthy kx_other (mkPoll (Some "RUNNING"%string) 7 obs0) "RUNNING" 4);
    [reflexivity|left|lia].
Defined.
