(* ===== verification/Json.v ===== *)
(** * JSON documents

    What the health routes use of [encoding/json] and [unicode/utf8]: the
    encoding of strings, booleans, arrays and objects that [json.Marshal]
    writes for structs of such fields, and a reader for documents of that
    shape. The writer escapes as [appendString] does with HTML escaping on:
    quotes, backslashes, control characters, [<], [>] and [&] are escaped, a
    byte that is not part of a UTF-8 sequence becomes the replacement
    character, and the two line separators are escaped by number. The reader
    is a strict subset of the JSON grammar: no white space between tokens, no
    raw control characters in strings, and escapes by number only for code
    points outside the surrogate range. What it accepts is well formed. *)

From Stdlib Require Import Strings.Byte.
From stdpp Require Import base list strings numbers.
From S2P Require Import Prelude HashId.

Module utf8.
(** A continuation byte, and the ranges of [utf8.DecodeRune]'s table. *)
Definition within (lo hi : Z) (b : byte) : bool := (lo <=? byte_val b) && (byte_val b <=? hi).
Definition cont (b : byte) : bool := within 0x80 0xbf b.
Definition two (b0 b1 : byte) : bool := within 0xc2 0xdf b0 && cont b1.
Definition second3 (b0 b1 : byte) : bool :=
  if byte_val b0 =? 0xe0 then within 0xa0 0xbf b1
  else if byte_val b0 =? 0xed then within 0x80 0x9f b1 else cont b1.
Definition three (b0 b1 b2 : byte) : bool := within 0xe0 0xef b0 && second3 b0 b1 && cont b2.
Definition second4 (b0 b1 : byte) : bool :=
  if byte_val b0 =? 0xf0 then within 0x90 0xbf b1
  else if byte_val b0 =? 0xf4 then within 0x80 0x8f b1 else cont b1.
Definition four (b0 b1 b2 b3 : byte) : bool := within 0xf0 0xf4 b0 && second4 b0 b1 && cont b2 && cont b3.

(** The UTF-8 form of [U+FFFD]. *)
Definition replacement : list byte := [xef; xbf; xbd].

(** A walk over a byte string, rune by rune: [ascii] for a single byte below
    [0x80], [multi] for a longer sequence, [bad] for a byte that starts none. *)
Section walk.
Context (ascii : byte → list byte) (multi : list byte → list byte) (bad : list byte).

Fixpoint walk (s : list byte) : list byte :=
  match s with
  | [] => []
  | b0 :: s1 =>
      if byte_val b0 <? 0x80 then ascii b0 ++ walk s1 else
      match s1 with
      | [] => bad ++ walk s1
      | b1 :: s2 =>
          if two b0 b1 then multi [b0; b1] ++ walk s2 else
          match s2 with
          | [] => bad ++ walk s1
          | b2 :: s3 =>
              if three b0 b1 b2 then multi [b0; b1; b2] ++ walk s3 else
              match s3 with
              | [] => bad ++ walk s1
              | b3 :: s4 =>
                  if four b0 b1 b2 b3 then multi [b0; b1; b2; b3] ++ walk s4 else bad ++ walk s1
              end
          end
      end
  end.
End walk.

(** [strings.ToValidUTF8] with the replacement character for every bad byte;
    its fixed points are the valid strings. *)
Definition valid (s : list byte) : list byte := walk (λ b, [b]) (λ r, r) replacement s.
End utf8.

Module json.
Import utf8.

Definition quote : byte := x22.
Definition backslash : byte := x5c.

(** The bytes [appendString] copies as they are. *)
Definition htmlSafe (b : byte) : bool :=
  within 0x20 0x7f b && negb (bool_decide (b ∈ [quote; backslash; x3c; x3e; x26])).

Definition escape (b : byte) : list byte :=
  if htmlSafe b then [b] else
  if bool_decide (b = quote) || bool_decide (b = backslash) then [backslash; b] else
  if bool_decide (b = x08) then [backslash; x62] else
  if bool_decide (b = x0c) then [backslash; x66] else
  if bool_decide (b = x0a) then [backslash; x6e] else
  if bool_decide (b = x0d) then [backslash; x72] else
  if bool_decide (b = x09) then [backslash; x74] else
  backslash :: str "u00" ++ [hex_digit (Z.shiftr (byte_val b) 4); hex_digit (Z.land (byte_val b) 15)].

(** [U+2028] and [U+2029] are escaped by number. *)
Definition multi_rune (r : list byte) : list byte :=
  if bool_decide (r = [xe2; x80; xa8]) then backslash :: str "u2028"
  else if bool_decide (r = [xe2; x80; xa9]) then backslash :: str "u2029" else r.

Definition string_body (s : gostring) : list byte := walk escape multi_rune (backslash :: str "ufffd") s.
Definition appendString (s : gostring) : list byte := quote :: string_body s ++ [quote].

#[warnings="-register-all"] Inductive value : Type :=
| JString (s : gostring)
| JBool (b : bool)
| JArray (l : list value)
| JObject (l : list (gostring * value)).

(** Elements separated by commas. *)
Fixpoint commas (l : list (list byte)) : list byte :=
  match l with
  | [] => []
  | [x] => x
  | x :: l => x ++ x2c :: commas l
  end.

Fixpoint Marshal (v : value) : list byte :=
  match v with
  | JString s => appendString s
  | JBool b => if b then str "true" else str "false"
  | JArray l => x5b :: commas (Marshal <$> l) ++ [x5d]
  | JObject l => x7b :: commas ((λ kv, appendString (fst kv) ++ x3a :: Marshal (snd kv)) <$> l) ++ [x7d]
  end.

(** ** The reader *)

(** The UTF-8 form of a code point of the basic plane. *)
Definition encode_rune (c : Z) : list byte :=
  if c <? 0x80 then [byte_of c]
  else if c <? 0x800 then [byte_of (0xc0 + c / 64); byte_of (0x80 + c mod 64)]
  else [byte_of (0xe0 + c / 4096); byte_of (0x80 + c / 64 mod 64); byte_of (0x80 + c mod 64)].

Definition hex4 (a b c d : byte) : option Z :=
  match unhex a, unhex b, unhex c, unhex d with
  | Some a, Some b, Some c, Some d => Some (4096 * a + 256 * b + 16 * c + d)
  | _, _, _, _ => None
  end.

Definition unescape (c : byte) : option byte :=
  if bool_decide (c ∈ [quote; backslash; x2f]) then Some c else
  if bool_decide (c = x62) then Some x08 else
  if bool_decide (c = x66) then Some x0c else
  if bool_decide (c = x6e) then Some x0a else
  if bool_decide (c = x72) then Some x0d else
  if bool_decide (c = x74) then Some x09 else None.

Definition prepend (x : list byte) (r : option (list byte * list byte)) : option (list byte * list byte) :=
  match r with Some (s, rest) => Some (x ++ s, rest) | None => None end.

(** A string after its opening quote. *)
Fixpoint read_string (s : list byte) : option (gostring * list byte) :=
  match s with
  | [] => None
  | c :: s1 =>
      if bool_decide (c = quote) then Some ([], s1) else
      if bool_decide (c = backslash) then
        match s1 with
        | e :: s2 =>
            if bool_decide (e = x75) then
              match s2 with
              | h1 :: h2 :: h3 :: h4 :: s3 =>
                  match hex4 h1 h2 h3 h4 with
                  | Some u => if (0xd800 <=? u) && (u <=? 0xdfff) then None
                              else prepend (encode_rune u) (read_string s3)
                  | None => None
                  end
              | _ => None
              end
            else match unescape e with
                 | Some b => prepend [b] (read_string s2)
                 | None => None
                 end
        | [] => None
        end
      else if byte_val c <? 0x20 then None else prepend [c] (read_string s1)
  end.

Definition take_prefix (p s : list byte) : option (list byte) :=
  if bool_decide (take (length p) s = p) then Some (drop (length p) s) else None.

(** Values, array elements after the first, and object members, with one unit
    of fuel per nested call. *)
Fixpoint read_value (fuel : nat) (s : list byte) : option (value * list byte) :=
  match fuel with
  | O => None
  | S fuel =>
      match s with
      | [] => None
      | c :: s1 =>
          if bool_decide (c = quote) then
            '(x, r) ← read_string s1; Some (JString x, r)
          else if bool_decide (c = x5b) then
            match s1 with
            | x5d :: r => Some (JArray [], r)
            | _ => '(l, r) ← read_elements fuel s1; Some (JArray l, r)
            end
          else if bool_decide (c = x7b) then
            match s1 with
            | x7d :: r => Some (JObject [], r)
            | _ => '(l, r) ← read_members fuel s1; Some (JObject l, r)
            end
          else match take_prefix (str "true") s with
               | Some r => Some (JBool true, r)
               | None => match take_prefix (str "false") s with
                         | Some r => Some (JBool false, r)
                         | None => None
                         end
               end
      end
  end
with read_elements (fuel : nat) (s : list byte) : option (list value * list byte) :=
  match fuel with
  | O => None
  | S fuel =>
      '(v, r) ← read_value fuel s;
      match r with
      | x5d :: r => Some ([v], r)
      | x2c :: r => '(l, r) ← read_elements fuel r; Some (v :: l, r)
      | _ => None
      end
  end
with read_members (fuel : nat) (s : list byte) : option (list (gostring * value) * list byte) :=
  match fuel with
  | O => None
  | S fuel =>
      match s with
      | c :: s1 =>
          if bool_decide (c = quote) then
            '(k, r) ← read_string s1;
            match r with
            | x3a :: r =>
                '(v, r) ← read_value fuel r;
                match r with
                | x7d :: r => Some ([(k, v)], r)
                | x2c :: r => '(l, r) ← read_members fuel r; Some ((k, v) :: l, r)
                | _ => None
                end
            | _ => None
            end
          else None
      | [] => None
      end
  end.

(** A whole document. *)
Definition parse (s : list byte) : option value :=
  match read_value (S (length s)) s with
  | Some (v, []) => Some v
  | _ => None
  end.
End json.

Import utf8 json.

(** ** Runes *)

Definition is_rune (l : list byte) : Prop :=
  match l with
  | [b0; b1] => two b0 b1 = true
  | [b0; b1; b2] => three b0 b1 b2 = true
  | [b0; b1; b2; b3] => four b0 b1 b2 b3 = true
  | _ => False
  end.

Lemma within_spec lo hi b : within lo hi b = true ↔ lo ≤ byte_val b ≤ hi.
Proof. unfold within. rewrite andb_true_iff, !Z.leb_le. done. Qed.
Lemma within_out lo hi b : byte_val b < lo ∨ hi < byte_val b → within lo hi b = false.
Proof. intros H. apply not_true_is_false. rewrite within_spec. lia. Qed.

Lemma cont_high b : cont b = true → 0x80 ≤ byte_val b.
Proof. intros H%within_spec. lia. Qed.

(** The first byte decides the length. *)
Lemma three_not_two b0 b1 b2 : three b0 b1 b2 = true → two b0 b1 = false ∧ 0xe0 ≤ byte_val b0 ≤ 0xef.
Proof.
  unfold three, two. intros [[H _]%andb_true_iff _]%andb_true_iff. apply within_spec in H.
  by rewrite within_out by lia.
Qed.
Lemma four_not_less b0 b1 b2 b3 :
  four b0 b1 b2 b3 = true → two b0 b1 = false ∧ three b0 b1 b2 = false ∧ 0xf0 ≤ byte_val b0.
Proof.
  unfold four, three, two. intros [[[H _]%andb_true_iff _]%andb_true_iff _]%andb_true_iff. apply within_spec in H.
  rewrite !within_out by lia. split_and!; [done..|lia].
Qed.

Lemma rune_high l : is_rune l → Forall (λ b, 0x80 ≤ byte_val b) l.
Proof.
  assert (∀ b0 b1, second3 b0 b1 = true → 0x80 ≤ byte_val b1) as H3.
  { intros b0 b1. unfold second3. repeat case_match; intros Hw%within_spec; lia. }
  assert (∀ b0 b1, second4 b0 b1 = true → 0x80 ≤ byte_val b1) as H4.
  { intros b0 b1. unfold second4. repeat case_match; intros Hw%within_spec; lia. }
  destruct l as [|b0 [|b1 [|b2 [|b3 [|]]]]]; cbn; try done; unfold two, three, four; rewrite !andb_true_iff.
  - intros [H0%within_spec H1%cont_high]. repeat constructor; lia.
  - intros [[H0%within_spec H1%H3] H2%cont_high]. repeat constructor; lia.
  - intros [[[H0%within_spec H1%H4] H2%cont_high] H3'%cont_high]. repeat constructor; lia.
Qed.

Section walks.
Context (f : byte → list byte) (g : list byte → list byte) (h : list byte).

Lemma walk_ascii b s : byte_val b < 0x80 → walk f g h (b :: s) = f b ++ walk f g h s.
Proof. intros Hb. cbn [walk]. by rewrite (proj2 (Z.ltb_lt _ _) Hb). Qed.

Lemma walk_rune l s : is_rune l → walk f g h (l ++ s) = g l ++ walk f g h s.
Proof.
  intros Hl. pose proof (rune_high l Hl) as Hh.
  destruct l as [|b0 [|b1 [|b2 [|b3 [|]]]]]; cbn in Hl; try done;
    apply list.Forall_cons in Hh as [H0 _]; cbn [app walk]; rewrite (proj2 (Z.ltb_ge _ _) H0).
  - by rewrite Hl.
  - destruct (three_not_two _ _ _ Hl) as [-> _]. by rewrite Hl.
  - destruct (four_not_less _ _ _ _ Hl) as (-> & -> & _). by rewrite Hl.
Qed.
End walks.

(** A non-empty string starts with a low byte, a rune, or a byte that starts
    none. *)
Inductive first : list byte → Prop :=
| first_nil : first []
| first_ascii b s : byte_val b < 0x80 → first (b :: s)
| first_rune l s : is_rune l → first (l ++ s)
| first_bad b s : 0x80 ≤ byte_val b → (∀ f g h, walk f g h (b :: s) = h ++ walk f g h s) → first (b :: s).

Lemma first_of s : first s.
Proof.
  destruct s as [|b0 s]; [constructor|].
  destruct (Z.ltb_spec (byte_val b0) 0x80) as [Hb|Hb]; [by constructor|].
  assert (Hl : (byte_val b0 <? 0x80) = false) by (by apply Z.ltb_ge).
  destruct s as [|b1 s]; [apply first_bad; [done|]; intros; cbn [walk]; by rewrite Hl|].
  destruct (two b0 b1) eqn:E2; [by apply (first_rune [b0; b1])|].
  destruct s as [|b2 s]; [apply first_bad; [done|]; intros; cbn [walk]; by rewrite Hl, E2|].
  destruct (three b0 b1 b2) eqn:E3; [by apply (first_rune [b0; b1; b2])|].
  destruct s as [|b3 s]; [apply first_bad; [done|]; intros; cbn [walk]; by rewrite Hl, E2, E3|].
  destruct (four b0 b1 b2 b3) eqn:E4; [by apply (first_rune [b0; b1; b2; b3])|].
  apply first_bad; [done|]. intros. 
  change (walk f g h (b0 :: b1 :: b2 :: b3 :: s)) with
    (if byte_val b0 <? 0x80 then f b0 ++ walk f g h (b1 :: b2 :: b3 :: s) else
     if two b0 b1 then g [b0; b1] ++ walk f g h (b2 :: b3 :: s) else
     if three b0 b1 b2 then g [b0; b1; b2] ++ walk f g h (b3 :: s) else
     if four b0 b1 b2 b3 then g [b0; b1; b2; b3] ++ walk f g h s else h ++ walk f g h (b1 :: b2 :: b3 :: s)).
  by rewrite Hl, E2, E3, E4.
Qed.

Lemma runes_ind (P : list byte → Prop) :
  P [] →
  (∀ b s, byte_val b < 0x80 → P s → P (b :: s)) →
  (∀ l s, is_rune l → P s → P (l ++ s)) →
  (∀ b s, 0x80 ≤ byte_val b → (∀ f g h, walk f g h (b :: s) = h ++ walk f g h s) → P s → P (b :: s)) →
  ∀ s, P s.
Proof.
  intros H0 Ha Hr Hb s. remember (length s) as n eqn:E. revert s E.
  induction n as [n IH] using lt_wf_ind. intros s ->.
  destruct (first_of s) as [|b s Hlow|l s Hl|b s Hhigh Hw]; [done| | |].
  - apply Ha; [done|]. eapply IH; [|done]. cbn. lia.
  - apply Hr; [done|]. eapply IH; [|done]. rewrite length_app. destruct l; [done|]. cbn. lia.
  - apply Hb; [done..|]. eapply IH; [|done]. cbn. lia.
Qed.

(** ** Strings *)

Lemma prepend_app x y r : prepend x (prepend y r) = prepend (x ++ y) r.
Proof. destruct r as [[s rest]|]; [|done]. cbn. by rewrite app_assoc. Qed.

Lemma read_escape b r : byte_val b < 0x80 → read_string (escape b ++ r) = prepend [b] (read_string r).
Proof. intros Hb. destruct b; first [exfalso; vm_compute in Hb; discriminate Hb | reflexivity]. Qed.

Lemma read_raw l r : Forall (λ b, 0x80 ≤ byte_val b) l → read_string (l ++ r) = prepend l (read_string r).
Proof.
  induction 1 as [|c l Hc _ IH]; [cbn [app]; by destruct (read_string r) as [[? ?]|]|].
  cbn [app read_string].
  rewrite (bool_decide_eq_false_2 (c = quote)), (bool_decide_eq_false_2 (c = backslash))
    by (intros E; rewrite E in Hc; vm_compute in Hc; by apply Hc).
  rewrite (proj2 (Z.ltb_ge _ _)) by lia. rewrite IH, prepend_app. done.
Qed.

Lemma read_multi l r : is_rune l → read_string (multi_rune l ++ r) = prepend l (read_string r).
Proof.
  intros Hl. unfold multi_rune. case_bool_decide as E1; [by subst l|]. case_bool_decide as E2; [by subst l|].
  apply read_raw. by apply rune_high.
Qed.

(** A reader gets back the valid form of what was written. *)
Lemma read_string_body s rest : read_string (string_body s ++ quote :: rest) = Some (valid s, rest).
Proof.
  unfold string_body, valid. induction s as [|b s Hb IH|l s Hl IH|b s Hb Hw IH] using runes_ind; [done|..].
  - rewrite !walk_ascii by done. rewrite <- app_assoc, read_escape, IH by done. done.
  - rewrite !walk_rune by done. rewrite <- app_assoc, read_multi, IH by done. done.
  - rewrite !Hw, <- app_assoc.
    change (read_string ((backslash :: str "ufffd") ++ ?x)) with (prepend replacement (read_string x)).
    by rewrite IH.
Qed.

Lemma read_appendString s rest : read_string (tl (appendString s) ++ rest) = Some (valid s, rest).
Proof. cbn [appendString tl]. rewrite <- app_assoc. apply read_string_body. Qed.

(** What is written is UTF-8. *)
Lemma valid_low l r : Forall (λ b, byte_val b < 0x80) l → valid (l ++ r) = l ++ valid r.
Proof. induction 1 as [|b l Hb _ IH]; [done|]. unfold valid in *. cbn [app]. by rewrite walk_ascii, IH. Qed.

Lemma escape_low b : byte_val b < 0x80 → Forall (λ c, byte_val c < 0x80) (escape b).
Proof. intros Hb. destruct b; first [exfalso; vm_compute in Hb; discriminate Hb | repeat constructor]. Qed.

Lemma valid_multi l r : is_rune l → valid (multi_rune l ++ r) = multi_rune l ++ valid r.
Proof.
  intros Hl. unfold multi_rune. case_bool_decide; [by apply valid_low; repeat constructor|].
  case_bool_decide; [by apply valid_low; repeat constructor|]. unfold valid. by rewrite walk_rune.
Qed.

Lemma valid_string_body s r : valid (string_body s ++ r) = string_body s ++ valid r.
Proof.
  unfold string_body. induction s as [|b s Hb IH|l s Hl IH|b s Hb Hw IH] using runes_ind; [done|..].
  - rewrite !walk_ascii by done. rewrite <- !app_assoc, valid_low, IH by (by apply escape_low). done.
  - rewrite !walk_rune by done. by rewrite <- !app_assoc, valid_multi, IH.
  - rewrite !Hw, <- !app_assoc, valid_low, IH by (repeat constructor). done.
Qed.

Lemma valid_idemp s : valid (valid s) = valid s.
Proof.
  unfold valid at 2 3. induction s as [|b s Hb IH|l s Hl IH|b s Hb Hw IH] using runes_ind; [done|..].
  - rewrite !walk_ascii by done. unfold valid in *. cbn [app]. by rewrite walk_ascii, IH.
  - rewrite !walk_rune by done. unfold valid in *. by rewrite walk_rune, IH.
  - rewrite !Hw. unfold valid in *. rewrite walk_rune, IH by done. done.
Qed.

(** ASCII text is valid. *)
Lemma valid_ascii s : Forall (λ b, byte_val b < 0x80) s → valid s = s.
Proof. intros H. pose proof (valid_low s [] H) as E. by rewrite !app_nil_r in E. Qed.

(** ** Documents *)

(** A value with its strings in valid form, which is what a reader sees. *)
Fixpoint valid_value (v : value) : value :=
  match v with
  | JString s => JString (valid s)
  | JBool b => JBool b
  | JArray l => JArray (valid_value <$> l)
  | JObject l => JObject ((λ kv, (valid (fst kv), valid_value (snd kv))) <$> l)
  end.

(** The fuel a value needs. *)
Fixpoint weight (v : value) : nat :=
  match v with
  | JString _ | JBool _ => 1
  | JArray l => S (sum_list_with (λ v, S (weight v)) l)
  | JObject l => S (sum_list_with (λ kv, S (weight (snd kv))) l)
  end.

Fixpoint value_ind' (P : value → Prop) (Hs : ∀ s, P (JString s)) (Hb : ∀ b, P (JBool b))
    (Ha : ∀ l, Forall P l → P (JArray l)) (Ho : ∀ l, Forall (λ kv, P (snd kv)) l → P (JObject l))
    (v : value) : P v :=
  let rec := value_ind' P Hs Hb Ha Ho in
  match v with
  | JString s => Hs s
  | JBool b => Hb b
  | JArray l => Ha l (list_ind (Forall P) (Forall_nil_2 _) (λ v l IH, Forall_cons_2 _ v l (rec v) IH) l)
  | JObject l => Ho l (list_ind (Forall (λ kv, P (snd kv))) (Forall_nil_2 _)
                         (λ kv l IH, Forall_cons_2 _ kv l (rec (snd kv)) IH) l)
  end.

Lemma commas_cons x l : l ≠ [] → commas (x :: l) = x ++ x2c :: commas l.
Proof. by destruct l. Qed.

Lemma Marshal_head v : ∃ c t, Marshal v = c :: t ∧ c ≠ x5d ∧ c ≠ x7d.
Proof. destruct v as [s|[]|l|l]; eexists _, _; (split; [reflexivity|done]). Qed.

Definition reads (v : value) : Prop :=
  ∀ fuel r, (weight v ≤ fuel)%nat → read_value fuel (Marshal v ++ r) = Some (valid_value v, r).

Lemma read_elements_commas l r fuel :
  Forall reads l → l ≠ [] → (sum_list_with (λ v, S (weight v)) l ≤ fuel)%nat →
  read_elements fuel (commas (Marshal <$> l) ++ x5d :: r) = Some (valid_value <$> l, r).
Proof.
  intros Hl. revert fuel. induction Hl as [|v l Hv Hl IH]; intros fuel Hne Hf; [done|].
  cbn [sum_list_with] in Hf. destruct fuel as [|fuel]; [lia|]. cbn [fmap list_fmap read_elements].
  destruct l as [|w l].
  - cbn [commas fmap list_fmap]. rewrite Hv by lia. done.
  - rewrite commas_cons by done. rewrite <- app_assoc, Hv by lia. cbn [mbind option_bind app].
    rewrite IH by (done || (cbn [sum_list_with] in *; lia)). done.
Qed.

Definition member (kv : gostring * value) : list byte := appendString (fst kv) ++ x3a :: Marshal (snd kv).

Lemma read_members_commas l r fuel :
  Forall (λ kv, reads (snd kv)) l → l ≠ [] → (sum_list_with (λ kv, S (weight (snd kv))) l ≤ fuel)%nat →
  read_members fuel (commas (member <$> l) ++ x7d :: r)
  = Some ((λ kv, (valid (fst kv), valid_value (snd kv))) <$> l, r).
Proof.
  intros Hl. revert fuel. induction Hl as [|[k v] l Hv Hl IH]; intros fuel Hne Hf; [done|].
  cbn [sum_list_with snd] in Hf, Hv. destruct fuel as [|fuel]; [lia|].
  assert (Hm : ∀ x, read_members (S fuel) (member (k, v) ++ x)
    = match read_value fuel (Marshal v ++ x) with
      | Some (w, r) =>
          match r with
          | x7d :: r => Some ([(valid k, w)], r)
          | x2c :: r => '(l, r) ← read_members fuel r; Some ((valid k, w) :: l, r)
          | _ => None
          end
      | None => None
      end).
  { intros x. unfold member. cbn [fst snd appendString app read_members].
    rewrite (bool_decide_eq_true_2 (quote = quote)) by done.
    rewrite <- !app_assoc. cbn [app]. rewrite read_string_body. cbn [mbind option_bind].
    by destruct (read_value fuel (Marshal v ++ x)) as [[w r0]|]. }
  cbn [fmap list_fmap]. destruct l as [|w l].
  - cbn [commas fmap list_fmap]. rewrite Hm, Hv by lia. done.
  - rewrite commas_cons by done. rewrite <- app_assoc, Hm, Hv by lia. cbn [app].
    rewrite IH by (done || (cbn [sum_list_with] in *; lia)). done.
Qed.

Lemma commas_head {A} (f : A → list byte) l r c t :
  (∀ x, x ∈ l → ∃ c t, f x = c :: t ∧ c ≠ x5d ∧ c ≠ x7d) → l ≠ [] →
  commas (f <$> l) ++ r = c :: t → c ≠ x5d ∧ c ≠ x7d.
Proof.
  destruct l as [|x l]; [done|]. intros H _. destruct (H x ltac:(left)) as (c' & t' & E & Hc).
  destruct l as [|y l]; cbn [fmap list_fmap]; rewrite ?commas_cons by done; cbn [commas];
    rewrite E; cbn [app]; intros [= <- _]; done.
Qed.

Lemma read_Marshal v : reads v.
Proof.
  induction v as [s|b|l IH|l IH] using value_ind'; intros fuel r Hf; cbn [weight] in Hf;
    (destruct fuel as [|fuel]; [lia|]).
  - cbn [Marshal appendString app read_value]. rewrite (bool_decide_eq_true_2 (quote = quote)) by done.
    rewrite <- app_assoc. cbn [app]. by rewrite read_string_body.
  - by destruct b.
  - cbn [Marshal]. destruct l as [|v l]; [done|]. cbn [app]. rewrite <- app_assoc. cbn [app].
    pose proof (read_elements_commas (v :: l) r fuel IH) as He.
    destruct (commas (Marshal <$> v :: l) ++ x5d :: r) as [|c t] eqn:E.
    { destruct (commas (Marshal <$> v :: l)); discriminate E. }
    apply commas_head in E as [Hc _]; [|intros; apply Marshal_head|done].
    cbn [read_value]. rewrite (bool_decide_eq_false_2 (x5b = quote)), (bool_decide_eq_true_2 (x5b = x5b)) by done.
    destruct c; try done; rewrite He by (done || lia); done.
  - cbn [Marshal]. destruct l as [|v l]; [done|]. cbn [app]. rewrite <- app_assoc. cbn [app].
    fold member. pose proof (read_members_commas (v :: l) r fuel IH) as He.
    destruct (commas (member <$> v :: l) ++ x7d :: r) as [|c t] eqn:E.
    { destruct (commas (member <$> v :: l)); discriminate E. }
    apply commas_head in E as [_ Hc]; [|intros; by eexists _, _|done].
    cbn [read_value]. rewrite (bool_decide_eq_false_2 (x7b = quote)), (bool_decide_eq_false_2 (x7b = x5b)),
      (bool_decide_eq_true_2 (x7b = x7b)) by done.
    destruct c; try done; rewrite He by (done || lia); done.
Qed.

Lemma length_commas l : l ≠ [] → S (length (commas l)) = sum_list_with (λ x, S (length x)) l.
Proof.
  induction l as [|x l IH]; intros Hne; [done|]. destruct l as [|y l]; [cbn; lia|].
  rewrite commas_cons, length_app by done. cbn [length]. rewrite IH by done. cbn [sum_list_with]. lia.
Qed.

Lemma sum_weights {A} (w : A → nat) (f : A → list byte) l :
  Forall (λ x, (w x ≤ length (f x))%nat) l → l ≠ [] →
  (sum_list_with (λ x, S (w x)) l ≤ S (length (commas (f <$> l))))%nat.
Proof.
  intros Hl Hne. rewrite length_commas by (by destruct l). clear Hne.
  induction Hl as [|x l Hx _ IH]; [done|]. cbn [fmap list_fmap sum_list_with]. lia.
Qed.

Lemma weight_length v : (weight v ≤ length (Marshal v))%nat.
Proof.
  induction v as [s|b|l IH|l IH] using value_ind'; cbn [weight Marshal].
  - cbn. lia.
  - destruct b; cbn; lia.
  - cbn [length]. rewrite length_app. cbn [length]. destruct l as [|v l]; [cbn; lia|].
    pose proof (sum_weights weight Marshal (v :: l) IH). specialize (H ltac:(done)). lia.
  - cbn [length]. rewrite length_app. cbn [length]. fold member. destruct l as [|v l]; [cbn; lia|].
    assert (Forall (λ kv, (weight (snd kv) ≤ length (member kv))%nat) (v :: l)) as Hm.
    { apply (list.Forall_impl _ _ _ IH). intros kv Hk. cbn beta in Hk. unfold member. rewrite length_app. cbn [length]. lia. }
    pose proof (sum_weights (λ kv, weight (snd kv)) member (v :: l) Hm ltac:(done)). lia.
Qed.

(** Reading a written document gives the value back, its strings in valid
    form. *)
Lemma parse_Marshal v : parse (Marshal v) = Some (valid_value v).
Proof.
  unfold parse. pose proof (weight_length v). pose proof (read_Marshal v (S (length (Marshal v))) []) as H0.
  rewrite app_nil_r in H0. by rewrite H0 by lia.
Qed.

Lemma valid_appendString s r : valid (appendString s ++ r) = appendString s ++ valid r.
Proof.
  unfold appendString. cbn [app]. rewrite <- !app_assoc. change (quote :: ?x) with ([quote] ++ x).
  rewrite valid_low, valid_string_body, valid_low by (repeat constructor). done.
Qed.

Lemma valid_commas {A} (f : A → list byte) l r :
  Forall (λ x, ∀ r, valid (f x ++ r) = f x ++ valid r) l → valid (commas (f <$> l) ++ r) = commas (f <$> l) ++ valid r.
Proof.
  induction 1 as [|x l Hx _ IH]; [done|]. cbn [fmap list_fmap]. destruct l as [|y l]; [apply Hx|].
  rewrite commas_cons by done. rewrite <- !app_assoc, Hx. cbn [app]. change (x2c :: ?z) with ([x2c] ++ z).
  rewrite valid_low by (repeat constructor). by rewrite IH.
Qed.

Lemma valid_Marshal_app v r : valid (Marshal v ++ r) = Marshal v ++ valid r.
Proof.
  revert r. induction v as [s|b|l IH|l IH] using value_ind'; intros r; cbn [Marshal].
  - apply valid_appendString.
  - destruct b; by apply valid_low; repeat constructor.
  - change (x5b :: ?z) with ([x5b] ++ z). rewrite <- !app_assoc, valid_low, valid_commas, valid_low; [done|..|done|];
      by repeat constructor.
  - fold member. change (x7b :: ?z) with ([x7b] ++ z).
    rewrite <- !app_assoc, valid_low, valid_commas, valid_low; [done|..| |]; try by repeat constructor.
    apply (list.Forall_impl _ _ _ IH). intros kv Hk r'. unfold member. rewrite <- !app_assoc, valid_appendString.
    cbn [app]. change (x3a :: ?z) with ([x3a] ++ z). rewrite valid_low by (repeat constructor). cbn [app]. by rewrite Hk.
Qed.

(** The document is UTF-8. *)
Lemma valid_Marshal v : valid (Marshal v) = Marshal v.
Proof. pose proof (valid_Marshal_app v []) as H. by rewrite !app_nil_r in H. Qed.

Example json_escapes :
  Marshal (JObject [(str "k", JArray [JString (str "a" ++ [x22; x0a; x01; xff; xc3; xa9] ++ str "<"); JBool true])])
  = str "{" ++ [x22] ++ str "k" ++ [x22] ++ str ":[" ++ [x22] ++ str "a" ++ [x5c; x22; x5c] ++ str "n"
    ++ [x5c] ++ str "u0001" ++ [x5c] ++ str "ufffd" ++ [xc3; xa9; x5c] ++ str "u003c" ++ [x22] ++ str ",true]}".
Proof. vm_compute. reflexivity. Qed.
