(* ===== verification/HealthHttp.v ===== *)
(** * The observability endpoint

    [health.Handler] of [src/internal/health/health.go] with the document it
    writes, [Recorder.Serve] of [src/internal/metrics/metrics.go] with its
    route table, and the probe [RunPromoter] of [src/reverse/promoter.go] makes
    of it. The dependency checks are a function of the deadline a request
    sets with its [timeout] parameter. The
    metrics page is the list of metrics [Collect] returns; the log-level and
    profiling handlers are other packages' and appear by name. *)

From Stdlib Require Import Strings.Byte.
From stdpp Require Import base list strings numbers gmap pretty.
From S2P Require Import Prelude GoParse HashId Json Health Routes Metrics.
Import utf8 json.

Module endpoint.
Import health metrics.

(** ** [CheckAll]'s document *)

(** A field with [omitempty]. *)
Definition omitempty (k : string) (s : gostring) : list (gostring * value) :=
  if bool_decide (s = []) then [] else [(str k, JString s)].

Definition error_of (r : Result) : gostring := match Error r with Some e => error_text e | None => [] end.

Definition result_json (r : Result) : value :=
  JObject ([(str "resource", JString (Resource r)); (str "status", JString (health.itoa (Status r)))]
           ++ omitempty "message" (Message r) ++ omitempty "error" (error_of r)
           ++ [(str "gating", JBool (Gating r))]).

Definition report_json (r : Report) : value :=
  JObject [(str "status", JString (health.itoa (r_Status r)));
           (str "dependencies", JArray (result_json <$> Dependencies r))].

(** [CheckAll] returns the status and the marshalled report. *)
Definition CheckAll (checkLiveness strict : bool) (checks : list Check) : Z * list byte :=
  let '(overall, report) := health.CheckAll checkLiveness strict checks in
  (overall, Marshal (report_json report)).

(** ** [Handler] *)

Definition DefaultTimeout : Z := 5 * 10 ^ 9.


Definition deadline (param : gostring) : Z :=
  if bool_decide (param = []) then DefaultTimeout else
  match gotime.ParseDuration param with
  | Some d => if 0 <? d then d else DefaultTimeout
  | None => DefaultTimeout
  end.

(** [checks] is what the dependencies answer when probed with a deadline. *)
Definition Handler (liveness strict : bool) (checks : Z → list Check) (param : gostring) : Z * list byte :=
  let '(status, body) := CheckAll liveness strict (checks (deadline param)) in
  (status, body ++ [x0a]).

(** ** [Serve] *)

Inductive target : Type :=
| TMetrics | THealth (liveness : bool) | THealthz | TReadyz | TLogLevel | TPprof (name : string).

(** The calls of [Handle] and [HandleFunc]; no method means any. The last
    pattern ends in a slash and matches everything below it. *)
Definition table (level : bool) : list (option string * gostring * target) :=
  [(Some "GET"%string, str "/metrics", TMetrics);
   (Some "GET"%string, str "/health", THealth false);
   (Some "GET"%string, str "/health/readiness", THealth false);
   (Some "GET"%string, str "/health/liveness", THealth true);
   (Some "GET"%string, str "/healthz", THealthz);
   (Some "GET"%string, str "/readyz", TReadyz)]
  ++ (if level then [(None, str "/loglevel", TLogLevel)] else [])
  ++ [(None, str "/debug/pprof/cmdline", TPprof "cmdline");
      (None, str "/debug/pprof/profile", TPprof "profile");
      (None, str "/debug/pprof/symbol", TPprof "symbol");
      (None, str "/debug/pprof/trace", TPprof "trace")].
Definition pprof_index : list gostring := [str "debug"; str "pprof"].

Inductive routed : Type := Hit (t : target) | Redirect | NotFound | MethodNotAllowed.

Fixpoint lookup (t : list (option string * gostring * target)) (m : string) (segs : list gostring) : routed :=
  match t with
  | [] =>
      if bool_decide (take 2 segs = pprof_index) then
        if bool_decide (length segs = 2%nat) then Redirect else Hit (TPprof "index")
      else NotFound
  | (pm, path, tgt) :: t =>
      if bool_decide (routes.path_segs path = segs) then
        match pm with
        | Some pm => if routes.method_ok pm m then Hit tgt else MethodNotAllowed
        | None => Hit tgt
        end
      else lookup t m segs
  end.

(** The recorder with what [SetChecks] and [SetLevelVar] attach. *)
Record server : Type := mkServer { rec : Recorder; checks : Z → list Check; levelVar : bool }.
Definition SetChecks (c : Z → list Check) (s : server) : server := mkServer (rec s) c (levelVar s).
Definition SetLevelVar (s : server) : server := mkServer (rec s) (checks s) true.

Inductive answer : Type :=
| Text (status : Z) (body : list byte)
| Scrape (ms : list metric)
| Elsewhere (name : string)   (** the log-level handler, or a profile *)
| Unrouted (r : routed).

Definition Serve (s : server) (m : string) (path param : gostring) : answer :=
  if negb (routes.clean path) then Unrouted Redirect else
  match lookup (table (levelVar s)) m (routes.path_segs path) with
  | Hit TMetrics => Scrape (Collect (rec s))
  | Hit (THealth liveness) =>
      let '(st, b) := Handler liveness (strict (rec s)) (checks s) param in Text st b
  | Hit THealthz => let '(st, b) := healthz in Text st b
  | Hit TReadyz => let '(st, b) := readyz (rec s) in Text st b
  | Hit TLogLevel => Elsewhere "loglevel"
  | Hit (TPprof n) => Elsewhere n
  | r => Unrouted r
  end.

(** ** The promoter's probe *)

(** The default [Probe]: GET the configured URL, true on a 200. [None] is a
    primary that cannot be reached. *)
Definition probe (primary : option server) (path : gostring) : bool :=
  match primary with
  | None => false
  | Some s => match Serve s "GET" path [] with Text st _ => st =? 200 | Scrape _ => true | _ => false end
  end.
End endpoint.

Import endpoint.

(** ** Reading a report *)

Fixpoint field (k : gostring) (l : list (gostring * value)) : option value :=
  match l with
  | [] => None
  | (k', v) :: l => if bool_decide (k' = k) then Some v else field k l
  end.
Definition text_field (k : string) (l : list (gostring * value)) : option gostring :=
  match field (str k) l with Some (JString s) => Some s | _ => None end.

(** An entry as the cluster's tooling sees it. *)
Record entry : Type := mkEntry {
  n_resource : gostring; n_status : gostring; n_message : gostring; n_error : gostring; n_gating : bool
}.
Definition read_entry (v : value) : option entry :=
  match v with
  | JObject l =>
      r ← text_field "resource" l; s ← text_field "status" l;
      match field (str "gating") l with
      | Some (JBool g) =>
          Some (mkEntry r s (default [] (text_field "message" l)) (default [] (text_field "error" l)) g)
      | _ => None
      end
  | _ => None
  end.
Definition read_report (doc : list byte) : option (gostring * list entry) :=
  match parse doc with
  | Some (JObject l) =>
      s ← text_field "status" l;
      match field (str "dependencies") l with
      | Some (JArray ds) => es ← mapM read_entry ds; Some (s, es)
      | _ => None
      end
  | _ => None
  end.

(** The entry of a check's result: its texts in valid UTF-8. *)
Definition entry_of (r : health.Result) : entry :=
  mkEntry (valid (health.Resource r)) (health.itoa (health.Status r)) (valid (health.Message r))
    (valid (error_of r)) (health.Gating r).

(** ** Decimal text is valid *)

Lemma str_app s t : str (s +:+ t) = str s ++ str t.
Proof. induction s as [|c s IH]; [done|]. exact (f_equal (cons (Ascii.byte_of_ascii c)) IH). Qed.

Lemma pretty_N_char_low x : byte_val (Ascii.byte_of_ascii (pretty.pretty_N_char x)) < 0x80.
Proof. by destruct x as [|[[[[]|[]|]|[[]|[]|]|]|[[[]|[]|]|[[]|[]|]|]|]]. Qed.

Abbreviation low := (Forall (λ b, byte_val b < 0x80)).

Lemma pretty_N_go_low x s : low (str s) → low (str (pretty.pretty_N_go x s)).
Proof.
  revert s. induction (N.lt_wf_0 x) as [x _ IH]. intros s Hs.
  destruct (decide (0 < x)%N) as [Hx|Hx].
  - rewrite pretty.pretty_N_go_step by done. apply IH; [by apply N.div_lt|].
    change (low (Ascii.byte_of_ascii (pretty.pretty_N_char (x `mod` 10)) :: str s)). constructor; [apply pretty_N_char_low|exact Hs].
  - assert (x = 0%N) as -> by lia. by rewrite pretty.pretty_N_go_0.
Qed.

Lemma itoa_valid z : valid (health.itoa z) = health.itoa z.
Proof.
  apply valid_ascii. unfold health.itoa.
  assert (∀ n : N, low (str (pretty n))) as Hn.
  { intros n. unfold pretty, pretty.pretty_N. case_decide; [by repeat constructor|].
    apply pretty_N_go_low. constructor. }
  destruct z as [|p|p]; [apply (Hn 0%N)|apply (Hn (N.pos p))|].
  change (low (str ("-" +:+ pretty (N.pos p)))). rewrite str_app. apply Forall_app. split; [by repeat constructor|apply Hn].
Qed.

(** ** The document *)

Lemma valid_omitempty k s :
  (λ kv, (valid (fst kv), valid_value (snd kv))) <$> omitempty k s
  = if bool_decide (s = []) then [] else [(valid (str k), JString (valid s))].
Proof. unfold omitempty. by case_bool_decide. Qed.

Lemma read_result r : read_entry (valid_value (result_json r)) = Some (entry_of r).
Proof.
  unfold result_json. cbn [valid_value]. rewrite !fmap_app, !valid_omitempty. cbn [fmap list_fmap fst snd valid_value].
  rewrite (itoa_valid (health.Status r)). unfold entry_of.
  destruct (health.Message r) as [|m0 m], (error_of r) as [|e0 e]; reflexivity.
Qed.

Lemma read_results rs : mapM read_entry (valid_value <$> (result_json <$> rs)) = Some (entry_of <$> rs).
Proof.
  induction rs as [|r rs IH]; [done|]. rewrite !fmap_cons. cbn [mapM]. rewrite read_result. cbn [mbind option_bind].
  by rewrite IH.
Qed.

Lemma read_Marshal_report r :
  read_report (Marshal (report_json r)) = Some (health.itoa (health.r_Status r), entry_of <$> health.Dependencies r).
Proof.
  unfold read_report. rewrite parse_Marshal. unfold report_json. cbn [valid_value].
  rewrite !fmap_cons, fmap_nil. cbn [fst snd valid_value]. rewrite itoa_valid.
  change (valid (str "status")) with (str "status"). change (valid (str "dependencies")) with (str "dependencies").
  unfold text_field. cbn [field]. rewrite (bool_decide_eq_true_2 (str "status" = str "status")),
    (bool_decide_eq_true_2 (str "dependencies" = str "dependencies")) by done.
  rewrite (bool_decide_eq_false_2 (str "status" = str "dependencies")) by done.
  cbn [mbind option_bind]. by rewrite read_results.
Qed.

(** ** Theorems *)

Section theorems.

(** The path and liveness of the three health routes. *)
Definition health_route (path : gostring) (liveness : bool) : Prop :=
  (path = str "/health" ∧ liveness = false) ∨ (path = str "/health/readiness" ∧ liveness = false) ∨
  (path = str "/health/liveness" ∧ liveness = true).

Lemma Serve_health s path liveness param :
  health_route path liveness →
  Serve s "GET" path param
  = let '(st, b) := Handler liveness (metrics.strict (rec s)) (checks s) param in Text st b.
Proof. intros [[-> ->]|[[-> ->]|[-> ->]]]; unfold Serve; destruct (levelVar s); reflexivity. Qed.

(** C34: A health route always answers with a document its readers can read:
    whatever bytes the checks' messages and errors hold, the body is UTF-8,
    parses as JSON, and reads back as the overall status and one entry per
    check, in order, with the check's name, status, message, error and gating
    flag, texts in valid UTF-8; the overall status is 200 exactly when no check
    that gates (every check, in strict mode) fails, and 503 otherwise. *)
Theorem health_document (s : server) (path param : gostring) (liveness : bool) :
  health_route path liveness →
  let cs := checks s (deadline param) in
  ∃ status doc, Serve s "GET" path param = Text status (doc ++ [x0a]) ∧
    valid doc = doc ∧
    read_report doc = Some (health.itoa status, entry_of ∘ result_of liveness <$> cs) ∧
    (status = 200 ∨ status = 503) ∧
    (status = 200 ↔ ∀ c, c ∈ cs → metrics.strict (rec s) = true ∨ health.c_Gating c = true →
                         health.failed (health.c_Check c liveness) = false).
Proof.
  intros Hr cs. rewrite (Serve_health s path liveness param Hr). unfold Handler. fold cs.
  unfold CheckAll. pose proof (CheckAll_spec liveness (metrics.strict (rec s)) cs) as H.
  pose proof (CheckAll_eq liveness (metrics.strict (rec s)) cs) as E.
  destruct (health.CheckAll _ _ cs) as [ov rep]. destruct H as (H1 & H2 & H3 & _).
  exists ov, (Marshal (report_json rep)). split; [reflexivity|]. split; [apply valid_Marshal|].
  rewrite read_Marshal_report, H3. split_and!; [|done|exact H1].
  cbv zeta in E. injection E as _ ->. cbn [health.Dependencies]. by rewrite list_fmap_compose.
Qed.
End theorems.

(** The failover contract: the probe succeeds exactly when the primary is up
    and every lane of it was bound. *)
Lemma probe_readyz s : probe (Some s) (str "/readyz") = metrics.ready (rec s).
Proof.
  unfold probe, Serve. destruct (levelVar s); cbn [negb]; unfold metrics.readyz;
    by destruct (metrics.ready (rec s)).
Qed.

(** ** Witnesses *)

Definition hh_check : health.Check :=
  health.mkCheck (str "Kafka")
    (λ _, (503, str "broker said " ++ [x22] ++ str "no" ++ [x22; xff], Some (EMsg "dial"))) false.
Definition hh_server : server :=
  mkServer (metrics.New (str "v1") (str "h") false false)
    (λ d, [hh_check; health.mkCheck (str "process") health.Alive (d =? DefaultTimeout)]) true.

Lemma health_document_witness :
  ∃ status doc, Serve hh_server "GET" (str "/health/readiness") (str "x") = Text status (doc ++ [x0a]) ∧
    valid doc = doc ∧
    read_report doc
    = Some (health.itoa status,
            entry_of ∘ result_of false <$> checks hh_server (deadline (str "x"))) ∧
    (status = 200 ∨ status = 503).
Proof.
  destruct (health_document hh_server (str "/health/readiness") (str "x") false)
    as (st & doc & H1 & H2 & H3 & H4 & _); [right; left; split; reflexivity|].
  exists st, doc. split_and!; assumption.
Defined.

(** What that document says. *)
Example hh_document :
  (match Serve hh_server "GET" (str "/health") [] with
   | Text st b => (st, read_report (take (length b - 1) b))
   | _ => (0, None)
   end)
  = (200, Some (str "200",
       [mkEntry (str "Kafka") (str "503") (str "broker said " ++ [x22] ++ str "no" ++ [x22] ++ replacement)
          (str "dial") false;
        mkEntry (str "process") (str "200") (str "process is running") [] true])).
Proof. vm_compute. reflexivity. Qed.

(** Methods, unknown paths, the profiling subtree. *)
Example hh_routes :
  Serve hh_server "POST" (str "/health") [] = Unrouted MethodNotAllowed ∧
  Serve hh_server "GET" (str "/healthy") [] = Unrouted NotFound ∧
  Serve hh_server "GET" (str "/debug/pprof") [] = Unrouted Redirect ∧
  Serve hh_server "GET" (str "/debug/pprof/heap") [] = Elsewhere "index" ∧
  Serve hh_server "HEAD" (str "/readyz") [] = Text 503 (str "not ready" ++ [x0a]).
Proof. split_and!; vm_compute; reflexivity. Qed.
