(* ===== verification/Drain.v ===== *)
(** * Draining a lane's connections

    The goroutine beside each connection of [serveConn] in
    [src/lanes/lanes.go]: when the context ends it closes the connection, or,
    on a draining lane, half-closes it and sets a read deadline after a wait
    that spreads the lane's connections out. [drainSeq] is the lane's counter,
    taken atomically by each goroutine that sees the cancellation, so the
    goroutines act in some order; a list gives it. Times are nanoseconds and
    durations wrap at 64 bits, as [time.Duration] does. *)

From Stdlib Require Import Strings.Byte.
From stdpp Require Import base list strings numbers.
From S2P Require Import Prelude TxBuild Slab Lanes.

Module drain.
Record Config : Type := mkCfg { DrainTimeout : Z; DrainStagger : Z }.

(** A connection when its goroutine sees the cancellation: the clock, whether
    it is a TCP connection, and when its loop ends if it does by itself. *)
Record watched : Type := mkWatched { w_now : Z; w_tcp : bool; w_done : option Z }.

(** What the goroutine does to the connection, and when. *)
Inductive action : Type :=
| Close (at_ : Z)
| Fin (at_ deadline : Z)   (** [CloseWrite], [SetReadDeadline] *)
| Quit.                    (** the loop ended during the wait *)

Definition draining (c : Config) : bool := 0 <? DrainTimeout c.

(** [min(wait, l.DrainTimeout/2)], and how long [time.After] waits. *)
Definition wait (c : Config) (seq : Z) : Z :=
  Z.min (seq *i DrainStagger c) (Z.quot (DrainTimeout c) 2).
Definition after (d : Z) : Z := Z.max d 0.

(** The goroutine's [case <-ctx.Done()]; [seq] is the lane's [drainSeq]. *)
Definition watch (c : Config) (w : watched) (seq : Z) : action * Z :=
  if w_tcp w && draining c then
    let fin t := Fin t (t +i DrainTimeout c) in
    if 0 <? DrainStagger c then
      let t := w_now w +i after (wait c seq) in
      match w_done w with
      | Some d => if d <? t then (Quit, seq +i 1) else (fin t, seq +i 1)
      | None => (fin t, seq +i 1)
      end
    else (fin (w_now w), seq)
  else (Close (w_now w), seq).

Fixpoint watch_all (c : Config) (ws : list watched) (seq : Z) : list action * Z :=
  match ws with
  | [] => ([], seq)
  | w :: ws =>
      let '(a, seq) := watch c w seq in
      let '(l, seq) := watch_all c ws seq in
      (a :: l, seq)
  end.
End drain.

Import drain.

(** ** Bounds *)

(** When a connection is no longer read, counting from the goroutine's start. *)
Definition read_until (a : action) : option Z :=
  match a with Close t => Some t | Fin _ d => Some d | Quit => None end.

Section bounds.
Context (c : Config) (Ht : 0 < DrainTimeout c) (Hs : 0 < DrainStagger c).

Lemma wait_at seq :
  0 ≤ seq → seq * DrainStagger c < two63 → wait c seq = Z.min (seq * DrainStagger c) (DrainTimeout c / 2).
Proof.
  intros H0 Hm. unfold wait. rewrite Z.quot_div_nonneg by lia. rewrite imul_small; [done|].
  assert (0 ≤ seq * DrainStagger c) by (apply Z.mul_nonneg_nonneg; lia). num_bounds. lia.
Qed.

Lemma watch_all_nth ws seq i w :
  0 ≤ seq → (seq + zlen ws) * DrainStagger c < two63 → seq + zlen ws < two63 →
  Forall (λ w, w_tcp w = true) ws → ws !! i = Some w →
  fst (watch_all c ws seq) !! i = Some (fst (watch c w (seq + Z.of_nat i))).
Proof.
  revert seq i. induction ws as [|v ws IH]; intros seq i H0 Hm Hn Hf Hi; [done|].
  apply list.Forall_cons in Hf as [Hv Hf]. cbn [length] in *. cbn [watch_all].
  assert (snd (watch c v seq) = seq + 1) as Es.
  { unfold watch, draining. rewrite Hv, (proj2 (Z.ltb_lt _ _) Ht), (proj2 (Z.ltb_lt _ _) Hs). cbn [andb].
    num_bounds. rewrite (iadd_small seq 1) by lia. by destruct (w_done v) as [d|]; [destruct (d <? _)|]. }
  destruct (watch c v seq) as [a seq'] eqn:Ew. cbn [snd] in Es. subst seq'.
  specialize (IH (seq + 1)). destruct (watch_all c ws (seq + 1)) as [l q]. cbn [fst] in *.
  destruct i as [|i].
  - injection Hi as ->. rewrite Z.add_0_r, Ew. done.
  - change (l !! i = Some (fst (watch c w (seq + Z.of_nat (S i))))).
    rewrite (IH i); [do 3 f_equal; lia|lia|lia|lia|done|exact Hi].
Qed.
End bounds.

(** ** Theorems *)

(** C33: A drain ends, and the peers are not all cut at once: of the
    connections of a draining lane, in the order their goroutines see the
    signal, the [i]-th is half-closed [i] staggers later but never later than
    half the drain timeout, and reading from it stops one drain timeout after
    that; so a connection that does not end by itself is read for at most one
    and a half drain timeouts after the signal, and what it then fails with is
    counted neither as an error nor as a framing fault. *)
Theorem drain_bounded (c : Config) (ws : list watched) (i : nat) (w : watched) :
  0 < DrainTimeout c → 0 < DrainStagger c →
  zlen ws * DrainStagger c < two63 → zlen ws < two63 → Forall (λ w, w_tcp w = true) ws → ws !! i = Some w →
  0 ≤ w_now w → w_now w + 2 * DrainTimeout c < two63 →
  let d := Z.min (Z.of_nat i * DrainStagger c) (DrainTimeout c / 2) in
  ∃ a, fst (watch_all c ws 0) !! i = Some a ∧
    (a = Fin (w_now w + d) (w_now w + d + DrainTimeout c) ∨
     a = Quit ∧ ∃ t, w_done w = Some t ∧ t < w_now w + d) ∧
    (∀ t, read_until a = Some t → 2 * (t - w_now w) ≤ 3 * DrainTimeout c) ∧
    (∀ n, lanes.classify true n lanes.RdNetError = lanes.ShuttingDown).
Proof.
  intros Ht Hs Hm Hn Hf Hi H0 Hw d.
  pose proof (watch_all_nth c Ht Hs ws 0 i w ltac:(lia) ltac:(lia) ltac:(lia) Hf Hi) as E.
  rewrite Z.add_0_l in E. eexists. split; [exact E|]. clear E.
  assert (Z.of_nat i < zlen ws) as Hlt by (apply lookup_lt_Some in Hi; lia).
  assert (0 ≤ Z.of_nat i * DrainStagger c < two63) as Hp.
  { split; [apply Z.mul_nonneg_nonneg; lia|]. eapply Z.le_lt_trans; [|exact Hm].
    apply Z.mul_le_mono_nonneg_r; lia. }
  rewrite list.Forall_lookup in Hf. unfold watch, draining. rewrite (Hf _ _ Hi).
  rewrite (proj2 (Z.ltb_lt _ _) Ht), (proj2 (Z.ltb_lt _ _) Hs). cbn [andb].
  rewrite wait_at by lia. fold d.
  assert (0 ≤ d ≤ DrainTimeout c / 2) as Hd.
  { unfold d. pose proof (Z.div_pos (DrainTimeout c) 2). lia. }
  pose proof (Z.mul_div_le (DrainTimeout c) 2 ltac:(lia)).
  unfold after. num_bounds. rewrite (Z.max_l d 0) by lia.
  rewrite (iadd_small (w_now w) d), (iadd_small (w_now w + d)) by lia.
  assert (∀ t, Some (w_now w + d + DrainTimeout c) = Some t → 2 * (t - w_now w) ≤ 3 * DrainTimeout c) as Hr
    by (intros t [= <-]; lia).
  destruct (w_done w) as [t|]; [destruct (Z.ltb_spec t (w_now w + d))|]; cbn [fst read_until].
  - split_and!; [right; split; [done|by exists t]|done|done].
  - split_and!; [by left|exact Hr|done].
  - split_and!; [by left|exact Hr|done].
Qed.

(** ** Witnesses *)

Definition dr_cfg : Config := mkCfg 5000000000 25000000.
Definition dr_ws : list watched := replicate 300 (mkWatched 7 true None).

Lemma drain_bounded_witness :
  ∃ a, fst (watch_all dr_cfg dr_ws 0) !! 299%nat = Some a ∧
    (∀ t, read_until a = Some t → 2 * (t - 7) ≤ 3 * 5000000000).
Proof.
  destruct (drain_bounded dr_cfg dr_ws 299 (mkWatched 7 true None)) as (a & E & _ & H & _);
    [reflexivity..| |reflexivity|discriminate|reflexivity|].
  - apply Forall_replicate. reflexivity.
  - exists a. split; [exact E|exact H].
Defined.
