(* ===== verification/Freshness.v ===== *)
(** * The freshness gauges

    Two gauges of [src/internal/obs/obs.go] say when something last happened.
    [last_object_timestamp_seconds] of a lane is set by the read loop of
    [src/lanes/lanes.go], from a clock refreshed by a ticker
    ([startCoarseClock]) and only when the second differs from the one the
    connection set last ([lastStamp]). [last_pull_timestamp_seconds] is set by
    [timed] of [src/retrieval/server.go] around the handlers of the routes the
    bridge serves, and not around the catch-all. The lane is the machine of
    [Lanes.v] and the routes are those of [Routes.v]; gauges and histogram
    series are those of [ClusterState.v]. *)

From Stdlib Require Import Strings.Byte.
From stdpp Require Import base list strings numbers gmap.
From S2P Require Import Prelude HashId Objfmt Cache Generational TxBuild Handlers Slab Lanes Retrieval EndToEnd Routes ClusterState.
Import bridge retrieval gauges.

Module freshness.
(** The label a lane's gauge is kept under. *)
Definition label (cfg : lanes.Config) : string := String.string_of_list_byte (lanes.Name cfg).

(** A lane, the process-wide clock, what each open connection stamped last,
    and the gauges. *)
Record state (G : Type) : Type := mkState {
  lane : lanes.state G; coarseNow : Z; lastStamp : gmap nat Z; obs : obs_t
}.
Arguments mkState {G}. Arguments lane {G}. Arguments coarseNow {G}.
Arguments lastStamp {G}. Arguments obs {G}.

(** The ticker stores a second; the lane takes a step; the rest of the process
    changes what the sessions share. *)
Inductive event (G : Type) : Type :=
| Tick (sec : Z)
| Lane (ev : lanes.event)
| Others (g : G).
Arguments Tick {G}. Arguments Lane {G}. Arguments Others {G}.

(** [startCoarseClock]: the clock is set once before the first object. *)
Definition startCoarseClock {G} (sec : Z) (l : lanes.state G) (o : obs_t) : state G :=
  mkState l sec ∅ o.

(** [LastObjectTime.WithLabelValues(l.Name)]: the series exists from now on. *)
Definition with_label (vec l : string) (o : obs_t) : obs_t :=
  match values o !! (vec, l) with Some _ => o | None => set vec l 0 o end.

(** [if sec := coarseNow.Load(); sec != lastStamp]. *)
Definition stamp (lane : string) (sec last : Z) (o : obs_t) : obs_t * Z :=
  if negb (sec =? last) then (set LastObjectTime lane sec o, sec) else (o, last).

(** The same iteration without the cache. *)
Definition stamp_always (lane : string) (sec last : Z) (o : obs_t) : obs_t * Z :=
  (set LastObjectTime lane sec o, last).

Section step.
Context {G : Type} `{Session G} (cfg : lanes.Config) (SizeHistogram : bool).
Context (stamp : string → Z → Z → obs_t → obs_t * Z).

Definition oversize (obj : list byte) : bool :=
  (0 <? lanes.MaxObject cfg) && (lanes.MaxObject cfg <? zlen obj).

(** What an iteration of the read loop does to the gauges, beside [lane_step]:
    a connection creates the series, starts with no stamp and takes its stamp
    with it; an object
    within the ceiling is stamped and its size observed. *)
Definition note (ev : lanes.event) (s : state G) (l : lanes.state G) : state G :=
  match ev with
  | lanes.EAccept c =>
      mkState l (coarseNow s) (<[c := 0]> (lastStamp s)) (with_label LastObjectTime (label cfg) (obs s))
  | lanes.EObject c _ _ obj =>
      if oversize obj then mkState l (coarseNow s) (delete c (lastStamp s)) (obs s) else
      let '(o, last) := stamp (label cfg) (coarseNow s) (default 0 (lastStamp s !! c)) (obs s) in
      mkState l (coarseNow s) (<[c := last]> (lastStamp s))
        (if SizeHistogram then touch ObjectBytes (label cfg) o else o)
  | lanes.EError c _ | lanes.EReturn c => mkState l (coarseNow s) (delete c (lastStamp s)) (obs s)
  | lanes.ERead _ | lanes.ECancel => mkState l (coarseNow s) (lastStamp s) (obs s)
  end.

Definition step (s : state G) (e : event G) : option (state G) :=
  match e with
  | Tick sec => Some (mkState (lane s) sec (lastStamp s) (obs s))
  | Lane ev => note ev s <$> lanes.lane_step cfg ev (lane s)
  | Others g =>
      let l := lane s in
      Some (mkState (lanes.mkState (lanes.counts l) (lanes.live l) (lanes.conns l) (lanes.heap l)
                       (lanes.cancelled l) g (lanes.handed l)) (coarseNow s) (lastStamp s) (obs s))
  end.

Fixpoint run (es : list (event G)) (s : state G) : option (state G) :=
  match es with
  | [] => Some s
  | e :: es => match step s e with Some s' => run es s' | None => None end
  end.
End step.
End freshness.

Module timing.
Import routes.

(** The first and second argument of [s.timed] at each [HandleFunc]. *)
Definition timed_as (r : option route) : string * bool :=
  match r with
  | Some RSubtree => ("subtree"%string, true)
  | Some RSubtreeData => ("subtree_data"%string, true)
  | Some RTxs => ("txs"%string, true)
  | Some RBlock => ("block"%string, true)
  | None => ("unserved"%string, false)
  end.

(** [timed]'s deferred call. *)
Definition timed (route : string) (served : bool) (now : Z) (o : obs_t) : obs_t :=
  let o := touch RetrievalDuration route o in
  if served then Stamp LastPullTime "" now o else o.

Section serve.
Context {O : Objfmt} {Objs Txs : Type} `{Store Objs} `{Store Txs}.

(** [Handler], each handler under its timer; a request the mux redirects has
    no handler of the table. *)
Definition serve (prefix : gostring) (now : Z) (m : string) (path : gostring) (body : option (list byte))
    (s : Server Objs Txs) (o : obs_t) : served * Server Objs Txs * obs_t :=
  (Handler prefix now m path body s,
   match register (table prefix) with
   | None => o
   | Some ps =>
       if negb (clean path) then o else
       let '(route, served) := timed_as (fst <$> lookup ps m path) in timed route served now o
   end).
End serve.
End timing.

Import freshness timing.

(** ** The cached stamp *)

Section equiv.
Context {G : Type} `{Session G} (cfg : lanes.Config) (SizeHistogram : bool).

(** The runs step together: the same lane, clock and gauges; what a connection
    has stamped is no later than the gauge, and the gauge no later than the
    clock. *)
Record same (s t : freshness.state G) : Prop := {
  sm_lane : lane s = lane t;
  sm_clock : coarseNow s = coarseNow t;
  sm_obs : obs s = obs t;
  sm_pos : 0 < coarseNow s;
  sm_last : ∀ c last, lastStamp s !! c = Some last → last ≠ 0 →
    ∃ g, gauge LastObjectTime (label cfg) (obs s) = Some g ∧ last ≤ g ≤ coarseNow s
}.

(** Setting a gauge to the value it has changes nothing. *)
Lemma set_same vec l v o : gauge vec l o = Some v → set vec l v o = o.
Proof. unfold gauge, set. intros Hg. rewrite insert_id by done. by destruct o. Qed.

(** A series that exists keeps its value, and one that did not starts at zero. *)
Lemma gauge_with_label vec l o : gauge vec l (with_label vec l o) = Some (default 0 (gauge vec l o)).
Proof.
  unfold with_label. unfold gauge at 2. destruct (values o !! (vec, l)) as [v|] eqn:E; [exact E|].
  by rewrite gauge_set, decide_True.
Qed.
Lemma with_label_present vec l o g : gauge vec l o = Some g → with_label vec l o = o.
Proof. unfold gauge, with_label. by intros ->. Qed.

(** The cache agrees with stamping each time. *)
Lemma stamp_cached sec last g o :
  0 < sec → (last ≠ 0 → gauge LastObjectTime (label cfg) o = Some g ∧ last ≤ g ≤ sec) →
  fst (stamp (label cfg) sec last o) = set LastObjectTime (label cfg) sec o ∧
  snd (stamp (label cfg) sec last o) = sec.
Proof.
  intros Hp Hl. unfold stamp. destruct (Z.eqb_spec sec last) as [<-|]; [|done].
  destruct (Hl ltac:(lia)) as [Hg Hb]. cbn [negb fst snd]. split; [|done].
  symmetry. apply set_same. rewrite Hg. f_equal. lia.
Qed.

Lemma note_same ev s t l :
  same s t →
  same (note cfg SizeHistogram stamp ev s l) (note cfg SizeHistogram stamp_always ev t l).
Proof.
  intros [Hl Hc Ho Hp Hs].
  assert (Hd : ∀ c, same (mkState l (coarseNow s) (delete c (lastStamp s)) (obs s))
                      (mkState l (coarseNow t) (delete c (lastStamp t)) (obs t))).
  { intros c. constructor; cbn; try done. intros c' last [_ Hd]%lookup_delete_Some. by apply Hs with c'. }
  destruct ev as [c|c|c tm sp obj|c e|c|]; cbn [note]; try apply Hd.
  - constructor; cbn; try done; [by rewrite Ho|].
    intros c' last [[<- <-]|[_ Hd']]%lookup_insert_Some; [done|]. intros Hnz.
    destruct (Hs c' last Hd' Hnz) as (g & Hg & Hb). exists g. by rewrite (with_label_present _ _ _ g Hg).
  - by constructor.
  - destruct (oversize cfg obj); [apply Hd|].
    set (last := default 0 (lastStamp s !! c)).
    assert (∃ g, last ≠ 0 → gauge LastObjectTime (label cfg) (obs s) = Some g ∧ last ≤ g ≤ coarseNow s) as [g Hg].
    { unfold last. destruct (lastStamp s !! c) as [v|] eqn:E; [|by exists 0].
      cbn. destruct (decide (v = 0)) as [->|Hv]; [by exists 0|].
      destruct (Hs c v E Hv) as (g & Hg). by exists g. }
    pose proof (stamp_cached _ _ _ _ Hp Hg) as Hst.
    destruct (stamp (label cfg) (coarseNow s) last (obs s)) as [o n]. cbn [fst snd] in Hst. destruct Hst as [-> ->].
    unfold stamp_always. rewrite <- Hc, <- Ho.
    assert (Hset : ∀ b : bool, gauge LastObjectTime (label cfg)
       (if b then touch ObjectBytes (label cfg) (set LastObjectTime (label cfg) (coarseNow s) (obs s))
        else set LastObjectTime (label cfg) (coarseNow s) (obs s)) = Some (coarseNow s)).
    { intros []; [rewrite gauge_touch|]; rewrite gauge_set; by rewrite decide_True. }
    constructor; cbn [lane coarseNow obs lastStamp]; try done.
    intros c' v Hv Hnz. exists (coarseNow s). split; [apply Hset|].
    apply lookup_insert_Some in Hv as [[_ <-]|[_ Hv]]; [lia|].
    destruct (Hs c' v Hv Hnz) as (g' & _ & Hb). lia.
  - by constructor.
Qed.

(** The clock a list of events leaves, and whether it ever went back. *)
Fixpoint forward (now : Z) (es : list (freshness.event G)) : Prop :=
  match es with
  | [] => True
  | Tick sec :: es => now ≤ sec ∧ forward sec es
  | _ :: es => forward now es
  end.

Lemma step_same s t e :
  same s t → match e with Tick sec => coarseNow s ≤ sec | _ => True end →
  match step cfg SizeHistogram stamp s e, step cfg SizeHistogram stamp_always t e with
  | Some s', Some t' => same s' t' ∧ coarseNow s' = match e with Tick sec => sec | _ => coarseNow s end
  | None, None => True
  | _, _ => False
  end.
Proof.
  intros Hs Hf. destruct e as [sec|ev|g]; cbn [step].
  - split; [|done]. destruct Hs as [Hl Hc Ho Hp Hb]. constructor; cbn; try done; [lia|].
    intros c v Hv Hnz. destruct (Hb c v Hv Hnz) as (g & Hg & ?). exists g. split; [done|lia].
  - rewrite <- (sm_lane _ _ Hs). destruct (lanes.lane_step cfg ev (lane s)) as [l|]; [|done]. cbn.
    split; [by apply note_same|]. destruct ev; try done. cbn [note]. destruct (oversize cfg obj); [done|].
    by destruct (stamp _ _ _ _).
  - split; [|done]. destruct Hs as [Hl Hc Ho Hp Hb]. constructor; cbn; try done. by rewrite Hl.
Qed.

Lemma run_same es s t :
  same s t → forward (coarseNow s) es →
  match run cfg SizeHistogram stamp es s, run cfg SizeHistogram stamp_always es t with
  | Some s', Some t' => same s' t'
  | None, None => True
  | _, _ => False
  end.
Proof.
  revert s t. induction es as [|e es IH]; intros s t Hs Hf; [done|]. cbn [run].
  assert (Hf' : match e with Tick sec => coarseNow s ≤ sec | _ => True end) by (by destruct e; try destruct Hf).
  pose proof (step_same s t e Hs Hf') as Hstep.
  destruct (step cfg SizeHistogram stamp s e) as [s'|], (step cfg SizeHistogram stamp_always t e) as [t'|]; try done.
  destruct Hstep as [Hs' Hn]. apply IH; [done|]. rewrite Hn. by destruct e; try destruct Hf.
Qed.
End equiv.

Section exact.
Context {G : Type} `{Session G} (cfg : lanes.Config) (SizeHistogram : bool).

(** The clock's second at the last object within the ceiling; a connection
    makes a series that was absent appear as zero. *)
Fixpoint last_object (now : Z) (es : list (freshness.event G)) (seen : option Z) : option Z :=
  match es with
  | [] => seen
  | Tick sec :: es => last_object sec es seen
  | Lane (lanes.EAccept _) :: es => last_object now es (Some (default 0 seen))
  | Lane (lanes.EObject _ _ _ obj) :: es => last_object now es (if oversize cfg obj then seen else Some now)
  | _ :: es => last_object now es seen
  end.

Lemma run_last es s s' seen :
  run cfg SizeHistogram stamp_always es s = Some s' →
  gauge LastObjectTime (label cfg) (obs s) = seen →
  gauge LastObjectTime (label cfg) (obs s') = last_object (coarseNow s) es seen.
Proof.
  revert s seen. induction es as [|e es IH]; intros s seen; cbn [run].
  { intros [= <-]. done. }
  destruct (step cfg SizeHistogram stamp_always s e) as [t|] eqn:E; [|done]. intros Hr Hg.
  destruct e as [sec|ev|g]; cbn [step last_object] in *; [injection E as <-; by apply (IH _ _ Hr)| |injection E as <-; by apply (IH _ _ Hr)].
  destruct (lanes.lane_step cfg ev (lane s)) as [l|]; [|done]. injection E as <-.
  destruct ev as [c|c|c tm sp obj|c er|c|]; cbn [note last_object] in *; try (by eapply (IH _ _ Hr)).
  { eapply (IH _ _ Hr). cbn [obs]. by rewrite gauge_with_label, Hg. }
  destruct (oversize cfg obj); [by eapply (IH _ _ Hr)|]. cbn [stamp_always] in Hr.
  eapply (IH _ _ Hr). cbn [obs]. destruct SizeHistogram; [rewrite gauge_touch|]; by rewrite gauge_set, decide_True.
Qed.

End exact.

(** A clock set back breaks it: two connections, and the second the first one
    stamped comes round again. *)
#[local] Instance idle_session : Session unit := {|
  NewSession _ g := g;
  Handle _ _ _ g := Some (Ok tt, g);
  Flush _ g := Some (Ok tt, g);
  others _ _ := True
|}.
Definition fr_cfg : lanes.Config := lanes.mkCfg (str "tx") 4 false 0.
Definition fr_obj (c : nat) : freshness.event unit := Lane (lanes.EObject c 0 0 [x00]).
Definition fr_open (es : list (freshness.event unit)) : list (freshness.event unit) :=
  Lane (lanes.EAccept 1) :: Lane (lanes.EAccept 2) :: es.
Definition fr_start : freshness.state unit := startCoarseClock 100 (lanes.lane0 tt) (Preset 99 ["tx"%string] false obs0).
Definition fr_gauge (f : string → Z → Z → obs_t → obs_t * Z) (es : list (freshness.event unit)) : option Z :=
  (run fr_cfg true f (fr_open es) fr_start) ≫= λ s, gauge LastObjectTime "tx" (obs s).

Example clock_forward :
  fr_gauge stamp [fr_obj 1; fr_obj 2; Tick 101; fr_obj 2; fr_obj 2; Tick 102] = Some 101.
Proof. vm_compute. reflexivity. Qed.
Example clock_back :
  fr_gauge stamp [fr_obj 1; Tick 101; fr_obj 2; Tick 100; fr_obj 1] = Some 101 ∧
  fr_gauge stamp_always [fr_obj 1; Tick 101; fr_obj 2; Tick 100; fr_obj 1] = Some 100.
Proof. split; vm_compute; reflexivity. Qed.


(** ** Pulls *)

Section pulls.
Import routes.
Context {O : Objfmt} {Objs Txs : Type} `{Store Objs} `{Store Txs}.

(** A path under the prefix whose next segment names none of the served routes
    and does not repeat the prefix. *)
Definition elsewhere (p seg : gostring) : Prop :=
  (seg ∉ [str "subtree"; str "subtree_data"; str "block"]) ∧ head (prefix_segs p) ≠ Some seg.

Lemma no_lit ps a k b got : a ≠ b → segs_match (Lit a :: ps) (b :: k) got = None.
Proof. intros Hne. cbn [segs_match]. by rewrite bool_decide_eq_false_2. Qed.

Lemma lookup_elsewhere p m seg k :
  Forall plain_seg (prefix_segs p) → Forall plain_seg (seg :: k) → elsewhere p seg →
  lookup (patterns (prefix_segs p)) m (path_of (prefix_segs p ++ seg :: k)) = None.
Proof.
  intros Hp Hk [Hn Hh].
  rewrite !not_elem_of_cons in Hn. destruct Hn as (H1 & H2 & H3 & _).
  unfold patterns. cbn [lookup]. unfold matches. cbn [p_method p_segs].
  rewrite !path_segs_of by (by apply Forall_app).
  rewrite !match_prefix. rewrite !no_lit by done.
  destruct (prefix_segs p) as [|q l] eqn:E; [by apply split_on_nonempty in E|].
  cbn [fmap list_fmap app]. rewrite no_lit by (intros ->; by apply Hh).
  by repeat case_match.
Qed.

(** The requests the table serves, one tactic for the five. *)
Ltac pull_side :=
  first [ reflexivity
        | done
        | by rewrite ?path_of_app; cbn; rewrite ?app_nil_r
        | by intros [_ ?]%app_nil
        | rewrite ?list.Forall_app, ?list.Forall_cons; split_and?; done || by constructor
        | cbn [p_segs]; rewrite !match_prefix, match_lit, match_wild by done; rewrite ?match_lit; done ].
Ltac pull Hserve k i := eapply (Hserve _ _ k i); pull_side.

(** The pull gauge follows what the cluster fetches and nothing else. For
    every prefix of ordinary segments, a pull of a subtree, its data, a block
    or member transactions sets it to the time of the pull, whatever the
    answer; a request for any other path under the prefix, by any method, is
    answered 404 by the catch-all, leaves the server as it was and every gauge
    as it was, and is timed only as unserved. *)
Theorem pull_freshness (p : gostring) (h : Hash) (now : Z) (body : option (list byte))
    (s : Server Objs Txs) (o : obs_t) :
  Forall plain_seg (prefix_segs p) →
  let P := api_prefix p in
  let d := hashid.Display h in
  let last m path := gauge LastPullTime "" (snd (serve P now m path body s o)) in
  last "GET"%string (P ++ str "/subtree/" ++ d) = Some now ∧
  last "GET"%string (P ++ str "/subtree_data/" ++ d) = Some now ∧
  last "GET"%string (P ++ P ++ str "/subtree_data/" ++ d) = Some now ∧
  last "GET"%string (P ++ str "/block/" ++ d) = Some now ∧
  last "POST"%string (P ++ str "/subtree/" ++ d ++ str "/txs") = Some now ∧
  ∀ m seg k, Forall plain_seg (seg :: k) → elsewhere p seg →
    serve P now m (P ++ path_of (seg :: k)) body s o
    = (answered (notFound (pathUnescape (P ++ path_of (seg :: k))) s), touch RetrievalDuration "unserved" o).
Proof.
  intros Hl P d last.
  pose proof (split_on_nonempty x2f (drop 1 (api_prefix p))) as Hne. fold (prefix_segs p) in Hne.
  pose proof (Display_plain h) as Hd. fold d in Hd.
  pose proof plain_words as Hw. rewrite !list.Forall_cons in Hw. destruct Hw as (Hw1 & Hw2 & Hw3 & Hw4 & _).
  assert (Hserve : ∀ m path k i pat r, path = P ++ path_of k → k ≠ [] → Forall plain_seg k →
    patterns (prefix_segs p) !! i = Some (pat, r) → method_ok (p_method pat) m = true →
    segs_match (p_segs pat) (prefix_segs p ++ k) None = Some (Some d) → last m path = Some now).
  { intros m path k i pat r -> Hk Hpk Hi Hm Hmt. unfold last, serve, P. rewrite api_prefix_segs.
    destruct (routed (prefix_segs p) m k i pat r (Some d)) as [Hc Hlk]; [done..|].
    rewrite register_patterns, Hc, Hlk by done. cbn [negb fmap option_fmap option_map fst snd].
    destruct r; cbn [timed_as]; unfold timed, Stamp; by rewrite gauge_set, decide_True. }
  split_and!.
  - pull Hserve [str "subtree"; d] 0%nat.
  - pull Hserve [str "subtree_data"; d] 1%nat.
  - eapply (Hserve _ _ (prefix_segs p ++ [str "subtree_data"; d]) 4%nat).
    { unfold P. rewrite path_of_app, <- api_prefix_segs. cbn. by rewrite app_nil_r. }
    all: pull_side.
  - pull Hserve [str "block"; d] 3%nat.
  - pull Hserve [str "subtree"; d; str "txs"] 2%nat.
  - intros m seg k Hk He. unfold serve, Handler, P. rewrite api_prefix_segs.
    rewrite register_patterns, <- path_of_app by done.
    rewrite clean_path_of; [|by intros [_ ?]%app_nil|apply list.Forall_app; split; by apply plain_all_ok].
    cbn [negb]. by rewrite lookup_elsewhere.
Qed.
End pulls.

(** A chain-sync request under the default prefix. *)
Definition fr_seg : gostring := str "headers_from_common_ancestor".
Lemma pull_freshness_witness :
  Forall plain_seg (prefix_segs []) ∧
  gauge LastPullTime "" (snd (serve (api_prefix []) 7 "GET"
    (api_prefix [] ++ str "/block/" ++ hashid.Display zero_hash) None rt_server (Preset 1 [] false obs0))) = Some 7 ∧
  snd (serve (api_prefix []) 9 "GET" (api_prefix [] ++ path_of [fr_seg]) None rt_server obs0)
  = touch RetrievalDuration "unserved" obs0.
Proof.
  assert (Forall plain_seg (prefix_segs [])) as Hp by exact default_prefix_plain.
  split; [exact Hp|]. split.
  - destruct (pull_freshness [] zero_hash 7 None rt_server (Preset 1 [] false obs0) Hp) as (_ & _ & _ & H & _).
    exact H.
  - destruct (pull_freshness [] zero_hash 9 None rt_server obs0 Hp) as (_ & _ & _ & _ & _ & H).
    rewrite (H "GET"%string fr_seg []); [reflexivity|apply (bool_decide_unpack _); exact I|].
    split; [apply (bool_decide_unpack _); exact I|discriminate].
Defined.
