(* ===== verification/AnnouncePull.v ===== *)
(** * From the announcement record to the pull

    The loop the bridge closes with the cluster: a lane handler
    ([handleSubtree], [handleBlock] of [src/cmd/teranode-bridge/main.go])
    calls the producer of [src/announce/announce.go], the broker keeps the
    record, the cluster decodes it and GETs the URL it names from the routes
    of [src/retrieval/server.go], and the stopwatch the producer started is
    stopped by that pull. The handlers are those of [Handlers.v], which take
    the producer's answer as an argument; here the answer is the producer's. *)

From Stdlib Require Import Strings.Byte.
From stdpp Require Import base list strings numbers gmap.
From S2P Require Import Prelude HashId Objfmt Encode TnWire Cache Generational Registry TxBuild Submit Handlers FirstPull Announce.
From S2P Require Import Retrieval TnAsset Reverse EndToEnd Routes.
Import bridge retrieval announce routes.

Module told.
Section told.
Context {O : Objfmt} {P : Protowire}.

(** A lane handler with the producer it calls: [handleSubtree], or
    [handleBlock] when [blk]. The producer is called exactly when the handler
    records an announce. *)
Definition deliver (blk : bool) (now : Z) (broker : option error) (baseURL : gostring) (obj : list byte)
    (st : plane * Producer) : res unit * (plane * Producer) :=
  let '(s, p) := st in
  let h := if blk then block_id obj else subtree_root obj in
  let '(outcome, p') := announce_one blk now broker (hashid.Display h) baseURL p in
  let '(r, s') := (if blk then handleBlock else handleSubtree) now (Announces outcome) baseURL obj s in
  (r, (s', if (length (events s) <? length (events s'))%nat then p' else p)).

(** [s.firstPull.Pulled] for each key the retrieval plane passed to it. *)
Fixpoint observe (now : Z) (keys : list gostring) (f : option obs.FirstPull)
    : list (gostring * Z) * option obs.FirstPull :=
  match keys with
  | [] => ([], f)
  | k :: keys =>
      let '(o, f) := obs.Pulled now k f in
      let '(l, f) := observe now keys f in
      (match o with Some x => x :: l | None => l end, f)
  end.

(** A GET of [url] by the cluster, and what the stopwatch observes. *)
Definition pull (prefix advertise : gostring) (now : Z) (url : gostring) (t : tx_store)
    (st : plane * Producer) : served * list (gostring * Z) :=
  let '(s, p) := st in
  let '(answer, srv) := Handler prefix now "GET" (drop (length (txpipe.TrimRight_slash advertise)) url) None
                          (plane_server s t) in
  (answer, fst (observe now (pulled srv) (firstPull p))).
End told.
End told.

Import told.

(** ** The pieces *)

(** A mark of another key makes no key known. *)
Lemma Lookup_Mark_other now k d r k' e :
  k ≠ k' → registry.Lookup k' (snd (registry.Mark now k d r)) = Some e → registry.Lookup k' r = Some e.
Proof.
  intros Hne. unfold registry.Lookup. rewrite Mark_shard.
  destruct (registry.rs r !! shard_index k') as [sh|] eqn:E; [|by case_decide].
  case_decide; cbn [fmap option_fmap option_map mbind option_bind]; [|done].
  rewrite shard_Lookup_Mark, decide_False by done. apply maybeRotate_lookup.
Qed.

Lemma Lookup_marks_other now hs k r e :
  k ∉ hs → registry.Lookup k (marks ((λ h, mkMark now h registry.Delivered) <$> hs) r) = Some e →
  registry.Lookup k r = Some e.
Proof.
  unfold marks. revert r. induction hs as [|h hs IH]; intros r Hk; [done|].
  apply not_elem_of_cons in Hk as [Hne Hk]. cbn [fmap list_fmap foldl m_now m_key m_dir].
  intros H%IH; [|done]. by eapply Lookup_Mark_other in H.
Qed.

(** What the two object routes pass to the stopwatch. *)
Section pulled.
Context {O : Objfmt} {Objs Txs : Type} `{Store Objs} `{Store Txs}.

Lemma getSubtree_pulled now h body (s : Server Objs Txs) :
  fst (getSubtree now (hashid.Display h) s) = Ok (mkResp 200 body) →
  pulled (snd (getSubtree now (hashid.Display h) s)) = pulled s ++ [hashid.Display h].
Proof.
  unfold getSubtree. rewrite ParseDisplay_Display. destruct (store_Get now h (objs s)) as [[[obj cl]|] o]; [|done].
  case_match; [done|]. by destruct (slice_from obj SubtreeHeaderSize).
Qed.
Lemma getBlock_pulled now h body (s : Server Objs Txs) :
  fst (getBlock now (hashid.Display h) s) = Ok (mkResp 200 body) →
  pulled (snd (getBlock now (hashid.Display h) s)) = pulled s ++ [hashid.Display h].
Proof.
  unfold getBlock. rewrite ParseDisplay_Display. destruct (store_Get now h (objs s)) as [[[obj cl]|] o]; [|done].
  by destruct (tnwire.ToTeranode obj).
Qed.
End pulled.

(** The stopwatch, started and stopped. *)
Lemma observe_announced f t0 now k class :
  Z.of_nat (size (obs.at_ (obs.gc t0 f))) < obs.max f →
  fst (observe now [k] (obs.Announced t0 k class (Some f))) = [(class, time_sub now t0)].
Proof.
  intros Hroom. cbn [obs.Announced]. rewrite (proj1 (gc_config t0 f)), (proj2 (Z.leb_gt _ _)) by done.
  cbn [observe obs.Pulled obs.at_]. by rewrite lookup_insert_eq.
Qed.

Lemma fst_pair {A B} (a : A) (b : B) : fst (a, b) = a.
Proof. done. Qed.
Lemma snd_pair {A B} (a : A) (b : B) : snd (a, b) = b.
Proof. done. Qed.

(** ** A frame of either class *)

Section loop.
Context {O : Objfmt} {OL : ObjfmtLaws O} {P : Protowire} {PL : ProtowireLaws P}.

Inductive frame : Type := FSubtree (root : Hash) (nodes : list Hash) | FBlock (b : encode.Block).

Definition is_block (f : frame) : bool := match f with FBlock _ => true | _ => false end.
Definition frame_bytes (f : frame) : list byte :=
  match f with FSubtree root nodes => subtree_layout root nodes | FBlock b => block_frame b end.
Definition frame_hash (f : frame) : Hash :=
  match f with FSubtree root _ => root | FBlock b => hashid.DoubleSHA256 (encode.Header b) end.
Definition frame_class (f : frame) : gostring := if is_block f then str "block" else str "subtree".
Definition frame_path (f : frame) : gostring := if is_block f then str "/block/" else str "/subtree/".
(** What a pull is owed: the nodes, or the block in the cluster's layout. *)
Definition frame_body (f : frame) : list byte :=
  match f with FSubtree _ nodes => concat_hashes nodes | FBlock b => teranode_layout b end.
Definition frame_valid (f : frame) : Prop :=
  match f with
  | FSubtree _ _ => True
  | FBlock b => frame_ok b ∧ (frame_hash f ∉ encode.SubtreeRoots b)
  end.

Definition handle_frame (f : frame) now prod url s :=
  (if is_block f then handleBlock else handleSubtree) now prod url (frame_bytes f) s.

Lemma handle_subtree root nodes now prod url s :
  handle_frame (FSubtree root nodes) now prod url s = handleSubtree now prod url (subtree_layout root nodes) s.
Proof. done. Qed.
Lemma handle_block b now prod url s :
  handle_frame (FBlock b) now prod url s = handleBlock now prod url (block_frame b) s.
Proof. done. Qed.
Lemma path_subtree root nodes : frame_path (FSubtree root nodes) = str "/subtree/".
Proof. done. Qed.
Lemma path_block b : frame_path (FBlock b) = str "/block/".
Proof. done. Qed.
Lemma body_subtree root nodes : frame_body (FSubtree root nodes) = concat_hashes nodes.
Proof. done. Qed.
Lemma body_block b : frame_body (FBlock b) = teranode_layout b.
Proof. done. Qed.

(** The plane a handler hands to the gate. *)
Lemma handle_gate f now prod url s :
  frame_valid f →
  ∃ s0, handle_frame f now prod url s = announce_gate now prod url (frame_class f) (frame_hash f) s0 ∧
    events s0 = events s ∧ (plane_wf s → plane_wf s0) ∧
    (∀ e, registry.Lookup (frame_hash f) (seen s0) = Some e → registry.Lookup (frame_hash f) (seen s) = Some e) ∧
    (∀ e, registry.Lookup (frame_hash f) (announced s0) = Some e → registry.Lookup (frame_hash f) (announced s) = Some e).
Proof.
  destruct f as [root nodes|b]; cbn [frame_valid]; unfold handle_frame, frame_class; cbn [is_block frame_bytes].
  - intros _. pose proof (length_subtree_layout root nodes) as Hlen.
    rewrite handleSubtree_gate, subtree_root_layout by lia.
    eexists. split; [reflexivity|]. destruct (stored_frame now root (str "subtree") (subtree_layout root nodes) s) as (-> & -> & ->).
    split_and!; try done. apply stored_wf.
  - intros [[Hty Hh _ _ _ Hfit] Hni]. pose proof (frame_lengths b Hh) as Hlen.
    rewrite handleBlock_gate by (done || lia). rewrite SubtreeRootsOf_frame by done.
    rewrite (block_id_frame b Hh). eexists. split; [reflexivity|]. cbn [frame_hash] in *.
    destruct (mark_roots_spec now (encode.SubtreeRoots b) (stored now (hashid.DoubleSHA256 (encode.Header b)) (str "block") (block_frame b) s)) as (Hs & Ha & _ & He).
    destruct (stored_frame now (hashid.DoubleSHA256 (encode.Header b)) (str "block") (block_frame b) s) as (Es & Ea & Ee).
    rewrite Hs, Ha, He, Es, Ea, Ee. split_and!; [done| |by intros ? ?%Lookup_marks_other|by intros ? ?%Lookup_marks_other].
    intros [Hw1 Hw2]. split; [rewrite Hs, Es|rewrite Ha, Ea]; by apply marks_wf.
Qed.

Lemma frame_id f : frame_valid f →
  (if is_block f then block_id (frame_bytes f) else subtree_root (frame_bytes f)) = frame_hash f.
Proof.
  destruct f as [root nodes|b]; cbn [is_block frame_bytes frame_hash frame_valid].
  - intros _. apply subtree_root_layout.
  - intros [[] _]. by apply block_id_frame.
Qed.

(** The answer and the stopwatch keys of a GET for a delivered frame. *)
Lemma frame_pulled p adv o now now' prod s t f :
  Forall plain_seg (prefix_segs p) → frame_valid f → cache_at o s →
  zlen (frame_bytes f) ≤ shard_ceiling o → time_sub now' now ≤ cache_ttl o →
  stored_entry (frame_hash f) (objects s) = None →
  let base := BaseURL (api_prefix p) adv in
  let out := Handler (api_prefix p) now' "GET"
    (drop (length (txpipe.TrimRight_slash adv)) (base ++ frame_path f ++ hashid.Display (frame_hash f))) None
    (plane_server (snd (handle_frame f now prod base s)) t) in
  fst out = Answered (Ok (mkResp 200 (frame_body f))) ∧ pulled (snd out) = [hashid.Display (frame_hash f)].
Proof.
  intros Hp Hv Hc Hl Ht Hn. cbv zeta. rewrite url_path. destruct f as [root nodes|b].
  - change (frame_hash (FSubtree root nodes)) with root in *.
    rewrite handle_subtree, path_subtree, body_subtree.
    rewrite (proj1 (Handler_object p _ _ _ _ Hp)). unfold answered. rewrite !fst_pair, !snd_pair.
    pose proof (delivered_subtree_served o now now' prod (BaseURL (api_prefix p) adv) s t root nodes Hc Hl Ht Hn) as E.
    split; [by rewrite E|]. by rewrite (getSubtree_pulled _ _ _ _ E).
  - destruct Hv as [Hv _]. change (frame_hash (FBlock b)) with (hashid.DoubleSHA256 (encode.Header b)) in *.
    rewrite handle_block, path_block, body_block.
    rewrite (proj2 (Handler_object p _ _ _ _ Hp)). unfold answered. rewrite !fst_pair, !snd_pair.
    pose proof (delivered_block_served o now now' prod (BaseURL (api_prefix p) adv) s t b Hc Hv Hl Ht Hn) as E.
    split; [by rewrite E|]. by rewrite (getBlock_pulled _ _ _ _ E).
Qed.

(** The producer called with a broker that takes the record. *)
Lemma announce_taken blk now hash url pr :
  fits hash → fits url → fits (PeerID (cfg pr)) → topic_of blk pr ≠ [] →
  ∃ value, announce_one blk now None hash url pr
    = (None, snd (announce_one blk now None hash url pr)) ∧
    let pr' := snd (announce_one blk now None hash url pr) in
    acked pr' = acked pr ++ [(topic_of blk pr, value)] ∧ cfg pr' = cfg pr ∧
    Decode value = Ok (mkMsg hash url (PeerID (cfg pr)), None) ∧
    firstPull pr' = obs.Announced now hash (if blk then str "block" else str "subtree") (firstPull pr).
Proof.
  intros H1 H2 H3 Ht. pose proof (announce_once blk now None hash url pr H1 H2 H3) as H.
  destruct (announce_one blk now None hash url pr) as [r pr'].
  rewrite (bool_decide_eq_false_2 (topic_of blk pr = [])) in H by done.
  rewrite (bool_decide_eq_false_2 (is_Some None)) in H by (by intros [? ?]). cbn [orb snd] in *.
  destruct H as (Hc & _ & -> & _ & _ & (value & Ha & Hd) & Hf). by exists value.
Qed.

(** The gate, for a frame the bridge neither sent nor told the cluster of. *)
Lemma fresh_gate f now outcome url s :
  frame_valid f → plane_wf s →
  registry.Lookup (frame_hash f) (seen s) ≠ Some registry.Submitted →
  registry.Lookup (frame_hash f) (announced s) = None →
  let out := handle_frame f now (Announces outcome) url s in
  plane_wf (snd out) ∧ length (events (snd out)) = S (length (events s)) ∧
  registry.Lookup (frame_hash f) (seen (snd out)) ≠ Some registry.Submitted ∧
  match outcome with
  | None => fst out = Ok tt ∧ is_Some (registry.Lookup (frame_hash f) (announced (snd out)))
  | Some e => fst out = Err e
  end.
Proof.
  intros Hv Hw Hs Ha out. unfold out.
  destruct (handle_gate f now (Announces outcome) url s Hv) as (s0 & -> & He & Hw0 & Hs0 & Ha0).
  specialize (Hw0 Hw).
  assert (registry.Lookup (frame_hash f) (announced s0) = None) as Hn.
  { destruct (registry.Lookup (frame_hash f) (announced s0)) as [e|] eqn:E; [|done]. rewrite (Ha0 e eq_refl) in Ha. done. }
  pose proof (gate_spec now (Announces outcome) url (frame_class f) (frame_hash f) s0 Hw0) as H.
  cbv zeta in H. destruct H as (H1 & H2 & _ & H3).
  assert (fst (registry.Mark now (frame_hash f) registry.Delivered (seen s0)) ≠ Some registry.Submitted) as Hd.
  { apply mark_not_submitted; [apply Hw0|]. intros E. apply Hs. by apply Hs0. }
  destruct (H3 Hd) as [_ H4]. specialize (H4 Hn). split; [done|].
  split; [|split].
  - destruct outcome as [e|]; destruct H4 as (_ & _ & E); rewrite E, length_app, He; cbn; lia.
  - rewrite H2. by destruct (fst (registry.Mark _ _ _ (seen s0))) as [[]|]; cbn.
  - destruct outcome as [e|]; by destruct H4 as (? & ? & _).
Qed.

(** [deliver] on a fresh frame, by the broker's answer. *)
Lemma deliver_fresh f now broker url s pr :
  frame_valid f → plane_wf s →
  registry.Lookup (frame_hash f) (seen s) ≠ Some registry.Submitted →
  registry.Lookup (frame_hash f) (announced s) = None →
  let '(outcome, pr') := announce_one (is_block f) now broker (hashid.Display (frame_hash f)) url pr in
  deliver (is_block f) now broker url (frame_bytes f) (s, pr)
  = (match outcome with None => Ok tt | Some e => Err e end,
     (snd (handle_frame f now (Announces outcome) url s), pr')).
Proof.
  intros Hv Hw Hs Ha. unfold deliver. rewrite frame_id by done.
  destruct (announce_one _ _ _ _ _ _) as [outcome pr'].
  destruct (fresh_gate f now outcome url s Hv Hw Hs Ha) as (_ & Hl & _ & Hr).
  fold (handle_frame f now (Announces outcome) url s).
  destruct (handle_frame f now (Announces outcome) url s) as [r s']. cbn [fst snd] in *.
  rewrite Hl. rewrite (proj2 (Nat.ltb_lt _ _)) by lia.
  destruct outcome as [e|]; [by rewrite Hr|by destruct Hr as [-> _]].
Qed.

Lemma fits_Display h : fits (hashid.Display h).
Proof. unfold fits. rewrite length_Display. vm_compute. reflexivity. Qed.

End loop.

(** ** Witness *)

Definition ap_producer : Producer :=
  mkProducer (mkConfig [str "k"] (str "subtrees") (str "blocks") (str "id") 0)
    (Some (obs.NewFirstPull 10 0)) 0 0 0 [].
Definition ap_frame : frame := FBlock hx_block.

Lemma ap_frame_valid : frame_valid ap_frame.
Proof. split; [apply ee_frame_ok|]. apply (bool_decide_unpack _). vm_compute. exact I. Qed.

