(* ===== verification/Failover.v ===== *)
(** * A primary bridge and its standby

    The pair [RunPromoter] of [src/reverse/promoter.go] runs in: the standby
    probes the primary's [/readyz] ([src/internal/metrics/metrics.go]) over
    HTTP, the streaks of results move the submitter role of its subscriber
    ([src/reverse/reverse.go]), and the subscriber handles the cluster's
    notifications meanwhile. The endpoint is that of [HealthHttp.v] and the
    subscriber that of [Reverse.v]; a primary that cannot be reached is [None].
    The delivery lanes of the standby change the plane the subscriber shares
    with them. *)

From Stdlib Require Import Strings.Byte.
From stdpp Require Import base list strings numbers gmap.
From S2P Require Import Prelude HashId Objfmt Encode TnWire Cache Registry Handlers TnAsset Reverse Metrics HealthHttp.
Import bridge reverse endpoint.

Module failover.
(** The two processes: the primary's endpoint, [RunPromoter]'s counters, and
    the standby's subscriber. *)
Record pair : Type := mkPair { primary : option server; p_fails : Z; p_oks : Z; standby : Subscriber }.

(** The primary crashes, restarts or changes its readiness; the ticker fires;
    a notification arrives; the standby's lanes change the shared plane. *)
Inductive event : Type :=
| Primary (s : option server)
| Probe
| Notify (e : renv) (n : Notification)
| Delivered (p : plane).

Section pair.
Context {O : Objfmt} (rc : Config) (pc : PromoterConfig).

Definition probe_primary (p : option server) : bool := probe p (str "/readyz").

(** One iteration of [RunPromoter]'s loop. *)
Definition on_tick (st : pair) : pair :=
  let q := tick (prom_defaults pc) (mkP (p_fails st) (p_oks st) (active (standby st))) (probe_primary (primary st)) in
  mkPair (primary st) (fails q) (oks q) (SetActive (role q) (standby st)).

Definition with_plane (p : plane) (s : Subscriber) : Subscriber :=
  mkSub p (active s) (subtreesUp s) (blocksUp s) (remoteSkipped s) (skipped s) (failures s)
    (gated s) (standbyHeld s) (foreignSkipped s) (reconnects s) (up s).

Definition step (st : pair) (ev : event) : pair :=
  match ev with
  | Primary s => mkPair s (p_fails st) (p_oks st) (standby st)
  | Probe => on_tick st
  | Notify e n => mkPair (primary st) (p_fails st) (p_oks st) (snd (handle rc e n (standby st)))
  | Delivered p => mkPair (primary st) (p_fails st) (p_oks st) (with_plane p (standby st))
  end.
Definition run (es : list event) (st : pair) : pair := foldl step st es.

(** [RunPromoter] starts with both counters zero. *)
Definition start (p : option server) (s : Subscriber) : pair := mkPair p 0 0 s.
End pair.
End failover.

Import failover.

(** ** What the standby saw *)

Definition is_ready (p : option server) : bool := match p with Some s => metrics.ready (rec s) | None => false end.

(** The primary's readiness at each probe, in order. *)
Fixpoint readings (p : option server) (es : list event) : list bool :=
  match es with
  | [] => []
  | Primary s :: es => readings s es
  | Probe :: es => is_ready p :: readings p es
  | _ :: es => readings p es
  end.

Section proofs.
Context {O : Objfmt} (rc : Config) (pc : PromoterConfig).
Let c := prom_defaults pc.

Lemma probe_primary_ready p : probe_primary p = is_ready p.
Proof. destruct p as [s|]; [apply probe_readyz|done]. Qed.

(** A notification does not move the role, and sends nothing without it. *)
Lemma handle_role e n s :
  active (snd (handle rc e n s)) = active s ∧ (active s = false → up (snd (handle rc e n s)) = up s).
Proof.
  unfold handle. destruct (negb _ && _); [done|]. destruct (hashid.FromWire (n_hash n)) as [h| |]; [|done..].
  destruct (registry.Lookup h (seen (pl s))); [done|]. split.
  - unfold publish. repeat case_match; done.
  - intros Ha. unfold publish. rewrite Ha. by destruct (negb (if n_type n =? typeBlock then _ else _)).
Qed.

(** The standby's promoter state, as [Reverse.v] has it. *)
Definition prom (st : pair) : promoter := mkP (p_fails st) (p_oks st) (active (standby st)).

Lemma run_ticks es st : prom (run rc pc es st) = ticks c (readings (primary st) es) (prom st).
Proof.
  unfold run, ticks. revert st. induction es as [|ev es IH]; intros st; [done|]. cbn [foldl]. rewrite IH.
  destruct ev as [s| |e n|p]; cbn [step primary readings]; [done| | |done].
  - cbn [foldl]. f_equal. unfold on_tick, prom. rewrite probe_primary_ready. fold c.
    cbn [p_fails p_oks standby SetActive active]. by destruct (tick c _ _).
  - f_equal. unfold prom. cbn [p_fails p_oks standby]. by rewrite (proj1 (handle_role e n (standby st))).
Qed.

Lemma readings_app p es es' :
  ∃ p', readings p (es ++ es') = readings p es ++ readings p' es' ∧
    ∀ st, primary st = p → primary (run rc pc es st) = p'.
Proof.
  unfold run. revert p. induction es as [|ev es IH]; intros p; [by exists p|].
  destruct ev as [s| |e n|q]; cbn [app readings foldl step]; [destruct (IH s) as (p' & E & H)|destruct (IH p) as (p' & E & H)..];
    exists p'; (split; [by rewrite ?E|]); intros st Hst; by apply H.
Qed.

(** A streak at the end decides the role. *)
Lemma streak_role es (s : option server) sub l n (b : bool) :
  readings s es = l ++ replicate n b → (if b then OKN c else FailN c) ≤ Z.of_nat n →
  active (standby (run rc pc es (start s sub))) = negb b.
Proof.
  intros Hl Hn. pose proof (run_ticks es (start s sub)) as Hr. cbn [primary start] in Hr. rewrite Hl, ticks_app in Hr.
  change (active (standby (run rc pc es (start s sub)))) with (role (prom (run rc pc es (start s sub)))).
  rewrite Hr. destruct (prom_defaults_pos pc) as [HF HO]. fold c in HF, HO.
  destruct (ticks_counters c l (active sub)) as (Hf0 & Ho0 & _).
  apply streak_settles; destruct b; unfold prom, start in *; cbn [p_fails p_oks standby] in *; try done; lia.
Qed.

(** The standby is inactive until the primary fails. *)
Lemma quiet_role es s sub :
  active sub = false → ¬ has_run false (FailN c) (readings s es) →
  active (standby (run rc pc es (start s sub))) = false.
Proof.
  intros Ha Hn. pose proof (run_ticks es (start s sub)) as Hr. cbn [primary start] in Hr.
  change (active (standby (run rc pc es (start s sub)))) with (role (prom (run rc pc es (start s sub)))).
  rewrite Hr. unfold prom. cbn [start p_fails p_oks standby]. rewrite Ha.
  destruct (role _) eqn:E; [|done]. exfalso. apply Hn. by apply (role_change_run c _ false).
Qed.

Lemma has_run_app b n ps qs : has_run b n ps → has_run b n (ps ++ qs).
Proof.
  intros H. induction qs as [|q qs IH] using rev_ind; [by rewrite app_nil_r|].
  rewrite app_assoc. by apply has_run_snoc.
Qed.

Lemma quiet_up es s sub :
  active sub = false → ¬ has_run false (FailN c) (readings s es) →
  up (standby (run rc pc es (start s sub))) = up sub.
Proof.
  intros Ha. induction es as [|ev es IH] using rev_ind; [done|]. intros Hn.
  destruct (readings_app s es [ev]) as (p' & E & _). rewrite E in Hn.
  assert (¬ has_run false (FailN c) (readings s es)) as Hn' by (intros H; by apply Hn, has_run_app).
  pose proof (quiet_role es s sub Ha Hn') as Hr. specialize (IH Hn'). revert Hr IH.
  unfold run. rewrite foldl_app. set (st := foldl (step rc pc) (start s sub) es). cbn [foldl]. intros Hr IH.
  destruct ev as [s'| |e n|p]; cbn [step standby]; [done|done| |done].
  by rewrite (proj2 (handle_role e n (standby st)) Hr).
Qed.

(** C29: Failover across the pair. Whatever the primary, the cluster and the
    standby's own lanes do: once the last [FailN] probes found the primary
    down or not ready, the standby holds the submitter role; once the last
    [OKN] found it ready, the standby has given the role up and a notification
    makes it publish nothing; and a standby whose primary never failed [FailN]
    probes in a row never published at all. *)
Theorem failover_pair (es : list event) (s : option server) (sub : Subscriber) (l : list bool) :
  let st := run rc pc es (start s sub) in
  (readings s es = l ++ replicate (Z.to_nat (FailN c)) false → active (standby st) = true) ∧
  (readings s es = l ++ replicate (Z.to_nat (OKN c)) true →
     active (standby st) = false ∧
     ∀ e n, up (snd (handle rc e n (standby st))) = up (standby st)) ∧
  (active sub = false → ¬ has_run false (FailN c) (readings s es) →
     active (standby st) = false ∧ up (standby st) = up sub).
Proof.
  intros st. split_and!.
  - intros Hl. apply (streak_role es s sub l (Z.to_nat (FailN c)) false Hl). cbn. lia.
  - intros Hl. assert (active (standby st) = false) as Hr by (apply (streak_role es s sub l _ true Hl); cbn; lia).
    split; [done|]. intros e n. by apply handle_role.
  - intros Ha Hn. split; [by apply quiet_role|by apply quiet_up].
Qed.
End proofs.

(** ** Witness: a primary that crashes and comes back *)

Definition fo_ready : server :=
  mkServer (metrics.mkRecorder metrics.no_sources [] [] true None 0 0 false false) (λ _, []) false.
Definition fo_env : renv := mkRenv 5 true (λ _, Ok (Some rx_frame)) (λ _, Ok None) true.
Definition fo_cfg : PromoterConfig := mkProm 0 2 3.
Definition fo_sub : Subscriber := SetActive false rx_sub.
Definition fo_note : event := Notify fo_env rx_note.
Definition fo_crash : list event := [Probe; fo_note; Primary None; Probe; fo_note; Probe].
Definition fo_back : list event := fo_crash ++ [fo_note; Primary (Some fo_ready); Probe; Probe; Probe].

Definition fo_run (es : list event) : Subscriber :=
  standby (run rx_cfg fo_cfg es (start (Some fo_ready) fo_sub)).

Lemma failover_pair_witness :
  active (fo_run fo_crash) = true ∧ active (fo_run fo_back) = false ∧
  active fo_sub = false ∧ up (fo_run (take 4 fo_crash)) = up fo_sub.
Proof.
  split_and!.
  - destruct (failover_pair rx_cfg fo_cfg fo_crash (Some fo_ready) fo_sub [true]) as (H & _ & _).
    exact (H eq_refl).
  - destruct (failover_pair rx_cfg fo_cfg fo_back (Some fo_ready) fo_sub [true; false; false]) as (_ & H & _).
    exact (proj1 (H eq_refl)).
  - exact eq_refl.
  - destruct (failover_pair rx_cfg fo_cfg (take 4 fo_crash) (Some fo_ready) fo_sub []) as (_ & _ & H).
    assert (¬ has_run false (FailN (prom_defaults fo_cfg)) (readings (Some fo_ready) (take 4 fo_crash))) as Hn.
    { change (¬ has_run false 2 [true; false]). intros ([|x pre] & post & E); [discriminate E|].
      apply (f_equal length) in E. cbn [app length] in E. rewrite !length_app, length_replicate in E. cbn [length] in E. lia. }
    exact (proj2 (H eq_refl Hn)).
Defined.

(** The promoted standby publishes what it is notified of. *)
Example promoted_publishes :
  length (up (fo_run fo_back)) = 1%nat.
Proof. vm_compute. reflexivity. Qed.
