(* ===== verification/Instruments.v ===== *)
(** * The instruments and the registry they live in

    The metric vectors of [src/internal/obs/obs.go] with their buckets, the
    Kafka client hooks of [src/internal/obs/kafka/kafka.go] with the counters
    and histograms they feed, and the registration in [New] of
    [src/internal/metrics/metrics.go]. The Prometheus client is a separate
    module: what it refuses (a name registered twice, buckets that do not
    increase) makes [MustRegister] panic, and [register] says when. A histogram
    is the list of the values observed. Buckets are in microseconds or bytes,
    durations in nanoseconds. The Kafka client calls the hooks; its calls are a
    list. *)

From Stdlib Require Import Strings.Byte.
From stdpp Require Import base list strings numbers gmap sorting.
From S2P Require Import Prelude TxBuild Cache Metrics ClusterState.

Module instruments.
Inductive kind : Type := Histogram (buckets : list Z) | Gauge | Counter.
Record instrument : Type := mkInst { i_subsystem : string; i_name : string; i_kind : kind; i_labels : list string }.

Definition Namespace := "teranode"%string.
Definition Subsystem := "bridge"%string.

(** [prometheus.BuildFQName]. *)
Definition fq (i : instrument) : string := (Namespace +:+ "_" +:+ i_subsystem i +:+ "_" +:+ i_name i)%string.

Definition BucketsMicroSeconds : list Z :=
  [128; 256; 512; 1024; 2048; 4096; 8192; 16384; 32768; 65536; 131072; 262144].
Definition BucketsMilliSeconds : list Z :=
  [1000; 2000; 4000; 16000; 32000; 64000; 128000; 256000; 512000; 1024000; 2048000; 4096000].
Definition BucketsMilliLongSeconds : list Z :=
  [64000; 128000; 256000; 512000; 1024000; 2048000; 4096000; 8192000; 16384000; 32768000; 65536000; 131072000].
Definition BucketsSeconds : list Z :=
  [1000000; 2000000; 4000000; 8000000; 16000000; 32000000; 64000000; 128000000; 256000000; 512000000;
   1024000000; 2048000000].
Definition BucketsSizeSmall : list Z := [1; 16; 32; 64; 128; 256; 1024; 2048; 4096; 8192; 16384; 32768].
Definition BucketsSize : list Z := [128; 256; 512; 1024; 2048; 4096; 8192; 16384; 32768; 65536; 131072; 262144].

Definition hist (name : string) (buckets : list Z) (labels : list string) : instrument :=
  mkInst Subsystem name (Histogram buckets) labels.
Definition gauge (name : string) (labels : list string) : instrument := mkInst Subsystem name Gauge labels.
Definition counter (name : string) (labels : list string) : instrument := mkInst Subsystem name Counter labels.

(** [obs.Collectors]. *)
Definition Collectors : list instrument :=
  [hist gauges.SubmitDuration BucketsMilliSeconds ["outcome"];
   hist gauges.RetrievalDuration BucketsMilliSeconds ["route"];
   hist gauges.AnnounceDuration BucketsMilliSeconds ["class"];
   hist gauges.AssetFetchDuration BucketsMilliLongSeconds ["class"];
   hist gauges.AnnounceToFirstPull BucketsSeconds ["class"];
   hist gauges.UpTunnelWriteDuration BucketsMilliSeconds ["class"];
   hist gauges.ObjectBytes BucketsSize ["lane"];
   gauge gauges.LastObjectTime ["lane"]; gauge gauges.LastAnnounceTime ["class"];
   gauge gauges.LastPullTime []; gauge gauges.LastSubmitTime []; gauge gauges.LastNotificationTime [];
   gauge gauges.ClusterFSMState []; gauge gauges.ClusterFSMStateInfo ["state"];
   gauge gauges.ClusterBlockHeight []; counter gauges.ClusterProbeErrors ["call"]]%string.
End instruments.

Module kafka.
Import instruments.

Definition subsystem := "bridge_kafka_producer"%string.
Definition hist (name : string) (buckets : list Z) : instrument := mkInst subsystem name (Histogram buckets) [].
Definition counter (name : string) : instrument := mkInst subsystem name Counter [].

(** [set.each]. *)
Definition each : list instrument :=
  [counter "bytes_written_total"; hist "write_duration_seconds" BucketsMilliSeconds;
   counter "write_errors_total"; hist "e2e_duration_seconds" BucketsMilliLongSeconds;
   hist "produce_request_latency_seconds" BucketsMilliLongSeconds; counter "batch_records_total";
   counter "batch_compressed_bytes_total"; counter "broker_connects_total"; counter "broker_disconnects_total";
   counter "connect_errors_total"].

(** The values of the ten metrics. *)
Record values : Type := mkValues {
  BytesWritten : Z; WriteDuration : list Z; WriteErrors : Z; E2EDuration : list Z; ProduceLatency : list Z;
  BatchRecords : Z; BatchCompressed : Z; BrokerConnects : Z; BrokerDisconnects : Z; ConnectErrors : Z
}.
Definition values0 : values := mkValues 0 [] 0 [] [] 0 0 0 0 0.

Definition produceAPIKey : Z := 0.

(** [kgo.BrokerE2E], with what its methods [DurationE2E] and [Err] return. *)
Record BrokerE2E : Type := mkE2E { WriteWait : Z; DurationE2E : Z; e2e_Err : option error }.

Definition OnBrokerConnect (err : option error) (v : values) : values :=
  match err with
  | Some _ => mkValues (BytesWritten v) (WriteDuration v) (WriteErrors v) (E2EDuration v) (ProduceLatency v)
                (BatchRecords v) (BatchCompressed v) (BrokerConnects v) (BrokerDisconnects v) (ConnectErrors v + 1)
  | None => mkValues (BytesWritten v) (WriteDuration v) (WriteErrors v) (E2EDuration v) (ProduceLatency v)
              (BatchRecords v) (BatchCompressed v) (BrokerConnects v + 1) (BrokerDisconnects v) (ConnectErrors v)
  end.

Definition OnBrokerDisconnect (v : values) : values :=
  mkValues (BytesWritten v) (WriteDuration v) (WriteErrors v) (E2EDuration v) (ProduceLatency v)
    (BatchRecords v) (BatchCompressed v) (BrokerConnects v) (BrokerDisconnects v + 1) (ConnectErrors v).

Definition one_if (err : option error) : Z := match err with Some _ => 1 | None => 0 end.

Definition OnBrokerWrite (key bytesWritten timeToWrite : Z) (err : option error) (v : values) : values :=
  if negb (key =? produceAPIKey) then v else
  mkValues (BytesWritten v + bytesWritten) (WriteDuration v ++ [timeToWrite]) (WriteErrors v + one_if err)
    (E2EDuration v) (ProduceLatency v) (BatchRecords v) (BatchCompressed v)
    (BrokerConnects v) (BrokerDisconnects v) (ConnectErrors v).

Definition OnBrokerE2E (key : Z) (e : BrokerE2E) (v : values) : values :=
  if negb (key =? produceAPIKey) then v else
  mkValues (BytesWritten v) (WriteDuration v) (WriteErrors v + one_if (e2e_Err e))
    (E2EDuration v ++ [DurationE2E e]) (ProduceLatency v ++ [WriteWait e + DurationE2E e])
    (BatchRecords v) (BatchCompressed v) (BrokerConnects v) (BrokerDisconnects v) (ConnectErrors v).

Definition OnProduceBatchWritten (numRecords compressedBytes : Z) (v : values) : values :=
  mkValues (BytesWritten v) (WriteDuration v) (WriteErrors v) (E2EDuration v) (ProduceLatency v)
    (BatchRecords v + numRecords) (BatchCompressed v + compressedBytes)
    (BrokerConnects v) (BrokerDisconnects v) (ConnectErrors v).

(** A call the client makes. *)
Inductive hook_call : Type :=
| HConnect (err : option error)
| HDisconnect
| HWrite (key bytesWritten timeToWrite : Z) (err : option error)
| HE2E (key : Z) (e : BrokerE2E)
| HBatch (numRecords compressedBytes : Z).

Definition fire (v : values) (c : hook_call) : values :=
  match c with
  | HConnect err => OnBrokerConnect err v
  | HDisconnect => OnBrokerDisconnect v
  | HWrite key n t err => OnBrokerWrite key n t err v
  | HE2E key e => OnBrokerE2E key e v
  | HBatch n b => OnProduceBatchWritten n b v
  end.
Definition fires (cs : list hook_call) : values := foldl fire values0 cs.
End kafka.

Module registration.
Import instruments.

(** What the client library refuses to build or to register: a histogram whose
    buckets do not increase, a name already taken. *)
Fixpoint increasing (l : list Z) : bool :=
  match l with
  | a :: (b :: _) as l' => (a <? b) && increasing l'
  | _ => true
  end.
Definition builds (i : instrument) : bool :=
  match i_kind i with Histogram b => increasing b | _ => true end.

Fixpoint register (names : list string) (reg : list string) : option (list string) :=
  match names with
  | [] => Some reg
  | n :: names => if bool_decide (n ∈ reg) then None else register names (reg ++ [n])
  end.

(** [New]'s three calls of [MustRegister]; [foreign] is what the Go, process
    and gRPC collectors describe. *)
Definition New (legacyOn : bool) (foreign : list string) : option (list string) :=
  if forallb builds (Collectors ++ kafka.each) then
    reg ← register (foreign ++ (metrics.fqName <$> metrics.Describe legacyOn)) [];
    reg ← register (fq <$> Collectors) reg;
    register (fq <$> kafka.each) reg
  else None.
End registration.

Import instruments kafka registration.

(** ** Registration *)

Lemma register_NoDup names reg :
  NoDup (reg ++ names) → register names reg = Some (reg ++ names).
Proof.
  revert reg. induction names as [|n names IH]; intros reg H; [by rewrite app_nil_r|]. cbn [register].
  assert (n ∉ reg) as Hn.
  { apply NoDup_app in H as (_ & H & _). intros Hi. apply (H n Hi). by left. }
  rewrite bool_decide_eq_false_2 by done. rewrite IH, <- app_assoc; [done|]. by rewrite <- app_assoc.
Qed.

(** Everything the bridge names itself. *)
Definition own_names (legacyOn : bool) : list string :=
  (metrics.fqName <$> metrics.Describe legacyOn) ++ (fq <$> Collectors) ++ (fq <$> kafka.each).

(** A name of the bridge's own, by its prefix. *)
Definition ours (n : string) : bool :=
  String.prefix metrics.modernPrefix n || String.prefix metrics.legacyPrefix n.

(** The series a histogram is exposed as, beside its own name. *)
Definition exposed (i : instrument) : list string :=
  match i_kind i with
  | Histogram _ => [fq i +:+ "_bucket"; fq i +:+ "_sum"; fq i +:+ "_count"]%string
  | _ => []
  end.

Lemma own_names_distinct b : NoDup (own_names b ++ ((Collectors ++ kafka.each) ≫= exposed)).
Proof. apply (bool_decide_unpack _). destruct b; vm_compute; exact I. Qed.

Lemma own_names_ours b : forallb ours (own_names b) = true.
Proof. destruct b; vm_compute; reflexivity. Qed.

(** The recorder starts. With either setting of the legacy names, as long
    as the collectors the bridge does not own stay out of its prefixes,
    [New] builds every histogram and registers every collector without a
    panic: no name is registered twice, among the scrape's names, the
    instruments and the Kafka client's metrics, and no name is that of a
    series a histogram is exposed as. *)
Theorem registration_succeeds (legacyOn : bool) (foreign : list string) :
  NoDup foreign → Forall (λ n, ours n = false) foreign →
  New legacyOn foreign = Some (foreign ++ own_names legacyOn) ∧
  NoDup (foreign ++ own_names legacyOn ++ ((Collectors ++ kafka.each) ≫= exposed)).
Proof.
  intros Hf Ho. pose proof (own_names_distinct legacyOn) as Hd.
  assert (Hex : forallb ours (own_names legacyOn ++ ((Collectors ++ kafka.each) ≫= exposed)) = true)
    by (destruct legacyOn; vm_compute; reflexivity).
  assert (Hall : NoDup (foreign ++ own_names legacyOn ++ ((Collectors ++ kafka.each) ≫= exposed))).
  { apply NoDup_app. split_and!; [done| |done]. intros n Hn Hi.
    rewrite forallb_forall in Hex. apply list_elem_of_In, Hex in Hi.
    rewrite list.Forall_forall in Ho. by rewrite (Ho n Hn) in Hi. }
  split; [|done]. rewrite app_assoc in Hall. apply NoDup_app in Hall as (Hall & _ & _). unfold own_names in *.
  unfold New. change (forallb builds (Collectors ++ kafka.each)) with true. cbv iota.
  rewrite !app_assoc in Hall.
  pose proof (proj1 (NoDup_app _ _) Hall) as (H2 & _ & _).
  pose proof (proj1 (NoDup_app _ _) H2) as (H1 & _ & _).
  rewrite register_NoDup by done. rewrite app_nil_l. cbn [mbind option_bind].
  rewrite register_NoDup by done. cbn [mbind option_bind]. rewrite register_NoDup by done.
  by rewrite !app_assoc.
Qed.

Lemma registration_succeeds_witness :
  New true ["go_goroutines"; "grpc_client_started_total"]%string
  = Some (["go_goroutines"; "grpc_client_started_total"]%string ++ own_names true).
Proof.
  apply (registration_succeeds true); apply (bool_decide_unpack _); vm_compute; exact I.
Defined.

(** ** The hooks *)

(** The produce requests among the calls: writes and write-read cycles. *)
Definition produce_write (c : hook_call) : option (Z * Z * option error) :=
  match c with HWrite key n t err => if key =? produceAPIKey then Some (n, t, err) else None | _ => None end.
Definition produce_cycle (c : hook_call) : option BrokerE2E :=
  match c with HE2E key e => if key =? produceAPIKey then Some e else None | _ => None end.
Definition batch_of (c : hook_call) : option (Z * Z) := match c with HBatch n b => Some (n, b) | _ => None end.
Definition dial_of (c : hook_call) : option (option error) := match c with HConnect err => Some err | _ => None end.
Definition is_disconnect (c : hook_call) : option unit := match c with HDisconnect => Some tt | _ => None end.

Definition total (l : list Z) : Z := foldr Z.add 0 l.
Lemma total_app a b : total (a ++ b) = total a + total b.
Proof. unfold total. induction a as [|x a IH]; cbn; lia. Qed.

Definition failed {A} (err : A → option error) (l : list A) : Z := total (one_if ∘ err <$> l).

(** What the ten metrics should read after the calls. *)
Definition expected (cs : list hook_call) : values :=
  let ws := omap produce_write cs in
  let es := omap produce_cycle cs in
  let bs := omap batch_of cs in
  let ds := omap dial_of cs in
  mkValues (total ((λ w, fst (fst w)) <$> ws)) ((λ w, snd (fst w)) <$> ws)
    (failed snd ws + failed e2e_Err es) (DurationE2E <$> es) ((λ e, WriteWait e + DurationE2E e) <$> es)
    (total (fst <$> bs)) (total (snd <$> bs))
    (zlen ds - failed id ds) (zlen (omap is_disconnect cs)) (failed id ds).

(** The Kafka metrics count produce requests exactly: after any sequence of
    calls the client makes, the bytes, write times, cycle times and latencies
    are those of the produce requests, in order, and no other request moves
    them; records, compressed bytes, connections opened, refused and closed
    are the sums over their calls; and [write_errors_total] is the number of
    failed produce writes plus the number of failed produce cycles. *)
Theorem kafka_hooks_exact (cs : list hook_call) : fires cs = expected cs.
Proof.
  induction cs as [|c cs IH] using rev_ind; [done|].
  unfold fires in *. rewrite foldl_app, IH. cbn [foldl]. unfold expected, failed.
  rewrite !omap_app, !fmap_app, !total_app.
  destruct c as [err| |key n t err|key e|n b]; cbn [fire omap list_omap produce_write produce_cycle batch_of dial_of is_disconnect].
  - unfold OnBrokerConnect. destruct err; cbn; rewrite !app_nil_r, length_app; cbn; f_equal; lia.
  - unfold OnBrokerDisconnect. cbn. rewrite !app_nil_r, length_app. cbn. f_equal; lia.
  - unfold OnBrokerWrite. destruct (key =? produceAPIKey); cbn; rewrite !app_nil_r; f_equal; lia.
  - unfold OnBrokerE2E. destruct (key =? produceAPIKey); cbn; rewrite !app_nil_r; f_equal; lia.
  - unfold OnProduceBatchWritten. cbn. rewrite !app_nil_r. f_equal; lia.
Qed.

(** [write_errors_total] is not the number of broker write errors: a request
    written well whose response cannot be read counts as one, and a failed
    write that the client reports to both hooks counts twice. *)
Theorem write_errors_overcount (n t : Z) (e : error) (c : BrokerE2E) :
  e2e_Err c = Some e →
  WriteErrors (fires [HWrite produceAPIKey n t None; HE2E produceAPIKey c]) = 1 ∧
  WriteErrors (fires [HWrite produceAPIKey n t (Some e); HE2E produceAPIKey c]) = 2.
Proof. intros He. unfold fires. cbn. unfold OnBrokerE2E. cbn. by rewrite He. Qed.

Lemma write_errors_overcount_witness :
  WriteErrors (fires [HWrite produceAPIKey 9 1 (Some (EMsg "reset")); HE2E produceAPIKey (mkE2E 1 2 (Some (EMsg "reset")))]) = 2.
Proof. apply (write_errors_overcount 9 1 (EMsg "reset")). reflexivity. Defined.

Example kafka_other_requests :
  fires [HConnect None; HWrite 3 100 5 None; HE2E 3 (mkE2E 1 2 None); HWrite 0 40 7 None;
         HE2E 0 (mkE2E 1 2 None); HBatch 2 30; HDisconnect]
  = mkValues 40 [7] 0 [2] [3] 2 30 1 1 0.
Proof. reflexivity. Qed.
