(* ===== verification/JobPool.v ===== *)
(** * The pooled runs of the transaction pipe

    [Batch], [getJobs], [putJobs] and the hand-over of a run to a builder in
    [src/internal/txpipe/txpipe.go]. A run is a slice whose array comes from a
    process-wide pool and goes back to it, cleared, when the builder has read
    it; meanwhile it belongs to a lane session, then to a builder's queue, then
    to the builder. Here the arrays, the slices that alias them and the pool
    are explicit, and sessions and builders take their steps in any order; the
    theorem is that the pool cannot be observed. Which pooled array [Get]
    returns, whether the runtime drops one, and how far [append] grows an array
    are the environment's choice. *)

From Stdlib Require Import Strings.Byte.
From stdpp Require Import base list strings numbers gmap.
From S2P Require Import Prelude HashId TxBuild.
Import txpipe.

Module jobpool.
(** A slice from the start of its array; its capacity is the array's length. *)
Record run : Type := mkRun { r_arr : nat; r_len : nat }.

(** [arrays]: the contents, [None] being the zero [job]. A session without a
    run ([b.jobs == nil]) is absent from [sessions]. A builder holds the run it
    ranges over and the index it has reached. [out] is what the builders read. *)
Record state : Type := mkState {
  arrays : gmap nat (list (option job)); pool : list nat;
  sessions : gmap nat run; queues : list (list run); held : gmap nat (run * nat);
  out : list (nat * option job)
}.

Definition cap (s : state) (a : nat) : nat := length (default [] (arrays s !! a)).
Definition batchCap : nat := Z.to_nat BatchCap.

(** [make([]job, 0, BatchCap)], and any other allocation. *)
Definition alloc (l : list (option job)) (s : state) : nat * state :=
  let a := fresh (dom (arrays s)) in
  (a, mkState (<[a := l]> (arrays s)) (pool s) (sessions s) (queues s) (held s) (out s)).

(** [getJobs]: the [i]-th pooled array, or a new one. *)
Definition getJobs (pick : option nat) (s : state) : option (run * state) :=
  match pick with
  | None => let '(a, s) := alloc (replicate batchCap None) s in Some (mkRun a 0, s)
  | Some i =>
      a ← pool s !! i;
      Some (mkRun a 0, mkState (arrays s) (delete i (pool s)) (sessions s) (queues s) (held s) (out s))
  end.

(** [append(js, j)]: in place while there is room. *)
Definition append (spare : nat) (r : run) (j : job) (s : state) : run * state :=
  let l := default [] (arrays s !! r_arr r) in
  if (r_len r <? length l)%nat then
    (mkRun (r_arr r) (S (r_len r)),
     mkState (<[r_arr r := <[r_len r := Some j]> l]> (arrays s)) (pool s) (sessions s) (queues s) (held s) (out s))
  else
    let '(a, s) := alloc (take (r_len r) l ++ [Some j] ++ replicate spare None) s in
    (mkRun a (S (r_len r)), s).

(** [Batch.Add]. *)
Definition Add (c : nat) (j : job) (pick : option nat) (spare : nat) (s : state) : option state :=
  match (match sessions s !! c with Some r => Some (r, s) | None => getJobs pick s end) with
  | None => None
  | Some (r, s) =>
      let '(r, s) := append spare r j s in
      Some (mkState (arrays s) (pool s) (<[c := r]> (sessions s)) (queues s) (held s) (out s))
  end.

(** [Batch.Flush] to builder [b]; the send is taken, or the context is done
    and the run is dropped. *)
Definition Flush (c b : nat) (sent : bool) (s : state) : option state :=
  match sessions s !! c with
  | None => Some s
  | Some r =>
      if (r_len r =? 0)%nat then Some s else
      if sent then
        q ← queues s !! b;
        Some (mkState (arrays s) (pool s) (delete c (sessions s)) (<[b := q ++ [r]]> (queues s)) (held s) (out s))
      else Some (mkState (arrays s) (pool s) (delete c (sessions s)) (queues s) (held s) (out s))
  end.

(** [EnqueueOwned]: a run of one, [ []job{{raw, id}} ]. *)
Definition EnqueueOwned (b : nat) (j : job) (s : state) : option state :=
  let '(a, s) := alloc [Some j] s in
  q ← queues s !! b;
  Some (mkState (arrays s) (pool s) (sessions s) (<[b := q ++ [mkRun a 1]]> (queues s)) (held s) (out s)).

(** A builder: [js := <-in], and an iteration of [range js]. *)
Definition Receive (b : nat) (s : state) : option state :=
  match held s !! b, queues s !! b with
  | None, Some (r :: q) =>
      Some (mkState (arrays s) (pool s) (sessions s) (<[b := q]> (queues s)) (<[b := (r, 0%nat)]> (held s)) (out s))
  | _, _ => None
  end.

Definition Read (b : nat) (s : state) : option state :=
  '(r, i) ← held s !! b;
  if (i <? r_len r)%nat then
    Some (mkState (arrays s) (pool s) (sessions s) (queues s) (<[b := (r, S i)]> (held s))
            (out s ++ [(b, mjoin (default [] (arrays s !! r_arr r) !! i))]))
  else None.

Definition putJobs (r : run) (s : state) : state :=
  if (cap s (r_arr r) <? batchCap)%nat then s else
  let l := default [] (arrays s !! r_arr r) in
  mkState (<[r_arr r := replicate (r_len r) None ++ drop (r_len r) l]> (arrays s)) (r_arr r :: pool s)
    (sessions s) (queues s) (held s) (out s).

(** The end of the range: [addRun] returns the run, the drain at shutdown does
    not. *)
Definition Done (b : nat) (back : bool) (s : state) : option state :=
  '(r, i) ← held s !! b;
  if (i =? r_len r)%nat then
    let s := if back then putJobs r s else s in
    Some (mkState (arrays s) (pool s) (sessions s) (queues s) (delete b (held s)) (out s))
  else None.

Inductive event : Type :=
| EAdd (c : nat) (j : job) (pick : option nat) (spare : nat)
| EFlush (c b : nat) (sent : bool)
| EEnqueue (b : nat) (j : job)
| EReceive (b : nat)
| ERead (b : nat)
| EDone (b : nat) (back : bool)
| EDrop (i : nat).   (** the runtime empties the pool *)

Definition step (s : state) (e : event) : option state :=
  match e with
  | EAdd c j pick spare => Add c j pick spare s
  | EFlush c b sent => Flush c b sent s
  | EEnqueue b j => EnqueueOwned b j s
  | EReceive b => Receive b s
  | ERead b => Read b s
  | EDone b back => Done b back s
  | EDrop i => Some (mkState (arrays s) (delete i (pool s)) (sessions s) (queues s) (held s) (out s))
  end.

Definition init (builders : nat) : state := mkState ∅ [] ∅ (replicate builders []) ∅ [].
End jobpool.

Import jobpool.

(** ** The specification: a run is a list of its own *)

Record spec : Type := mkSpec {
  s_sessions : gmap nat (list job); s_queues : list (list (list job));
  s_held : gmap nat (list job * nat); s_out : list (nat * option job)
}.

Definition spec_step (s : spec) (e : event) : option spec :=
  match e with
  | EAdd c j _ _ =>
      Some (mkSpec (<[c := default [] (s_sessions s !! c) ++ [j]]> (s_sessions s)) (s_queues s) (s_held s) (s_out s))
  | EFlush c b sent =>
      match s_sessions s !! c with
      | None => Some s
      | Some js =>
          if (length js =? 0)%nat then Some s else
          if sent then
            q ← s_queues s !! b;
            Some (mkSpec (delete c (s_sessions s)) (<[b := q ++ [js]]> (s_queues s)) (s_held s) (s_out s))
          else Some (mkSpec (delete c (s_sessions s)) (s_queues s) (s_held s) (s_out s))
      end
  | EEnqueue b j =>
      q ← s_queues s !! b; Some (mkSpec (s_sessions s) (<[b := q ++ [[j]]]> (s_queues s)) (s_held s) (s_out s))
  | EReceive b =>
      match s_held s !! b, s_queues s !! b with
      | None, Some (js :: q) => Some (mkSpec (s_sessions s) (<[b := q]> (s_queues s)) (<[b := (js, 0%nat)]> (s_held s)) (s_out s))
      | _, _ => None
      end
  | ERead b =>
      '(js, i) ← s_held s !! b;
      if (i <? length js)%nat then
        Some (mkSpec (s_sessions s) (s_queues s) (<[b := (js, S i)]> (s_held s)) (s_out s ++ [(b, js !! i)]))
      else None
  | EDone b _ =>
      '(js, i) ← s_held s !! b;
      if (i =? length js)%nat then Some (mkSpec (s_sessions s) (s_queues s) (delete b (s_held s)) (s_out s)) else None
  | EDrop _ => Some s
  end.
Definition spec_init (builders : nat) : spec := mkSpec ∅ (replicate builders []) ∅ [].

(** The contents of a run, as the code would read it. *)
Definition contents (m : gmap nat (list (option job))) (r : run) : list (option job) :=
  take (r_len r) (default [] (m !! r_arr r)).

Definition rep (m : gmap nat (list (option job))) (r : run) (js : list job) : Prop :=
  contents m r = Some <$> js ∧ r_len r = length js.

(** ** Ownership *)

(** The arrays the sessions, the queues and the builders own, and all of them
    with the pool's, each as often as it is owned. *)
Definition arrs {A} (f : A → run) (m : gmap nat A) : list nat := r_arr ∘ f ∘ snd <$> map_to_list m.
Definition arrs_q (q : list (list run)) : list nat := r_arr <$> concat q.
Definition owned (s : state) : list nat :=
  pool s ++ arrs (λ r, r) (sessions s) ++ arrs_q (queues s) ++ arrs fst (held s).

Record refines (s : state) (t : spec) : Prop := {
  rf_sessions : ∀ c, option_Forall2 (rep (arrays s)) (sessions s !! c) (s_sessions t !! c);
  rf_queues : Forall2 (Forall2 (rep (arrays s))) (queues s) (s_queues t);
  rf_held : ∀ b, option_Forall2 (λ x y, rep (arrays s) (fst x) (fst y) ∧ snd x = snd y) (held s !! b) (s_held t !! b);
  rf_out : out s = s_out t;
  rf_nodup : NoDup (owned s);
  rf_dom : ∀ a, a ∈ owned s → a ∈ dom (arrays s)
}.

(** A run in hand: nobody else owns its array. *)
Definition loose (r : run) (js : list job) (s : state) : Prop :=
  rep (arrays s) r js ∧ (r_arr r ∉ owned s) ∧ r_arr r ∈ dom (arrays s).

Lemma arrs_insert {A} (f : A → run) m c x :
  m !! c = None → arrs f (<[c := x]> m) ≡ₚ r_arr (f x) :: arrs f m.
Proof. intros H. unfold arrs. by rewrite map_to_list_insert. Qed.
Lemma arrs_delete {A} (f : A → run) m c x :
  m !! c = Some x → arrs f m ≡ₚ r_arr (f x) :: arrs f (delete c m).
Proof.
  intros H. rewrite <- (insert_delete_id m c x H) at 1. apply arrs_insert, lookup_delete_eq.
Qed.
Lemma arrs_lookup {A} (f : A → run) m c x : m !! c = Some x → r_arr (f x) ∈ arrs f m.
Proof. intros H. rewrite (arrs_delete f m c x H). by left. Qed.

Lemma arrs_q_insert (Q : list (list run)) b q q' :
  Q !! b = Some q → (r_arr <$> q) ++ arrs_q (<[b := q']> Q) ≡ₚ (r_arr <$> q') ++ arrs_q Q.
Proof.
  intros H. unfold arrs_q. rewrite <- (take_drop_middle _ _ _ H) at 2.
  rewrite insert_take_drop by (by eapply lookup_lt_Some).
  rewrite !concat_app. cbn [concat]. rewrite !fmap_app.
  rewrite (Permutation_app_swap_app (r_arr <$> q)), (Permutation_app_swap_app (r_arr <$> q')).
  apply Permutation_app_head, Permutation_app_swap_app.
Qed.
Lemma arrs_q_lookup (Q : list (list run)) q r : q ∈ Q → r ∈ q → r_arr r ∈ arrs_q Q.
Proof.
  intros Hq Hr. apply list_elem_of_fmap. exists r. split; [done|].
  apply list_elem_of_In, in_concat. exists q. by rewrite <- !list_elem_of_In.
Qed.

(** ** Writing an array nobody owns *)

Lemma rep_write m a l r js : r_arr r ≠ a → rep m r js → rep (<[a := l]> m) r js.
Proof. intros Hne. unfold rep, contents. by rewrite lookup_insert_ne. Qed.

Lemma refines_write s t a l :
  refines s t → a ∉ owned s →
  refines (mkState (<[a := l]> (arrays s)) (pool s) (sessions s) (queues s) (held s) (out s)) t.
Proof.
  intros [H1 H2 H3 H4 H5 H6] Ha. unfold owned in Ha. rewrite !not_elem_of_app in Ha.
  destruct Ha as (_ & Hs & Hq & Hh). constructor; cbn; try done.
  - intros c. specialize (H1 c). destruct (sessions s !! c) as [r|] eqn:E; inversion H1; subst; constructor.
    apply rep_write; [|done]. intros <-. apply Hs. by apply (arrs_lookup (λ r, r) _ c).
  - assert (Hrep : ∀ q q', q ∈ queues s → Forall2 (rep (arrays s)) q q' → Forall2 (rep (<[a := l]> (arrays s))) q q').
    { intros q q' Hin HF. assert (∀ r, r ∈ q → r_arr r ≠ a) as Hne.
      { intros r Hr <-. by eapply Hq, arrs_q_lookup. }
      clear Hin. induction HF as [|r js q q' Hr _ IH]; constructor.
      - apply rep_write; [apply Hne; by left|done].
      - apply IH. intros r' Hr'. apply Hne. by right. }
    clear -H2 Hrep. induction H2 as [|q q' Q Q' Hqq _ IH]; constructor.
    + apply Hrep; [by left|done].
    + apply IH. intros p p' Hp. apply Hrep. by right.
  - intros b. specialize (H3 b). destruct (held s !! b) as [[r i]|] eqn:E; inversion H3 as [? [js k] [Hr Hk]|]; subst; constructor.
    split; [|done]. apply rep_write; [|done]. cbn. intros <-. apply Hh. by apply (arrs_lookup fst _ b (r, i)).
  - intros a' Ha'. apply dom_insert, elem_of_union. right. by apply H6.
Qed.

(** ** Taking a run in hand and putting it down *)

Definition set_sessions (m : gmap nat run) (s : state) : state :=
  mkState (arrays s) (pool s) m (queues s) (held s) (out s).

Lemma loose_perm s s' r js :
  arrays s' = arrays s → owned s ≡ₚ r_arr r :: owned s' → NoDup (owned s) →
  (∀ a, a ∈ owned s → a ∈ dom (arrays s)) → rep (arrays s) r js →
  loose r js s' ∧ NoDup (owned s') ∧ ∀ a, a ∈ owned s' → a ∈ dom (arrays s').
Proof.
  intros Ha Hp Hn Hd Hr. rewrite Hp in Hn. apply NoDup_cons in Hn as [Hni Hn].
  split_and!; [split_and!|done|].
  - by rewrite Ha.
  - done.
  - rewrite Ha. apply Hd. rewrite Hp. by left.
  - intros a Hin. rewrite Ha. apply Hd. rewrite Hp. by right.
Qed.

Lemma placed_perm s s' r js :
  arrays s' = arrays s → owned s' ≡ₚ r_arr r :: owned s → NoDup (owned s) →
  (∀ a, a ∈ owned s → a ∈ dom (arrays s)) → loose r js s →
  NoDup (owned s') ∧ ∀ a, a ∈ owned s' → a ∈ dom (arrays s').
Proof.
  intros Ha Hp Hn Hd (_ & Hni & Hdom). rewrite Hp. split; [by constructor|].
  intros a. rewrite Hp, Ha. intros [->|Hin]%elem_of_cons; [done|by apply Hd].
Qed.

Lemma perm_mid {A} (x : A) l1 l2 l2' l3 : l2 ≡ₚ x :: l2' → l1 ++ l2 ++ l3 ≡ₚ x :: l1 ++ l2' ++ l3.
Proof. intros ->. rewrite Permutation_middle. done. Qed.

Lemma take_session s t c r :
  refines s t → sessions s !! c = Some r →
  ∃ js, s_sessions t !! c = Some js ∧ loose r js (set_sessions (delete c (sessions s)) s) ∧
    refines (set_sessions (delete c (sessions s)) s) (mkSpec (delete c (s_sessions t)) (s_queues t) (s_held t) (s_out t)).
Proof.
  intros [H1 H2 H3 H4 H5 H6] Hc. pose proof (H1 c) as Hr. rewrite Hc in Hr. inversion Hr as [? js Hrep E1 E2|]; subst.
  exists js. split; [done|].
  assert (owned s ≡ₚ r_arr r :: owned (set_sessions (delete c (sessions s)) s)) as Hp.
  { unfold owned. cbn [pool sessions queues held set_sessions]. apply perm_mid. by apply (arrs_delete (λ r, r)). }
  destruct (loose_perm s (set_sessions (delete c (sessions s)) s) r js eq_refl Hp H5 H6 Hrep) as (Hl & Hn & Hd).
  split; [done|]. constructor; cbn; try done. intros c'. destruct (decide (c = c')) as [<-|Hne].
  - rewrite !lookup_delete_eq. constructor.
  - rewrite !lookup_delete_ne by done. apply H1.
Qed.

Lemma put_session s t c r js :
  refines s t → loose r js s → sessions s !! c = None →
  refines (set_sessions (<[c := r]> (sessions s)) s) (mkSpec (<[c := js]> (s_sessions t)) (s_queues t) (s_held t) (s_out t)).
Proof.
  intros [H1 H2 H3 H4 H5 H6] Hl Hc.
  destruct (placed_perm s (set_sessions (<[c := r]> (sessions s)) s) r js) as [Hn Hd]; [done| |done..|].
  { unfold owned. cbn [pool sessions queues held set_sessions]. apply perm_mid. by apply (arrs_insert (λ r, r)). }
  constructor; cbn; try done. intros c'. destruct (decide (c = c')) as [<-|Hne].
  - rewrite !lookup_insert_eq. constructor. apply Hl.
  - rewrite !lookup_insert_ne by done. apply H1.
Qed.

Definition set_queues (q : list (list run)) (s : state) : state :=
  mkState (arrays s) (pool s) (sessions s) q (held s) (out s).

Lemma queue_at s t b q :
  refines s t → queues s !! b = Some q → ∃ q', s_queues t !! b = Some q' ∧ Forall2 (rep (arrays s)) q q'.
Proof. intros [] Hq. by eapply Forall2_lookup_l in rf_queues0. Qed.
Lemma queue_none s t b : refines s t → queues s !! b = None → s_queues t !! b = None.
Proof.
  intros [] Hq. apply lookup_ge_None in Hq. apply lookup_ge_None. by rewrite <- (Forall2_length _ _ _ rf_queues0).
Qed.

Lemma put_queue s t b q q' r js :
  refines s t → loose r js s → queues s !! b = Some q → s_queues t !! b = Some q' →
  refines (set_queues (<[b := q ++ [r]]> (queues s)) s)
    (mkSpec (s_sessions t) (<[b := q' ++ [js]]> (s_queues t)) (s_held t) (s_out t)).
Proof.
  intros Href Hl Hq Hq'. pose proof Href as [H1 H2 H3 H4 H5 H6].
  destruct (placed_perm s (set_queues (<[b := q ++ [r]]> (queues s)) s) r js) as [Hn Hd]; [done| |done..|].
  { unfold owned. cbn [pool sessions queues held set_queues]. rewrite !(assoc (++) (pool s)). apply perm_mid.
    apply (Permutation_app_inv_l (r_arr <$> q)). rewrite arrs_q_insert by done.
    rewrite fmap_app, <- app_assoc. done. }
  constructor; cbn; try done. apply Forall2_insert; [done|].
  destruct (queue_at s t b q Href Hq) as (q'' & E & HF). rewrite Hq' in E. injection E as <-.
  apply Forall2_app; [done|]. constructor; [apply Hl|constructor].
Qed.

Lemma take_queue s t b r q :
  refines s t → queues s !! b = Some (r :: q) →
  ∃ js q', s_queues t !! b = Some (js :: q') ∧ loose r js (set_queues (<[b := q]> (queues s)) s) ∧
    refines (set_queues (<[b := q]> (queues s)) s)
      (mkSpec (s_sessions t) (<[b := q']> (s_queues t)) (s_held t) (s_out t)).
Proof.
  intros Href Hq. pose proof Href as [H1 H2 H3 H4 H5 H6].
  destruct (queue_at s t b _ Href Hq) as (q'' & E & HF). inversion HF as [|? js ? q' Hrep HF' E1 E2]; subst.
  exists js, q'. split; [done|].
  assert (owned s ≡ₚ r_arr r :: owned (set_queues (<[b := q]> (queues s)) s)) as Hp.
  { unfold owned. cbn [pool sessions queues held set_queues]. rewrite !(assoc (++) (pool s)). apply perm_mid.
    apply (Permutation_app_inv_l (r_arr <$> q)). rewrite <- (arrs_q_insert _ b _ _ Hq).
    cbn [fmap list_fmap app]. by rewrite Permutation_middle. }
  destruct (loose_perm s (set_queues (<[b := q]> (queues s)) s) r js eq_refl Hp H5 H6 Hrep) as (Hl & Hn & Hd).
  split; [done|]. constructor; cbn; try done. by apply Forall2_insert.
Qed.

Definition set_held (h : gmap nat (run * nat)) (s : state) : state :=
  mkState (arrays s) (pool s) (sessions s) (queues s) h (out s).

Lemma perm_last {A} (x : A) l1 l2 l3 l4 l4' :
  l4 ≡ₚ x :: l4' → l1 ++ l2 ++ l3 ++ l4 ≡ₚ x :: l1 ++ l2 ++ l3 ++ l4'.
Proof. intros ->. rewrite <- !Permutation_middle. done. Qed.

Lemma put_held s t b r js :
  refines s t → loose r js s → held s !! b = None →
  refines (set_held (<[b := (r, 0%nat)]> (held s)) s)
    (mkSpec (s_sessions t) (s_queues t) (<[b := (js, 0%nat)]> (s_held t)) (s_out t)).
Proof.
  intros [H1 H2 H3 H4 H5 H6] Hl Hb.
  destruct (placed_perm s (set_held (<[b := (r, 0%nat)]> (held s)) s) r js) as [Hn Hd]; [done| |done..|].
  { unfold owned. cbn [pool sessions queues held set_held]. apply perm_last. by apply (arrs_insert fst). }
  constructor; cbn; try done. intros b'. destruct (decide (b = b')) as [<-|Hne].
  - rewrite !lookup_insert_eq. constructor. split; [apply Hl|done].
  - rewrite !lookup_insert_ne by done. apply H3.
Qed.

Lemma take_held s t b r i :
  refines s t → held s !! b = Some (r, i) →
  ∃ js, s_held t !! b = Some (js, i) ∧ loose r js (set_held (delete b (held s)) s) ∧
    refines (set_held (delete b (held s)) s) (mkSpec (s_sessions t) (s_queues t) (delete b (s_held t)) (s_out t)).
Proof.
  intros [H1 H2 H3 H4 H5 H6] Hb. pose proof (H3 b) as Hr. rewrite Hb in Hr.
  inversion Hr as [? [js k] [Hrep Hk] E1 E2|]; cbn in *; subst. exists js. split; [done|].
  assert (owned s ≡ₚ r_arr r :: owned (set_held (delete b (held s)) s)) as Hp.
  { unfold owned. cbn [pool sessions queues held set_held]. apply perm_last. by apply (arrs_delete fst _ b (r, k)). }
  destruct (loose_perm s (set_held (delete b (held s)) s) r js eq_refl Hp H5 H6 Hrep) as (Hl & Hn & Hd).
  split; [done|]. constructor; cbn; try done. intros b'. destruct (decide (b = b')) as [<-|Hne].
  - rewrite !lookup_delete_eq. constructor.
  - rewrite !lookup_delete_ne by done. apply H3.
Qed.

(** ** The pool, [append] and [alloc] on a run in hand *)

Lemma alloc_loose l js spare s t :
  refines s t → l = (Some <$> js) ++ replicate spare None →
  let '(a, s') := alloc l s in loose (mkRun a (length js)) js s' ∧ refines s' t.
Proof.
  intros Hr ->. unfold alloc. set (a := fresh (dom (arrays s))).
  assert (a ∉ owned s) as Ha by (intros Hin%(rf_dom _ _ Hr); by apply (is_fresh (dom (arrays s)))).
  split; [|by apply refines_write]. split_and!; [|done|].
  - unfold rep, contents. cbn [r_arr r_len arrays]. rewrite lookup_insert_eq. cbn [default].
    split; [|done]. apply take_app_length'. by rewrite length_fmap.
  - cbn [arrays]. apply dom_insert, elem_of_union. left. cbn. by apply elem_of_singleton.
Qed.

Lemma append_loose spare r js j s t :
  refines s t → loose r js s →
  let '(r', s') := append spare r j s in loose r' (js ++ [j]) s' ∧ refines s' t.
Proof.
  intros Hr ([Hc Hlen] & Ho & Hd). unfold append, contents in *. set (l := default [] (arrays s !! r_arr r)) in *.
  assert (length (js ++ [j]) = S (r_len r)) as Hl' by (rewrite length_app; cbn; lia).
  destruct (Nat.ltb_spec (r_len r) (length l)) as [Hlt|Hge].
  - split; [|by apply refines_write]. split_and!; [|done|].
    + unfold rep, contents. cbn [r_arr r_len arrays]. rewrite lookup_insert_eq. cbn [default]. split; [|done].
      rewrite fmap_app, <- Hc. cbn [fmap list_fmap].
      rewrite (take_S_r _ _ (Some j)) by (apply list_lookup_insert_eq; lia). f_equal. by apply take_insert_ge.
    + cbn [arrays]. apply dom_insert, elem_of_union. right. done.
  - pose proof (alloc_loose (take (r_len r) l ++ [Some j] ++ replicate spare None) (js ++ [j]) spare s t Hr) as H.
    destruct (alloc _ s) as [a s']. rewrite Hl' in H. apply H.
    rewrite fmap_app, <- Hc, <- app_assoc. done.
Qed.

Lemma getJobs_loose pick s t :
  refines s t →
  match getJobs pick s with
  | Some (r, s') => loose r [] s' ∧ refines s' t ∧ sessions s' = sessions s
  | None => ∃ i, pick = Some i ∧ pool s !! i = None
  end.
Proof.
  intros Hr. unfold getJobs. destruct pick as [i|].
  - destruct (pool s !! i) as [a|] eqn:E; cbn; [|by exists i].
    set (s' := mkState (arrays s) (delete i (pool s)) (sessions s) (queues s) (held s) (out s)).
    destruct (loose_perm s s' (mkRun a 0) []) as (Hl & Hn & Hd); [done| |apply Hr|apply Hr|done|].
    { unfold owned, s'. cbn [pool sessions queues held r_arr]. apply (Permutation_app_tail _ (delete_Permutation (pool s) i a E)). }
    split_and!; [done| |done]. destruct Hr. by constructor.
  - pose proof (alloc_loose (replicate batchCap None) [] batchCap s t Hr eq_refl) as H.
    destruct (alloc _ s) as [a s'] eqn:E. destruct H as [H1 H2]. split_and!; [done..|].
    unfold alloc in E. by injection E as <- <-.
Qed.

Lemma putJobs_loose r js s t : refines s t → loose r js s → refines (putJobs r s) t.
Proof.
  intros Hr (Hrep & Ho & Hd). unfold putJobs. destruct (_ <? _)%nat; [done|]. cbv zeta.
  set (l := replicate (r_len r) None ++ _).
  pose proof (refines_write s t (r_arr r) l Hr Ho) as [H1 H2 H3 H4 H5 H6].
  constructor; cbn in *; try done.
  - constructor; [|done]. exact Ho.
  - intros a Ha. rewrite elem_of_cons in Ha. destruct Ha as [->|Ha]; [|by apply H6].
    apply dom_insert, elem_of_union. left. by apply elem_of_singleton.
Qed.

(** ** The steps *)

(** [append] looks at the arrays alone. *)
Lemma append_sessions spare r j m s :
  append spare r j (set_sessions m s) = (fst (append spare r j s), set_sessions m (snd (append spare r j s))).
Proof. unfold append. cbn [arrays set_sessions]. by destruct (_ <? _)%nat. Qed.

Lemma append_keeps spare r j s : sessions (snd (append spare r j s)) = sessions s.
Proof. unfold append. by destruct (_ <? _)%nat. Qed.

(** A choice of a pooled array that is not there. *)
Definition bad_pick (s : state) (e : event) : Prop :=
  ∃ c j i spare, e = EAdd c j (Some i) spare ∧ pool s !! i = None.

Definition together (s : state) (e : event) (o : option state) (o' : option spec) : Prop :=
  match o, o' with
  | Some s', Some t' => refines s' t'
  | None, None => True
  | None, Some _ => bad_pick s e
  | Some _, None => False
  end.

Lemma add_together s t c j pick spare :
  refines s t → together s (EAdd c j pick spare) (Add c j pick spare s) (spec_step t (EAdd c j pick spare)).
Proof.
  intros Hr. unfold Add. cbn [spec_step together].
  destruct (sessions s !! c) as [r|] eqn:Ec.
  - destruct (take_session s t c r Hr Ec) as (js & Hjs & Hl & Hr'). rewrite Hjs. cbn [default].
    pose proof (append_loose spare r js j _ _ Hr' Hl) as H. rewrite append_sessions in H.
    pose proof (append_keeps spare r j s) as Hk.
    destruct (append spare r j s) as [r' s']. cbn [fst snd] in *. destruct H as [Hl2 Hr2].
    pose proof (put_session _ _ c r' _ Hr2 Hl2 (lookup_delete_eq _ _)) as Hp.
    unfold set_sessions in Hp. cbn in Hp. rewrite !insert_delete_eq in Hp. by rewrite Hk.
  - pose proof (getJobs_loose pick s t Hr) as Hg. destruct (getJobs pick s) as [[r s1]|].
    + destruct Hg as (Hl & Hr1 & Hs1). assert (s_sessions t !! c = None) as ->.
      { pose proof (rf_sessions _ _ Hr c) as H. rewrite Ec in H. by inversion H. }
      cbn [default app]. pose proof (append_loose spare r [] j s1 t Hr1 Hl) as H.
      pose proof (append_keeps spare r j s1) as Hk.
      destruct (append spare r j s1) as [r' s']. cbn [fst snd] in *. destruct H as [Hl2 Hr2].
      apply (put_session s' t c r' [j] Hr2 Hl2). by rewrite Hk, Hs1.
    + destruct Hg as (i & -> & Hi). by exists c, j, i, spare.
Qed.

Lemma flush_together s t c b sent :
  refines s t → together s (EFlush c b sent) (Flush c b sent s) (spec_step t (EFlush c b sent)).
Proof.
  intros Hr. unfold Flush. cbn [spec_step together]. destruct (sessions s !! c) as [r|] eqn:Ec.
  - destruct (take_session s t c r Hr Ec) as (js & Hjs & Hl & Hr'). rewrite Hjs.
    pose proof Hl as ([_ Hlen] & _). rewrite Hlen. destruct (length js =? 0)%nat; [done|].
    destruct sent; [|done]. destruct (queues s !! b) as [q|] eqn:Eq; cbn [mbind option_bind].
    + destruct (queue_at s t b q Hr Eq) as (q' & Eq' & _). rewrite Eq'. cbn.
      by apply (put_queue _ _ b q q' r js Hr' Hl).
    + by rewrite (queue_none s t b Hr Eq).
  - pose proof (rf_sessions _ _ Hr c) as H. rewrite Ec in H. by inversion H.
Qed.

Lemma enqueue_together s t b j :
  refines s t → together s (EEnqueue b j) (EnqueueOwned b j s) (spec_step t (EEnqueue b j)).
Proof.
  intros Hr. unfold EnqueueOwned. pose proof (alloc_loose [Some j] [j] 0 s t Hr eq_refl) as H.
  destruct (alloc [Some j] s) as [a s1]. destruct H as [Hl Hr1]. cbn [spec_step together].
  destruct (queues s1 !! b) as [q|] eqn:Eq; cbn [mbind option_bind].
  - destruct (queue_at s1 t b q Hr1 Eq) as (q' & Eq' & _). rewrite Eq'. cbn.
    by apply (put_queue _ _ b q q' (mkRun a 1) [j] Hr1 Hl).
  - by rewrite (queue_none s1 t b Hr1 Eq).
Qed.

Lemma receive_together s t b :
  refines s t → together s (EReceive b) (Receive b s) (spec_step t (EReceive b)).
Proof.
  intros Hr. unfold Receive. cbn [spec_step together].
  pose proof (rf_held _ _ Hr b) as Hh. destruct (held s !! b) as [[r i]|] eqn:Eh.
  { inversion Hh. by destruct (queues s !! b) as [[]|]. }
  inversion Hh. destruct (queues s !! b) as [[|r q]|] eqn:Eq.
  - destruct (queue_at s t b [] Hr Eq) as (q' & -> & HF). by inversion HF.
  - destruct (take_queue s t b r q Hr Eq) as (js & q' & -> & Hl & Hr'). by apply (put_held _ _ b r js Hr' Hl).
  - by rewrite (queue_none s t b Hr Eq).
Qed.

Lemma read_together s t b :
  refines s t → together s (ERead b) (Read b s) (spec_step t (ERead b)).
Proof.
  intros Hr. unfold Read. cbn [spec_step together].
  pose proof Hr as [H1 H2 H3 H4 H5 H6]. pose proof (H3 b) as Hh.
  destruct (held s !! b) as [[r i]|] eqn:Eh; [|by inversion Hh].
  destruct (s_held t !! b) as [[js k]|]; [|by inversion Hh]. cbn [mbind option_bind].
  inversion Hh as [? ? [[Hc Hlen] Hk] E1 E2|]; subst. cbn [fst snd] in *. subst i. rewrite Hlen. destruct (Nat.ltb_spec k (length js)) as [Hlt|]; [|done].
  constructor; cbn; try done.
  - intros b'. destruct (decide (b = b')) as [<-|Hne].
    + rewrite !lookup_insert_eq. constructor. done.
    + rewrite !lookup_insert_ne by done. apply H3.
  - rewrite H4. do 3 f_equal. unfold contents in Hc.
    rewrite <- (lookup_take_lt _ (r_len r)) by lia. rewrite Hc, list_lookup_fmap. by destruct (js !! k).
  - unfold owned in *. cbn in *. rewrite (arrs_delete fst _ b (r, k) Eh) in H5.
    by rewrite <- insert_delete_eq, (arrs_insert fst) by apply lookup_delete_eq.
  - intros a. unfold owned in *. cbn in *. rewrite <- insert_delete_eq, (arrs_insert fst) by apply lookup_delete_eq.
    cbn [fst]. specialize (H6 a). by rewrite (arrs_delete fst _ b (r, k) Eh) in H6.
Qed.

Lemma done_together s t b back :
  refines s t → together s (EDone b back) (Done b back s) (spec_step t (EDone b back)).
Proof.
  intros Hr. unfold Done. cbn [spec_step together].
  destruct (held s !! b) as [[r i]|] eqn:Eh; cbn [mbind option_bind].
  - destruct (take_held s t b r i Hr Eh) as (js & Hjs & Hl & Hr'). rewrite Hjs. cbn [mbind option_bind].
    pose proof Hl as ([_ Hlen] & _). rewrite Hlen. destruct (i =? length js)%nat; [|done].
    destruct back; [|done]. pose proof (putJobs_loose r js _ _ Hr' Hl) as Hp. unfold putJobs, cap in *.
    cbn [arrays set_held] in Hp. by destruct (_ <? _)%nat.
  - pose proof (rf_held _ _ Hr b) as H. rewrite Eh in H. by inversion H.
Qed.

Lemma step_together s t e : refines s t → together s e (step s e) (spec_step t e).
Proof.
  intros Hr. destruct e; cbn [step].
  - by apply add_together.
  - by apply flush_together.
  - by apply enqueue_together.
  - by apply receive_together.
  - by apply read_together.
  - by apply done_together.
  - cbn. destruct Hr as [H1 H2 H3 H4 H5 H6]. unfold owned in *.
    assert (delete i (pool s) `sublist_of` pool s) as Hsub by apply sublist_delete.
    constructor; cbn; try done.
    + eapply sublist_NoDup; [exact H5|]. by apply sublist_app.
    + intros a Ha. apply H6. revert Ha. rewrite !elem_of_app. intros [Ha|Ha]; [|by right]. left.
      apply elem_of_submseteq with (delete i (pool s)); [done|by apply sublist_submseteq].
Qed.

(** ** Theorem *)

Fixpoint runs {S} (f : S → event → option S) (es : list event) (s : S) : option S :=
  match es with [] => Some s | e :: es => match f s e with Some s' => runs f es s' | None => None end end.

Lemma init_refines n : refines (init n) (spec_init n).
Proof.
  assert (owned (init n) = []) as Ho.
  { unfold owned, arrs, arrs_q. cbn. rewrite !map_to_list_empty. cbn. rewrite app_nil_r.
    induction n as [|n IH]; [done|exact IH]. }
  constructor.
  - intros c. cbn. rewrite !lookup_empty. constructor.
  - by apply Forall2_replicate.
  - intros b. cbn. rewrite !lookup_empty. constructor.
  - done.
  - rewrite Ho. constructor.
  - rewrite Ho. by intros a Ha%not_elem_of_nil.
Qed.

Lemma runs_together es s t :
  refines s t →
  match runs step es s, runs spec_step es t with
  | Some s', Some t' => refines s' t'
  | None, Some _ => ∃ c j i spare, EAdd c j (Some i) spare ∈ es
  | None, None => True
  | Some _, None => False
  end.
Proof.
  revert s t. induction es as [|e es IH]; intros s t Hr; [done|]. cbn [runs].
  pose proof (step_together s t e Hr) as H. unfold together in H.
  destruct (step s e) as [s'|], (spec_step t e) as [t'|]; try done.
  - specialize (IH s' t' H). destruct (runs step es s'), (runs spec_step es t'); try done.
    destruct IH as (c & j & i & spare & Hin). exists c, j, i, spare. by right.
  - destruct H as (c & j & i & spare & -> & _). destruct (runs spec_step es t'); [|done].
    exists c, j, i, spare. left.
Qed.

Lemma spec_reads es t t' :
  runs spec_step es t = Some t' → Forall (λ o, is_Some (snd o)) (s_out t) → Forall (λ o, is_Some (snd o)) (s_out t').
Proof.
  revert t. induction es as [|e es IH]; intros t; cbn [runs]; [by intros [= <-]|].
  destruct (spec_step t e) as [u|] eqn:E; [|done]. intros Hr Ht. apply (IH u Hr). clear IH Hr.
  destruct e as [c j p sp|c b sent|b j|b|b|b back|i]; cbn [spec_step] in E; try (by injection E as <-).
  - destruct (s_sessions t !! c); [|by injection E as <-]. destruct (_ =? 0)%nat; [by injection E as <-|].
    destruct sent; [|by injection E as <-]. destruct (s_queues t !! b); [by injection E as <-|done].
  - destruct (s_queues t !! b); [by injection E as <-|done].
  - destruct (s_held t !! b); [done|]. destruct (s_queues t !! b) as [[]|]; [done|by injection E as <-|done].
  - destruct (s_held t !! b) as [[js i]|]; [|done]. cbn [mbind option_bind] in E.
    destruct (Nat.ltb_spec i (length js)) as [Hlt|]; [|done]. injection E as <-. cbn [s_out].
    apply list.Forall_app. split; [done|]. constructor; [|constructor]. by apply lookup_lt_is_Some_2.
  - destruct (s_held t !! b) as [[js i]|]; [|done]. cbn [mbind option_bind] in E.
    destruct (_ =? _)%nat; [by injection E as <-|done].
Qed.

(** C23: The pool of runs cannot be observed. However sessions fill and flush
    their runs, builders take, read and return them, and the runtime hands
    pooled arrays out or drops them, interleaved in any way: what each builder
    reads, and every run a session, a queue or a builder holds, is what it
    would be if each run were a fresh list of its own; no array ever has two
    owners, and no builder reads a cleared slot. Nor does the pool make a step
    impossible: without a choice of a pooled array the two runs succeed
    together. *)
Theorem pooled_runs_private (builders : nat) (es : list event) :
  (∀ s, runs step es (init builders) = Some s →
     ∃ t, runs spec_step es (spec_init builders) = Some t ∧ out s = s_out t ∧ refines s t ∧
       Forall (λ o, is_Some (snd o)) (out s)) ∧
  ((∀ c j i spare, EAdd c j (Some i) spare ∉ es) →
     is_Some (runs spec_step es (spec_init builders)) → is_Some (runs step es (init builders))).
Proof.
  pose proof (runs_together es _ _ (init_refines builders)) as H. split.
  - intros s Hs. rewrite Hs in H. destruct (runs spec_step es (spec_init builders)) as [t|] eqn:E; [|done].
    exists t. split_and!; [done|apply H|done|]. rewrite (rf_out _ _ H). by apply (spec_reads es _ _ E).
  - intros Hp [t Ht]. rewrite Ht in H. destruct (runs step es (init builders)) as [s|]; [by exists s|].
    destruct H as (c & j & i & spare & Hin). by apply Hp in Hin.
Qed.

(** ** Witness: an array used twice, by two sessions *)

Definition jp_job (b : byte) : job := mkJob [b] (copy32 [b]).
Definition jp_events : list event :=
  [EAdd 1 (jp_job x01) None 0; EAdd 1 (jp_job x02) None 0; EFlush 1 0 true; EReceive 0; ERead 0;
   EAdd 2 (jp_job x03) None 0; ERead 0; EDone 0 true; EAdd 1 (jp_job x04) (Some 0%nat) 0; EFlush 2 0 true;
   EFlush 1 0 true; EReceive 0; ERead 0; EDone 0 true; EReceive 0; ERead 0; EDone 0 false].

Definition jp_out : list (nat * option job) :=
  (λ b, (0%nat, Some (jp_job b))) <$> [x01; x02; x03; x04].

Lemma pooled_runs_private_witness :
  ∃ s, runs step jp_events (init 1) = Some s ∧ Forall (λ o, is_Some (snd o)) (out s).
Proof.
  destruct (runs step jp_events (init 1)) as [s|] eqn:E; [|vm_compute in E; discriminate E].
  exists s. split; [reflexivity|].
  destruct (proj1 (pooled_runs_private 1 jp_events) s E) as (t & _ & _ & _ & H). exact H.
Defined.

Example jp_reads : option_map out (runs step jp_events (init 1)) = Some jp_out.
Proof. vm_compute. reflexivity. Qed.
