(* ===== verification/PropLoad.v ===== *)
(** * propload: the propagation load generator

    [src/hack/propbench/propload/main.go]: goroutines that post batches of
    made-up transactions to the propagation endpoint and count what the server
    answers. A goroutine's counter starts at its number shifted left by 40, so
    that no two transactions of a run are alike; the theorems say when that
    holds, that each one is a whole transaction to the walk of the pipe, and
    that the tallies add up. The goroutines' requests are interleaved as a list
    of answers; [None] is a request that failed. *)

From Stdlib Require Import Strings.Byte.
From stdpp Require Import base list strings numbers gmap sorting pretty.
From S2P Require Import Prelude HashId Encode TxWire TxBuild Submit TnBench.
Import txwire tnbench.

Module propload.
(** The fixed fields of the 70 bytes. *)
Definition template : list byte :=
  foldl (λ tx '(i, v), <[i := v]> tx) (replicate 70 x00)
    [(0, x01); (4, x01); (41, x09); (51, xff); (52, xff); (53, xff); (54, xff);
     (55, x01); (56, x01); (64, x01); (65, x51)]%nat.

Definition tx (ctr : Z) : list byte := put 42 (le_bytes 8 ctr) (put 5 (le_bytes 8 ctr) template).

(** The inner loop: the transactions of a request and the counter after it. *)
Fixpoint fill (per : nat) (ctr : Z) : list (list byte) * Z :=
  match per with
  | O => ([], ctr)
  | S per =>
      let ctr := u64 (ctr + 1) in
      let '(l, c) := fill per ctr in (tx ctr :: l, c)
  end.

(** [statusCounts]. *)
Definition add (code : Z) (m : gmap Z Z) : gmap Z Z := <[code := u64 (default 0 (m !! code) + 1)]> m.
Definition part (m : gmap Z Z) (c : Z) : gostring :=
  str (pretty c) ++ str "=" ++ str (pretty (default 0 (m !! c))).
Definition String_ (m : gmap Z Z) : gostring :=
  let codes := merge_sort (≤) (fst <$> map_to_list m) in
  if bool_decide (codes = []) then str "none" else join_on x20 (part m <$> codes).

Record state : Type := mkState {
  ctrs : list Z; ok : Z; bad : Z; txs : Z; byStatus : gmap Z Z; posted : list (list (list byte))
}.

(** [ctr := uint64(cid) << 40]. *)
Definition start (conns : nat) : state :=
  mkState ((λ cid, u64 (Z.shiftl (Z.of_nat cid) 40)) <$> seq 0 conns) 0 0 0 ∅ [].

(** One iteration of goroutine [cid]'s loop, given the answer's status. *)
Definition round (per : nat) (s : state) (req : nat * option Z) : state :=
  let '(cid, resp) := req in
  match ctrs s !! cid with
  | None => s
  | Some ctr =>
      let '(l, ctr) := fill per ctr in
      let s := mkState (<[cid := ctr]> (ctrs s)) (ok s) (bad s) (txs s) (byStatus s) (posted s ++ [l]) in
      match resp with
      | None => mkState (ctrs s) (ok s) (u64 (bad s + 1)) (txs s) (byStatus s) (posted s)
      | Some code =>
          if code =? 200
          then mkState (ctrs s) (u64 (ok s + 1)) (bad s) (u64 (txs s + Z.of_nat per)) (add code (byStatus s)) (posted s)
          else mkState (ctrs s) (ok s) (u64 (bad s + 1)) (txs s) (add code (byStatus s)) (posted s)
      end
  end.
Definition load (per conns : nat) (reqs : list (nat * option Z)) : state := foldl (round per) (start conns) reqs.
End propload.

Import propload.

(** ** A transaction *)

Definition pl_prev (ctr : Z) : Hash := copy32 (le_bytes 8 ctr).
Definition pl_in (ctr : Z) : txin :=
  mkTxin (pl_prev ctr) (replicate 4 x00) (le_bytes 8 ctr ++ [x00]) (replicate 4 xff) (replicate 8 x00) [].
Definition pl_rest : list byte := [x01; x01] ++ replicate 7 x00 ++ [x01; x51] ++ replicate 4 x00.

Lemma tx_ser ctr : tx ctr = ser_tx false (x01 :: replicate 3 x00) [pl_in ctr] pl_rest.
Proof.
  unfold ser_tx. rewrite bind_cons, bind_nil. unfold ser_in, var_bytes, pl_in. cbn [in_prev in_index in_script in_seq].
  assert (hbytes (pl_prev ctr) = le_bytes 8 ctr ++ replicate 24 x00) as ->.
  { change (hbytes (pl_prev ctr)) with (resize 32 x00 (le_bytes 8 ctr)).
    by rewrite resize_ge by (rewrite length_le_bytes; lia). }
  rewrite length_app, length_le_bytes. unfold tx.
  set (b := le_bytes 8 ctr). assert (Lb : length b = 8%nat) by apply length_le_bytes.
  change template with ((x01 :: replicate 3 x00 ++ [x01]) ++ replicate 8 x00 ++
    (replicate 28 x00 ++ [x09]) ++ replicate 8 x00 ++ x00 :: replicate 4 xff ++ pl_rest).
  rewrite put_app by (rewrite ?Lb; done). rewrite (app_assoc _ b), (app_assoc _ (replicate 28 x00 ++ [x09])).
  rewrite put_app by (rewrite ?length_app, ?Lb; done). rewrite <- !app_assoc. reflexivity.
Qed.

Lemma length_tx ctr : length (tx ctr) = 70%nat.
Proof.
  rewrite tx_ser. unfold ser_tx. rewrite bind_cons, bind_nil. unfold ser_in, var_bytes, pl_in.
  cbn [in_prev in_index in_script in_seq]. rewrite !length_app, hash_length, length_le_bytes. reflexivity.
Qed.

Lemma tx_refs ctr : refs (tx ctr) = [pl_prev ctr] ∧ walkable (tx ctr) = true.
Proof.
  rewrite tx_ser. apply (refs_ser false (x01 :: replicate 3 x00) [pl_in ctr] pl_rest); [done..| |].
  - by repeat constructor.
  - unfold fits. rewrite <- tx_ser, length_tx. done.
Qed.

(** The counter can be read back. *)
Lemma tx_inj a b : 0 ≤ a < two64 → 0 ≤ b < two64 → tx a = tx b → a = b.
Proof.
  intros Ha Hb E. assert (take 8 (drop 42 (tx a)) = take 8 (drop 42 (tx b))) as E' by (by rewrite E).
  assert (∀ z, take 8 (drop 42 (tx z)) = le_bytes 8 z) as Ht.
  { intros z. unfold tx, put. rewrite drop_app_length'.
    - by rewrite take_app_length' by (by rewrite length_le_bytes).
    - rewrite !length_take, !length_app, length_take, length_drop, length_le_bytes. reflexivity. }
  rewrite !Ht in E'. apply (f_equal le_val) in E'. rewrite !le_val_bytes in E'.
  change (256 ^ Z.of_nat 8) with two64 in E'. by rewrite !Z.mod_small in E'.
Qed.

(** ** A request *)

Lemma fill_spec per ctr :
  0 ≤ ctr → ctr + Z.of_nat per < two64 →
  fill per ctr = (tx <$> seqZ (ctr + 1) (Z.of_nat per), ctr + Z.of_nat per).
Proof.
  revert ctr. induction per as [|per IH]; intros ctr H0 Hm; [by rewrite Z.add_0_r|]. cbn [fill].
  assert (u64 (ctr + 1) = ctr + 1) as -> by (apply Z.mod_small; lia).
  rewrite IH by lia. rewrite (seqZ_cons (ctr + 1)) by lia. cbn [fmap list_fmap].
  f_equal; [|lia]. f_equal. f_equal. f_equal; lia.
Qed.

(** ** A run *)

Definition reqs_of (c : nat) (reqs : list (nat * option Z)) : Z := zlen (filter (λ r, fst r = c) reqs).
Definition base (c : nat) : Z := Z.of_nat c * 2 ^ 40.

(** The counters a run has used. *)
Definition used (per : nat) (conns : nat) (reqs : list (nat * option Z)) (z : Z) : Prop :=
  ∃ c, (c < conns)%nat ∧ base c < z ≤ base c + Z.of_nat per * reqs_of c reqs.

Lemma reqs_of_snoc c reqs r : reqs_of c (reqs ++ [r]) = reqs_of c reqs + if decide (fst r = c) then 1 else 0.
Proof.
  unfold reqs_of. rewrite filter_app, length_app. case_decide.
  - rewrite filter_cons_True by done. cbn. lia.
  - rewrite filter_cons_False by done. cbn. lia.
Qed.

Record sent_inv (per conns : nat) (reqs : list (nat * option Z)) (s : state) : Prop := {
  si_len : length (ctrs s) = conns;
  si_ctr : ∀ c, (c < conns)%nat → ctrs s !! c = Some (base c + Z.of_nat per * reqs_of c reqs);
  si_sent : ∃ zs, concat (posted s) = tx <$> zs ∧ NoDup zs ∧ Forall (used per conns reqs) zs
}.

Section run.
Context (per conns : nat) (Hc : Z.of_nat conns ≤ 2 ^ 24).

Lemma round_fields s c resp l ctr :
  ctrs s !! c = Some ctr → fill per ctr = (l, ctr + Z.of_nat per) →
  ctrs (round per s (c, resp)) = <[c := ctr + Z.of_nat per]> (ctrs s) ∧ posted (round per s (c, resp)) = posted s ++ [l].
Proof. intros Hk Hf. unfold round. rewrite Hk, Hf. destruct resp as [code|]; [destruct (code =? 200)|]; done. Qed.

Lemma start_sent_inv : sent_inv per conns [] (start conns).
Proof.
  constructor.
  - unfold start. cbn. by rewrite length_fmap, length_seq.
  - intros c Hlt. unfold start. cbn [ctrs]. rewrite list_lookup_fmap, lookup_seq_lt by done. cbn. f_equal.
    rewrite Z.shiftl_mul_pow2 by lia. unfold base, reqs_of. cbn. unfold u64. rewrite Z.mod_small; [lia|].
    unfold two64. lia.
  - exists []. split_and!; [done|constructor|constructor].
Qed.

Lemma round_inv reqs s c resp :
  sent_inv per conns reqs s → (c < conns)%nat →
  (∀ c', Z.of_nat per * reqs_of c' (reqs ++ [(c, resp)]) < 2 ^ 40) →
  sent_inv per conns (reqs ++ [(c, resp)]) (round per s (c, resp)).
Proof.
  intros [Hl Hk (zs & Hs & Hn & Hu)] Hlt Hall. pose proof (Hall c) as Hp. rewrite reqs_of_snoc in Hp. cbn [fst] in Hp.
  rewrite decide_True in Hp by done.
  assert (0 ≤ reqs_of c reqs) by (unfold reqs_of; lia).
  set (ctr := base c + Z.of_nat per * reqs_of c reqs) in *.
  assert (0 ≤ ctr) by (unfold ctr, base; nia).
  assert (ctr + Z.of_nat per < two64) as Hb by (unfold ctr, base, two64; lia).
  destruct (round_fields s c resp _ _ (Hk c Hlt) (fill_spec per ctr ltac:(done) Hb)) as [Ec Ep].
  assert (Hmono : ∀ z, used per conns reqs z → used per conns (reqs ++ [(c, resp)]) z).
  { intros z (c' & Hc' & Hz). exists c'. split; [done|]. rewrite reqs_of_snoc. case_decide; lia. }
  constructor.
  - by rewrite Ec, length_insert.
  - intros c' Hc'. rewrite Ec, reqs_of_snoc. cbn [fst]. destruct (decide (c = c')) as [<-|Hne].
    + rewrite list_lookup_insert_eq by lia. f_equal. unfold ctr. lia.
    + rewrite list_lookup_insert_ne by done. rewrite Hk by done. f_equal. lia.
  - exists (zs ++ seqZ (ctr + 1) (Z.of_nat per)). rewrite Ep, concat_app, Hs, fmap_app. cbn [concat].
    rewrite app_nil_r. split_and!; [done| |].
    + apply NoDup_app. split_and!; [done| |apply NoDup_seqZ].
      intros z Hz Hin%elem_of_seqZ. rewrite list.Forall_forall in Hu. destruct (Hu z Hz) as (c' & Hc' & Hb').
      assert (0 ≤ reqs_of c' reqs) by (unfold reqs_of; lia).
      destruct (decide (c = c')) as [<-|Hne]; [unfold ctr in Hin; lia|].
      specialize (Hall c'). rewrite reqs_of_snoc in Hall. cbn [fst] in Hall. rewrite decide_False in Hall by done.
      unfold ctr, base in *. lia.
    + apply list.Forall_app. split; [by apply (list.Forall_impl _ _ _ Hu)|].
      apply list.Forall_forall. intros z Hin%elem_of_seqZ. exists c. split; [done|].
      rewrite reqs_of_snoc. cbn [fst]. rewrite decide_True by done. unfold ctr in Hin. lia.
Qed.

Lemma load_inv reqs :
  Forall (λ r, (fst r < conns)%nat) reqs → (∀ c, Z.of_nat per * reqs_of c reqs < 2 ^ 40) →
  sent_inv per conns reqs (load per conns reqs).
Proof.
  unfold load. induction reqs as [|[c resp] reqs IH] using rev_ind; intros Hv Hp; [apply start_sent_inv|].
  apply list.Forall_app in Hv as [Hv Hv1]. apply list.Forall_cons in Hv1 as [Hv1 _]. rewrite foldl_app. cbn [foldl].
  apply round_inv; [|exact Hv1|exact Hp]. apply IH; [done|]. intros c'. specialize (Hp c'). rewrite reqs_of_snoc in Hp.
  case_decide; lia.
Qed.

End run.

Section tallies.
Context (per conns : nat).

(** The tallies, by the answers. *)
Definition answers (P : option Z → bool) (reqs : list (nat * option Z)) : Z :=
  zlen (filter (λ r, P (snd r) = true) reqs).
Definition is_code (code : Z) (r : option Z) : bool := bool_decide (r = Some code).

Lemma answers_snoc P reqs r : answers P (reqs ++ [r]) = answers P reqs + if P (snd r) then 1 else 0.
Proof.
  unfold answers. rewrite filter_app, length_app. destruct (P (snd r)) eqn:E.
  - rewrite filter_cons_True by done. cbn. lia.
  - rewrite filter_cons_False by (by rewrite E). cbn. lia.
Qed.

Record tally (reqs : list (nat * option Z)) (s : state) : Prop := {
  ty_len : length (ctrs s) = conns;
  ty_ok : ok s = u64 (answers (is_code 200) reqs);
  ty_bad : bad s = u64 (answers (λ r, negb (is_code 200 r)) reqs);
  ty_txs : txs s = u64 (Z.of_nat per * answers (is_code 200) reqs);
  ty_status : ∀ code, default 0 (byStatus s !! code) = u64 (answers (is_code code) reqs);
  ty_codes : ∀ code, is_Some (byStatus s !! code) ↔ (∃ c, (c, Some code) ∈ reqs)
}.

Lemma u64_succ a b : a = u64 b → u64 (a + 1) = u64 (b + 1).
Proof. intros ->. unfold u64. by rewrite Zplus_mod_idemp_l. Qed.

Lemma is_code_ne a b : a ≠ b → is_code a (Some b) = false.
Proof. intros H. unfold is_code. apply bool_decide_eq_false_2. congruence. Qed.
Lemma is_code_eq a : is_code a (Some a) = true.
Proof. by apply bool_decide_eq_true_2. Qed.

Lemma is_code_none a : is_code a None = false.
Proof. by apply bool_decide_eq_false_2. Qed.

Lemma add_tally code m reqs c :
  (∀ k, default 0 (m !! k) = u64 (answers (is_code k) reqs)) →
  (∀ k, is_Some (m !! k) ↔ ∃ c, (c, Some k) ∈ reqs) →
  (∀ k, default 0 (add code m !! k) = u64 (answers (is_code k) (reqs ++ [(c, Some code)]))) ∧
  (∀ k, is_Some (add code m !! k) ↔ ∃ c', (c', Some k) ∈ reqs ++ [(c, Some code)]).
Proof.
  intros Hv Hk. unfold add. split; intros k.
  - rewrite answers_snoc. cbn [snd]. destruct (decide (code = k)) as [->|Hne].
    + rewrite lookup_insert_eq, is_code_eq. cbn [default]. by apply u64_succ.
    + rewrite lookup_insert_ne by done. rewrite Hv, is_code_ne by done. f_equal. lia.
  - rewrite lookup_insert_is_Some, Hk. setoid_rewrite elem_of_app. setoid_rewrite list_elem_of_singleton.
    destruct (decide (code = k)) as [->|]; naive_solver.
Qed.

Lemma round_tally reqs s c resp :
  tally reqs s → (c < conns)%nat → tally (reqs ++ [(c, resp)]) (round per s (c, resp)).
Proof.
  intros [Hl Ho Hb Ht Hs Hk] Hlt. destruct (lookup_lt_is_Some_2 (ctrs s) c) as [ctr Hctr]; [lia|].
  unfold round. rewrite Hctr. destruct (fill per ctr) as [l ctr'].
  destruct resp as [code|]; [|].
  - destruct (add_tally code (byStatus s) reqs c Hs Hk) as [Hs' Hk'].
    destruct (Z.eqb_spec code 200) as [->|Hne]; constructor; cbn [ctrs ok bad txs byStatus]; try done;
      rewrite ?length_insert, ?answers_snoc; cbn [snd]; rewrite ?is_code_eq, ?(is_code_ne 200 code) by done; cbn [negb];
      rewrite ?Z.add_0_r; try done; try by apply u64_succ.
    rewrite Ht. unfold u64. rewrite Zplus_mod_idemp_l. f_equal. lia.
  - constructor; cbn [ctrs ok bad txs byStatus]; rewrite ?length_insert, ?answers_snoc; cbn [snd];
      rewrite ?is_code_none; cbn [negb]; rewrite ?Z.add_0_r; try done.
    + by apply u64_succ.
    + intros code. rewrite answers_snoc, Hs. cbn [snd]. rewrite is_code_none. by rewrite Z.add_0_r.
    + intros code. rewrite Hk. setoid_rewrite elem_of_app. setoid_rewrite list_elem_of_singleton. naive_solver.
Qed.

Lemma load_tally reqs : Forall (λ r, (fst r < conns)%nat) reqs → tally reqs (load per conns reqs).
Proof.
  unfold load. induction reqs as [|[c resp] reqs IH] using rev_ind; intros Hv.
  - constructor; try done; cbn; [by rewrite length_fmap, length_seq|by rewrite Z.mul_0_r|].
    intros code. rewrite lookup_empty. split; [by intros [? ?]|]. by intros [c ?%not_elem_of_nil].
  - apply list.Forall_app in Hv as [Hv Hv1]. apply list.Forall_cons in Hv1 as [Hv1 _]. rewrite foldl_app. cbn [foldl].
    apply round_tally; [by apply IH|exact Hv1].
Qed.
End tallies.

(** ** Theorems *)

(** The load is what it says it is. With at most 2^24 goroutines, each
    sending fewer than 2^40 transactions, no transaction is sent twice in a
    run, however the requests interleave; each is one whole transaction of 70
    bytes with a single input, to the walk the pipe uses, and not extended
    format. *)
Theorem load_distinct (per conns : nat) (reqs : list (nat * option Z)) :
  Z.of_nat conns ≤ 2 ^ 24 → Forall (λ r, (fst r < conns)%nat) reqs →
  (∀ c, Z.of_nat per * reqs_of c reqs < 2 ^ 40) →
  let sent := concat (posted (load per conns reqs)) in
  NoDup sent ∧
  Forall (λ t, length t = 70%nat ∧ walkable t = true ∧ length (refs t) = 1%nat ∧ txwire.ef_marker t = false) sent.
Proof.
  intros Hc Hv Hp sent. destruct (load_inv per conns Hc reqs Hv Hp) as [_ _ (zs & Hs & Hn & Hu)].
  unfold sent. rewrite Hs. split.
  - apply (NoDup_fmap_2_strong tx); [|done]. intros a b Ha Hb. rewrite list.Forall_forall in Hu.
    assert (∀ z, z ∈ zs → 0 ≤ z < two64) as Hr.
    { intros z (c & Hlt & Hz)%Hu. specialize (Hp c). unfold base, two64 in *. lia. }
    apply tx_inj; by apply Hr.
  - apply list.Forall_fmap, list.Forall_true. intros z. destruct (tx_refs z) as [Er Ew].
    split_and!; [apply length_tx|done|by rewrite Er|]. by rewrite tx_ser.
Qed.

(** The tallies account for every request: the accepted and the failed
    batches are the requests answered 200 and the rest, the transactions
    reported are those of the accepted batches, and the status mix lists
    exactly the codes seen, each with the number of answers that had it, in
    increasing order. All counts are modulo 2^64. *)
Theorem load_tallies (per conns : nat) (reqs : list (nat * option Z)) :
  Forall (λ r, (fst r < conns)%nat) reqs →
  let s := load per conns reqs in
  u64 (ok s + bad s) = u64 (zlen reqs) ∧ txs s = u64 (Z.of_nat per * ok s) ∧
  (∀ code, default 0 (byStatus s !! code) = u64 (answers (is_code code) reqs)) ∧
  ∃ codes, String_ (byStatus s) = (if bool_decide (codes = []) then str "none" else join_on x20 (part (byStatus s) <$> codes)) ∧
    Sorted (≤) codes ∧ NoDup codes ∧ ∀ code, code ∈ codes ↔ ∃ c, (c, Some code) ∈ reqs.
Proof.
  intros Hv s. destruct (load_tally per conns reqs Hv) as [_ Ho Hb Ht Hs Hk]. fold s in Ho, Hb, Ht, Hs, Hk.
  assert (answers (is_code 200) reqs + answers (λ r, negb (is_code 200 r)) reqs = zlen reqs) as Hsum.
  { clear. induction reqs as [|r reqs IH] using rev_ind; [done|]. rewrite !answers_snoc, length_app. cbn [length].
    destruct (is_code 200 (snd r)); cbn [negb]; lia. }
  split_and!; [| |done|].
  - rewrite Ho, Hb. unfold u64. rewrite <- Z.add_mod by (by compute). by rewrite Hsum.
  - rewrite Ht, Ho. unfold u64. by rewrite Zmult_mod_idemp_r.
  - exists (merge_sort (≤) (fst <$> map_to_list (byStatus s))). pose proof (merge_sort_Permutation (≤) (fst <$> map_to_list (byStatus s))) as Hp.
    split_and!; [done|apply Sorted_merge_sort; intros a b; lia|rewrite Hp; apply NoDup_fst_map_to_list|].
    intros code. rewrite Hp, <- Hk, list_elem_of_fmap. split.
    + intros ([k v] & -> & Hin%elem_of_map_to_list). by exists v.
    + intros [v Hin]. exists (code, v). split; [done|]. by apply elem_of_map_to_list.
Qed.

(** ** Witnesses *)

Definition pl_reqs : list (nat * option Z) :=
  [(0%nat, Some 200); (1%nat, Some 400); (0%nat, Some 200); (1%nat, None); (1%nat, Some 200)].

Lemma load_distinct_witness :
  NoDup (concat (posted (load 2 2 pl_reqs))) ∧ length (concat (posted (load 2 2 pl_reqs))) = 10%nat.
Proof.
  split; [|vm_compute; reflexivity].
  apply (load_distinct 2 2 pl_reqs).
  - vm_compute. discriminate.
  - repeat (constructor; [vm_compute; lia|]). constructor.
  - intros c. unfold reqs_of. pose proof (length_filter (λ r, fst r = c) pl_reqs) as H. cbn in H |- *. lia.
Defined.

Lemma load_tallies_witness : txs (load 2 2 pl_reqs) = u64 (2 * ok (load 2 2 pl_reqs)).
Proof.
  apply (load_tallies 2 2 pl_reqs). repeat (constructor; [vm_compute; lia|]). constructor.
Defined.

Example pl_report : String_ (byStatus (load 2 2 pl_reqs)) = str "200=3 400=1" ∧ String_ ∅ = str "none".
Proof. split; vm_compute; reflexivity. Qed.
