(* ===== verification/LogStats.v ===== *)
(** * The periodic log and the scrape

    [logStats] of [src/cmd/teranode-bridge/main.go] and the call of
    [SetSources] beside it: the same subsystems are read for the log line and
    for the scrape of [Metrics.v]. A record logged is its message and its
    attributes, in order. The subsystems are given by what their [Stats]
    return. [Txs] of [Sources] is an interface and the transaction cache a
    pointer, so a disabled cache is stored as an interface that is not nil. *)

From Stdlib Require Import Strings.Byte.
From stdpp Require Import base list strings numbers gmap.
From S2P Require Import Prelude Cache Registry TxBuild Submit Announce Lanes Metrics.
Import metrics.

Module mainlog.
(** What [main] built: the disabled transaction cache, the pipe, the producer,
    the retrieval plane, the reverse path and the tunnels may be nil. *)
Record parts : Type := mkParts {
  laneSet : list lanes.Stats_t; objects : cache.Stats_t; txs : option cache.Stats_t;
  seen : registry.Stats_t; announced : registry.Stats_t; pipe : option pipe_Stats_t;
  producer : option announce_Stats_t; ret : option retrieval_Stats_t; rev : option reverse_Stats_t;
  clusterState : gostring * Z; upSubtree : option UpStats; upBlock : option UpStats
}.

(** [Generational.Stats] of a nil cache is the zero value. *)
Definition zero_stats : cache.Stats_t := cache.mkStats 0 0 0 0 0 0 0 0 0.
Definition txStats (p : parts) : cache.Stats_t := default zero_stats (txs p).

(** The argument of [rec.SetSources]. *)
Definition sources (p : parts) : Sources :=
  mkSources (laneSet p) (Some (objects p)) (Some (txStats p, txStats p)) (Some (seen p)) (pipe p)
    (producer p) (ret p) (rev p) [upSubtree p; upBlock p].

Inductive attr : Type := Num (v : Z) | Txt (s : gostring).
Record line : Type := mkLine { msg : string; attrs : list (string * attr) }.

Definition lane_line (st : lanes.Stats_t) : line :=
  mkLine "lane stats"
    [("lane", Txt (lanes.st_Name st)); ("conns", Num (lanes.st_Conns st)); ("objects", Num (lanes.st_Objects st));
     ("bytes", Num (lanes.st_Bytes st)); ("errors", Num (lanes.st_Errors st));
     ("dropped", Num (lanes.st_Dropped st)); ("rejected", Num (lanes.st_Rejected st))]%string.
Definition cache_line (o t : cache.Stats_t) : line :=
  mkLine "cache stats"
    [("objects", Num (cache.Entries o)); ("object_bytes", Num (cache.Bytes o)); ("txs", Num (cache.Entries t));
     ("tx_bytes", Num (cache.Bytes t)); ("evicted", Num (u64 (cache.Evicted o + cache.Evicted t)))]%string.
Definition registry_line (s a : registry.Stats_t) : line :=
  mkLine "registry stats"
    [("entries", Num (registry.Entries s)); ("duplicates", Num (registry.Hits s));
     ("announced", Num (registry.Entries a))]%string.
Definition submit_line (s : pipe_Stats_t) : line :=
  mkLine "submit stats"
    [("accepted", Num (ps_Accepted s)); ("rejected", Num (ps_Rejected s)); ("failed", Num (ps_Failed s));
     ("batches", Num (ps_Batches s)); ("retried", Num (ps_Retried s)); ("retry_ok", Num (ps_RetryAccepted s));
     ("queue", Num (ps_Queue s)); ("seals_dep", Num (ps_SealDep s)); ("seals_linger", Num (ps_SealLinger s))]%string.
Definition announce_line (a : announce_Stats_t) : line :=
  mkLine "announce stats"
    [("subtrees", Num (as_Subtrees a)); ("blocks", Num (as_Blocks a)); ("failures", Num (as_Failures a));
     ("buffered", Num (as_Buffered a)); ("awaiting_pull", Num (as_AwaitingPull a))]%string.
Definition retrieval_line (r : retrieval_Stats_t) : line :=
  mkLine "retrieval stats"
    [("subtree", Num (rs_Subtree r)); ("subtree_data", Num (rs_SubtreeData r)); ("txs", Num (rs_Txs r));
     ("block", Num (rs_Block r)); ("miss", Num (rs_Miss r)); ("errors", Num (rs_Errors r))]%string.
Definition reverse_line (v : reverse_Stats_t) : line :=
  mkLine "reverse stats"
    [("subtrees_up", Num (vs_SubtreesUp v)); ("blocks_up", Num (vs_BlocksUp v));
     ("remote_skipped", Num (vs_RemoteSkipped v)); ("skipped", Num (vs_Skipped v));
     ("failures", Num (vs_Failures v)); ("reconnects", Num (vs_Reconnects v))]%string.
Definition cluster_line (c : gostring * Z) : list line :=
  if bool_decide (fst c = []) then []
  else [mkLine "cluster stats" [("fsm_state", Txt (fst c)); ("height", Num (snd c))]%string].
Definition up_line (u : UpStats) : line :=
  mkLine "up-tunnel stats"
    [("class", Txt (us_Class u)); ("sent", Num (us_Sent u)); ("bytes", Num (us_Bytes u));
     ("failures", Num (us_Failures u)); ("redials", Num (us_Redials u))]%string.

Definition given {A} (o : option A) (f : A → list line) : list line := match o with Some a => f a | None => [] end.

Definition logStats (p : parts) : list line :=
  (lane_line <$> laneSet p)
  ++ [cache_line (objects p) (txStats p); registry_line (seen p) (announced p)]
  ++ given (pipe p) (λ s, [submit_line s])
  ++ given (producer p) (λ a, [announce_line a])
  ++ given (ret p) (λ r, [retrieval_line r])
  ++ given (rev p) (λ v, reverse_line v :: cluster_line (clusterState p))
  ++ ([upSubtree p; upBlock p] ≫= λ u, given u (λ u, [up_line u])).
End mainlog.

Import mainlog.

(** ** Which series an attribute is *)

(** The name a record is about, when it is about one of several. *)
Definition subject (l : line) : gostring :=
  match attrs l with (_, Txt s) :: _ => s | _ => [] end.

Definition table : list (string * string * (pair * (gostring → list gostring))) :=
  let own n : gostring → list gostring := λ _, [str n] in
  let none : gostring → list gostring := λ _, [] in
  let per : gostring → list gostring := λ s, [s] in
  [("lane stats", "conns", (laneConns, per)); ("lane stats", "objects", (laneObjects, per));
   ("lane stats", "bytes", (laneBytes, per)); ("lane stats", "errors", (laneErrors, per));
   ("lane stats", "dropped", (laneDropped, per)); ("lane stats", "rejected", (laneRejected, per));
   ("cache stats", "objects", (cacheEntries, own "object")); ("cache stats", "object_bytes", (cacheBytes, own "object"));
   ("cache stats", "txs", (cacheEntries, own "tx")); ("cache stats", "tx_bytes", (cacheBytes, own "tx"));
   ("registry stats", "entries", (registryEntries, none));
   ("submit stats", "accepted", (submitTotal, own "accepted")); ("submit stats", "rejected", (submitTotal, own "rejected"));
   ("submit stats", "failed", (submitTotal, own "failed")); ("submit stats", "batches", (pipeBatches, none));
   ("submit stats", "retried", (pipeRetried, none)); ("submit stats", "retry_ok", (pipeRetryOK, none));
   ("submit stats", "queue", (pipeQueue, none)); ("submit stats", "seals_dep", (pipeSeals, own "dependency"));
   ("submit stats", "seals_linger", (pipeSeals, own "linger"));
   ("announce stats", "subtrees", (announceTotal, own "subtree")); ("announce stats", "blocks", (announceTotal, own "block"));
   ("announce stats", "failures", (announceFailures, none)); ("announce stats", "buffered", (announceBuffered, none));
   ("announce stats", "awaiting_pull", (announceAwaitingPull, none));
   ("retrieval stats", "subtree", (retrievalServed, own "subtree"));
   ("retrieval stats", "subtree_data", (retrievalServed, own "subtree_data"));
   ("retrieval stats", "txs", (retrievalServed, own "txs")); ("retrieval stats", "block", (retrievalServed, own "block"));
   ("retrieval stats", "miss", (retrievalMisses, none)); ("retrieval stats", "errors", (retrievalErrors, none));
   ("reverse stats", "subtrees_up", (reversePublished, own "subtree"));
   ("reverse stats", "blocks_up", (reversePublished, own "block"));
   ("reverse stats", "remote_skipped", (reverseSkipped, own "remote_origin"));
   ("reverse stats", "skipped", (reverseSkipped, own "unavailable"));
   ("reverse stats", "failures", (reverseFailures, none)); ("reverse stats", "reconnects", (reverseReconnects, none));
   ("up-tunnel stats", "sent", (upObjects, per)); ("up-tunnel stats", "bytes", (upBytes, per));
   ("up-tunnel stats", "failures", (upFailures, per)); ("up-tunnel stats", "redials", (upRedials, per))]%string.

(** What the log says and no single series does. *)
Definition log_only : list (string * string) :=
  [("cache stats", "evicted"); ("registry stats", "duplicates"); ("registry stats", "announced");
   ("cluster stats", "height")]%string.

Definition series_of (m k : string) : option (pair * (gostring → list gostring)) :=
  snd <$> head (filter (λ e, fst e = (m, k)) table).

Definition agrees (r : Recorder) (l : line) (kv : string * attr) : Prop :=
  match snd kv with
  | Txt _ => True
  | Num v =>
      match series_of (msg l) (fst kv) with
      | Some (p, labels) => ∃ ty, mkCall ty p v (labels (subject l)) ∈ calls r
      | None => (msg l, fst kv) ∈ log_only
      end
  end.

(** ** Agreement *)

Lemma calls_groups r :
  (∀ s, s ∈ Lanes (src r) → collect_lane s ⊆ calls r) ∧
  (∀ s, Objects (src r) = Some s → emitCache "object" s ⊆ calls r) ∧
  (∀ t, Txs (src r) = Some t → emitCache "tx" (fst t) ⊆ calls r) ∧
  (∀ s, Seen (src r) = Some s → collect_seen (Txs (src r)) s ⊆ calls r) ∧
  (∀ s, Tx (src r) = Some s → collect_pipe s ⊆ calls r) ∧
  (∀ s, Announce (src r) = Some s → collect_announce s ⊆ calls r) ∧
  (∀ s, Retrieval (src r) = Some s → collect_retrieval s ⊆ calls r) ∧
  (∀ s, Reverse (src r) = Some s → collect_reverse s ⊆ calls r) ∧
  (∀ u, u ∈ UpTunnels (src r) → collect_up u ⊆ calls r).
Proof.
  assert (Hb : ∀ A (f : A → list call) (l : list A) a c, a ∈ l → c ∈ f a → c ∈ l ≫= f).
  { intros A f l a c Ha Hc. apply list_elem_of_bind. eauto. }
  unfold calls. split_and!; intros s Hs c Hc; rewrite !elem_of_app;
    [right; left; by eapply Hb
    |do 2 right; left|do 3 right; left|do 4 right; left|do 5 right; left|do 6 right; left|do 7 right; left|do 8 right; left
    |do 9 right; by eapply Hb].
  all: rewrite Hs; exact Hc.
Qed.

(** An attribute's series is computed, and its call found among the group's. *)
Ltac attribute H :=
  lazymatch goal with
  | |- agrees _ _ (_, Txt _) => exact I
  | |- agrees ?r ?l (?k, Num ?v) =>
      let m := eval cbn in (msg l) in
      let e := eval vm_compute in (match series_of m k with Some _ => true | None => false end) in
      lazymatch e with
      | true => solve [eexists; apply H; apply list_elem_of_In; cbn; auto 20]
      | false => solve [apply list_elem_of_In; cbn; auto 20]
      end
  end.

Ltac attributes H := repeat (constructor; [attribute H|]); constructor.

(** C38: The log and the scrape tell one story. For the subsystems [main] built
    and the recorder it gave them to, every number [logStats] prints is the
    value the scrape reports under the series of the same meaning, with the
    lane or the tunnel class as its label; the exceptions are the height, the
    announce gate's entries, and the evictions, which add up the two caches,
    and the duplicates, which leave out those of the transaction cache that
    the scrape adds. *)
Theorem log_matches_scrape (p : parts) (r : Recorder) :
  src r = sources p →
  Forall (λ l, Forall (agrees r l) (attrs l)) (logStats p) ∧
  mkCall CounterValue registryDups (u64 (registry.Hits (seen p) + cache.Duplicates (txStats p))) [] ∈ calls r.
Proof.
  intros Hr. destruct (calls_groups r) as (H1 & H2 & H3 & H4 & H5 & H6 & H7 & H8 & H9).
  rewrite Hr in H1, H2, H3, H4, H5, H6, H7, H8, H9. cbn [sources Lanes Objects Txs Seen Tx Announce Retrieval Reverse UpTunnels] in *.
  specialize (H2 _ eq_refl). specialize (H3 _ eq_refl). specialize (H4 _ eq_refl). cbn [fst] in H3.
  split; [|apply H4; by right; left].
  unfold logStats. rewrite !list.Forall_app. split_and!.
  - apply list.Forall_fmap, list.Forall_forall. intros st Hst. specialize (H1 st Hst).
    cbn [compose lane_line attrs]. attributes H1.
  - constructor; [|constructor; [|constructor]].
    + cbn [attrs cache_line]. repeat (constructor; [first [attribute H2|attribute H3]|]). constructor.
    + cbn [attrs registry_line]. attributes H4.
  - destruct (pipe p) as [s|]; [|constructor]. specialize (H5 s eq_refl). constructor; [|constructor].
    cbn [attrs submit_line]. attributes H5.
  - destruct (producer p) as [s|]; [|constructor]. specialize (H6 s eq_refl). constructor; [|constructor].
    cbn [attrs announce_line]. attributes H6.
  - destruct (ret p) as [s|]; [|constructor]. specialize (H7 s eq_refl). constructor; [|constructor].
    cbn [attrs retrieval_line]. attributes H7.
  - destruct (rev p) as [s|]; [|constructor]. specialize (H8 s eq_refl). cbn [given]. constructor.
    + cbn [attrs reverse_line]. attributes H8.
    + unfold cluster_line. case_bool_decide; [constructor|]. constructor; [|constructor]. cbn [attrs]. attributes H8.
  - apply list.Forall_forall. intros l (u & Hl & Hu)%list_elem_of_bind. destruct u as [u|]; [|by apply not_elem_of_nil in Hl].
    apply list_elem_of_singleton in Hl as ->. specialize (H9 _ Hu). cbn [attrs up_line]. attributes H9.
Qed.

(** The disabled transaction cache is not absent from the scrape: stored in the
    interface it is not nil, and its seven series are reported, all zero. *)
Theorem disabled_cache_exposed (p : parts) (r : Recorder) :
  txs p = None → src r = sources p → emitCache "tx" zero_stats ⊆ calls r.
Proof.
  intros Ht Hr. destruct (calls_groups r) as (_ & _ & H & _). rewrite Hr in H.
  specialize (H _ eq_refl). cbn [fst] in H. unfold txStats in H. by rewrite Ht in H.
Qed.

(** ** Witness: a transaction-only bridge *)

Definition lg_parts : parts :=
  mkParts [lanes.mkStats (str "tx") 1 5 900 0 0 0 1] (cache.mkStats 2 80 100 2 1 0 0 0 0) None
    (registry.mkStats 0 0 0 0) (registry.mkStats 0 0 0 0) (Some (mkPipeStats 5 4 1 0 0 0 0 1 0 0 0 1 0 0))
    None None None ([], 0) None None.
Definition lg_rec : Recorder := SetSources (sources lg_parts) (New (str "v") (str "i") false false).

Lemma log_matches_scrape_witness :
  Forall (λ l, Forall (agrees lg_rec l) (attrs l)) (logStats lg_parts) ∧
  length (logStats lg_parts) = 4%nat.
Proof. split; [apply (log_matches_scrape lg_parts lg_rec); reflexivity|reflexivity]. Defined.

Lemma disabled_cache_exposed_witness : gauge cacheEntries 0 [str "tx"] ∈ calls lg_rec.
Proof. apply (disabled_cache_exposed lg_parts lg_rec); [reflexivity|reflexivity|left]. Defined.
