(* ===== verification/Tracing.v ===== *)
(** * tracing: start-up of the exporter

    [Init] of [src/internal/tracing/tracing.go]: the decisions it makes before
    it installs a tracer provider, and what it leaves installed when one of
    them fails. The OpenTelemetry libraries are separate modules: whether the
    exporter and the resource can be built are arguments, and a provider is
    the options it was given. [url.Parse] is an argument too: the scheme and
    the host it finds, or its refusal. A sample rate is a [float64], which may
    be infinite or not a number. *)

From Stdlib Require Import Strings.Byte QArith.
From stdpp Require Import base list strings numbers.
From S2P Require Import Prelude.

Module tracing.
Inductive float64 : Type := NaN | NegInf | PosInf | Fin (q : Q).

(** [x < q] and [x > q] for a constant [q]; a NaN compares false. *)
Definition ltb (x : float64) (q : Q) : bool :=
  match x with NaN | PosInf => false | NegInf => true | Fin y => negb (Qle_bool q y) end.
Definition gtb (x : float64) (q : Q) : bool :=
  match x with NaN | NegInf => false | PosInf => true | Fin y => negb (Qle_bool y q) end.

Record Config : Type := mkConfig {
  Enabled : bool; CollectorURL : gostring; SampleRate : float64;
  ServiceName : gostring; Version : gostring; Instance_ : gostring
}.

(** [sdktrace.NewTracerProvider]: the endpoint, whether the exporter is
    insecure, the ratio of the root sampler, and the resource's attributes. *)
Record provider : Type := mkProvider {
  endpoint : gostring; insecure : bool; ratio : float64; attributes : list (string * gostring)
}.

(** OpenTelemetry's globals, and what [Init] returned. *)
Record globals : Type := mkGlobals { propagators : list string; current : option provider }.
Inductive shutdown : Type := NoOp | ShutdownProvider (p : provider).

Record env : Type := mkEnv {
  url_Parse : gostring → option (gostring * gostring);
  otlptracehttp_New : gostring → bool → option error;
  resource_New : list (string * gostring) → option error
}.

Definition clamp (rate : float64) : float64 :=
  let rate := if ltb rate 0 then Fin 0 else rate in
  if gtb rate 1 then Fin 1 else rate.

Definition Init (e : env) (cfg : Config) (g : globals) : res shutdown * globals :=
  let g := mkGlobals ["TraceContext"; "Baggage"]%string (current g) in
  if negb (Enabled cfg) then (Ok NoOp, g) else
  match url_Parse e (CollectorURL cfg) with
  | None => (Err (EMsg "tracing: parse collector url"), g)
  | Some (scheme, host) =>
      if bool_decide (host = []) then (Err (EMsg "tracing: collector url has no host"), g) else
      let insecure := bool_decide (scheme = str "http") in
      match otlptracehttp_New e host insecure with
      | Some _ => (Err (EMsg "tracing: otlp exporter"), g)
      | None =>
          let attrs := [("service.name", ServiceName cfg); ("service.version", Version cfg);
                        ("service.instance.id", Instance_ cfg)]%string in
          match resource_New e attrs with
          | Some _ => (Err (EMsg "tracing: resource"), g)
          | None =>
              let tp := mkProvider host insecure (clamp (SampleRate cfg)) attrs in
              (Ok (ShutdownProvider tp), mkGlobals (propagators g) (Some tp))
          end
      end
  end.
End tracing.

Import tracing.

(** A ratio the sampler is specified for. *)
Definition is_ratio (x : float64) : Prop := match x with Fin q => (0 <= q)%Q ∧ (q <= 1)%Q | _ => False end.

Lemma clamp_ratio x : is_ratio (clamp x) ∨ x = NaN.
Proof.
  unfold clamp. destruct x as [| | |q]; [by right|left; by compute..|]. left. cbn [ltb].
  destruct (Qle_bool 0 q) eqn:E0; cbn [negb].
  - cbn [gtb]. destruct (Qle_bool q 1) eqn:E1; cbn [negb]; [|by compute].
    apply Qle_bool_iff in E0, E1. done.
  - by compute.
Qed.

(** Tracing fails closed and never breaks a trace. Whatever the collector
    address and the libraries answer, the propagators are installed; when
    tracing is off, or any step fails, the provider in place stays in place
    and a shutdown, if any, does nothing; when it succeeds the provider
    exports to the host of the address, in the clear exactly when its scheme
    is http, samples at a ratio between 0 and 1 (unless the configured rate is
    not a number), carries the identity of the process, and is the one the
    returned shutdown stops. *)
Theorem tracing_init (e : env) (cfg : Config) (g : globals) :
  let '(r, g') := Init e cfg g in
  propagators g' = ["TraceContext"; "Baggage"]%string ∧
  match r with
  | Ok NoOp => Enabled cfg = false ∧ current g' = current g
  | Ok (ShutdownProvider p) =>
      Enabled cfg = true ∧ current g' = Some p ∧
      (∃ scheme, url_Parse e (CollectorURL cfg) = Some (scheme, endpoint p) ∧
         (insecure p = true ↔ scheme = str "http")) ∧ endpoint p ≠ [] ∧
      (SampleRate cfg ≠ NaN → is_ratio (ratio p)) ∧
      (snd <$> attributes p) = [ServiceName cfg; Version cfg; Instance_ cfg]
  | Err _ => Enabled cfg = true ∧ current g' = current g
  | Panic => False
  end.
Proof.
  unfold Init. destruct (Enabled cfg) eqn:Ee; cbn [negb]; [|done].
  destruct (url_Parse e (CollectorURL cfg)) as [[scheme host]|] eqn:Eu; [|done].
  case_bool_decide as Hh; [done|]. destruct (otlptracehttp_New e host _); [done|].
  destruct (resource_New e _); [done|]. cbn [propagators current endpoint insecure ratio attributes].
  split_and!; try done.
  - exists scheme. split; [done|]. apply bool_decide_eq_true.
  - intros Hn. by destruct (clamp_ratio (SampleRate cfg)).
Qed.

Example nan_rate_kept : clamp NaN = NaN ∧ clamp NegInf = Fin 0 ∧ clamp PosInf = Fin 1.
Proof. done. Qed.
