(* ===== verification/CommandLine.v ===== *)
(** * The command line: from arguments to a running bridge

    The flags of [main] in [src/cmd/teranode-bridge/main.go] with their
    defaults, the standard library's [flag] package that reads them, and the
    head of [main] up to where [Startup.v] takes over: a bad command line ends
    the process with status 2, a request for help with 0, a tracing exporter
    that cannot be built with 1. The readers of the values are those of
    [GoParse.v]; the one of a floating-point number is an argument. *)

From Stdlib Require Import Strings.Byte QArith.
From stdpp Require Import base list strings numbers gmap pretty.
From S2P Require Import Prelude GoParse HashId Objfmt Cache Generational Registry TxBuild Submit Handlers FirstPull Announce Health Retrieval Reverse Metrics Startup Tracing.
Import bridge startup.

(** ** The [flag] package *)

Module goflag.
(** A flag's value, of the type its definition gives it. *)
Inductive value : Type :=
| VString (s : gostring)
| VInt (z : Z)          (** [Int] and [Int64] *)
| VDuration (d : Z)
| VBool (b : bool)
| VFloat (f : tracing.float64)
| VList (l : list gostring).   (** [stringList] *)

Abbreviation formal := (gmap gostring value).

Section parse.
Context (ParseFloat : gostring → option tracing.float64).

(** [Value.Set]; [None] is its error. *)
Definition Set_ (v : value) (s : gostring) : option value :=
  match v with
  | VString _ => Some (VString s)
  | VInt _ => VInt <$> strconv.ParseInt s
  | VDuration _ => VDuration <$> gotime.ParseDuration s
  | VBool _ => VBool <$> strconv.ParseBool s
  | VFloat _ => VFloat <$> ParseFloat s
  | VList l => Some (VList (stringList_Set l s))
  end.

(** The name and, after the first equals sign that is not its first byte, the
    value. *)
Fixpoint cut_equals (s : gostring) : gostring * option gostring :=
  match s with
  | [] => ([], None)
  | c :: s =>
      if bool_decide (c = x3d) then ([], Some s)
      else let '(n, v) := cut_equals s in (c :: n, v)
  end.
Definition cut_name (s : gostring) : gostring * option gostring :=
  match s with
  | [] => ([], None)
  | c :: s => let '(n, v) := cut_equals s in (c :: n, v)
  end.

(** What [parseOne] comes to: no more flags, one flag read, help, an error. *)
Inductive one : Type :=
| Finished (args : list gostring)
| Flagged (args : list gostring) (f : formal)
| Help
| Failed.

(** The flag [name] is given [value], if any. *)
Definition assign (name : gostring) (value : option gostring) (args : list gostring) (f : formal) : one :=
  match f !! name with
  | None => if bool_decide (name = str "help") || bool_decide (name = str "h") then Help else Failed
  | Some (VBool b) =>
      match Set_ (VBool b) (default (str "true") value) with
      | Some v => Flagged args (<[name := v]> f)
      | None => Failed
      end
  | Some old =>
      let '(value, args) :=
        match value, args with
        | None, a :: args => (Some a, args)
        | _, _ => (value, args)
        end in
      match value with
      | None => Failed
      | Some value =>
          match Set_ old value with
          | Some v => Flagged args (<[name := v]> f)
          | None => Failed
          end
      end
  end.

Definition parseOne (args : list gostring) (f : formal) : one :=
  match args with
  | [] => Finished []
  | s :: rest =>
      match s with
      | x2d :: c :: t =>
          if bool_decide (c = x2d) && bool_decide (t = []) then Finished rest else
          let name := if bool_decide (c = x2d) then t else c :: t in
          match name with
          | [] | x2d :: _ | x3d :: _ => Failed
          | _ => let '(name, value) := cut_name name in assign name value rest f
          end
      | _ => Finished args
      end
  end.

(** The loop of [Parse]; a flag takes at least one argument. *)
Inductive parsed : Type :=
| Parsed (f : formal) (args : list gostring)
| HelpAsked
| BadUsage.

Fixpoint parse_loop (fuel : nat) (args : list gostring) (f : formal) : parsed :=
  match fuel with
  | O => Parsed f args
  | S fuel =>
      match parseOne args f with
      | Finished args => Parsed f args
      | Flagged args f => parse_loop fuel args f
      | Help => HelpAsked
      | Failed => BadUsage
      end
  end.
Definition Parse (args : list gostring) (f : formal) : parsed := parse_loop (S (length args)) args f.
End parse.
End goflag.

(** ** The flags of the bridge *)

Module command.
Import goflag.

Definition second : Z := 10 ^ 9.
Definition milli : Z := 10 ^ 6.

(** [reverse.DefaultKeepaliveTime] and the like are the reverse package's. *)
Definition table : list (string * value) :=
  [("tx-listen", VString (str "[::]:8725")); ("subtree-listen", VString (str "[::]:9143"));
   ("block-listen", VString (str "[::]:9144")); ("retrieval-listen", VString (str "[::]:9145"));
   ("advertise", VString []); ("api-prefix", VString (str "/api/v1"));
   ("subtree-topic", VString (str "subtrees-teranode1")); ("block-topic", VString (str "blocks-teranode1"));
   ("peer-id", VString []);
   ("blockchain", VString []); ("local-asset", VString []); ("edge-ingress", VString []);
   ("edge-subtree-port", VInt 8726); ("edge-block-port", VInt 8727);
   ("submitter", VBool true); ("submitter-probe", VString []);
   ("blockchain-security-level", VInt 0); ("blockchain-ca-cert", VString []); ("blockchain-cert", VString []);
   ("blockchain-key", VString []);
   ("blockchain-keepalive", VDuration reverse.DefaultKeepaliveTime);
   ("blockchain-keepalive-timeout", VDuration reverse.DefaultKeepaliveTimeout);
   ("blockchain-keepalive-when-idle", VBool true);
   ("mode", VString (str "all")); ("cache-bytes", VInt (2 ^ 30)); ("cache-ttl", VDuration (10 * 60 * second));
   ("tx-cache-bytes", VInt (-1)); ("max-object", VInt 0); ("stats-every", VDuration (60 * second));
   ("drain-timeout", VDuration (5 * second));
   ("submitter-grace", VDuration (45 * second)); ("submitter-when-blind", VBool false);
   ("mine-tag", VString []);
   ("tx-batch", VInt 512); ("tx-batch-bytes", VInt (8 * 2 ^ 20)); ("tx-linger", VDuration (2 * milli));
   ("tx-inflight", VInt 4); ("tx-builders", VInt 4); ("tx-queue", VInt 8192); ("tx-retries", VInt 6);
   ("metrics-addr", VString (str "[::]:9146")); ("metrics-legacy-prefix", VBool false);
   ("health-strict", VBool false); ("tx-size-histogram", VBool false);
   ("cluster-poll", VDuration (15 * second)); ("block-profile-rate", VInt 0); ("mutex-profile-fraction", VInt 0);
   ("tracing-enabled", VBool false); ("tracing-collector-url", VString (str "http://localhost:4318"));
   ("tracing-sample-rate", VFloat (tracing.Fin (5764607523034235 # 2 ^ 59)));
   ("log-level", VString (str "info")); ("log-format", VString (str "text")); ("debug", VBool false);
   ("instance-id", VString []);
   ("propagation", VList []); ("kafka", VList [])]%string.

Definition defaults : formal := list_to_map ((λ kv, (str (fst kv), snd kv)) <$> table).

(** What the pointer of a flag of each type points to. *)
Definition getS (f : formal) (n : string) : gostring := match f !! str n with Some (VString s) => s | _ => [] end.
Definition getZ (f : formal) (n : string) : Z :=
  match f !! str n with Some (VInt z) | Some (VDuration z) => z | _ => 0 end.
Definition getB (f : formal) (n : string) : bool := match f !! str n with Some (VBool b) => b | _ => false end.
Definition getL (f : formal) (n : string) : list gostring := match f !! str n with Some (VList l) => l | _ => [] end.
Definition getF (f : formal) (n : string) : tracing.float64 :=
  match f !! str n with Some (VFloat x) => x | _ => tracing.NaN end.

(** The flags that decide what is built. *)
Definition flags_of (f : formal) : flags :=
  mkFlags (getS f "mode") (getL f "propagation") (getL f "kafka") (getS f "advertise") (getS f "peer-id")
    (getS f "api-prefix") (getS f "subtree-topic") (getS f "block-topic") (getS f "blockchain")
    (getS f "local-asset") (getS f "edge-ingress") (getZ f "edge-subtree-port") (getZ f "edge-block-port")
    (getB f "submitter") (getS f "submitter-probe")
    (dial.mkTLS (getZ f "blockchain-security-level") (getS f "blockchain-cert") (getS f "blockchain-key")
       (getS f "blockchain-ca-cert"))
    (getZ f "blockchain-keepalive") (getZ f "blockchain-keepalive-timeout") (getB f "blockchain-keepalive-when-idle")
    (getZ f "cache-bytes") (getZ f "cache-ttl") (getZ f "tx-cache-bytes") (getZ f "drain-timeout")
    (txpipe.mkConfig [] (getZ f "tx-batch") (getZ f "tx-batch-bytes") (getZ f "tx-linger") (getZ f "tx-inflight")
       (getZ f "tx-retries") 0 (getZ f "tx-queue") (getZ f "tx-builders"))
    (getZ f "cluster-poll") (getS f "metrics-addr") (getZ f "stats-every").

Definition tracing_of (version : gostring) (f : formal) : tracing.Config :=
  tracing.mkConfig (getB f "tracing-enabled") (getS f "tracing-collector-url") (getF f "tracing-sample-rate")
    (str "teranode-bridge") version (getS f "instance-id").

(** The level of the log: [-debug] overrides [-log-level]. *)
Definition log_level {Level : Type} (ParseLevel : gostring → Level) (LevelDebug : Level) (f : formal) : Level :=
  if getB f "debug" then LevelDebug else ParseLevel (getS f "log-level").

(** [metrics.ProfileRates]: the two rates of the runtime. *)
Definition ProfileRates (blockRate mutexFraction : Z) (rates : Z * Z) : Z * Z :=
  (if 0 <? blockRate then blockRate else fst rates, if 0 <? mutexFraction then mutexFraction else snd rates).

Section main.
Context {L Cert : Type} (held : res unit * gmap gostring L)
  (ReadFile : gostring → option (list byte)) (AppendCertsFromPEM : list byte → bool)
  (LoadX509KeyPair : gostring → gostring → option Cert) (NewClient : gostring → bool)
  (KafkaClient : list gostring → bool) (ParseFloat : gostring → option tracing.float64)
  (otel : tracing.env) (version : gostring).

(** [main] up to the start of its tasks. *)
Definition main (now : Z) (args : list gostring) (g : tracing.globals) : outcome L Cert :=
  match Parse ParseFloat args defaults with
  | HelpAsked => Exit 0
  | BadUsage => Exit 2
  | Parsed f _ =>
      match tracing.Init otel (tracing_of version f) g with
      | (Ok _, _) =>
          start held ReadFile AppendCertsFromPEM LoadX509KeyPair NewClient KafkaClient now (flags_of f)
      | _ => Exit 1
      end
  end.
End main.
End command.

Import goflag command.

Example table_names_distinct : bool_decide (NoDup (fst <$> table)) = true.
Proof. vm_compute. reflexivity. Qed.

(** ** The fuel of [Parse] *)

Lemma assign_shorter PF name value args f args' f' :
  assign PF name value args f = Flagged args' f' → (length args' ≤ length args)%nat.
Proof.
  unfold assign. intros H. destruct value as [v|], args as [|a args];
  repeat match type of H with
  | match ?x with _ => _ end = _ => destruct x eqn:?; try discriminate H
  | (if ?b then _ else _) = _ => destruct b; try discriminate H
  end; simplify_eq; cbn [length]; lia.
Qed.

Lemma parseOne_shorter PF args f args' f' :
  parseOne PF args f = Flagged args' f' → (length args' < length args)%nat.
Proof.
  unfold parseOne. intros H. destruct args as [|s rest]; [done|].
  repeat match type of H with
  | match ?x with _ => _ end = _ => destruct x eqn:?; try discriminate H
  | (if ?b then _ else _) = _ => destruct b; try discriminate H
  end; apply assign_shorter in H; cbn [length]; lia.
Qed.

(** Any fuel above the number of arguments gives the same result. *)
Lemma parse_loop_fuel PF n m args f :
  (length args < n)%nat → (length args < m)%nat → parse_loop PF n args f = parse_loop PF m args f.
Proof.
  revert m args f. induction n as [|n IH]; intros m args f Hn Hm; [lia|]. destruct m as [|m]; [lia|].
  cbn [parse_loop]. destruct (parseOne PF args f) as [|args' f'| |] eqn:E; try done.
  apply parseOne_shorter in E. apply IH; lia.
Qed.

(** ** Command lines *)

(** A setting is written [-name=value]; [ftext] is the text of the float. *)
Definition show (ftext : gostring) (v : value) : gostring :=
  match v with
  | VString s => s
  | VInt z => str (pretty z)
  | VDuration d => str (pretty d) ++ str "ns"
  | VBool b => str (if b then "true" else "false")
  | VFloat _ => ftext
  | VList l => join_on x2c l
  end.
Definition arg (ftext : gostring) (kv : gostring * value) : gostring :=
  x2d :: (fst kv ++ x3d :: show ftext (snd kv)).

(** What giving a flag does to it: a list grows, anything else is replaced. *)
Definition merge (old v : value) : value :=
  match old, v with VList l, VList l' => VList (l ++ l') | _, _ => v end.
Definition apply_setting (f : formal) (kv : gostring * value) : formal :=
  <[fst kv := merge (default (snd kv) (f !! fst kv)) (snd kv)]> f.

(** An element of a comma-separated list that is read back as it is. *)
Definition clean (e : gostring) : Prop := (e ≠ []) ∧ (x2c ∉ e) ∧ (TrimSpace e = e).
Definition in_int64 (z : Z) : Prop := - two63 ≤ z < two63.

Section command_lines.
Context (ParseFloat : gostring → option tracing.float64) (ftext : gostring).

(** A value of the flag's type, in the type's range. *)
Definition value_ok (old v : value) : Prop :=
  match old, v with
  | VString _, VString _ | VBool _, VBool _ => True
  | VInt _, VInt z | VDuration _, VDuration z => in_int64 z
  | VFloat _, VFloat x => ParseFloat ftext = Some x
  | VList _, VList l => Forall clean l
  | _, _ => False
  end.

Definition name_ok (n : gostring) : Prop := n ≠ [] ∧ head n ≠ Some x2d ∧ x3d ∉ n.

Definition setting_ok (f : formal) (kv : gostring * value) : Prop :=
  name_ok (fst kv) ∧ ∃ old, f !! fst kv = Some old ∧ value_ok old (snd kv).

Lemma stringList_Set_join l0 l : Forall clean l → stringList_Set l0 (join_on x2c l) = l0 ++ l.
Proof.
  intros H. unfold stringList_Set. f_equal. destruct (decide (l = [])) as [->|Hn]; [reflexivity|].
  unfold split_commas.
  rewrite split_join; [|done|by eapply Forall_impl; [exact H|]; intros ? (_ & ? & _)].
  clear Hn. induction H as [|e l (He & _ & Ht) Hl IH]; [done|]. cbn [fmap list_fmap]. rewrite Ht.
  rewrite filter_cons_True by done. by f_equal.
Qed.

Lemma Set_show old v : value_ok old v → Set_ ParseFloat old (show ftext v) = Some (merge old v).
Proof.
  destruct old, v; cbn [value_ok]; try done; intros H; cbn [Set_ show merge].
  - by rewrite ParseInt_pretty.
  - by rewrite ParseDuration_ns.
  - by rewrite ParseBool_pretty.
  - by rewrite H.
  - by rewrite stringList_Set_join.
Qed.

Lemma cut_equals_at n v : x3d ∉ n → cut_equals (n ++ x3d :: v) = (n, Some v).
Proof.
  induction n as [|c n IH]; intros H; [done|]. apply not_elem_of_cons in H as [Hc Hn]. cbn [app cut_equals].
  rewrite bool_decide_eq_false_2 by done. by rewrite IH.
Qed.

Lemma cut_name_at n v : name_ok n → cut_name (n ++ x3d :: v) = (n, Some v).
Proof.
  intros (Hn & _ & He). destruct n as [|c n]; [done|]. apply not_elem_of_cons in He as [_ He]. cbn [app cut_name].
  by rewrite cut_equals_at.
Qed.

Lemma parseOne_name n v rest f : name_ok n →
  parseOne ParseFloat ((x2d :: n ++ x3d :: v) :: rest) f = assign ParseFloat n (Some v) rest f.
Proof.
  intros Hok. pose proof (cut_name_at n v Hok) as E. destruct Hok as (Hn & Hd & He). destruct n as [|c n]; [done|].
  assert (c ≠ x2d) by (by intros ->). assert (c ≠ x3d) by (by apply not_elem_of_cons in He as [? _]).
  cbn [parseOne app] in *. rewrite !(bool_decide_eq_false_2 (c = x2d)) by done. cbn [andb].
  by destruct c; try (by rewrite E).
Qed.

Lemma assign_setting kv rest f : setting_ok f kv →
  assign ParseFloat (fst kv) (Some (show ftext (snd kv))) rest f = Flagged rest (apply_setting f kv).
Proof.
  destruct kv as [n v]. intros (_ & old & E & Hv). cbn [fst snd] in *. unfold assign, apply_setting. cbn [fst snd].
  rewrite E. pose proof (Set_show old v Hv) as Hs. cbn [from_option]. destruct old; cbn [from_option id]; unfold id; by rewrite Hs.
Qed.

Lemma setting_ok_apply f kv kv' : setting_ok f kv → setting_ok f kv' → setting_ok (apply_setting f kv) kv'.
Proof.
  destruct kv as [n v], kv' as [n' v']. intros (_ & old & E & Hv) (Hn' & old' & E' & Hv'). split; [done|].
  cbn [fst snd] in *. unfold apply_setting. cbn [fst snd]. destruct (decide (n = n')) as [<-|Hne].
  - rewrite lookup_insert_eq, E. eexists. split; [done|]. rewrite E in E'. injection E' as ->. cbn [from_option].
    by destruct old', v; try done; destruct v'.
  - rewrite lookup_insert_ne by done. eauto.
Qed.

(** Settings are read in order; [tail] is what follows them. *)
Lemma parse_settings ss f tail fuel :
  Forall (setting_ok f) ss →
  parse_loop ParseFloat (length ss + fuel) ((arg ftext <$> ss) ++ tail) f
  = parse_loop ParseFloat fuel tail (foldl apply_setting f ss).
Proof.
  revert f. induction ss as [|kv ss IH]; intros f H; [done|]. apply Forall_cons in H as [Hkv H].
  cbn [length Nat.add fmap list_fmap app foldl parse_loop]. unfold arg at 1.
  rewrite parseOne_name by apply Hkv. rewrite assign_setting by done. apply IH.
  eapply Forall_impl; [exact H|]. intros kv'. by apply setting_ok_apply.
Qed.
End command_lines.

(** Every flag of the table, with the value a configuration gives it. *)
Definition rows (g : formal) : list (gostring * value) :=
  (λ kv, (str (fst kv), default (snd kv) (g !! str (fst kv)))) <$> table.
Definition render (ftext : gostring) (g : formal) : list gostring := arg ftext <$> rows g.

(** A configuration: a value for every flag and no other, of its type. *)
Definition well_typed (ParseFloat : gostring → option tracing.float64) (ftext : gostring) (g : formal) : Prop :=
  dom g = dom defaults ∧
  ∀ n old v, defaults !! n = Some old → g !! n = Some v → value_ok ParseFloat ftext old v.

Lemma table_names : Forall (λ kv : string * value, name_ok (str (fst kv))) table.
Proof.
  apply Forall_forall. intros kv Hin.
  assert (forallb (λ kv : string * value, negb (bool_decide (str (fst kv) = [])) &&
            negb (bool_decide (head (str (fst kv)) = Some x2d)) && negb (bool_decide (x3d ∈ str (fst kv)))) table = true)
    as H by (vm_compute; reflexivity).
  rewrite forallb_forall in H. apply list_elem_of_In, H in Hin.
  apply andb_true_iff in Hin as [[H1 H2]%andb_true_iff H3]. rewrite !negb_true_iff, !bool_decide_eq_false in *.
  by split_and!.
Qed.

Lemma str_inj s s' : str s = str s' → s = s'.
Proof.
  intros H. rewrite <- (String.string_of_list_byte_of_string s), <- (String.string_of_list_byte_of_string s').
  unfold str in H. by rewrite H.
Qed.

Lemma NoDup_table : NoDup (fst <$> ((λ kv, (str (fst kv), snd kv)) <$> table)).
Proof.
  rewrite <- list_fmap_compose. change (NoDup ((str ∘ fst) <$> table)). rewrite list_fmap_compose.
  apply NoDup_fmap_2.
  - intros s s'. apply str_inj.
  - apply (bool_decide_eq_true_1 _ table_names_distinct).
Qed.

Lemma defaults_lookup n v : defaults !! n = Some v ↔ ∃ s, n = str s ∧ (s, v) ∈ table.
Proof.
  unfold defaults. rewrite <- elem_of_list_to_map by apply NoDup_table. rewrite list_elem_of_fmap. split.
  - intros ([s w] & [= -> ->] & Hin). eauto.
  - intros (s & -> & Hin). by exists (s, v).
Qed.

(** Distinct settings do not interfere. *)
Lemma apply_settings_lookup ss f n :
  NoDup (fst <$> ss) →
  foldl apply_setting f ss !! n
  = match list_find (λ kv, fst kv = n) ss with
    | Some (_, kv) => Some (merge (default (snd kv) (f !! n)) (snd kv))
    | None => f !! n
    end.
Proof.
  revert f. induction ss as [|[k v] ss IH]; intros f Hn; [done|]. cbn [fmap list_fmap fst] in Hn.
  apply NoDup_cons in Hn as [Hk Hn]. cbn [foldl list_find fst]. rewrite IH by done. unfold apply_setting.
  cbn [fst snd]. case_decide as E.
  - subst n. rewrite lookup_insert_eq. destruct (list_find _ ss) as [[i [k' v']]|] eqn:Ef; [|done].
    apply list_find_Some in Ef as (Hi & <- & _). exfalso. apply Hk. cbn [fst].
    apply list_elem_of_fmap. exists (k', v'). split; [done|]. by eapply list_elem_of_lookup_2.
  - rewrite lookup_insert_ne by done. by destruct (list_find _ ss) as [[i [k' v']]|].
Qed.

Lemma defaults_lists_empty n l : defaults !! n = Some (VList l) → l = [].
Proof.
  rewrite defaults_lookup. intros (s & -> & Hin).
  assert (forallb (λ kv : string * value, match snd kv with VList (_ :: _) => false | _ => true end) table = true)
    as H by (vm_compute; reflexivity).
  rewrite forallb_forall in H. apply list_elem_of_In, H in Hin. by destruct l.
Qed.

Section configurations.
Context (ParseFloat : gostring → option tracing.float64) (ftext : gostring) (g : formal).
Hypothesis Hg : well_typed ParseFloat ftext g.

Lemma rows_ok : Forall (setting_ok ParseFloat ftext defaults) (rows g).
Proof.
  destruct Hg as [Hdom Hv]. unfold rows. apply Forall_fmap, Forall_forall. intros [s old] Hin. cbn [compose fst snd].
  assert (defaults !! str s = Some old) as Ed by (apply defaults_lookup; eauto).
  split; [exact (proj1 (Forall_forall _ _) table_names _ Hin)|]. exists old. split; [done|]. cbn [fst snd].
  assert (str s ∈ dom g) as [v Ev]%elem_of_dom by (rewrite Hdom; by apply elem_of_dom_2 in Ed).
  rewrite Ev. by apply (Hv (str s)).
Qed.

Lemma rows_apply : foldl apply_setting defaults (rows g) = g.
Proof.
  destruct Hg as [Hdom Hv]. apply map_eq. intros n. rewrite apply_settings_lookup.
  2: { unfold rows. pose proof NoDup_table as H. rewrite <- list_fmap_compose in *. exact H. }
  destruct (list_find _ (rows g)) as [[i [k v]]|] eqn:Ef.
  - apply list_find_Some in Ef as (Hi & <- & _). cbn [fst snd]. apply list_elem_of_lookup_2 in Hi.
    unfold rows in Hi. apply list_elem_of_fmap in Hi as ([s old] & [= -> ->] & Hin). cbn [fst snd].
    assert (defaults !! str s = Some old) as Ed by (apply defaults_lookup; eauto). rewrite Ed.
    assert (str s ∈ dom g) as [v Ev]%elem_of_dom by (rewrite Hdom; by apply elem_of_dom_2 in Ed).
    rewrite Ev. cbn [from_option]. f_equal. specialize (Hv (str s) old v Ed Ev).
    destruct old, v; try done. by rewrite (defaults_lists_empty _ _ Ed).
  - destruct (defaults !! n) as [old|] eqn:Ed.
    + exfalso. apply defaults_lookup in Ed as (s & -> & Hin). apply list_find_None in Ef.
      rewrite Forall_forall in Ef. apply (Ef (str s, default old (g !! str s))); [|done].
      unfold rows. apply list_elem_of_fmap. by exists (s, old).
    + symmetry. apply not_elem_of_dom. rewrite Hdom. by apply not_elem_of_dom.
Qed.

Lemma parse_render tail fuel :
  parse_loop ParseFloat (length (rows g) + fuel) (render ftext g ++ tail) defaults
  = parse_loop ParseFloat fuel tail g.
Proof. unfold render. rewrite parse_settings by apply rows_ok. by rewrite rows_apply. Qed.

Lemma Parse_render tail :
  Parse ParseFloat (render ftext g ++ tail) defaults = parse_loop ParseFloat (S (length tail)) tail g.
Proof.
  unfold Parse. rewrite <- (parse_render tail (S (length tail))). reflexivity.
Qed.
End configurations.

(** The defaults are a configuration, and so is a configuration with one flag
    changed. *)
Lemma well_typed_insert (ParseFloat : gostring → option tracing.float64) (ftext : gostring) (g : formal)
    (n : gostring) (old v : value) :
  well_typed ParseFloat ftext g → defaults !! n = Some old → value_ok ParseFloat ftext old v →
  well_typed ParseFloat ftext (<[n := v]> g).
Proof.
  intros [Hd Hg] Hn Hv. split.
  - rewrite dom_insert_L, Hd. apply elem_of_dom_2 in Hn.
    by apply subseteq_union_1_L, singleton_subseteq_l.
  - intros n' old' v' En [[<- <-]|[_ Eg]]%lookup_insert_Some; [|by apply (Hg n')].
    rewrite Hn in En. by injection En as <-.
Qed.

Lemma well_typed_defaults (ParseFloat : gostring → option tracing.float64) (ftext : gostring) :
  (∀ x, (∃ s, (s, VFloat x) ∈ table) → ParseFloat ftext = Some x) → well_typed ParseFloat ftext defaults.
Proof.
  intros Hf. split; [done|]. intros n old v Ho Hv. rewrite Ho in Hv. injection Hv as <-.
  pose proof (defaults_lists_empty n) as He. pose proof Ho as Ho'. apply defaults_lookup in Ho' as (s & _ & Hin).
  assert (forallb (λ kv : string * value, match snd kv with
            | VInt z | VDuration z => (- two63 <=? z) && (z <? two63) | _ => true end) table = true) as Hr
    by (vm_compute; reflexivity).
  rewrite forallb_forall in Hr. specialize (Hr (s, old) (proj1 (list_elem_of_In _ _) Hin)). cbn [snd] in Hr.
  destruct old as [|z|d| |x|l]; cbn [value_ok]; try done.
  - apply andb_true_iff in Hr as [?%Z.leb_le ?%Z.ltb_lt]. done.
  - apply andb_true_iff in Hr as [?%Z.leb_le ?%Z.ltb_lt]. done.
  - apply Hf. eauto.
  - by rewrite (He l Ho).
Qed.

(** ** Theorems *)

Section process.
Context {L Cert : Type} (held : res unit * gmap gostring L)
  (ReadFile : gostring → option (list byte)) (AppendCertsFromPEM : list byte → bool)
  (LoadX509KeyPair : gostring → gostring → option Cert) (NewClient : gostring → bool)
  (KafkaClient : list gostring → bool) (ParseFloat : gostring → option tracing.float64)
  (otel : tracing.env) (version : gostring).

Abbreviation run := (main held ReadFile AppendCertsFromPEM LoadX509KeyPair NewClient KafkaClient ParseFloat otel version).
Abbreviation starts := (start held ReadFile AppendCertsFromPEM LoadX509KeyPair NewClient KafkaClient).


(** The settings the full bridge cannot do without. *)
Definition minimal (propagation kafka advertise peer : gostring) : list (gostring * value) :=
  [(str "propagation", VList [propagation]); (str "kafka", VList [kafka]);
   (str "advertise", VString advertise); (str "peer-id", VString peer)].

Lemma minimal_ok ftext p k a i : clean p → clean k → Forall (setting_ok ParseFloat ftext defaults) (minimal p k a i).
Proof.
  intros Hp Hk. unfold minimal. repeat (apply Forall_cons; split; [|]); [..|done].
  all: split; [by split_and!; [|discriminate|apply (bool_decide_unpack _); vm_compute]|].
  - exists (VList []). split; [reflexivity|]. by apply Forall_singleton.
  - exists (VList []). split; [reflexivity|]. by apply Forall_singleton.
  - by exists (VString []).
  - by exists (VString []).
Qed.

Lemma minimal_flags p k a i :
  flags_of (foldl apply_setting defaults (minimal p k a i))
  = mkFlags (str "all") [p] [k] a i (str "/api/v1") (str "subtrees-teranode1") (str "blocks-teranode1")
      [] [] [] 8726 8727 true [] (dial.mkTLS 0 [] [] [])
      reverse.DefaultKeepaliveTime reverse.DefaultKeepaliveTimeout true (2 ^ 30) (10 * 60 * second) (-1) (5 * second)
      (txpipe.mkConfig [] 512 (8 * 2 ^ 20) (2 * milli) 4 6 0 8192 4) (15 * second) (str "[::]:9146") (60 * second).
Proof. vm_compute. reflexivity. Qed.

Lemma minimal_tracing p k a i :
  tracing.Enabled (tracing_of version (foldl apply_setting defaults (minimal p k a i))) = false.
Proof. vm_compute. reflexivity. Qed.

Lemma main_settings ftext ss now gl f :
  Forall (setting_ok ParseFloat ftext defaults) ss → f = foldl apply_setting defaults ss →
  tracing.Enabled (tracing_of version f) = false →
  run now (arg ftext <$> ss) gl = starts now (flags_of f).
Proof.
  intros Hs -> Ht. unfold main, Parse. rewrite length_fmap, <- (app_nil_r (arg ftext <$> ss)).
  rewrite <- Nat.add_1_r, (parse_settings ParseFloat ftext ss defaults [] 1 Hs). cbn [parse_loop parseOne].
  unfold tracing.Init. by rewrite Ht.
Qed.

(** The documented minimum is enough: with the four required settings and
    nothing else the full bridge starts, when the sockets passed to it are
    usable and the Kafka client can be made. It has the three delivery lanes,
    announces under the advertised address with the default prefix, has no
    reverse path, keeps a transaction cache, and submits to the one endpoint
    with the pipe's own defaults. Without one of the four it refuses, with
    status 2. *)
Theorem minimal_command_line (ftext p k a i : gostring) (now : Z) (gl : tracing.globals) :
  clean p → clean k → a ≠ [] → i ≠ [] → fst held = Ok tt → KafkaClient [k] = true →
  (∃ plan, run now (arg ftext <$> minimal p k a i) gl = Started plan ∧
     l_Name <$> p_lanes plan = [str "tx"; str "subtree"; str "block"] ∧
     p_baseURL plan = Some (retrieval.BaseURL (str "/api/v1") a) ∧
     p_rev plan = None ∧ is_Some (p_txs plan) ∧
     txpipe.cfg <$> p_pipe plan
     = Some (txpipe.mkConfig [txpipe.TrimRight_slash p] 512 (8 * 2 ^ 20) (2 * milli) 4 6 (30 * second) 8192 4)) ∧
  ∀ j, (j < 4)%nat → run now (arg ftext <$> delete j (minimal p k a i)) gl = Exit 2.
Proof.
  intros Hp Hk Ha Hi Hh Hc. split.
  - rewrite (main_settings ftext (minimal p k a i) now gl _ (minimal_ok _ _ _ _ _ Hp Hk) eq_refl)
      by apply minimal_tracing.
    rewrite minimal_flags. set (f := mkFlags _ _ _ _ _ _ _ _ _ _ _ _ _ _ _ _ _ _ _ _ _ _ _ _ _ _ _).
    destruct (start_succeeds held ReadFile AppendCertsFromPEM LoadX509KeyPair NewClient KafkaClient now f)
      as (plan & E); [by destruct a, i|by intros _|done|by intros [_ []]|].
    + exists plan. split; [done|]. apply start_inv in E as (_ & _ & pipe & ann & r & Ep & Ea & Er & _ & ->).
      cbn [p_lanes p_baseURL p_rev p_txs p_pipe].
      assert (r = None) as -> by (by injection Er as <-).
      assert (snd <$> ann = Some (retrieval.BaseURL (str "/api/v1") a)) as ->.
      { unfold build_announce, announce.New in Ea. cbn in Ea. rewrite Hc in Ea. by injection Ea as <-. }
      assert (txpipe.cfg <$> pipe = Some (txpipe.mkConfig [txpipe.TrimRight_slash p] 512 (8 * 2 ^ 20) (2 * milli)
                4 6 (30 * second) 8192 4)) as -> by (by injection Ep as <-).
      by split_and!; [..|eexists|].
  - intros j Hj. assert (Forall (setting_ok ParseFloat ftext defaults) (delete j (minimal p k a i))) as Hs
      by (by apply Forall_delete, minimal_ok).
    destruct a as [|c a]; [done|].
    rewrite (main_settings ftext _ now gl _ Hs eq_refl).
    all: destruct j as [|[|[|[|j]]]]; [..|lia]; vm_compute; reflexivity.
Qed.
End process.

(** ** Witnesses *)

Definition cl_otel : tracing.env := tracing.mkEnv (λ _, None) (λ _ _, None) (λ _, None).
Definition cl_globals : tracing.globals := tracing.mkGlobals [] None.
Definition cl_float (s : gostring) : option tracing.float64 :=
  if bool_decide (s = str "0.01") then Some (tracing.Fin (5764607523034235 # 2 ^ 59)) else None.
Definition cl_run (args : list gostring) : outcome nat unit :=
  main (Ok tt, ∅) (λ _, None) (λ _, false) (λ _ _, None) (λ _, true) (λ _, true) cl_float cl_otel (str "v1") 0 args cl_globals.


Lemma minimal_command_line_witness :
  ∃ plan, cl_run (str <$> ["-propagation=http://p:20833/"; "-kafka=k:19092"; "-advertise=http://b:9145"; "-peer-id=12D3"])
          = Started plan ∧ l_Name <$> p_lanes plan = [str "tx"; str "subtree"; str "block"].
Proof.
  destruct (minimal_command_line (L := nat) (Cert := unit) (Ok tt, ∅) (λ _, None) (λ _, false) (λ _ _, None) (λ _, true)
    (λ _, true) cl_float cl_otel (str "v1") [] (str "http://p:20833/") (str "k:19092") (str "http://b:9145") (str "12D3")
    0 cl_globals) as ((plan & E & H & _) & _).
  1, 2: split_and!; [discriminate|apply (bool_decide_unpack _); vm_compute; exact I|vm_compute; reflexivity].
  - discriminate.
  - discriminate.
  - reflexivity.
  - reflexivity.
  - exists plan. split; [exact E|exact H].
Defined.
