(* ===== verification/Serving.v ===== *)
(** * The running process: listeners, readiness and exit

    What [main] ([src/cmd/teranode-bridge/main.go]) runs after start-up: the
    lanes' [Serve] ([src/lanes/lanes.go]) with their listeners and bound flags,
    the two HTTP servers ([Serve] of [src/retrieval/server.go] and of
    [src/internal/metrics/metrics.go]), [waitLanesBound], and the group that
    runs them: the first error cancels its context, and [Wait] returns when
    every task has. The state is where each task is; an event is one action of
    one task, of a peer or of the operating system, and a run is any sequence
    of events. [http.Server] is modelled by what its documentation says of
    [Serve] and [Shutdown]: after [Shutdown] is called [Serve] returns at once,
    while the requests being answered go on. *)

From Stdlib Require Import Strings.Byte.
From stdpp Require Import base list strings numbers gmap relations.
From S2P Require Import Prelude HashId Objfmt Generational TxBuild Announce Handlers Health Startup.

#[global] Instance task_eq_decision : EqDecision startup.task.
Proof. solve_decision. Defined.

Module serving.
(** A task is done when [Serve] (or [Run]) has returned and the group has
    taken its result. *)
Inductive ending : Type :=
| Returned (e : option error)
| Collected (e : option error).

(** ** A lane *)

Inductive lphase : Type :=
| LStarting                (** before [Listen] *)
| LServing                 (** in the accept loop *)
| LDraining                (** in [wg.Wait()] *)
| LEnded (e : ending).
Record lane : Type := mkLane {
  held : bool;        (** a listener was passed in *)
  lphase_of : lphase;
  closed : bool;      (** the listener was closed on cancellation *)
  conns : nat
}.

Inductive accept : Type := AConn | ATimeout | AFail (e : error).

(** [Bound], and whether the listener can be connected to. *)
Definition Bound (l : lane) : bool :=
  match lphase_of l with LServing | LDraining => true | _ => false end.
Definition listening (l : lane) : bool :=
  match lphase_of l with LServing => negb (closed l) | _ => false end.

Definition with_phase (p : lphase) (l : lane) : lane := mkLane (held l) p (closed l) (conns l).

(** The head of [Serve], up to the accept loop. *)
Definition lane_listen (r : option error) (l : lane) : option lane :=
  match lphase_of l with
  | LStarting =>
      if held l then Some (with_phase LServing l)
      else match r with
           | None => Some (with_phase LServing l)
           | Some e => Some (with_phase (LEnded (Returned (Some e))) l)
           end
  | _ => None
  end.
(** One round of the accept loop. *)
Definition lane_accept (cancelled : bool) (r : accept) (l : lane) : option lane :=
  match lphase_of l with
  | LServing =>
      match r with
      | AConn => if closed l then None else Some (mkLane (held l) LServing (closed l) (S (conns l)))
      | ATimeout =>
          if closed l then None else if cancelled then Some (with_phase LDraining l) else Some l
      | AFail e =>
          if cancelled then Some (with_phase LDraining l)
          else Some (with_phase (LEnded (Returned (Some e))) l)
      end
  | _ => None
  end.
(** [<-ctx.Done(); ln.Close()]. *)
Definition lane_close (cancelled : bool) (l : lane) : option lane :=
  match lphase_of l with
  | LStarting => None
  | p => if cancelled then Some (mkLane (held l) p true (conns l)) else None
  end.
Definition lane_conn_done (l : lane) : option lane :=
  match conns l with S n => Some (mkLane (held l) (lphase_of l) (closed l) n) | O => None end.
(** [wg.Wait()] is over. *)
Definition lane_waited (l : lane) : option lane :=
  match lphase_of l, conns l with
  | LDraining, O => Some (with_phase (LEnded (Returned None)) l)
  | _, _ => None
  end.

(** ** An HTTP server *)

Inductive hphase : Type := HStarting | HServing | HEnded (e : ending).
Record http : Type := mkHttp {
  hphase_of : hphase;
  shut : bool;        (** [Shutdown] was called *)
  inflight : nat      (** requests being answered *)
}.
(** [Listening] of the retrieval server. *)
Definition Listening (h : http) : bool := match hphase_of h with HServing => true | _ => false end.

Definition http_listen (r : option error) (h : http) : option http :=
  match hphase_of h with
  | HStarting =>
      match r with
      | None => Some (mkHttp HServing (shut h) (inflight h))
      | Some e => Some (mkHttp (HEnded (Returned (Some e))) (shut h) (inflight h))
      end
  | _ => None
  end.
Definition http_request (h : http) : option http :=
  if Listening h && negb (shut h) then Some (mkHttp (hphase_of h) (shut h) (S (inflight h))) else None.
Definition http_response (h : http) : option http :=
  match inflight h with S n => Some (mkHttp (hphase_of h) (shut h) n) | O => None end.
(** [<-ctx.Done(); srv.Shutdown(sctx)], in a goroutine of its own. *)
Definition http_shutdown (cancelled : bool) (h : http) : option http :=
  if cancelled && Listening h then Some (mkHttp (hphase_of h) true (inflight h)) else None.
(** [srv.Serve(ln)] returns: [ErrServerClosed] after [Shutdown], or an error. *)
Definition http_return (e : error) (h : http) : option http :=
  match hphase_of h with
  | HServing => Some (mkHttp (HEnded (Returned (if shut h then None else Some e))) (shut h) (inflight h))
  | _ => None
  end.

(** ** The group *)

(** [waitLanesBound]: reading the flag of lane [i] having counted [bound], or
    waiting for the ticker. *)
Inductive wphase : Type := WScan (i bound : nat) | WTick | WEnded (collected : bool).

(** A task that returns nil once its context is done: the group's, or, for
    the pipe, the one cancelled when every lane has returned. *)
Inductive ophase : Type := ORunning | OReturned | OCollected.
Record other : Type := mkOther { is_pipe : bool; ophase_of : ophase }.

Record group : Type := mkGroup {
  lanes : list lane; ret : option http; met : option http; others : list other; wait : wphase;
  ready : bool;        (** the recorder's flag *)
  signalled : bool;    (** the process was told to stop *)
  cancelled : bool;    (** the group's context is done *)
  err : option error   (** the group's first error *)
}.

Inductive event : Type :=
| LaneListen (i : nat) (r : option error) | LaneAccept (i : nat) (r : accept) | LaneClose (i : nat)
| LaneConnDone (i : nat) | LaneWaited (i : nat) | LaneCollect (i : nat)
| HttpListen (m : bool) (r : option error) | HttpRequest (m : bool) | HttpResponse (m : bool)
| HttpShutdown (m : bool) | HttpReturn (m : bool) (e : error) | HttpCollect (m : bool)
| OtherReturn (j : nat) | OtherCollect (j : nat)
| WaitRead | WaitTick | WaitDone | WaitCollect
| Signal.

Definition set_lanes (l : list lane) (s : group) : group :=
  mkGroup l (ret s) (met s) (others s) (wait s) (ready s) (signalled s) (cancelled s) (err s).
Definition on_lane (i : nat) (f : lane → option lane) (s : group) : option group :=
  l ← lanes s !! i; l ← f l; Some (set_lanes (<[i := l]> (lanes s)) s).
(** The server of the retrieval plane, or that of the metrics. *)
Definition server (m : bool) (s : group) : option http := if m then met s else ret s.
Definition set_http (m : bool) (h : http) (s : group) : group :=
  if m then mkGroup (lanes s) (ret s) (Some h) (others s) (wait s) (ready s) (signalled s) (cancelled s) (err s)
  else mkGroup (lanes s) (Some h) (met s) (others s) (wait s) (ready s) (signalled s) (cancelled s) (err s).
(** [Serve] of the metrics recorder ends in the same code as that of the
    retrieval server: listen, shut down in a goroutine, serve. *)
Definition on_http (m : bool) (f : http → option http) (s : group) : option group :=
  h ← server m s; h ← f h; Some (set_http m h s).
Definition on_other (j : nat) (p : ophase) (s : group) : group :=
  mkGroup (lanes s) (ret s) (met s) (alter (λ o, mkOther (is_pipe o) p) j (others s)) (wait s) (ready s) (signalled s)
    (cancelled s) (err s).
Definition set_wait (w : wphase) (rd : bool) (s : group) : group :=
  mkGroup (lanes s) (ret s) (met s) (others s) w rd (signalled s) (cancelled s) (err s).

(** The goroutine of [g.Go] with a task's result: the first error is kept and
    cancels the context. *)
Definition collect (e : option error) (s : group) : group :=
  match e with
  | None => s
  | Some _ =>
      mkGroup (lanes s) (ret s) (met s) (others s) (wait s) (ready s) (signalled s) true
        (match err s with None => e | Some _ => err s end)
  end.

Definition lane_ended (l : lane) : bool := match lphase_of l with LEnded _ => true | _ => false end.
Definition lane_collected (l : lane) : bool := match lphase_of l with LEnded (Collected _) => true | _ => false end.
Definition http_collected (h : http) : bool := match hphase_of h with HEnded (Collected _) => true | _ => false end.
Definition other_collected (o : other) : bool := match ophase_of o with OCollected => true | _ => false end.

(** [g.Wait()] returns, and [main] ends with this status. *)
Definition exit_code (s : group) : option Z :=
  if forallb lane_collected (lanes s) && forallb http_collected (option_list (ret s) ++ option_list (met s))
     && forallb other_collected (others s) && match wait s with WEnded true => true | _ => false end
  then Some (match err s with Some _ => 1 | None => 0 end)
  else None.

(** The context of an [other] task is done. *)
Definition other_done (o : other) (s : group) : bool :=
  if is_pipe o then forallb lane_ended (lanes s) else cancelled s.

Definition do (ev : event) (s : group) : option group :=
  match ev with
  | LaneListen i r => on_lane i (lane_listen r) s
  | LaneAccept i r => on_lane i (lane_accept (cancelled s) r) s
  | LaneClose i => on_lane i (lane_close (cancelled s)) s
  | LaneConnDone i => on_lane i lane_conn_done s
  | LaneWaited i => on_lane i lane_waited s
  | LaneCollect i =>
      l ← lanes s !! i;
      match lphase_of l with
      | LEnded (Returned e) => Some (collect e (set_lanes (<[i := with_phase (LEnded (Collected e)) l]> (lanes s)) s))
      | _ => None
      end
  | HttpListen m r => on_http m (http_listen r) s
  | HttpRequest m => on_http m http_request s
  | HttpResponse m => on_http m http_response s
  | HttpShutdown m => on_http m (http_shutdown (cancelled s)) s
  | HttpReturn m e => on_http m (http_return e) s
  | HttpCollect m =>
      h ← server m s;
      match hphase_of h with
      | HEnded (Returned e) =>
          Some (collect e (set_http m (mkHttp (HEnded (Collected e)) (shut h) (inflight h)) s))
      | _ => None
      end
  | OtherReturn j =>
      o ← others s !! j;
      match ophase_of o with
      | ORunning => if other_done o s then Some (on_other j OReturned s) else None
      | _ => None
      end
  | OtherCollect j =>
      o ← others s !! j;
      match ophase_of o with OReturned => Some (on_other j OCollected s) | _ => None end
  | WaitRead =>
      match wait s with
      | WScan i b =>
          match lanes s !! i with
          | Some l => Some (set_wait (WScan (S i) (if Bound l then S b else b)) (ready s) s)
          | None =>
              if (b =? length (lanes s))%nat then Some (set_wait (WEnded false) true s)
              else Some (set_wait WTick (ready s) s)
          end
      | _ => None
      end
  | WaitTick => match wait s with WTick => Some (set_wait (WScan 0 0) (ready s) s) | _ => None end
  | WaitDone =>
      match wait s with
      | WTick => if cancelled s then Some (set_wait (WEnded false) (ready s) s) else None
      | _ => None
      end
  | WaitCollect => match wait s with WEnded false => Some (set_wait (WEnded true) (ready s) s) | _ => None end
  | Signal =>
      Some (mkGroup (lanes s) (ret s) (met s) (others s) (wait s) (ready s) true true (err s))
  end.

(** Nothing happens after [main] has ended. *)
Definition step (ev : event) (s : group) : option group :=
  match exit_code s with Some _ => None | None => do ev s end.

(** The group [main] starts for a plan. *)
Definition group_of {L Cert : Type} (p : startup.plan L Cert) : group :=
  let has t := bool_decide (t ∈ startup.p_tasks p) in
  let http0 := mkHttp HStarting false 0 in
  mkGroup ((λ l, mkLane (bool_decide (is_Some (startup.l_Listener l))) LStarting false 0) <$> startup.p_lanes p)
    (if has startup.ServeRetrieval then Some http0 else None)
    (if has startup.ServeMetrics then Some http0 else None)
    ((if has startup.RunPipe then [mkOther true ORunning] else [])
     ++ ((λ _, mkOther false ORunning) <$> filter (λ t, has t = true)
           [startup.RunReverse; startup.RunClusterState; startup.RunPromoter; startup.LogStats]))
    (WScan 0 0) false false false None.
End serving.

Import serving.

Definition steps : group → group → Prop := rtc (λ s s', ∃ ev, step ev s = Some s').

(** ** The invariant *)

Definition unstarted (l : lane) : Prop := lphase_of l = LStarting.

(** A lane that stopped accepting was told to, and one that returned without an
    error has no connection left; an error the group took is in [err]. *)
Definition lane_ok (c : bool) (er : option error) (l : lane) : Prop :=
  (closed l = true → c = true) ∧
  match lphase_of l with
  | LDraining => c = true
  | LEnded (Returned None) | LEnded (Collected None) => c = true ∧ conns l = 0%nat
  | LEnded (Collected (Some _)) => c = true ∧ er ≠ None
  | _ => True
  end.
Definition http_ok (c : bool) (er : option error) (h : http) : Prop :=
  (shut h = true → c = true) ∧
  match hphase_of h with
  | HEnded (Returned None) | HEnded (Collected None) => c = true
  | HEnded (Collected (Some _)) => c = true ∧ er ≠ None
  | _ => True
  end.

(** The group took the error of a lane or of a server. *)
Definition failed (s : group) : Prop :=
  (∃ i l e, lanes s !! i = Some l ∧ lphase_of l = LEnded (Collected (Some e))) ∨
  (∃ m h e, server m s = Some h ∧ hphase_of h = HEnded (Collected (Some e))).

Record serving_inv (s : group) : Prop := {
  v_lanes : ∀ i l, lanes s !! i = Some l → lane_ok (cancelled s) (err s) l;
  v_http : ∀ m h, server m s = Some h → http_ok (cancelled s) (err s) h;
  v_err : err s ≠ None → cancelled s = true;
  v_cancel : cancelled s = true → signalled s = true ∨ err s ≠ None;
  v_scan : match wait s with
           | WScan i b => (b ≤ i ≤ length (lanes s))%nat ∧
               (b = i → ∀ j l, (j < i)%nat → lanes s !! j = Some l → ¬ unstarted l)
           | WTick => True
           | WEnded _ => ready s = true ∨ cancelled s = true
           end;
  v_ready : ready s = true → ∀ j l, lanes s !! j = Some l → ¬ unstarted l
}.

(** What the group sees of a lane's own step. *)
Record lane_move (c : bool) (er : option error) (l l' : lane) : Prop := {
  lm_started : unstarted l' → unstarted l;
  lm_ok : lane_ok c er l → lane_ok c er l';
  lm_taken : ∀ e, lphase_of l = LEnded (Collected (Some e)) → lphase_of l' = LEnded (Collected (Some e))
}.
Record http_move (c : bool) (er : option error) (h h' : http) : Prop := {
  hm_ok : http_ok c er h → http_ok c er h';
  hm_taken : ∀ e, hphase_of h = HEnded (Collected (Some e)) → hphase_of h' = HEnded (Collected (Some e))
}.

Ltac move_tac :=
  repeat match goal with
  | H : (if ?b then _ else _) = Some _ |- _ => destruct b eqn:?
  | H : match ?x with _ => _ end = Some _ |- _ => destruct x eqn:?
  | H : _ && _ = true |- _ => apply andb_true_iff in H as [? ?]
  end; simplify_eq/=;
  split; unfold unstarted, lane_ok, http_ok, with_phase in *; cbn in *; subst; cbn in *;
  repeat match goal with E : lphase_of _ = _ |- _ => rewrite E in * | E : hphase_of _ = _ |- _ => rewrite E in * end;
  cbn in *; naive_solver.

Lemma lane_listen_move c er r l l' : lane_listen r l = Some l' → lane_move c er l l'.
Proof. unfold lane_listen. intros H. move_tac. Qed.
Lemma lane_accept_move c er r l l' : lane_accept c r l = Some l' → lane_move c er l l'.
Proof. unfold lane_accept. intros H. move_tac. Qed.
Lemma lane_close_move c er l l' : lane_close c l = Some l' → lane_move c er l l'.
Proof. unfold lane_close. intros H. move_tac. Qed.
Lemma lane_conn_done_move c er l l' : lane_conn_done l = Some l' → lane_move c er l l'.
Proof. unfold lane_conn_done. intros H. destruct l as [hd [| | |[[]|[]]] cl [|n]]; move_tac. Qed.
Lemma lane_waited_move c er l l' : lane_waited l = Some l' → lane_move c er l l'.
Proof. unfold lane_waited. intros H. move_tac. Qed.
Lemma http_listen_move c er r h h' : http_listen r h = Some h' → http_move c er h h'.
Proof. unfold http_listen. intros H. move_tac. Qed.
Lemma http_request_move c er h h' : http_request h = Some h' → http_move c er h h'.
Proof. unfold http_request. intros H. move_tac. Qed.
Lemma http_response_move c er h h' : http_response h = Some h' → http_move c er h h'.
Proof. unfold http_response. intros H. move_tac. Qed.
Lemma http_shutdown_move c er h h' : http_shutdown c h = Some h' → http_move c er h h'.
Proof. unfold http_shutdown, Listening. intros H. move_tac. Qed.
Lemma http_return_move c er e h h' : http_return e h = Some h' → http_move c er h h'.
Proof. unfold http_return. intros H. destruct h as [p [] n]; move_tac. Qed.

#[local] Hint Resolve lane_listen_move lane_accept_move lane_close_move lane_conn_done_move lane_waited_move
  http_listen_move http_request_move http_response_move http_shutdown_move http_return_move : core.

Lemma lane_ok_cancelled c er er' l : er' ≠ None → lane_ok c er l → lane_ok true er' l.
Proof. unfold lane_ok. destruct (lphase_of l) as [| | |[[]|[]]]; naive_solver. Qed.
Lemma http_ok_cancelled c er er' h : er' ≠ None → http_ok c er h → http_ok true er' h.
Proof. unfold http_ok. destruct (hphase_of h) as [| |[[]|[]]]; naive_solver. Qed.
Lemma lane_ok_signalled c er l : lane_ok c er l → lane_ok true er l.
Proof. unfold lane_ok. destruct (lphase_of l) as [| | |[[]|[]]]; naive_solver. Qed.
Lemma http_ok_signalled c er h : http_ok c er h → http_ok true er h.
Proof. unfold http_ok. destruct (hphase_of h) as [| |[[]|[]]]; naive_solver. Qed.

(** A lane's slot after an update. *)
Lemma lane_slot (ls : list lane) i j l' x :
  <[i := l']> ls !! j = Some x → (i = j ∧ x = l') ∨ (i ≠ j ∧ ls !! j = Some x).
Proof. intros H. apply list_lookup_insert_Some in H as [(-> & -> & _)|[? ?]]; auto. Qed.

Lemma set_lane_inv s i l l' :
  serving_inv s → lanes s !! i = Some l → lane_move (cancelled s) (err s) l l' →
  serving_inv (set_lanes (<[i := l']> (lanes s)) s).
Proof.
  intros [VL VH VE VC VS VR] Hi [Hst Hok Htk].
  assert (Hns : ∀ j x, <[i := l']> (lanes s) !! j = Some x → unstarted x → ∃ y, lanes s !! j = Some y ∧ unstarted y).
  { intros j x [[<- ->]|[_ ?]]%lane_slot Hu; eauto. }
  split; cbn; auto.
  - intros j x [[<- ->]|[_ ?]]%lane_slot; eauto.
  - destruct (wait s) as [k b| |]; [|done..]. rewrite length_insert. destruct VS as [? HS]. split; [done|].
    intros Hb j x Hj Hx Hu. destruct (Hns j x Hx Hu) as (y & Hy & Hu'). exact (HS Hb j y Hj Hy Hu').
  - intros Hr j x Hx Hu. destruct (Hns j x Hx Hu) as (y & Hy & Hu'). exact (VR Hr j y Hy Hu').
Qed.

Lemma on_lane_inv s s' i f :
  serving_inv s → on_lane i f s = Some s' →
  (∀ l l', f l = Some l' → lane_move (cancelled s) (err s) l l') → serving_inv s'.
Proof.
  unfold on_lane. intros V H Hf. destruct (lanes s !! i) as [l|] eqn:E; [|done]. cbn in H.
  destruct (f l) as [l'|] eqn:E'; [|done]. simplify_eq/=. eapply set_lane_inv; eauto.
Qed.

Lemma server_set_http m m' h x s :
  server m' (set_http m h s) = Some x ↔ (m' = m ∧ x = h) ∨ (m' ≠ m ∧ server m' s = Some x).
Proof. destruct m, m'; cbn; naive_solver. Qed.

Lemma set_http_inv s m h h' :
  serving_inv s → server m s = Some h → http_move (cancelled s) (err s) h h' → serving_inv (set_http m h' s).
Proof.
  intros [VL VH VE VC VS VR] Hm [Hok _].
  assert (Hv : ∀ m' x, server m' (set_http m h' s) = Some x → http_ok (cancelled s) (err s) x).
  { intros m' x [[-> ->]|[_ ?]]%server_set_http; eauto. }
  destruct m; split; auto.
Qed.

Lemma on_http_inv s s' m f :
  serving_inv s → on_http m f s = Some s' →
  (∀ h h', f h = Some h' → http_move (cancelled s) (err s) h h') → serving_inv s'.
Proof.
  unfold on_http. intros V H Hf. destruct (server m s) as [h|] eqn:E; [|done]. cbn in H.
  destruct (f h) as [h'|] eqn:E'; [|done]. simplify_eq/=. eapply set_http_inv; eauto.
Qed.

Lemma set_lane_failed s i l l' :
  failed s → lanes s !! i = Some l → (∀ e, lphase_of l = LEnded (Collected (Some e)) → lphase_of l' = LEnded (Collected (Some e))) →
  failed (set_lanes (<[i := l']> (lanes s)) s).
Proof.
  intros [(j & x & e & Hx & Hp)|HF] Hi Htk; [left|right; exact HF]. destruct (decide (j = i)) as [->|].
  - simplify_eq. exists i, l', e. cbn. rewrite list_lookup_insert_eq by (eapply lookup_lt_Some; eauto). auto.
  - exists j, x, e. cbn. rewrite list_lookup_insert_ne by done. auto.
Qed.

Lemma set_http_failed s m h h' :
  failed s → server m s = Some h → (∀ e, hphase_of h = HEnded (Collected (Some e)) → hphase_of h' = HEnded (Collected (Some e))) →
  failed (set_http m h' s).
Proof.
  intros [HF|(k & x & e & Hx & Hp)] Hm Htk; [left; destruct m; exact HF|right]. destruct (decide (k = m)) as [->|].
  - simplify_eq. exists m, h', e. rewrite server_set_http. naive_solver.
  - exists k, x, e. rewrite server_set_http. naive_solver.
Qed.

Lemma collect_inv e s : serving_inv s → serving_inv (collect e s).
Proof.
  destruct e as [e|]; [|done]. intros [VL VH VE VC VS VR].
  assert (He : match err s with None => Some e | Some _ => err s end ≠ None) by (destruct (err s); done).
  split; cbn; auto.
  - intros i l Hl. eapply lane_ok_cancelled; eauto.
  - intros m h Hh. eapply http_ok_cancelled; [done|]. apply (VH m h). destruct m; exact Hh.
  - destruct (wait s); auto.
Qed.

Lemma collect_set_lanes e ls s : collect e (set_lanes ls s) = set_lanes ls (collect e s).
Proof. destruct e; done. Qed.
Lemma collect_set_http e m h s : collect e (set_http m h s) = set_http m h (collect e s).
Proof. destruct e, m; done. Qed.
Lemma collect_lanes e s : lanes (collect e s) = lanes s.
Proof. destruct e; done. Qed.
Lemma collect_server e m s : server m (collect e s) = server m s.
Proof. destruct e, m; done. Qed.
Lemma collect_failed e s : failed (collect e s) ↔ failed s.
Proof. unfold failed. rewrite collect_lanes. setoid_rewrite collect_server. done. Qed.
Lemma collect_err e s : err (collect (Some e) s) ≠ None ∧ cancelled (collect (Some e) s) = true.
Proof. cbn. destruct (err s); done. Qed.

(** The group takes the result of a lane, or of a server. *)
Lemma lane_collect_inv s i l e :
  serving_inv s → lanes s !! i = Some l → lphase_of l = LEnded (Returned e) →
  serving_inv (collect e (set_lanes (<[i := with_phase (LEnded (Collected e)) l]> (lanes s)) s)).
Proof.
  intros V Hi Hp. rewrite collect_set_lanes, <- (collect_lanes e s) at 1.
  apply (set_lane_inv _ i l); [by apply collect_inv|by rewrite collect_lanes|].
  split; unfold unstarted, lane_ok; cbn; rewrite ?Hp; [done| |done].
  destruct e as [e|]; [pose proof (collect_err e s); naive_solver|done].
Qed.
Lemma http_collect_inv s m h e :
  serving_inv s → server m s = Some h → hphase_of h = HEnded (Returned e) →
  serving_inv (collect e (set_http m (mkHttp (HEnded (Collected e)) (shut h) (inflight h)) s)).
Proof.
  intros V Hi Hp. rewrite collect_set_http. apply (set_http_inv _ m h); [by apply collect_inv|by rewrite collect_server|].
  split; unfold http_ok; cbn; rewrite ?Hp; [|done].
  destruct e as [e|]; [pose proof (collect_err e s); naive_solver|done].
Qed.

Lemma set_wait_inv w rd s :
  serving_inv s →
  match w with
  | WScan i b => (b ≤ i ≤ length (lanes s))%nat ∧ (b = i → ∀ j l, (j < i)%nat → lanes s !! j = Some l → ¬ unstarted l)
  | WTick => True
  | WEnded _ => rd = true ∨ cancelled s = true
  end →
  (rd = true → ∀ j l, lanes s !! j = Some l → ¬ unstarted l) → serving_inv (set_wait w rd s).
Proof. intros [VL VH VE VC _ _] HW HR. split; auto. Qed.

Lemma Bound_started l : Bound l = true → ¬ unstarted l.
Proof. unfold Bound, unstarted. intros H E. rewrite E in H. done. Qed.

Lemma wait_read_inv s s' : serving_inv s → do WaitRead s = Some s' → serving_inv s'.
Proof.
  intros V H. cbn in H. pose proof (v_scan s V) as VS. pose proof (v_ready s V) as VR.
  destruct (wait s) as [i b| |] eqn:W; [|done..].
  destruct VS as [Hb HS]. destruct (lanes s !! i) as [l|] eqn:E.
  - simplify_eq. apply set_wait_inv; [done| |done]. pose proof (lookup_lt_Some _ _ _ E).
    split; [destruct (Bound l); lia|]. intros Hbi j x Hj Hx.
    destruct (Bound l) eqn:B; [|lia]. destruct (decide (j = i)) as [->|].
    + simplify_eq. by apply Bound_started.
    + eapply HS; [lia| |done]; lia.
  - apply lookup_ge_None in E. destruct (b =? length (lanes s))%nat eqn:Q; simplify_eq.
    + apply Nat.eqb_eq in Q. apply set_wait_inv; [done|by left|]. intros _ j x Hx. eapply HS; [lia| |done].
      apply lookup_lt_Some in Hx. lia.
    + by apply set_wait_inv.
Qed.

(** ** Every step preserves it *)

Lemma do_inv ev s s' : serving_inv s → do ev s = Some s' → serving_inv s'.
Proof.
  intros V H. destruct ev; cbn in H; try (eapply on_lane_inv; [done..|eauto]; fail);
    try (eapply on_http_inv; [done..|eauto]; fail).
  - destruct (lanes s !! i) as [l|] eqn:E; [|done]. cbn in H.
    destruct (lphase_of l) as [| | |[e|]] eqn:P; simplify_eq. by apply lane_collect_inv.
  - destruct (server m s) as [h|] eqn:E; [|done]. cbn in H.
    destruct (hphase_of h) as [| |[e|]] eqn:P; simplify_eq. by apply http_collect_inv.
  - destruct (others s !! j) as [o|]; [|done]. cbn in H.
    destruct (ophase_of o), (other_done o s); simplify_eq. destruct V. split; auto.
  - destruct (others s !! j) as [o|]; [|done]. cbn in H.
    destruct (ophase_of o); simplify_eq. destruct V. split; auto.
  - by apply (wait_read_inv s).
  - destruct (wait s); simplify_eq. apply set_wait_inv; [done| |apply v_ready, V]. split; [cbn; lia|]. intros _ j x ?. lia.
  - destruct (wait s), (cancelled s) eqn:C; simplify_eq. apply set_wait_inv; [done|by right|apply v_ready, V].
  - pose proof (v_scan s V) as VS. destruct (wait s) as [| |[]]; simplify_eq. apply set_wait_inv; [done..|apply v_ready, V].
  - simplify_eq. destruct V as [VL VH VE VC VS VR]. split; cbn; auto.
    + intros i l Hl. eapply lane_ok_signalled; eauto.
    + intros m h Hh. eapply http_ok_signalled; eauto.
    + destruct (wait s); auto.
Qed.

Lemma step_do ev s s' : step ev s = Some s' → do ev s = Some s'.
Proof. unfold step. by destruct (exit_code s). Qed.

Lemma steps_inv s s' : steps s s' → serving_inv s → serving_inv s'.
Proof. induction 1 as [|x y z (ev & H%step_do) _ IH]; [done|]. eauto using do_inv. Qed.

(** The group's error is one it took, and it is not taken back. *)
Lemma do_failed ev s s' : (err s ≠ None → failed s) → do ev s = Some s' → err s' ≠ None → failed s'.
Proof.
  intros F H He. destruct ev; cbn in H;
    try (unfold on_lane in H; destruct (lanes s !! i) as [l|] eqn:E; [|done]; cbn in H;
         match type of H with (?g ≫= _) = _ => destruct g as [l'|] eqn:E'; [|done] end; simplify_eq/=;
         eapply set_lane_failed; [by apply F|done|]; eapply (lm_taken (cancelled s) (err s)); eauto; fail);
    try (unfold on_http in H; destruct (server m s) as [h|] eqn:E; [|done]; cbn in H;
         match type of H with (?g ≫= _) = _ => destruct g as [h'|] eqn:E'; [|done] end; simplify_eq/=;
         eapply set_http_failed; [apply F; by destruct m|done|]; eapply (hm_taken (cancelled s) (err s)); eauto; fail).
  - destruct (lanes s !! i) as [l|] eqn:E; [|done]. cbn in H.
    destruct (lphase_of l) as [| | |[e|]] eqn:P; simplify_eq. rewrite collect_failed. destruct e as [e|].
    + left. exists i, (with_phase (LEnded (Collected (Some e))) l), e. cbn.
      rewrite list_lookup_insert_eq by (eapply lookup_lt_Some; eauto). done.
    + eapply set_lane_failed; [by apply F|done|]. by rewrite P.
  - destruct (server m s) as [h|] eqn:E; [|done]. cbn in H.
    destruct (hphase_of h) as [| |[e|]] eqn:P; simplify_eq. rewrite collect_failed. destruct e as [e|].
    + right. exists m, (mkHttp (HEnded (Collected (Some e))) (shut h) (inflight h)), e. rewrite server_set_http. auto.
    + eapply set_http_failed; [apply F; by destruct m|done|]. by rewrite P.
  - destruct (others s !! j) as [o|]; [|done]. cbn in H.
    destruct (ophase_of o), (other_done o s); simplify_eq. by apply F.
  - destruct (others s !! j) as [o|]; [|done]. cbn in H. destruct (ophase_of o); simplify_eq. by apply F.
  - destruct (wait s) as [k b| |]; [|done..].
    destruct (lanes s !! k); [|destruct (b =? length (lanes s))%nat]; simplify_eq; by apply F.
  - destruct (wait s); simplify_eq. by apply F.
  - destruct (wait s), (cancelled s); simplify_eq. by apply F.
  - destruct (wait s) as [| |[]]; simplify_eq. by apply F.
  - simplify_eq. by apply F.
Qed.

Lemma steps_failed s s' : steps s s' → (err s ≠ None → failed s) → err s' ≠ None → failed s'.
Proof. induction 1 as [|x y z (ev & H%step_do) _ IH]; [done|]. intros F. apply IH. eauto using do_failed. Qed.

(** The group as [main] starts it. *)
Record fresh (s : group) : Prop := {
  fr_lanes : ∀ i l, lanes s !! i = Some l → lphase_of l = LStarting ∧ closed l = false;
  fr_http : ∀ m h, server m s = Some h → hphase_of h = HStarting ∧ shut h = false;
  fr_flags : ready s = false ∧ signalled s = false ∧ cancelled s = false ∧ err s = None ∧ wait s = WScan 0 0
}.
Lemma fresh_inv s : fresh s → serving_inv s.
Proof.
  intros [FL FH (R & S & C & E & W)]. split; rewrite ?R, ?C, ?E, ?W; try done.
  - intros i l Hl. destruct (FL i l Hl) as [P Q]. unfold lane_ok. rewrite P, Q. done.
  - intros m h Hh. destruct (FH m h Hh) as [P Q]. unfold http_ok. rewrite P, Q. done.
  - split; [lia|]. intros _ j l ?. lia.
Qed.
Lemma group_of_fresh {L Cert : Type} (p : startup.plan L Cert) : fresh (group_of p).
Proof.
  split; cbn; [| |done].
  - intros i l H. apply list_lookup_fmap_Some in H as (x & -> & _). done.
  - intros [] h; cbn; case_bool_decide; intros; simplify_eq; done.
Qed.
Lemma reach_inv {L Cert : Type} (p : startup.plan L Cert) s : steps (group_of p) s → serving_inv s.
Proof. intros H. eapply steps_inv; [done|]. apply fresh_inv, group_of_fresh. Qed.
Lemma reach_failed {L Cert : Type} (p : startup.plan L Cert) s : steps (group_of p) s → err s ≠ None → failed s.
Proof. intros H. eapply steps_failed; [done|]. done. Qed.

(** ** Readiness *)

(** What the health checks read of the running process. *)
Definition deps_at (s : group) (d : health.deps) : health.deps :=
  health.mkDeps (zlen (lanes s)) (ready s) (Listening <$> ret s) (health.d_producer d) (health.d_propagation d)
    (health.d_assetBase d) (health.d_rev d) (health.d_http d).
Definition readiness (s : group) (d : health.deps) (sink polled : bool) : Z :=
  fst (health.CheckAll false false (health.buildChecks (deps_at s d) sink polled)).

Lemma readiness_200 s d sink polled :
  readiness s d sink polled = health.StatusOK ↔
  ready s = true ∧ (sink = false → ∀ h, ret s = Some h → Listening h = true).
Proof.
  unfold readiness. rewrite (proj1 (health_routes_local (deps_at s d) sink polled false)).
  unfold Health.serving, deps_at. cbn [health.d_ready health.d_ret].
  transitivity (ready s && (sink || default true (Listening <$> ret s)) = true).
  { destruct (ready s && _); split; done. }
  rewrite andb_true_iff, orb_true_iff. destruct sink, (ret s) as [h|]; naive_solver.
Qed.

(** A lane that is past its start and was not told to stop accepts connections,
    or has just returned an error. *)
Lemma lane_ok_live er l :
  lane_ok false er l → ¬ unstarted l →
  listening l = true ∨ ∃ e, lphase_of l = LEnded (Returned (Some e)).
Proof.
  unfold lane_ok, unstarted, listening. intros [Hc Hp] Hu.
  destruct (lphase_of l) as [| | |[[e|]|[e|]]].
  - by destruct Hu.
  - left. destruct (closed l); [by discriminate Hc|done].
  - discriminate Hp.
  - right. by exists e.
  - by destruct Hp.
  - by destruct Hp.
  - by destruct Hp.
Qed.


(** ** Readiness is reached *)

Fixpoint run (evs : list event) (s : group) : option group :=
  match evs with [] => Some s | ev :: evs => s ← step ev s; run evs s end.

Lemma run_steps evs s s' : run evs s = Some s' → steps s s'.
Proof.
  revert s. induction evs as [|ev evs IH]; intros s H; cbn in H; [by simplify_eq; constructor|].
  destruct (step ev s) as [s1|] eqn:E; [|done]. eapply rtc_l; [eauto|]. by apply IH.
Qed.
Lemma run_app evs evs' s s' : run evs s = Some s' → run (evs ++ evs') s = run evs' s'.
Proof.
  revert s. induction evs as [|ev evs IH]; intros s H; cbn in *; [by simplify_eq|].
  destruct (step ev s); [|done]. by apply IH.
Qed.

Definition waiting (s : group) : bool := match wait s with WEnded _ => false | _ => true end.
Lemma waiting_step ev s : waiting s = true → step ev s = do ev s.
Proof.
  unfold waiting, step, exit_code. destruct (wait s) as [| |[]]; rewrite ?andb_false_r; done.
Qed.

(** The rest of a scan over bound lanes. *)
Lemma scan_bound k s i b :
  wait s = WScan i b → (i + k = length (lanes s))%nat → (∀ j l, lanes s !! j = Some l → Bound l = true) →
  run (replicate k WaitRead) s = Some (set_wait (WScan (i + k) (b + k)) (ready s) s).
Proof.
  revert s i b. induction k as [|k IH]; intros s i b W Hi HB; cbn [replicate run].
  { rewrite !Nat.add_0_r, <- W. by destruct s. }
  rewrite waiting_step by (unfold waiting; by rewrite W). cbn [do]. rewrite W.
  destruct (lanes s !! i) as [l|] eqn:E; [|apply lookup_ge_None in E; lia]. rewrite (HB i l E). cbn [mbind option_bind].
  rewrite (IH _ (S i) (S b)); [|done|cbn; lia|exact HB].
  replace (S i + k)%nat with (i + S k)%nat by lia. replace (S b + k)%nat with (b + S k)%nat by lia. done.
Qed.

Lemma scan_ends s b :
  wait s = WScan (length (lanes s)) b →
  run [WaitRead] s = Some (if (b =? length (lanes s))%nat then set_wait (WEnded false) true s else set_wait WTick (ready s) s).
Proof.
  intros W. cbn [run]. rewrite waiting_step by (unfold waiting; by rewrite W). cbn [do]. rewrite W.
  rewrite (proj2 (lookup_ge_None (lanes s) (length (lanes s)))) by done. by destruct (b =? _)%nat.
Qed.

Lemma tick_ready s :
  wait s = WTick → (∀ j l, lanes s !! j = Some l → Bound l = true) →
  run (WaitTick :: replicate (length (lanes s)) WaitRead ++ [WaitRead]) s = Some (set_wait (WEnded false) true s).
Proof.
  intros W HB. cbn [run]. rewrite waiting_step by (unfold waiting; by rewrite W). cbn [do]. rewrite W. cbn [mbind option_bind].
  erewrite run_app by (apply scan_bound; [done|done|exact HB]).
  rewrite (scan_ends _ (length (lanes s))) by done. cbn. by rewrite Nat.eqb_refl.
Qed.

(** C16: Readiness is reached: from any state of a bridge that was not told to
    stop, once every lane serves, [waitLanesBound] reports the bridge ready
    within two scans of the lanes, by its own steps alone, whatever it had
    counted before. *)
Theorem readiness_reached {L Cert : Type} (p : startup.plan L Cert) (s : group) :
  steps (group_of p) s → cancelled s = false →
  (∀ i l, lanes s !! i = Some l → Bound l = true) →
  ∃ evs s', run evs s = Some s' ∧ ready s' = true ∧ lanes s' = lanes s ∧
    Forall (λ ev, ev = WaitRead ∨ ev = WaitTick) evs ∧ (length evs ≤ 2 * length (lanes s) + 3)%nat.
Proof.
  intros H C HB. pose proof (v_scan s (reach_inv p s H)) as VS. rewrite C in VS.
  assert (Hr : ∀ n, Forall (λ ev, ev = WaitRead ∨ ev = WaitTick) (replicate n WaitRead))
    by (intros n; apply Forall_replicate; by left).
  assert (Ht : Forall (λ ev, ev = WaitRead ∨ ev = WaitTick) (WaitTick :: replicate (length (lanes s)) WaitRead ++ [WaitRead]))
    by (constructor; [by right|]; apply Forall_app; split; [apply Hr|repeat constructor]).
  assert (Hl : ∀ n, length (replicate n WaitRead) = n) by (intros; apply length_replicate).
  destruct (wait s) as [i b| |] eqn:W.
  - destruct VS as [Hb _]. pose proof (scan_bound (length (lanes s) - i) s i b W ltac:(lia) HB) as H1.
    replace (i + (length (lanes s) - i))%nat with (length (lanes s)) in H1 by lia.
    set (b' := (b + _)%nat) in *. set (s1 := set_wait _ _ _) in *.
    pose proof (scan_ends s1 b' eq_refl) as H2. cbn in H2. destruct (b' =? length (lanes s))%nat.
    + exists (replicate (length (lanes s) - i) WaitRead ++ [WaitRead]), (set_wait (WEnded false) true s1).
      split_and!; [by rewrite (run_app _ _ _ _ H1)|done|done|apply Forall_app; split; [apply Hr|repeat constructor; by left]|].
      rewrite length_app, Hl. cbn. lia.
    + exists ((replicate (length (lanes s) - i) WaitRead ++ [WaitRead])
              ++ WaitTick :: replicate (length (lanes s)) WaitRead ++ [WaitRead]), (set_wait (WEnded false) true s).
      split_and!; [|done|done|apply Forall_app; split; [apply Forall_app; split; [apply Hr|repeat constructor; by left]|exact Ht]|].
      * assert (H3 : run (replicate (length (lanes s) - i) WaitRead ++ [WaitRead]) s = Some (set_wait WTick (ready s1) s1))
          by (by rewrite (run_app _ _ _ _ H1)).
        rewrite (run_app _ _ _ _ H3). exact (tick_ready (set_wait WTick (ready s1) s1) eq_refl HB).
      * rewrite !length_app. cbn. rewrite !length_app, !Hl. cbn. lia.
  - exists (WaitTick :: replicate (length (lanes s)) WaitRead ++ [WaitRead]), (set_wait (WEnded false) true s).
    split_and!; [by apply tick_ready|done|done|exact Ht|]. cbn. rewrite length_app, Hl. cbn. lia.
  - exists [], s. cbn. destruct VS as [VS|]; [|done]. split_and!; [done..|lia].
Qed.

(** ** Exit *)

Lemma set_http_lanes m h s : lanes (set_http m h s) = lanes s.
Proof. by destruct m. Qed.

Lemma do_length ev s s' : do ev s = Some s' → length (lanes s') = length (lanes s).
Proof.
  intros H. destruct ev; cbn in H; unfold on_lane, on_http in H;
    repeat match type of H with
    | (?g ≫= _) = _ => destruct g eqn:?; [|done]; cbn in H
    | match ?x with _ => _ end = _ => destruct x eqn:?; try done
    end; simplify_eq/=; rewrite ?collect_lanes, ?set_http_lanes; cbn; rewrite ?length_insert; done.
Qed.
Lemma steps_length s s' : steps s s' → length (lanes s') = length (lanes s).
Proof. induction 1 as [|x y z (ev & H%step_do) _ IH]; [done|]. rewrite IH. by eapply do_length. Qed.

Lemma failed_err s : serving_inv s → failed s → err s ≠ None.
Proof.
  intros V [(i & l & e & Hl & Hp)|(m & h & e & Hh & Hp)].
  - destruct (v_lanes s V i l Hl) as [_ Hk]. rewrite Hp in Hk. by destruct Hk.
  - destruct (v_http s V m h Hh) as [_ Hk]. rewrite Hp in Hk. by destruct Hk.
Qed.

Lemma exit_collected s c :
  exit_code s = Some c →
  c = (match err s with Some _ => 1 | None => 0 end) ∧
  ∀ i l, lanes s !! i = Some l → ∃ e, lphase_of l = LEnded (Collected e).
Proof.
  unfold exit_code. destruct (_ && _) eqn:E; [|done]. intros [= <-]. split; [done|].
  apply andb_true_iff in E as [[[EL _]%andb_true_iff _]%andb_true_iff _]. intros i l Hl.
  apply list_elem_of_lookup_2, list_elem_of_In in Hl. rewrite forallb_forall in EL. specialize (EL l Hl).
  unfold lane_collected in EL. destruct (lphase_of l) as [| | |[]]; naive_solver.
Qed.

(** C39: The status the process ends with tells whether it failed: it is 1
    exactly when a lane or a server returned an error, and 0 only after the
    process was told to stop and every lane has drained, with no connection
    left open. *)
Theorem exit_status {L Cert : Type} (p : startup.plan L Cert) (s : group) (c : Z) :
  startup.p_lanes p ≠ [] → steps (group_of p) s → exit_code s = Some c →
  (c = 1 ↔ failed s) ∧ (c = 0 ↔ ¬ failed s) ∧
  (c = 0 → signalled s = true ∧
     ∀ i l, lanes s !! i = Some l → lphase_of l = LEnded (Collected None) ∧ conns l = 0%nat).
Proof.
  intros Hne H [Hc HL]%exit_collected. pose proof (reach_inv p s H) as V.
  assert (HF : failed s ↔ err s ≠ None) by (split; [by apply failed_err|by apply (reach_failed p)]).
  split_and!; [rewrite HF; destruct (err s); naive_solver|rewrite HF; destruct (err s); naive_solver|].
  intros ->. assert (He : err s = None) by (by destruct (err s)).
  assert (HQ : ∀ i l, lanes s !! i = Some l → lphase_of l = LEnded (Collected None) ∧ conns l = 0%nat ∧ cancelled s = true).
  { intros i l Hl. destruct (HL i l Hl) as [[e|] Hp]; destruct (v_lanes s V i l Hl) as [_ Hk]; rewrite Hp in Hk; naive_solver. }
  split; [|intros i l Hl; naive_solver].
  destruct (lanes s) as [|l ls] eqn:E.
  - apply steps_length in H. rewrite E in H. cbn in H. rewrite length_fmap in H. by destruct (startup.p_lanes p).
  - destruct (HQ 0%nat l) as (_ & _ & C); [done|]. destruct (v_cancel s V C); naive_solver.
Qed.

(** ** Two things shutdown does not do *)

(** The group of the example configuration: three lanes, the retrieval plane,
    the pipe, the reverse path. *)
Definition sx_group : group :=
  match sx_start with startup.Started p => group_of p | startup.Exit _ => mkGroup [] None None [] WTick false false false None end.

Definition per_lane (f : nat → list event) : list event := f 0%nat ++ f 1%nat ++ f 2%nat.
(** Start to readiness, and from the signal to the exit. *)
Definition sx_up : list event :=
  per_lane (λ i, [LaneListen i None]) ++ [HttpListen false None; HttpListen true None] ++ replicate 4 WaitRead.
Definition lane_stops (i : nat) : list event :=
  [LaneClose i; LaneAccept i (AFail (EMsg "closed")); LaneWaited i; LaneCollect i].
Definition rest_stops : list event :=
  [HttpShutdown false; HttpShutdown true; HttpReturn false (EMsg "closed"); HttpReturn true (EMsg "closed");
   HttpCollect false; HttpCollect true] ++ (OtherReturn <$> seq 0 5) ++ (OtherCollect <$> seq 0 5).
Definition sx_down : list event := Signal :: per_lane lane_stops ++ rest_stops ++ [WaitCollect].
Definition sx_serving : group := default sx_group (run sx_up sx_group).

Lemma sx_requests n k :
  run (replicate n (HttpRequest false)) (set_http false (mkHttp HServing false k) sx_serving)
  = Some (set_http false (mkHttp HServing false (n + k)) sx_serving).
Proof.
  revert k. induction n as [|n IH]; intros k; [done|]. cbn [replicate run].
  change (step (HttpRequest false) _) with (Some (set_http false (mkHttp HServing false (S k)) sx_serving)).
  cbn [mbind option_bind]. rewrite IH. by rewrite Nat.add_succ_r.
Qed.

(** The grace [Serve] gives requests being answered is not waited for:
    after a signal the retrieval plane calls [Shutdown] with five seconds to
    let pulls finish, but [srv.Serve] returns as soon as [Shutdown] is called
    and nothing waits for [Shutdown] itself, so the process can end with
    status 0 with any number of pulls still being answered. *)
Theorem shutdown_cuts_pulls (n : nat) :
  ∃ s h, steps sx_group s ∧ exit_code s = Some 0 ∧ ret s = Some h ∧ shut h = true ∧ inflight h = n.
Proof.
  assert (H1 : run sx_up sx_group = Some (set_http false (mkHttp HServing false 0) sx_serving)) by (vm_compute; reflexivity).
  pose proof (sx_requests n 0) as H2. rewrite Nat.add_0_r in H2.
  destruct (run sx_down (set_http false (mkHttp HServing false n) sx_serving)) as [s|] eqn:H3; [|vm_compute in H3; discriminate H3].
  exists s, (mkHttp (HEnded (Collected None)) true n). split.
  - apply (run_steps (sx_up ++ replicate n (HttpRequest false) ++ sx_down)).
    by rewrite (run_app _ _ _ _ H1), (run_app _ _ _ _ H2).
  - clear H1 H2. vm_compute in H3. injection H3 as <-. split_and!; reflexivity.
Qed.

(** [Bound] is true of a lane whose listener is closed, for as long as the lane
    drains, and the bridge goes on reporting ready. *)
Theorem bound_while_draining :
  ∃ s, steps sx_group s ∧ ready s = true ∧
    ∀ i l, lanes s !! i = Some l → Bound l = true ∧ listening l = false ∧ conns l = 1%nat.
Proof.
  destruct (run (sx_up ++ per_lane (λ i, [LaneAccept i AConn]) ++ Signal :: per_lane (λ i, [LaneClose i; LaneAccept i (AFail (EMsg "closed"))])) sx_group)
    as [s|] eqn:E; [|vm_compute in E; discriminate E].
  exists s. split; [by eapply run_steps|]. vm_compute in E. injection E as <-. split; [reflexivity|].
  intros [|[|[|i]]] l Hl; vm_compute in Hl; try discriminate Hl; injection Hl as <-; split_and!; reflexivity.
Qed.

(** ** Witnesses *)

Definition sx_deps : health.deps :=
  health.mkDeps 0 false None None [] [] None (λ _, health.GetStatus 200).

Lemma sx_reached (evs : list event) p s :
  sx_start = startup.Started p → run evs sx_group = Some s → steps (group_of p) s.
Proof. unfold sx_group. intros ->. apply run_steps. Qed.


Lemma readiness_reached_witness :
  ∃ evs s', run evs (default sx_group (run (take 3 sx_up) sx_group)) = Some s' ∧ ready s' = true ∧ (length evs ≤ 9)%nat.
Proof.
  destruct sx_start as [code|p] eqn:E; [vm_compute in E; discriminate E|].
  destruct (readiness_reached p (default sx_group (run (take 3 sx_up) sx_group))) as (evs & s' & H1 & H2 & _ & _ & H3).
  - apply (sx_reached (take 3 sx_up)); [exact E|vm_compute; reflexivity].
  - vm_compute; reflexivity.
  - intros i l Hl. destruct i as [|[|[|i]]]; clear E; vm_compute in Hl; try discriminate Hl; injection Hl as <-; reflexivity.
  - exists evs, s'. split; [exact H1|]. split; [exact H2|]. exact H3.
Defined.

(** A lane that cannot listen brings the process down with status 1. *)
Definition sx_failing : list event :=
  [LaneListen 0 None; LaneListen 1 (Some (EMsg "address in use")); LaneListen 2 None; LaneCollect 1;
   HttpListen false None; HttpListen true None]
  ++ replicate 4 WaitRead ++ [WaitDone; WaitCollect] ++ lane_stops 0 ++ lane_stops 2 ++ rest_stops.

Lemma exit_status_witness :
  ∃ s, run sx_failing sx_group = Some s ∧ exit_code s = Some 1 ∧ failed s.
Proof.
  destruct sx_start as [code|p] eqn:E; [vm_compute in E; discriminate E|].
  destruct (run sx_failing sx_group) as [s|] eqn:H; [|vm_compute in H; discriminate H].
  assert (X : exit_code s = Some 1) by (clear E; vm_compute in H; injection H as <-; reflexivity).
  exists s. split; [reflexivity|]. split; [exact X|].
  apply (exit_status p s 1); [|eapply sx_reached; [exact E|exact H]|exact X|reflexivity].
  intros Hl. vm_compute in E. injection E as <-. discriminate Hl.
Defined.
