(* ===== verification/ObjectLanes.v ===== *)
(** * The subtree and block lanes with the reverse path

    The lanes of [Lanes.v] running the handlers [main]
    ([src/cmd/teranode-bridge/main.go]) gives the subtree and the block lane,
    and the reverse path of [Reverse.v] gated by [submitterReady] over what
    [Stats] reports of those lanes at the time of each notification. The lanes
    and the subscriber act on one shared state; a run is any interleaving of
    their events. The broker's answer to a record is a function of the time and
    the object, any function. *)

From Stdlib Require Import Strings.Byte.
From stdpp Require Import base list strings numbers gmap.
From S2P Require Import Prelude HashId Objfmt Cache Registry Handlers Slab Lanes Reverse.
Import bridge reverse lanes.

Module objlanes.
Definition with_plane (p : plane) (s : Subscriber) : Subscriber :=
  mkSub p (reverse.active s) (subtreesUp s) (blocksUp s) (remoteSkipped s) (skipped s) (failures s)
    (gated s) (standbyHeld s) (foreignSkipped s) (reconnects s) (up s).

Section handlers.
Context {O : Objfmt} (broker : Z → list byte → producer) (baseURL : gostring).

(** The [Handle] of the subtree and of the block lane. *)
Definition class_Handle (is_block : bool) (now : Z) (obj : list byte) (s : Subscriber) : res unit * Subscriber :=
  let '(r, p) := (if is_block then handleBlock else handleSubtree) now (broker now obj) baseURL obj (pl s) in
  (r, with_plane p s).

(** These lanes have no [NewSession]: [Handle] is the lane's and there is
    nothing to flush. *)
Definition classSession (is_block : bool) : Session Subscriber := {|
  NewSession _ s := s;
  Handle _ now obj s := Some (class_Handle is_block now obj s);
  Flush _ s := Some (Ok tt, s);
  others _ _ := True
|}.
End handlers.

(** The two lanes; each sees the one shared state. *)
Record process : Type := mkProc { subtrees : state Subscriber; blocks : state Subscriber }.

Definition with_shared (g : Subscriber) (l : state Subscriber) : state Subscriber :=
  mkState (counts l) (live l) (conns l) (heap l) (cancelled l) g (handed l).

(** The reverse path as [main] configures it: a tunnel that was not built is no
    publisher, published frames are kept in the object cache, and the gate is
    set. *)
Definition nilIfNil {T : Type} (u : option T) : bool := match u with None => false | Some _ => true end.
Definition reverse_config {T : Type} (upSubtree upBlock : option T) (mineTag : list byte) : reverse.Config :=
  reverse.mkConfig (nilIfNil upSubtree) (nilIfNil upBlock) true true mineTag.

(** The arguments of [submitterReady]. *)
Record gate : Type := mkGate { started : Z; grace : Z; allowBlind : bool }.

Inductive pevent : Type :=
| OnLane (is_block : bool) (ev : event)                   (** an event of a class lane *)
| OnNotification (txActive : Z) (e : renv) (n : Notification) (** a notification; the connections of the tx lane *)
| OnRole (v : bool).                                      (** the promoter changes the role *)

Section process.
Context {O : Objfmt} (broker : Z → list byte → producer) (baseURL : gostring).
Variables (cs cb : lanes.Config) (rc : reverse.Config) (gt : gate).

Definition view (c : lanes.Config) (l : state Subscriber) : lane_view :=
  let st := Stats c (counts l) (live l) in mkLaneView (st_Name st) true (st_Active st).
Definition ready_now (now txActive : Z) (s : process) : bool :=
  submitterReady [mkLaneView (str "tx") true txActive; view cs (subtrees s); view cb (blocks s)]
    (started gt) now (grace gt) (allowBlind gt).

Definition notified (txActive : Z) (e : renv) (n : Notification) (s : process) : res unit * Subscriber :=
  handle rc (mkRenv (r_now e) (ready_now (r_now e) txActive s) (r_build_subtree e) (r_build_block e) (r_send e))
    n (shared (subtrees s)).

Definition set_shared (g : Subscriber) (s : process) : process :=
  mkProc (with_shared g (subtrees s)) (with_shared g (blocks s)).

Definition pstep (ev : pevent) (s : process) : option process :=
  match ev with
  | OnLane false ev =>
      l ← lane_step (H := classSession broker baseURL false) cs ev (subtrees s);
      Some (mkProc l (with_shared (shared l) (blocks s)))
  | OnLane true ev =>
      l ← lane_step (H := classSession broker baseURL true) cb ev (blocks s);
      Some (mkProc (with_shared (shared l) (subtrees s)) l)
  | OnNotification txActive e n =>
      match notified txActive e n s with
      | (Ok _, g) => Some (set_shared g s)
      | _ => None
      end
  | OnRole v => Some (set_shared (SetActive v (shared (subtrees s))) s)
  end.

Fixpoint prun (evs : list pevent) (s : process) : option process :=
  match evs with [] => Some s | ev :: evs => s ← pstep ev s; prun evs s end.
End process.

Definition process0 (s : Subscriber) : process := mkProc (lane0 s) (lane0 s).
End objlanes.

Import objlanes.

Section evidence.
Context {O : Objfmt} (broker : Z → list byte → producer) (baseURL : gostring).
Context {T : Type} (upSubtree upBlock : option T) (mineTag : list byte).
Variables (cs cb : lanes.Config) (gt : gate).
#[local] Abbreviation rc := (reverse_config upSubtree upBlock mineTag).
#[local] Abbreviation run := (prun broker baseURL cs cb rc gt).

(** Each lane's part of a run is a run of the lane. *)
Definition lane_run (is_block : bool) (c : lanes.Config) (l l' : state Subscriber) : Prop :=
  rtc (lstep (H := classSession broker baseURL is_block) c) l l'.

Lemma with_shared_run b c g l : lane_run b c l (with_shared g l).
Proof. apply rtc_once. exact (step_others (H := classSession broker baseURL b) c l g I). Qed.

Lemma pstep_lanes ev s s' :
  pstep broker baseURL cs cb rc gt ev s = Some s' →
  lane_run false cs (subtrees s) (subtrees s') ∧ lane_run true cb (blocks s) (blocks s').
Proof.
  destruct ev as [[] ev|tx e n|v]; cbn [pstep]; intros H.
  - destruct (lane_step cb ev (blocks s)) as [l|] eqn:E; [|done]. injection H as <-.
    split; [apply with_shared_run|]. by apply rtc_once, step_event with ev.
  - destruct (lane_step cs ev (subtrees s)) as [l|] eqn:E; [|done]. injection H as <-.
    split; [|apply with_shared_run]. by apply rtc_once, step_event with ev.
  - destruct (notified _ _ _ _ _ _ _ _) as [[] g]; [|done..]. injection H as <-. split; apply with_shared_run.
  - injection H as <-. split; apply with_shared_run.
Qed.

Lemma prun_lanes evs s s' :
  run evs s = Some s' → lane_run false cs (subtrees s) (subtrees s') ∧ lane_run true cb (blocks s) (blocks s').
Proof.
  revert s. induction evs as [|ev evs IH]; intros s H; cbn [prun] in H.
  { injection H as <-. split; apply rtc_refl. }
  destruct (pstep _ _ _ _ _ _ ev s) as [s1|] eqn:E; [|done]. cbn [mbind option_bind] in H.
  destruct (pstep_lanes ev s s1 E), (IH s1 H). unfold lane_run in *. split; by etrans.
Qed.

(** What [Stats] calls active of a lane are its open connections. *)
Lemma view_active b c g l :
  lane_run b c (lane0 g) l → Z.of_nat (size (conns l)) < two63 →
  l_active (view c l) = Z.of_nat (size (conns l)).
Proof.
  intros H Hlt. cbn. rewrite (li_active _ _ (reachable_inv (H := classSession broker baseURL b) c g l H)).
  apply i64_small. unfold two63 in *. lia.
Qed.

Lemma submitterReady_spec ls t0 now g blind :
  submitterReady ls t0 now g blind = true ↔
  g ≤ time_sub now t0 ∧
  (blind = false → ∀ l, l ∈ ls → l_name l = str "subtree" ∨ l_name l = str "block" → l_active l ≠ 0).
Proof.
  unfold submitterReady. destruct (Z.ltb_spec (time_sub now t0) g) as [Hg|Hg]; [split; [done|lia]|].
  destruct blind; [done|]. rewrite forallb_forall. split.
  - intros H. split; [done|]. intros _ l Hl Hn. apply list_elem_of_In, H in Hl.
    intros E. rewrite E, andb_true_r, negb_true_iff, orb_false_iff, !bool_decide_eq_false in Hl. naive_solver.
  - intros [_ H] l Hl. specialize (H eq_refl l (proj2 (list_elem_of_In _ _) Hl)).
    destruct (bool_decide_reflect (l_name l = str "subtree")), (bool_decide_reflect (l_name l = str "block"));
      cbn; try done; apply negb_true_iff, Z.eqb_neq, H; auto.
Qed.
(** Both lanes see one state. *)
Lemma prun_shared evs s s' :
  run evs s = Some s' → shared (subtrees s) = shared (blocks s) → shared (subtrees s') = shared (blocks s').
Proof.
  revert s. induction evs as [|ev evs IH]; intros s H Hs; cbn [prun] in H; [by injection H as <-|].
  destruct (pstep _ _ _ _ _ _ ev s) as [s1|] eqn:E; [|done]. cbn [mbind option_bind] in H. apply (IH s1 H).
  destruct ev as [[] ev|tx e n|v]; cbn [pstep] in E.
  - destruct (lane_step cb ev (blocks s)); [|done]. by injection E as <-.
  - destruct (lane_step cs ev (subtrees s)); [|done]. by injection E as <-.
  - destruct (notified _ _ _ _ _ _ _ _) as [[] g]; [|done..]. by injection E as <-.
  - by injection E as <-.
Qed.

Lemma open_connection (l : state Subscriber) : size (conns l) ≠ 0%nat ↔ ∃ c, is_Some (conns l !! c).
Proof. exact (map_size_ne_0_lookup (conns l)). Qed.

Lemma publish_not_gated (e : renv) ib h g : r_ready e = true → gated (snd (publish rc e ib h g)) = gated g.
Proof.
  intros Hr. unfold publish. rewrite Hr, andb_false_r.
  repeat match goal with |- context [if ?b then _ else _] => destruct b end; cbn; try lia;
    repeat match goal with |- context [match ?x with _ => _ end] => destruct x end; cbn; lia.
Qed.

Hypothesis (Hcs : Name cs = str "subtree") (Hcb : Name cb = str "block") (Hblind : allowBlind gt = false).

Lemma ready_now_spec evs sub s now txActive :
  run evs (process0 sub) = Some s →
  Z.of_nat (size (conns (subtrees s))) < two63 → Z.of_nat (size (conns (blocks s))) < two63 →
  ready_now cs cb gt now txActive s = true ↔
  grace gt ≤ time_sub now (started gt) ∧
  (∃ c, is_Some (conns (subtrees s) !! c)) ∧ (∃ c, is_Some (conns (blocks s) !! c)).
Proof.
  intros H H1 H2. destruct (prun_lanes evs _ _ H) as [R1 R2]. unfold ready_now. rewrite submitterReady_spec, Hblind.
  rewrite <- !open_connection. pose proof (view_active false cs sub _ R1 H1) as V1.
  pose proof (view_active true cb sub _ R2 H2) as V2.
  assert (N1 : l_name (view cs (subtrees s)) = str "subtree") by exact Hcs.
  assert (N2 : l_name (view cb (blocks s)) = str "block") by exact Hcb.
  split; intros [Hg HL]; (split; [done|]).
  - split.
    + specialize (HL eq_refl (view cs (subtrees s))). rewrite V1 in HL. intros E. apply HL; [set_solver|by left|by rewrite E].
    + specialize (HL eq_refl (view cb (blocks s))). rewrite V2 in HL. intros E. apply HL; [set_solver|by right|by rewrite E].
  - destruct HL as [L1 L2]. intros _ l. rewrite !elem_of_cons, elem_of_nil.
    intros [->|[->|[->|[]]]] Hn; [by destruct Hn|rewrite V1; lia|rewrite V2; lia].
Qed.

End evidence.

(** ** Witnesses *)

Definition ol_cfg (n : string) : lanes.Config := lanes.mkCfg (str n) 1000 false 0.
Definition ol_rc : reverse.Config := reverse_config (Some tt) (Some tt) (str "/t1/").
Definition ol_gate : gate := mkGate 0 3 false.
Definition ol_run (evs : list pevent) : option process :=
  prun (λ _ _, Announces None) (str "u") (ol_cfg "subtree") (ol_cfg "block") ol_rc ol_gate evs (process0 rx_sub).
(** The subtree lane is connected, then the block lane; another cluster's
    subtree is delivered. *)
Definition ol_events : list pevent :=
  [OnLane false (EAccept 0); OnLane true (EAccept 0); OnLane false (EObject 0 4 0 (replicate 73 x02))].
Definition ol_notified (k : nat) : option (list (gostring * list byte * bool) * Z) :=
  s ← ol_run (take k ol_events);
  let out := notified (ol_cfg "subtree") (ol_cfg "block") ol_rc ol_gate 9 (rx_env true) rx_note s in
  Some (up (snd out), gated (snd out)).

(** With the block lane still unconnected the notification is held back,
    whatever the transaction lane has; with both it goes through. *)
Example ol_gating :
  ol_notified 1 = Some ([], 1) ∧ ol_notified 3 = Some ([(str "subtree", rx_frame, true)], 0).
Proof. split; vm_compute; reflexivity. Qed.

