(* ===== verification/TnFeed.v ===== *)
(** * tnbench: the commands

    [main] of [src/hack/tnbench/main.go]: the mock's routes, and the feed
    command, which opens a number of connections and has each write its stream
    of transactions ([TnBench.v]) in rounds of 4096. What ends a connection (a
    dial, a write or a flush that fails, or the time being over) is its
    [conn_run]. *)

From Stdlib Require Import Strings.Byte.
From stdpp Require Import base list strings numbers.
From S2P Require Import Prelude HashId Objfmt TxWire TxBuild Submit TnBench.
Import tnbench.

Module tncommand.
(** The mock's mux, for a clean path. *)
Definition mock_serve `{Objfmt} (faithful : bool) (path : gostring) (body : list byte) (m : mock)
    : option (mock * res submission.response) :=
  if bool_decide (path = str "/txs") || bool_decide (path = str "/tx") then
    if faithful then strict body m
    else let '(m, r) := blind body m in Some (m, Ok r)
  else if bool_decide (path = str "/health") then Some (m, Ok (submission.RStatus 200 []))
  else Some (m, Ok (http_Error (str "404 page not found") 404)).

(** A connection of the feed: whether the dial succeeded, the rounds it
    completed, and the frames it wrote in the round a write error ended. *)
Record conn_run : Type := mkConnRun { dialled : bool; rounds : nat; partial : nat }.
Definition round_frames : nat := Pos.to_nat 4096.

Definition frames_of (r : conn_run) : nat := if dialled r then rounds r * round_frames + partial r else 0.
(** What connection [c] writes; its id is [byte(c)]. *)
Definition conn_feed (chain : bool) (c : nat) (r : conn_run) : list (list byte) :=
  feed chain (byte_of (Z.of_nat c)) (frames_of r) feeder0.
(** [sent.Add(4096)] at the end of a round, before it is flushed. *)
Definition conn_sent (r : conn_run) : Z := if dialled r then Z.of_nat (rounds r) * 4096 else 0.

(** The command: everything written, by connection, and the total it prints. *)
Definition feed_all (chain : bool) (rs : list conn_run) : list (list (list byte)) := imap (conn_feed chain) rs.
Definition fed (rs : list conn_run) : Z := u64 (foldr (λ r n, conn_sent r + n) 0 rs).
End tncommand.

Import tncommand.

(** The script field of a frame. *)
Definition script_of (tx : list byte) : list byte := take 9 (drop 48 tx).

Lemma script_of_frame prev script : length script = 9%nat → script_of (frame prev script) = script.
Proof.
  intros Hs. unfold script_of. rewrite frame_shape by done. rewrite (app_assoc frame_pre), (app_assoc _ frame_mid).
  rewrite drop_app_length' by (rewrite !length_app, hash_length; done). by rewrite take_app_length'.
Qed.

Lemma script_of_stream chain cid n ctr last :
  script_of <$> stream chain cid n ctr last = (λ k, own_script k cid) <$> seqZ ctr (Z.of_nat n).
Proof.
  revert ctr last. induction n as [|n IH]; intros ctr last; [done|]. cbn [stream].
  rewrite fmap_cons, IH, script_of_frame by apply length_own_script.
  rewrite Nat2Z.inj_succ, (seqZ_cons ctr (Z.succ (Z.of_nat n))) by lia. by rewrite Z.pred_succ, Z.add_1_r.
Qed.

Lemma script_of_feed chain c r :
  Z.of_nat (frames_of r) < two64 →
  script_of <$> conn_feed chain c r = (λ k, own_script k (byte_of (Z.of_nat c))) <$> seqZ 1 (Z.of_nat (frames_of r)).
Proof.
  intros H. unfold conn_feed. rewrite (feed_stream chain _ _ feeder0 _ _ (feed_inv0 chain)) by (cbn; lia).
  apply script_of_stream.
Qed.

Lemma own_script_inj k k' cid cid' :
  0 ≤ k < two64 → 0 ≤ k' < two64 → own_script k cid = own_script k' cid' → k = k' ∧ cid = cid'.
Proof.
  intros Hk Hk' E. unfold own_script in E. apply app_inj_1 in E as [E [=]]; [|by rewrite !length_le_bytes].
  split; [|done]. apply (f_equal le_val) in E. rewrite !le_val_bytes in E.
  change (256 ^ Z.of_nat 8) with two64 in E. by rewrite !Z.mod_small in E.
Qed.

Lemma scripts_NoDup cid n : Z.of_nat n < two64 → NoDup ((λ k, own_script k cid) <$> seqZ 1 (Z.of_nat n)).
Proof.
  intros H. apply NoDup_fmap_2_strong; [|apply NoDup_seqZ].
  intros k k' Hk%elem_of_seqZ Hk'%elem_of_seqZ E. by apply own_script_inj in E as [? _]; [|lia..].
Qed.

Lemma conn_feed_member chain c r tx :
  Z.of_nat (frames_of r) < two64 → tx ∈ conn_feed chain c r →
  ∃ k, 0 ≤ k < two64 ∧ script_of tx = own_script k (byte_of (Z.of_nat c)).
Proof.
  intros H Htx. apply (list_elem_of_fmap_2 script_of) in Htx. rewrite script_of_feed in Htx by done.
  apply list_elem_of_fmap in Htx as (k & -> & Hk%elem_of_seqZ). exists k. split; [lia|done].
Qed.

Lemma feeds_NoDup chain rs c0 :
  Z.of_nat (c0 + length rs) ≤ 256 → Forall (λ r, Z.of_nat (frames_of r) < two64) rs →
  NoDup (concat (imap (λ i, conn_feed chain (c0 + i)) rs)).
Proof.
  revert c0. induction rs as [|r rs IH]; intros c0 Hl HF; [constructor|]. cbn [length] in Hl.
  apply list.Forall_cons in HF as [Hr HF]. rewrite imap_cons. cbn [concat]. rewrite Nat.add_0_r.
  assert (E : imap ((λ i, conn_feed chain (c0 + i)) ∘ S) rs = imap (λ i, conn_feed chain (S c0 + i)) rs).
  { apply imap_ext. intros i x _. unfold compose. by rewrite Nat.add_succ_r. }
  rewrite E. apply list.NoDup_app. split_and!.
  - apply (NoDup_fmap_1 script_of). rewrite script_of_feed by done. by apply scripts_NoDup.
  - intros tx Htx Hin. apply list_elem_of_In, in_concat in Hin as (l & Hl1 & Hl2).
    apply list_elem_of_In, list_elem_of_lookup in Hl1 as [i Hi]. rewrite list_lookup_imap in Hi.
    destruct (rs !! i) as [r'|] eqn:Er; [|done]. injection Hi as <-.
    pose proof (Forall_lookup_1 _ _ _ _ HF Er) as Hr'. apply list_elem_of_In in Hl2.
    apply lookup_lt_Some in Er.
    destruct (conn_feed_member _ _ _ _ Hr Htx) as (k & Hk & E1), (conn_feed_member _ _ _ _ Hr' Hl2) as (k' & Hk' & E2).
    rewrite E1 in E2. apply own_script_inj in E2 as [_ E2]; [|done..].
    apply (f_equal byte_val) in E2. rewrite !byte_val_of in E2. rewrite !Z.mod_small in E2 by lia. lia.
  - apply IH; [lia|done].
Qed.

(** The frames written and the total printed, by connection. *)
Lemma length_feed chain cid n f : length (feed chain cid n f) = n.
Proof. revert f. induction n as [|n IH]; intros f; [done|]. cbn. by rewrite IH. Qed.

Lemma frames_sum chain rs c0 :
  zlen (concat (imap (λ i, conn_feed chain (c0 + i)) rs)) = foldr (λ r n, Z.of_nat (frames_of r) + n) 0 rs.
Proof.
  revert c0. induction rs as [|r rs IH]; intros c0; [done|]. rewrite imap_cons. cbn [concat foldr]. rewrite length_app.
  rewrite (imap_ext _ (λ i, conn_feed chain (S c0 + i))) by (intros i x _; unfold compose; by rewrite Nat.add_succ_r).
  rewrite Nat2Z.inj_add, IH. unfold conn_feed. by rewrite length_feed.
Qed.

Lemma conn_sent_bounds r :
  0 ≤ conn_sent r ≤ Z.of_nat (frames_of r) ∧
  ((partial r < round_frames)%nat → Z.of_nat (frames_of r) - conn_sent r ≤ 4095).
Proof.
  unfold conn_sent, frames_of, round_frames. destruct (dialled r); [|lia].
  assert (Z.of_nat (Pos.to_nat 4096) = 4096) as E by (by rewrite positive_nat_Z). split; [|intros ?]; lia.
Qed.

Lemma sent_bounds rs :
  let sent := foldr (λ r n, conn_sent r + n) 0 rs in
  let total := foldr (λ r n, Z.of_nat (frames_of r) + n) 0 rs in
  0 ≤ sent ≤ total ∧ (Forall (λ r, (partial r < round_frames)%nat) rs → total - sent ≤ 4095 * zlen rs).
Proof.
  induction rs as [|r rs [IH1 IH2]]; cbn [foldr length]; [split; [done|cbn; lia]|].
  destruct (conn_sent_bounds r) as [H1 H2]. split; [lia|]. intros [Hr Hrs]%list.Forall_cons.
  specialize (H2 Hr). specialize (IH2 Hrs). lia.
Qed.

(** What the feed command offers: with at most 256 connections every frame of
    a run is different, also across connections; the total it prints misses
    only frames of rounds that a write error cut short. *)
Theorem feed_distinct (chain : bool) (rs : list conn_run) :
  zlen rs ≤ 256 → zlen (concat (feed_all chain rs)) < two64 →
  NoDup (concat (feed_all chain rs)) ∧
  fed rs ≤ zlen (concat (feed_all chain rs)) ∧
  (Forall (λ r, (partial r < round_frames)%nat) rs → zlen (concat (feed_all chain rs)) - fed rs ≤ 4095 * zlen rs).
Proof.
  intros Hc Ht. assert (HF : Forall (λ r, Z.of_nat (frames_of r) < two64) rs).
  { unfold feed_all in Ht. change (conn_feed chain) with (λ i, conn_feed chain (0 + i)) in Ht.
    rewrite frames_sum in Ht. clear Hc. induction rs as [|r rs IH]; [constructor|]. cbn [foldr] in Ht.
    destruct (sent_bounds rs) as [Hs _]. constructor; [lia|apply IH; lia]. }
  split; [by apply (feeds_NoDup chain rs 0)|]. destruct (sent_bounds rs) as [H1 H2].
  unfold feed_all in *. change (conn_feed chain) with (λ i, conn_feed chain (0 + i)) in *.
  rewrite frames_sum in *. unfold fed. rewrite u64_small by lia. split; [lia|exact H2].
Qed.

(** Beyond that connections share an id: the stream of connection [256 + c] is
    that of connection [c], frame for frame. *)
Theorem feed_repeats (chain : bool) (c : nat) (r : conn_run) :
  conn_feed chain (c + 256) r = conn_feed chain c r.
Proof.
  unfold conn_feed. f_equal. apply byte_val_inj. rewrite !byte_val_of.
  rewrite Nat2Z.inj_add. change (Z.of_nat 256) with (1 * 256). by rewrite Z_mod_plus_full.
Qed.

(** ** Witnesses *)

Definition tf_runs : list conn_run := [mkConnRun true 0 3; mkConnRun false 0 0; mkConnRun true 0 2].

Lemma feed_distinct_witness : NoDup (concat (feed_all true tf_runs)) ∧ fed tf_runs = 0.
Proof.
  destruct (feed_distinct true tf_runs) as [H _]; [vm_compute; discriminate|vm_compute; reflexivity|].
  split; [exact H|reflexivity].
Defined.

(** The routes of the mock. *)
Example tf_routes (m : mock) :
  mock_serve (H := ref_objfmt) false (str "/health") [x01] m = Some (m, Ok (submission.RStatus 200 [])) ∧
  mock_serve (H := ref_objfmt) false (str "/tx") [] m = Some (count_request 0 m, Ok (submission.RStatus 200 (str "OK"))).
Proof. split; reflexivity. Qed.
