(* ===== verification/Members.v ===== *)
(** * From the transaction lane to the cluster's pull

    What the transaction cache is for: a subtree the bridge announces names its
    transactions by id, and the cluster fetches their bodies from the retrieval
    plane. Here the transaction lane of [Lanes.v] fills the cache of
    [Generational.v], the subtree lane of [Handlers.v] the object cache, and
    the whole-subtree route of [Retrieval.v] answers from both. *)

From Stdlib Require Import Strings.Byte.
From stdpp Require Import base list strings numbers gmap.
From S2P Require Import Prelude HashId Objfmt Encode Cache Generational TxWire TxBuild Handlers Slab Lanes Retrieval EndToEnd.
Import bridge lanes tx_lane retrieval generational.

(** ** A key that is admitted is held *)

Lemma held_settled now k s : held k s = None → held k (settled now s) = None.
Proof.
  unfold settled, held. destruct (must_rotate now s); [|done]. cbn. destruct (cur s !! k) eqn:E; [done|].
  by rewrite lookup_empty.
Qed.

Lemma held_sapply k s o : gop_key o ≠ k → held k s = None → held k (sapply s o) = None.
Proof.
  destruct o as [now k' b|k']; cbn [gop_key sapply]; intros Hne Hs.
  - apply (held_settled now) in Hs. pose proof (shard_Admit_spec now k' b s) as (Ha & Ep & _). unfold held in *.
    rewrite Ep. assert (Ec : cur (snd (shard_Admit now k' b s)) !! k = cur (settled now s) !! k); [|by rewrite Ec].
    destruct (match cur (settled now s) !! k' with Some b0 => Some b0 | None => prev (settled now s) !! k' end);
      destruct Ha as (_ & _ & ->); try case_decide; rewrite ?lookup_insert_ne by done; done.
  - destruct (shard_Get_frame k' s) as (Ec & Ep & _). unfold held. by rewrite Ec, Ep.
Qed.

(** A key that was not held and is admitted in a run within the window is held
    at its end, with its content. *)
Lemma kept_run f k t0 now ops s :
  held k s = None → GAdmit now k (f k) ∈ ops →
  within t0 (t0 + Z.quot (ttl s) 2) ops → content_of f ops →
  - two63 < Z.quot (ttl s) 2 < two63 → offered ops < maxBytes s →
  held k (foldl sapply s ops) = Some (f k).
Proof.
  revert s. induction ops as [|o ops IH]; intros s Hs Hin Hw Hc Ht Hm; [by apply not_elem_of_nil in Hin|].
  cbn [foldl]. apply list.Forall_cons in Hw as [Hw1 Hw], Hc as [Hc1 Hc].
  destruct (sapply_frame s o) as [Em Et]. pose proof (offered_nonneg ops).
  assert (Hoff : offered ops < maxBytes (sapply s o)) by (rewrite Em; destruct o; cbn in Hm; lia).
  assert (Hgo : held k (sapply s o) = None → GAdmit now k (f k) ∈ ops →
                held k (foldl sapply (sapply s o) ops) = Some (f k)) by (intros; apply IH; rewrite ?Et; done).
  destruct o as [now' k' b|k'].
  - subst b. destruct (decide (k' = k)) as [->|Hne].
    + apply (safe_held _ _ t0 0). apply safe_run; rewrite ?Et; try done. left. cbn [sapply].
      pose proof (shard_Admit_spec now' k (f k) s) as (Ha & _). rewrite (held_settled now' k s Hs) in Ha.
      destruct Ha as (_ & _ & ->). apply lookup_insert_eq.
    + apply Hgo; [by apply held_sapply|]. apply elem_of_cons in Hin as [[=]|]; [congruence|done].
  - apply Hgo; [|by apply elem_of_cons in Hin as [[=]|]].
    destruct (shard_Get_frame k' s) as (Ec & Ep & _). cbn [sapply]. unfold held in *. by rewrite Ec, Ep.
Qed.

Section lane.
Context {O : Objfmt}.

(** The calls a sequence of deliveries makes on the cache. *)
Definition ops_of (l : list (Z * list byte)) : list gop :=
  l ≫= λ x, if IsEF (snd x) then match TxID (snd x) with Ok id => [GAdmit (fst x) id (snd x)] | _ => [] end else [].

Lemma admitted_grun l t : admitted l t = grun (ops_of l) t.
Proof.
  revert t. induction l as [|[now obj] l IH]; intros t; [done|]. unfold admitted, ops_of, grun in *.
  rewrite bind_cons, foldl_app. cbn [foldl fst snd]. rewrite IH. f_equal. unfold admitTx.
  destruct (IsEF obj); cbn [negb]; [|done]. destruct (TxID obj) as [id| |]; [|done..].
  cbn [foldl gapply]. by destruct (Admit now id obj t).
Qed.

Lemma elem_of_ops l now id obj :
  GAdmit now id obj ∈ ops_of l ↔ (now, obj) ∈ l ∧ IsEF obj = true ∧ TxID obj = Ok id.
Proof.
  unfold ops_of. rewrite list_elem_of_bind. split.
  - intros ([now' obj'] & Hy & Hl). cbn [fst snd] in Hy. destruct (IsEF obj') eqn:E; [|by apply not_elem_of_nil in Hy].
    destruct (TxID obj') eqn:E'; [|by apply not_elem_of_nil in Hy..].
    apply list_elem_of_singleton in Hy. by simplify_eq.
  - intros (Hl & He & Hi). exists (now, obj). split; [|done]. cbn [fst snd]. rewrite He, Hi. by left.
Qed.

(** The deliveries [l] fit the window of the cache: their clock readings lie
    within half the TTL, no shard is offered a generation's worth of bytes, and
    one txid comes with one body, [body id]. *)
Record in_window (ot : cache.Options) (lo : Z) (body : Hash → list byte) (l : list (Z * list byte)) : Prop := {
  iw_time : ∀ now obj, (now, obj) ∈ l → lo ≤ now < lo + Z.quot (cache_ttl ot) 2;
  iw_body : ∀ now obj id, (now, obj) ∈ l → IsEF obj = true → TxID obj = Ok id → obj = body id;
  iw_bytes : ∀ i, offered (on_shard i (ops_of l)) < gen_threshold ot
}.

Lemma on_shard_ops i l o : o ∈ on_shard i (ops_of l) → o ∈ ops_of l.
Proof. unfold on_shard. by intros [_ ?]%list_elem_of_filter. Qed.

Lemma ops_are_admits l o : o ∈ ops_of l → ∃ now id obj, o = GAdmit now id obj.
Proof.
  unfold ops_of. intros ([now obj] & Hy & _)%list_elem_of_bind. cbn in Hy.
  destruct (IsEF obj); [|by apply not_elem_of_nil in Hy]. destruct (TxID obj); [|by apply not_elem_of_nil in Hy..].
  apply list_elem_of_singleton in Hy. eauto.
Qed.

Lemma window_shard ot lo body l i :
  in_window ot lo body l →
  within lo (lo + Z.quot (cache_ttl ot) 2) (on_shard i (ops_of l)) ∧ content_of body (on_shard i (ops_of l)).
Proof.
  intros [HT HB _]. unfold within, content_of. rewrite !list.Forall_forall.
  split; intros o Ho%on_shard_ops; destruct (ops_are_admits _ _ Ho) as (now & id & obj & ->);
    apply elem_of_ops in Ho as (Hl & He & Hi); eauto.
Qed.

(** What the lane admitted is held, and it is what was delivered. *)
Lemma delivered_held ot start lo body before l now obj id :
  cache_ttl ot < two63 → in_window ot lo body l →
  let g := grun before (NewGenerational start ot) in
  (now, obj) ∈ l → IsEF obj = true → TxID obj = Ok id → tx_held id g = None →
  tx_held id (admitted l g) = Some (body id).
Proof.
  intros Httl W g Hl He Hi Hn. rewrite admitted_grun.
  destruct (reachable_shard start ot before (shard_index id) (shard_index_lt id)) as (s & Hs & Em & Et). fold g in Hs.
  assert (Hh : ∀ g', tx_held id g' = gshard_at (shard_index id) g' ≫= held id) by (intros [ss|]; done).
  rewrite Hh in Hn |- *. rewrite grun_shard, Hs. rewrite Hs in Hn. cbn in Hn |- *.
  destruct (window_shard _ _ _ _ (shard_index id) W) as [Hw Hc].
  assert (0 < cache_ttl ot) by (unfold cache_ttl; bdestruct_guard; lia).
  apply (kept_run body id lo now); rewrite ?Et, ?Em; try done.
  - unfold on_shard. apply list_elem_of_filter. split; [done|]. apply elem_of_ops.
    rewrite <- (iw_body _ _ _ _ W now obj id) by done. done.
  - rewrite Z.quot_div_nonneg by lia. pose proof (Z.div_lt (cache_ttl ot) 2).
    pose proof (Z.div_pos (cache_ttl ot) 2). num_bounds. lia.
  - apply W.
Qed.

Context {OL : ObjfmtLaws O}.

Lemma served_members g (std : Hash → list byte) ids :
  (∀ n, n ∈ ids → served g n = Some (std n)) → mapM (served g) ids = Some (std <$> ids).
Proof. intros H. apply mapM_Some_2, list.Forall2_fmap_r, Forall_Forall2_diag, list.Forall_forall, H. Qed.

End lane.

(** ** Witnesses *)

Lemma offered_on_shard i ops : offered (on_shard i ops) ≤ offered ops.
Proof.
  unfold on_shard. induction ops as [|o ops IH]; [done|]. rewrite filter_cons. pose proof (offered_nonneg ops).
  case_decide; destruct o; cbn; lia.
Qed.

Definition mx_id : Hash := hashid.DoubleSHA256 hx_tx.
Definition mx_deliveries : list (Z * list byte) := [(1, hx_tx); (2, hx_tx); (3, replicate 20 x01)].

Lemma mx_window : in_window (O := ref_objfmt) gx_opts 1 (λ _, hx_tx) mx_deliveries.
Proof.
  split.
  - intros now obj H. change (Z.quot (cache_ttl gx_opts) 2) with 500.
    repeat (apply elem_of_cons in H as [[= -> ->]|H]; [lia|]). by apply not_elem_of_nil in H.
  - intros now obj id H He _.
    repeat (apply elem_of_cons in H as [[= -> ->]|H]; [done || discriminate He|]). by apply not_elem_of_nil in H.
  - intros i. eapply Z.le_lt_trans; [apply offered_on_shard|]. vm_compute. reflexivity.
Qed.

